(* ===== verification/_CoqProject ===== *)
-Q . S2P
Prelude.v
Time.v
Stream.v
Lru.v
Frame.v
Opt.v
Url.v
Connector.v
Lifecycle.v
Negotiate.v
Keepalive.v
Pool.v
Ledger.v
Trojan.v
Udp.v
UdpClient.v
Relay.v
Plain.v
Http.v
Front.v
SessionLoop.v
Server.v
Conversation.v
Output.v
Totp.v
Tls.v
Snowy.v
Tunnel.v
Handshake.v
Camouflage.v
Proxy.v
Fp.v
Program.v
ProtocolTests.v
ClientTests.v
