(* ===== verification/Prelude.v ===== *)
(** * noisy-shuttle: a verification development

    noisy-shuttle is a proxy in two crates.  [tunnel] disguises a Noise-encrypted stream as a TLS
    session; [shuttle] runs a SOCKS5/HTTP proxy client and its server over such tunnels, with one
    trojan-like request per tunnel or, optionally, many requests one after the other over a pooled
    session with frames of its own.  Paths below are relative to the repository's [src/].

    ** The parts and the files that model them

    Foundations.
    - [Prelude] (this file): results with panics and never-ending calls ([res]), stateful fallible
      code ([prog], the state survives errors as a [&mut] does), machine integers by range and
      wrap-around, big-endian bytes, slices with their bounds checks, tactics and hint databases.
    - [Time]: [Duration] and [Instant] in nanoseconds, and the unit a duration is shown in (utils.rs).
    - [Stream]: the interface [AsyncIO] (exact reads, whole writes) with the laws Tokio documents,
      and [duplex], a concrete stream.  Components are written against the interface.  Also here:
      what [copy_bidirectional] has done when both sides have ended ([copier], [copies]).
    - [Lru]: the interface of the [lru] crate's map with its laws, and a list that implements it.

    Session protocol (shuttle/src/session/).
    - [Frame] (frame.rs): the frames, [encode], [decode], [read_frame], [write_frame].
    - [Lifecycle] (lifecycle.rs): states, transition table, close reasons, events and their logs.
    - [Negotiate] (negotiate.rs): capabilities, the two ends of the hello, the fallback tracker.
    - [Keepalive] (keepalive.rs): one ping, and the task that repeats it.

    Client (shuttle/src/client/).
    - [Front] (plain.rs): [handle_connection], the SOCKS5 conversation, and both front ends with the
      relays they hand over to.
    - [Http] (plain.rs): the HTTP conversation, CONNECT and absolute-form requests; the parser
      ([httparse]) is an argument.  [Url] (utils.rs): the two functions on URLs it calls.
    - [Plain] (plain.rs): a proxied TCP connection over a pooled session or over a tunnel of its
      own, and the fallback between them.
    - [UdpClient] (plain.rs): [relay_udp_with], the UDP association of a SOCKS5 client.
    - [Pool] (pool.rs): each method, with its critical sections as atomic definitions, and the
      relation [step] that interleaves any number of callers and [close_all] calls.
      [Ledger] is its abstract specification, a ledger of sessions that are idle or lent, with the
      refinement.
    - [Connector] (connector.rs, mod.rs): connections opened in advance, with the averages ([f32])
      that steer how many, and the choice of a connector.

    Server (shuttle/src/server.rs, shuttle/src/server/session_loop.rs).
    - [Relay]: [relay_framed_tcp], a [select!] loop as a function of the sequence of completed
      branches, each with the bytes a cancelled [read_frame] loses.
    - [SessionLoop]: handshake, limits, requests, drain and the ways a session ends.
    - [Udp]: [relay_udp] with its cache of resolved names.
    - [Server]: the dispatch of an accepted tunnel, and the theorems on client and server together.
    - [Conversation]: a whole reusable session as a sequence of requests and other frames, and a
      pooled request from the client's end to the server's end.
    - [Output]: what a server may write on a session.
    - [Camouflage]: [handle_connection] as a whole, with the fallback to the camouflage site.
    - [Proxy]: client and server composed, a SOCKS5 CONNECT up to the target's answer and back.

    Shared (shuttle/src/).
    - [Opt] (opt.rs): the reuse configuration and its validation, [parse_preflight_bounds] and the
      array parsers.
    - [Program] (main.rs, opt.rs, client/mod.rs, and the listeners of plain.rs and server.rs): from
      the options to the tasks that are spawned.
    - [Trojan] (trojan.rs): request headers and UDP datagrams; SOCKS5 addresses are an interface.

    Tunnel (tunnel/src/).
    - [Totp] (totp.rs, the keyed hash of utils.rs): time signatures; BLAKE2s is a parameter.
    - [Tls] (read_tls_message of utils.rs, the copier of server.rs): TLS records.
    - [Snowy] (common.rs): [SnowyStream]'s poll functions on an explicit state, over a socket that
      is a script of poll results; Noise and the record parser are parameters.
    - [Tunnel]: [SnowyStream] under the exact reads and whole writes of its callers implements the
      interface of [Stream], against which everything above is verified.
    - [Handshake] (server.rs, client.rs): [Server::accept] with authentication, replay filter and
      camouflage, [Client::connect] with the TLS 1.2 continuation; snow, rustls and the LRU map are
      interfaces with their documented laws.
    - [Fp] (fp.rs): how a ClientHello takes the shape of a fingerprint; the message is a record of
      the fields the code touches, its encoding and the source of GREASE are arguments.

    Tests.  [ProtocolTests] and [ClientTests] are the repository's own unit tests of the session
    protocol, the session loop, the options and the pool, computed on the model.

    ** What the theorems show

    - Round trips and canonical forms: frames, frame sequences, request headers, datagrams, the
      address from the client's request to the server's connection, the plaintext through a tunnel.
    - End to end: a SOCKS5 CONNECT from the client's socket, whose bytes behind the SOCKS5 messages
      are the payload, to the target and back to the socket ([Proxy.connect_reaches_target]); a
      pooled request, whichever side ends first ([Conversation.pooled_request_end_to_end]); a UDP
      association up to the server's end of the tunnel, with trace events off and answers that fit a
      packet; an HTTP request to the request and head the server reads.
    - Whole sessions: the loop serves any conversation request by request, exactly what the client
      sends going to each target ([Conversation.session_serves_conversation]), and writes nothing
      but whole frames of a server's kinds, whatever it is sent ([Output.session_output_framed]).
    - Refinement: the pool's critical sections implement the ledger ([Ledger.pool_refines_ledger]);
      [read_frame] implements [decode]; the encrypted stream implements the interface of byte streams
      (the instances of [Tunnel]), so that all that is proved of streams holds over tunnels, as
      [Tunnel.frames_over_tunnel] shows for frames.
    - Exact relaying: server relay and client relay at every point of every interleaving, with the
      bytes of a frame read that [select!] cuts off counted as lost ([Relay.relay_complete],
      [Plain.client_relay_complete]); both UDP relays; the TLS handshake copier on every input,
      also one that ends inside a record; [poll_read] and [poll_write] whatever the socket's chunks.
    - Camouflage: probes get no answer, a nonce serves once, and whole TLS records that do not lead
      to a tunnel are served like a plain forwarder to the camouflage site would; a first header
      that is no TLS record's loses its five bytes ([Camouflage.probe_sees_camouflage]);
      the ClientHello has exactly the shape of the fingerprint ([Fp.hello_follows_fingerprint]).
    - Establishment: matching ends agree on capabilities, and on a tunnel with matching cipher
      states at the right position of both streams.  Below TLS 1.3 the records of the camouflage
      server are those the TLS connection of this very hello completes with.
    - Invariants and safety: the pool's accounting and drain, the session loop's limits and last
      words, the keep-alive task, the time window, the accounting of pooled attempts, the bounds of
      the preflight queue.
    - Termination: [get] of the preflighter; elsewhere totality is part of the functional theorems.
    - Errors: the outcome of each operation on every branch, panics included; which options start a
      client ([Program.client_starts]).
    - Defects, as theorems about the code as it is: reuse is never negotiated
      ([Server.reuse_never_negotiated], [Server.hello_never_dispatched]), cancelled reads inject
      frames ([Relay.dropped_read_injects]), a rejected record delivers stale bytes
      ([Snowy.rejected_record_delivers_stale_bytes]), a reset connection poisons the server
      ([Handshake.reset_poisons_server]), the fallback loses payload ([Plain.retry_drops_payload]),
      an HTTP head in two reads is lost ([Http.split_head_lost]), short and oversized datagrams
      panic ([UdpClient.client_udp_panics]), failures of the answering direction stay unreported
      ([UdpClient.answer_failure_unreported]), a limit on failures is stepped over
      ([Connector.failures_without_end]), one failed [accept] ends the program
      ([Program.accept_error_ends_program]), frames are not flushed
      ([Tunnel.unflushed_frame_withheld]), durations are shown in the wrong unit
      ([Time.autofmt_minutes]), and others named at their place.

    ** Conventions, bounds and fuel

    Third-party code is a class or a section variable with its documented behaviour as laws, and a
    concrete instance on which the witnesses run.  Concurrency is explicit: schedules of completed
    branches ([Relay], [Plain], [SessionLoop], [Udp], [UdpClient]; the two loops of a UDP relay
    share nothing but their own counters, so a schedule is one of whole turns), a step relation
    ([Pool]), scripts of poll results ([Snowy]).  A relay's schedule may drop a read at any byte:
    the peer's stream is then a list of pieces ([Relay.piece]), whole frames and lost bytes.  What
    the pooled relay and the UDP association read from a client is part of their events; the front
    ends and the relay over a tunnel of its own draw from the client's stream, the HTTP front end in
    the chunk sizes it is given.  [Pending] is a call that never completes on the input it is given, and also the end
    of a schedule.  The fuel of [copy_until_tls12_handshake_finished] is the number of bytes to
    read, of [read_ready] the bytes buffered, of [read_more] the bytes on the wire, of [push] and
    [flush] the socket's results and the bytes of the record, of [write_loop] the bytes to write; each is enough because a turn
    uses up at least one, and the theorems would fail otherwise; an awaited read or write polls at
    most once for each byte and each result of the socket.  The TLS 1.2 handshake of the
    client depends on [rustls], so its fuel is universally quantified above a bound.  [arith] has
    both build profiles: a debug build panics on overflow, a release build wraps.

    ** Not modelled

    Signal handling, socket options, the set-up of the log and the text of log messages beyond the
    session events, [Debug] output, and the clap attributes (pure I/O or declarations);
    client/redir.rs, which is empty; the programs under tests/.  A listener is the sequence of what
    its [accept] returns, and the tasks it spawns are independent but for what they share.  Of the kernel's
    UDP sockets and of the preflighter's queue ([deadqueue]) only what the code relies on is there:
    truncation to the buffer, the connected peer, the capacity and the order of pops. *)
From Stdlib Require Export ZArith Lia.
From stdpp Require Export base tactics list numbers option.
From stdpp Require Import strings.
From stdpp Require Export options.

Open Scope Z_scope.

(** ** Results, panics and futures

    [res E A] is what a Rust call can end in: [Ok]/[Err] are the two variants of [Result<A, E>];
    [Panic] is an unwinding panic (index out of range, [unwrap], [assert!], [panic!]); [Pending] is
    an [async] call that never completes on the input it is given. *)

Inductive res (E A : Type) : Type :=
| Ok (a : A)
| Err (e : E)
| Panic
| Pending.
Arguments Ok {_ _} _.
Arguments Err {_ _} _.
Arguments Panic {_ _}.
Arguments Pending {_ _}.

#[export] Instance res_eq_dec {E A} `{EqDecision E, EqDecision A} : EqDecision (res E A).
Proof. solve_decision. Defined.

#[export] Instance res_ret {E} : MRet (res E) := fun A a => Ok a.
#[export] Instance res_bind {E} : MBind (res E) := fun A B k m =>
  match m with
  | Ok a => k a
  | Err e => Err e
  | Panic => Panic
  | Pending => Pending
  end.
#[export] Instance res_fmap {E} : FMap (res E) := fun A B f m =>
  match m with
  | Ok a => Ok (f a)
  | Err e => Err e
  | Panic => Panic
  | Pending => Pending
  end.

(** [Result::map_err]. *)
Definition map_err {E E' A} (f : E -> E') (m : res E A) : res E' A :=
  match m with
  | Ok a => Ok a
  | Err e => Err (f e)
  | Panic => Panic
  | Pending => Pending
  end.

Definition is_ok {E A} (m : res E A) : bool := match m with Ok _ => true | _ => false end.

(** ** Stateful fallible code: a state monad over [res]

    [prog S E A] is an (async) function with [&mut S] that returns [Result<A, E>].  The state is
    kept whatever the outcome, as a [&mut] argument is. *)

Definition prog (S E A : Type) : Type := S -> res E A * S.

#[export] Instance prog_ret {S E} : MRet (prog S E) := fun A a s => (Ok a, s).
#[export] Instance prog_bind {S E} : MBind (prog S E) := fun A B k m s =>
  match m s with
  | (Ok a, s') => k a s'
  | (Err e, s') => (Err e, s')
  | (Panic, s') => (Panic, s')
  | (Pending, s') => (Pending, s')
  end.

Definition lift_res {S E A} (m : res E A) : prog S E A := fun s => (m, s).
Definition fail {S E A} (e : E) : prog S E A := fun s => (Err e, s).
Definition panic {S E A} : prog S E A := fun s => (Panic, s).
Definition pending {S E A} : prog S E A := fun s => (Pending, s).
Definition get {S E} : prog S E S := fun s => (Ok s, s).
Definition modify {S E} (f : S -> S) : prog S E unit := fun s => (Ok tt, f s).
Definition prog_map_err {S E E' A} (f : E -> E') (m : prog S E A) : prog S E' A :=
  fun s => let (r, s') := m s in (map_err f r, s').

(** [match fut.await { Ok(a) => .., Err(e) => .. }]: the result becomes a value. *)
Definition attempt {S E E' A} (m : prog S E A) : prog S E' (A + E) := fun s =>
  match m s with
  | (Ok a, s') => (Ok (inl a), s')
  | (Err e, s') => (Ok (inr e), s')
  | (Panic, s') => (Panic, s')
  | (Pending, s') => (Pending, s')
  end.

(** [tokio::time::timeout(d, fut)]: a call that would wait for ever is cut off; [None] is
    [Err(Elapsed)].  The state is the one the dropped future left behind. *)
Definition timeout {S E A} (m : prog S E A) : prog S E (option A) := fun s =>
  match m s with
  | (Ok a, s') => (Ok (Some a), s')
  | (Err e, s') => (Err e, s')
  | (Panic, s') => (Panic, s')
  | (Pending, s') => (Ok None, s')
  end.

(** Running a program on a component of a larger state, [&mut outer.field]. *)
Definition zoom {S T E A} (getter : T -> S) (setter : S -> T -> T) (m : prog S E A) : prog T E A :=
  fun t => let (r, s') := m (getter t) in (r, setter s' t).

Section prog_lemmas.
Context {S E A B : Type}.
Implicit Types (m : prog S E A) (k : A -> prog S E B).

Lemma bind_ok m k s s' a : m s = (Ok a, s') -> (m ≫= k) s = k a s'.
Proof. intros H. unfold mbind, prog_bind. by rewrite H. Qed.

Lemma bind_err m k s s' e : m s = (Err e, s') -> (m ≫= k) s = (Err e, s').
Proof. intros H. unfold mbind, prog_bind. by rewrite H. Qed.

Lemma bind_pending m k s s' : m s = (Pending, s') -> (m ≫= k) s = (Pending, s').
Proof. intros H. unfold mbind, prog_bind. by rewrite H. Qed.

Lemma bind_panic m k s s' : m s = (Panic, s') -> (m ≫= k) s = (Panic, s').
Proof. intros H. unfold mbind, prog_bind. by rewrite H. Qed.

Lemma bind_lift (a : A) k s : (lift_res (Ok a) ≫= k) s = k a s.
Proof. done. Qed.

Lemma prog_map_err_eq {E'} (f : E -> E') m s r s' :
  m s = (r, s') -> prog_map_err f m s = (map_err f r, s').
Proof. intros H. unfold prog_map_err. by rewrite H. Qed.

Lemma timeout_eq m s r s' :
  m s = (r, s') ->
  timeout m s = (match r with
                 | Ok a => Ok (Some a) | Err e => Err e | Panic => Panic | Pending => Ok None
                 end, s').
Proof. intros H. unfold timeout. rewrite H. by destruct r. Qed.

Lemma attempt_eq {E'} m s r s' :
  m s = (r, s') ->
  attempt (E':=E') m s = (match r with
                 | Ok a => Ok (inl a) | Err e => Ok (inr e) | Panic => Panic | Pending => Pending
                 end, s').
Proof. intros H. unfold attempt. rewrite H. by destruct r. Qed.

(** Inversion of a successful sequence. *)
Lemma bind_inv_ok m k s s' b :
  (m ≫= k) s = (Ok b, s') -> exists a s1, m s = (Ok a, s1) /\ k a s1 = (Ok b, s').
Proof.
  unfold mbind, prog_bind. destruct (m s) as [[a|e| |] s1]; intros; simplify_eq. eauto.
Qed.
End prog_lemmas.

(** *** What a program leaves alone

    A preorder on states that every step of a program respects. *)
Definition keeps {S E A} (R : relation S) (m : prog S E A) : Prop := forall s, R s (m s).2.

Section keeps_lemmas.
Context {S : Type} (R : relation S) `{!PreOrder R}.
#[local] Set Default Proof Using "Type*".

Lemma keeps_run {E A} (m : prog S E A) s r s' : keeps R m -> m s = (r, s') -> R s s'.
Proof using. intros H E0. specialize (H s). by rewrite E0 in H. Qed.

Lemma keeps_bind {E A B} (m : prog S E A) (k : A -> prog S E B) :
  keeps R m -> (forall a, keeps R (k a)) -> keeps R (m ≫= k).
Proof.
  intros Hm Hk s. unfold mbind, prog_bind. destruct (m s) as [x s1] eqn:E0.
  pose proof (keeps_run _ _ _ _ Hm E0). destruct x; [|done..]. etrans; [done|apply Hk].
Qed.

Lemma keeps_lift {E A} (r : res E A) : keeps R (lift_res r).
Proof. by intros s. Qed.

Lemma keeps_ret {E A} (a : A) : keeps (E:=E) R (mret a).
Proof. by intros s. Qed.

Lemma keeps_map_err {E E' A} (f : E -> E') (m : prog S E A) : keeps R m -> keeps R (prog_map_err f m).
Proof using. intros H s. specialize (H s). unfold prog_map_err. by destruct (m s). Qed.

Lemma keeps_modify {E} f : (forall s, R s (f s)) -> keeps (E:=E) R (modify f).
Proof using. intros H s. apply H. Qed.
End keeps_lemmas.

(** Goes through a program; what is left are the calls it is made of. *)
Ltac keep :=
  repeat first
    [ apply (keeps_bind _); [|intros] | apply (keeps_lift _) | apply (keeps_ret _) | apply keeps_map_err
    | match goal with |- keeps _ (match ?x with _ => _ end) => destruct x end ].

(** ** Machine integers *)

(** [in_u w z]: [z] is a value of the [w]-bit unsigned type. *)
Definition in_u (w z : Z) : Prop := 0 <= z < 2 ^ w.
Abbreviation is_u8 := (in_u 8).
Abbreviation is_u16 := (in_u 16).
Abbreviation is_u32 := (in_u 32).
Abbreviation is_u64 := (in_u 64).
Definition is_bytes (l : list Z) : Prop := Forall is_u8 l.

#[export] Instance in_u_dec w z : Decision (in_u w z).
Proof. unfold in_u. apply _. Defined.
#[export] Instance is_bytes_dec l : Decision (is_bytes l).
Proof. unfold is_bytes. apply _. Defined.

(** [wrap w z] is [z as uW]. *)
Definition wrap (w z : Z) : Z := z mod 2 ^ w.

Lemma wrap_small w z : in_u w z -> wrap w z = z.
Proof. intros [??]. by apply Z.mod_small. Qed.

(** Testing one bit by a mask, [x & (1 << n) != 0]. *)
Lemma land_pow2 x n : 0 <= n -> Z.land x (2 ^ n) = if Z.testbit x n then 2 ^ n else 0.
Proof.
  intros Hn. apply Z.bits_inj'. intros k Hk. rewrite Z.land_spec, Z.pow2_bits_eqb by done.
  destruct (Z.eqb_spec n k) as [->|].
  - destruct (Z.testbit x k); [by rewrite Z.pow2_bits_true|by rewrite Z.bits_0].
  - rewrite andb_false_r. destruct (Z.testbit x n); [by rewrite Z.pow2_bits_false|by rewrite Z.bits_0].
Qed.

Lemma mask_testbit x n : 0 <= n -> negb (Z.land x (2 ^ n) =? 0) = Z.testbit x n.
Proof.
  intros Hn. rewrite land_pow2 by done. destruct (Z.testbit x n); [|done].
  apply negb_true_iff, Z.eqb_neq. lia.
Qed.

(** The build profile decides what an arithmetic overflow does: a debug build panics, a release
    build wraps. *)
Inductive profile := Debug | Release.

Definition arith (p : profile) (w z : Z) {E : Type} : res E Z :=
  if decide (in_u w z) then Ok z
  else match p with Debug => Panic | Release => Ok (wrap w z) end.

Lemma arith_ok p w z {E : Type} : in_u w z -> arith p w z = Ok z :> res E Z.
Proof. intros H. unfold arith. by rewrite decide_True. Qed.

(** [uN::to_be_bytes] for an [n]-byte integer, and [uN::from_be_bytes]. *)
Fixpoint to_be_bytes (n : nat) (z : Z) : list Z :=
  match n with
  | O => []
  | S n' => (z / 256 ^ Z.of_nat n') mod 256 :: to_be_bytes n' z
  end.
Definition from_be_bytes (l : list Z) : Z := foldl (fun acc b => acc * 256 + b) 0 l.

Lemma length_to_be_bytes n z : length (to_be_bytes n z) = n.
Proof. induction n; simpl; congruence. Qed.

Lemma to_be_bytes_bytes n z : is_bytes (to_be_bytes n z).
Proof.
  induction n as [|n IH]; simpl; constructor; [|done].
  pose proof (Z.mod_pos_bound (z / 256 ^ Z.of_nat n) 256). unfold in_u. lia.
Qed.

Lemma foldl_be_acc l acc :
  foldl (fun acc b => acc * 256 + b) acc l = acc * 256 ^ Z.of_nat (length l) + from_be_bytes l.
Proof.
  unfold from_be_bytes. revert acc. induction l as [|b l IH]; intros acc; cbn [foldl length].
  - rewrite Z.pow_0_r. lia.
  - rewrite (IH (acc * 256 + b)), (IH (0 * 256 + b)), Nat2Z.inj_succ, Z.pow_succ_r by lia. ring.
Qed.

Lemma from_be_bytes_cons b l :
  from_be_bytes (b :: l) = b * 256 ^ Z.of_nat (length l) + from_be_bytes l.
Proof. unfold from_be_bytes at 1. cbn [foldl]. by rewrite foldl_be_acc. Qed.

Lemma from_be_bytes_bound l :
  is_bytes l -> 0 <= from_be_bytes l < 256 ^ Z.of_nat (length l).
Proof.
  induction 1 as [|b l Hb _ IH]; [done|].
  rewrite from_be_bytes_cons. simpl length. rewrite Nat2Z.inj_succ, Z.pow_succ_r by lia.
  unfold in_u in Hb. nia.
Qed.

Lemma from_to_be_bytes_mod n z : from_be_bytes (to_be_bytes n z) = z mod 256 ^ Z.of_nat n.
Proof.
  induction n as [|n IH]; simpl to_be_bytes.
  - by rewrite Z.mod_1_r.
  - rewrite from_be_bytes_cons, length_to_be_bytes, IH, Nat2Z.inj_succ, Z.pow_succ_r by lia.
    rewrite (Z.mul_comm 256), Z.rem_mul_r by lia. lia.
Qed.

Lemma from_to_be_bytes n z :
  0 <= z < 256 ^ Z.of_nat n -> from_be_bytes (to_be_bytes n z) = z.
Proof. intros. rewrite from_to_be_bytes_mod. by apply Z.mod_small. Qed.

Lemma to_be_bytes_add_high n q z :
  to_be_bytes n (q * 256 ^ Z.of_nat n + z) = to_be_bytes n z.
Proof.
  revert q z. induction n as [|n IH]; intros q z; [done|]. cbn [to_be_bytes].
  rewrite Nat2Z.inj_succ, Z.pow_succ_r by lia.
  replace (q * (256 * 256 ^ Z.of_nat n) + z) with ((q * 256) * 256 ^ Z.of_nat n + z) by ring.
  rewrite IH, Z.div_add_l, Z.add_comm, Z.mod_add by lia. done.
Qed.

Lemma to_from_be_bytes l : is_bytes l -> to_be_bytes (length l) (from_be_bytes l) = l.
Proof.
  induction 1 as [|b l Hb Hl IH]; [done|]. cbn [length to_be_bytes].
  pose proof (from_be_bytes_bound l Hl). unfold in_u in Hb.
  rewrite from_be_bytes_cons, to_be_bytes_add_high, IH, Z.div_add_l by lia.
  rewrite Z.div_small, Z.add_0_r, Z.mod_small by lia. done.
Qed.

Arguments to_be_bytes : simpl never.
Arguments from_be_bytes : simpl never.

(** [is_bytes] of a compound list. *)
Ltac bytes :=
  repeat first
    [ assumption | apply to_be_bytes_bytes | apply Forall_take | apply Forall_drop
    | apply Forall_nil_2 | apply Forall_cons_2 | apply Forall_app; split
    | unfold in_u; lia ].

(** The two- and four-byte cases, as the explicit lists the code indexes. *)
Lemma to_be_bytes_2 z : exists a b,
  to_be_bytes 2 z = [a; b] /\ is_u8 a /\ is_u8 b /\ (is_u16 z -> from_be_bytes [a; b] = z).
Proof.
  do 2 eexists. split; [reflexivity|].
  split_and!; [by apply (Z.mod_pos_bound _ 256)..|].
  intros Hz. change (from_be_bytes (to_be_bytes 2 z) = z). by apply from_to_be_bytes.
Qed.

Lemma to_be_bytes_4 z : exists a b c d,
  to_be_bytes 4 z = [a; b; c; d] /\ (is_u32 z -> from_be_bytes [a; b; c; d] = z).
Proof.
  do 4 eexists. split; [reflexivity|].
  intros Hz. change (from_be_bytes (to_be_bytes 4 z) = z). by apply from_to_be_bytes.
Qed.

Lemma from_be_bytes_2 a b :
  is_u8 a -> is_u8 b -> is_u16 (from_be_bytes [a; b]) /\ to_be_bytes 2 (from_be_bytes [a; b]) = [a; b].
Proof.
  intros. assert (is_bytes [a; b]) as Hb by bytes. split.
  - apply (from_be_bytes_bound _ Hb).
  - by apply (to_from_be_bytes [a; b]).
Qed.

Lemma from_be_bytes_4 a b c d :
  is_bytes [a; b; c; d] ->
  is_u32 (from_be_bytes [a; b; c; d]) /\ to_be_bytes 4 (from_be_bytes [a; b; c; d]) = [a; b; c; d].
Proof.
  intros Hb. split.
  - apply (from_be_bytes_bound _ Hb).
  - by apply (to_from_be_bytes [a; b; c; d]).
Qed.

Lemma from_be_bytes_inj l1 l2 :
  is_bytes l1 -> is_bytes l2 -> length l1 = length l2 ->
  from_be_bytes l1 = from_be_bytes l2 -> l1 = l2.
Proof.
  intros H1 H2 Hlen Heq. rewrite <- (to_from_be_bytes l1), <- (to_from_be_bytes l2) by done.
  by rewrite Hlen, Heq.
Qed.

(** A byte string literal. *)
Definition byte_string (s : string) : list Z :=
  (fun c => Z.of_N (Ascii.N_of_ascii c)) <$> String.list_ascii_of_string s.

(** ** Slices *)

(** [xs[i]]: panics out of range. *)
Definition index {E A} (l : list A) (i : nat) : res E A :=
  match l !! i with Some a => Ok a | None => Panic end.

(** [&xs[a..b]]: panics when [a > b] or [b > xs.len()]. *)
Definition slice {E A} (l : list A) (a b : nat) : res E (list A) :=
  if decide (a <= b /\ b <= length l)%nat then Ok (take (b - a) (drop a l)) else Panic.

Lemma index_ok {E A} (l : list A) i a : l !! i = Some a -> index l i = Ok a :> res E A.
Proof. unfold index. by intros ->. Qed.

Lemma slice_ok {E A} (l : list A) a b :
  (a <= b)%nat -> (b <= length l)%nat -> slice l a b = Ok (take (b - a) (drop a l)) :> res E _.
Proof. intros. unfold slice. by rewrite decide_True. Qed.

(** [xs[i] = v] and [xs[at..].write_all(bytes)] into a fixed-size buffer: panics out of range. *)
Definition set_index {E A} (l : list A) (i : nat) (a : A) : res E (list A) :=
  if decide (i < length l)%nat then Ok (<[i := a]> l) else Panic.
Definition write_slice {E A} (l : list A) (at_ : nat) (b : list A) : res E (list A) :=
  if decide (at_ + length b <= length l)%nat then
    Ok (take at_ l ++ b ++ drop (at_ + length b) l)
  else Panic.

Lemma set_index_app {E A} (l r : list A) i a v :
  i = length l -> set_index (l ++ a :: r) i v = Ok (l ++ v :: r) :> res E _.
Proof.
  intros ->. unfold set_index. rewrite decide_True by (rewrite length_app; simpl; lia).
  rewrite <- (Nat.add_0_r (length l)) at 1. by rewrite insert_app_r.
Qed.

Lemma write_slice_app {E A} (l m b r : list A) at_ :
  at_ = length l -> length m = length b ->
  write_slice (l ++ m ++ r) at_ b = Ok (l ++ b ++ r) :> res E _.
Proof.
  intros -> Hm. unfold write_slice. rewrite decide_True by (rewrite !length_app; lia).
  by rewrite take_app_length, <- Hm, <- length_app, (app_assoc l m r), drop_app_length.
Qed.

(** The last two elements of a buffer, as [buf[len - 2]] and [buf[len - 1]]. *)
Lemma index_last2 {E A} (l : list A) a b :
  index (l ++ [a; b]) (length (l ++ [a; b]) - 2) = Ok a :> res E A
  /\ index (l ++ [a; b]) (length (l ++ [a; b]) - 1) = Ok b :> res E A.
Proof.
  rewrite length_app. simpl. split; apply index_ok; rewrite lookup_app_r by lia.
  - by replace (_ - _)%nat with 0%nat by lia.
  - by replace (_ - _)%nat with 1%nat by lia.
Qed.

Lemma split_last2 {A} (l : list A) :
  (2 <= length l)%nat -> exists k a b, l = k ++ [a; b].
Proof.
  intros Hl. exists (take (length l - 2) l).
  destruct (drop (length l - 2) l) as [|a [|b [|]]] eqn:E;
    apply (f_equal length) in E as E'; rewrite length_drop in E'; simpl in E'; try lia.
  exists a, b. by rewrite <- E, take_drop.
Qed.

Lemma is_bytes_app l k : is_bytes (l ++ k) <-> is_bytes l /\ is_bytes k.
Proof. apply Forall_app. Qed.

Lemma is_bytes_take n l : is_bytes l -> is_bytes (take n l).
Proof. apply Forall_take. Qed.

Lemma is_bytes_drop n l : is_bytes l -> is_bytes (drop n l).
Proof. apply Forall_drop. Qed.

Lemma is_bytes_lookup l i b : is_bytes l -> l !! i = Some b -> is_u8 b.
Proof. intros H Hi. by eapply Forall_lookup in Hi. Qed.

Lemma submseteq_NoDup {A} (l k : list A) : l ⊆+ k -> NoDup k -> NoDup l.
Proof. intros [m ->]%submseteq_Permutation [? _]%NoDup_app. done. Qed.

Lemma submseteq_Forall {A} (P : A -> Prop) (l k : list A) : l ⊆+ k -> Forall P k -> Forall P l.
Proof. intros [m ->]%submseteq_Permutation [? _]%Forall_app. done. Qed.

(** ** Automation *)

Create HintDb shuttle.
Create Rewrite HintDb lens.
#[export] Hint Resolve is_bytes_take is_bytes_drop to_be_bytes_bytes : shuttle.
#[export] Hint Rewrite @length_app @length_take @length_drop @length_cons @length_nil
  length_to_be_bytes : lens.

(** Reduce every [length] of a compound list, then decide by linear arithmetic. *)
Ltac len := autorewrite with lens in *; simpl length in *; lia.

(** Split a list of known length into its elements. *)
Ltac explode l :=
  match goal with
  | H : length l = 0%nat |- _ => apply nil_length_inv in H; subst l
  | H : length l = S _ |- _ =>
      let a := fresh "b" in destruct l as [|a l]; [discriminate H|];
      cbn [length] in H; apply eq_add_S in H; explode l
  end.

(** Case analysis on the boolean comparisons of the goal, dropping the impossible cases. *)
Ltac cases_cmp :=
  repeat match goal with
  | |- context [(?a <? ?b)%nat] => destruct (Nat.ltb_spec a b); try (exfalso; len)
  | |- context [(?a <=? ?b)%nat] => destruct (Nat.leb_spec a b); try (exfalso; len)
  | |- context [?a <? ?b] => destruct (Z.ltb_spec a b); try (exfalso; len)
  | |- context [?a <=? ?b] => destruct (Z.leb_spec a b); try (exfalso; len)
  | |- context [?a =? ?b] => destruct (Z.eqb_spec a b); try (exfalso; len)
  end.

(** Case analysis on the scrutinee of the innermost [match] in the goal. *)
Ltac case_res :=
  match goal with
  | |- context [match ?x with Ok _ => _ | Err _ => _ | Panic => _ | Pending => _ end] =>
      destruct x eqn:?; simplify_eq/=
  end.

(** Run one call of a sequence whose outcome is a hypothesis. *)
Ltac run H := first
  [ rewrite (bind_ok _ _ _ _ _ H) | rewrite (bind_err _ _ _ _ _ H)
  | rewrite (bind_pending _ _ _ _ H) | rewrite (bind_panic _ _ _ _ H) ].

(** A closed decidable proposition, by running its decision procedure. *)
Ltac by_compute := apply (bool_decide_unpack _); vm_compute; exact I.
