(* ===== verification/Time.v ===== *)
(** * Durations and instants

    [std::time::Duration] as its number of nanoseconds, [Instant] as nanoseconds on the monotonic
    clock; the standard-library operations the components call, with their saturation and overflow
    behaviour. *)
From S2P Require Import Prelude.
From stdpp Require Import strings.
Open Scope Z_scope.

Definition Duration := Z.
Definition Instant := Z.

Definition NANOS_PER_SEC : Z := 1000000000.

(** [Duration::MAX]: [u64::MAX] seconds and 999999999 ns. *)
Definition DURATION_MAX : Duration := (2 ^ 64 - 1) * NANOS_PER_SEC + (NANOS_PER_SEC - 1).

Definition is_duration (d : Duration) : Prop := 0 <= d <= DURATION_MAX.

Definition from_secs (s : Z) : Duration := s * NANOS_PER_SEC.

(** [Duration::checked_mul]. *)
Definition checked_mul (d : Duration) (k : Z) : option Duration :=
  if d * k <=? DURATION_MAX then Some (d * k) else None.

(** [Instant::duration_since] saturates to zero; [checked_duration_since] says when it would. *)
Definition duration_since (now then_ : Instant) : Duration := Z.max 0 (now - then_).
Definition checked_duration_since (now then_ : Instant) : option Duration :=
  if then_ <=? now then Some (now - then_) else None.

(** [DurationAutoFormatter]: the number shown, a float quotient or an integer, and its unit. *)
Inductive shown := Quotient (n d : Z) (unit : string) | Whole (n : Z) (unit : string).

Definition autofmt (t : Duration) : shown :=
  if t <? 1000 then Whole t "ns"
  else if t <? 1000000 then Quotient t 1000 "µs"
  else if t <? 1000000000 then Quotient t 1000000 "ms"
  else if t <? 1000000000000 then Quotient t 1000000000 "s"
  else if t <? 60000000000000 then Quotient t 1000000000000 "mins"
  else if t <? 3600000000000000 then Whole (t / 60000000000000) "hrs"
  else Whole (t / 3600000000000000) "days".

(** From a thousand seconds on the unit is wrong: what is shown as minutes is thousands of seconds,
    and an hour, until the sixteenth, is shown as a few minutes. *)
Lemma autofmt_minutes s :
  1000 <= s < 60000 -> autofmt (from_secs s) = Quotient (from_secs s) (from_secs 1000) "mins".
Proof.
  intros Hs. unfold autofmt, from_secs, NANOS_PER_SEC.
  repeat (rewrite (proj2 (Z.ltb_ge _ _)) by lia). by rewrite (proj2 (Z.ltb_lt _ _)) by lia.
Qed.

Lemma from_secs_mono a b : from_secs a < from_secs b <-> a < b.
Proof. unfold from_secs, NANOS_PER_SEC. lia. Qed.

Lemma duration_since_self t : duration_since t t = 0.
Proof. unfold duration_since. lia. Qed.
