(* ===== verification/Stream.v ===== *)
(** * Byte streams

    The components read and write through [S: AsyncRead + AsyncWrite + Unpin] (a Tokio trait, not
    code of this repository).  [AsyncIO] is that interface: the two calls the components make,
    with three observations of a stream; [AsyncIOLaws] is what Tokio's documentation of
    [read_exact] and [write_all] promises.  Components are written and verified against the
    interface; [duplex] is a concrete stream (a pair of byte buffers with an end-of-stream
    condition and an optional write fault) on which the witnesses run. *)
From S2P Require Import Prelude.
From stdpp Require Import strings.
Open Scope Z_scope.

(** [std::io::ErrorKind], the kinds the code inspects or builds. *)
Inductive ErrorKind :=
| UnexpectedEof | InvalidData | InvalidInput | WriteZero | ConnectionAborted | Other.

#[export] Instance ErrorKind_eq_dec : EqDecision ErrorKind.
Proof. solve_decision. Defined.

(** [std::io::Error]. *)
Record io_error := IoErr { kind : ErrorKind; msg : string }.

#[export] Instance io_error_eq_dec : EqDecision io_error.
Proof. solve_decision. Defined.

Class AsyncIO (S : Type) := {
  read_exact : nat -> prog S io_error (list Z);
  write_all : list Z -> prog S io_error unit;
  (** the bytes the peer delivers before the stream ends, fails or stalls *)
  incoming : S -> list Z;
  (** whether the stream ends (EOF) after [incoming] *)
  ends : S -> bool;
  (** the bytes handed to the peer so far *)
  outgoing : S -> list Z;
  (** the stream accepts every write *)
  writable : S -> Prop;
}.

(** Documented behaviour of [AsyncReadExt::read_exact] and [AsyncWriteExt::write_all]. *)
Class AsyncIOLaws (S : Type) `{!AsyncIO S} : Prop := {
  read_exact_enough n s : (n <= length (incoming s))%nat ->
    exists s', read_exact n s = (Ok (take n (incoming s)), s')
      /\ incoming s' = drop n (incoming s) /\ ends s' = ends s
      /\ outgoing s' = outgoing s /\ (writable s -> writable s');
  read_exact_short n s : (length (incoming s) < n)%nat ->
    exists r s', read_exact n s = (r, s')
      /\ r <> Panic /\ (forall b, r <> Ok b)
      /\ (ends s = true -> exists m, r = Err (IoErr UnexpectedEof m))
      /\ ends s' = ends s /\ outgoing s' = outgoing s /\ (writable s -> writable s');
  write_all_writable b s : writable s ->
    exists s', write_all b s = (Ok tt, s')
      /\ outgoing s' = outgoing s ++ b /\ incoming s' = incoming s /\ ends s' = ends s
      /\ writable s';
  write_all_any b s r s' : write_all b s = (r, s') ->
    r <> Panic
    /\ incoming s' = incoming s /\ ends s' = ends s
    /\ (r = Ok tt -> outgoing s' = outgoing s ++ b)
    /\ exists p, p `prefix_of` b /\ outgoing s' = outgoing s ++ p;
}.

(** ** A concrete stream *)

(** What happens when the buffered input runs out. *)
Inductive rx_end := StaysOpen | Eof | Broken (e : io_error).

Record duplex := Duplex {
  rx : list Z;
  rx_tail : rx_end;
  tx : list Z;
  (** after [n] more bytes, writes fail with [e] *)
  tx_fault : option (nat * io_error);
}.

Definition duplex_read_exact (n : nat) : prog duplex io_error (list Z) := fun s =>
  if (n <=? length (rx s))%nat then
    (Ok (take n (rx s)), Duplex (drop n (rx s)) (rx_tail s) (tx s) (tx_fault s))
  else
    (match rx_tail s with
     | StaysOpen => Pending
     | Eof => Err (IoErr UnexpectedEof "early eof")
     | Broken e => Err e
     end, Duplex [] (rx_tail s) (tx s) (tx_fault s)).

Definition duplex_write_all (b : list Z) : prog duplex io_error unit := fun s =>
  match tx_fault s with
  | None => (Ok tt, Duplex (rx s) (rx_tail s) (tx s ++ b) None)
  | Some (n, e) =>
      if (length b <=? n)%nat then
        (Ok tt, Duplex (rx s) (rx_tail s) (tx s ++ b) (Some (n - length b, e)%nat))
      else (Err e, Duplex (rx s) (rx_tail s) (tx s ++ take n b) (Some (0%nat, e)))
  end.

#[export] Instance duplex_io : AsyncIO duplex := {|
  read_exact := duplex_read_exact;
  write_all := duplex_write_all;
  incoming := rx;
  ends s := match rx_tail s with Eof => true | _ => false end;
  outgoing := tx;
  writable s := tx_fault s = None;
|}.

#[export] Instance duplex_laws : AsyncIOLaws duplex.
Proof.
  constructor; intros; simpl in *.
  - unfold duplex_read_exact. destruct (Nat.leb_spec n (length (rx s))); [|lia]. eauto 10.
  - unfold duplex_read_exact. destruct (Nat.leb_spec n (length (rx s))); [lia|].
    destruct (rx_tail s) eqn:?; do 2 eexists; (split; [done|]); simpl; naive_solver.
  - unfold duplex_write_all. rewrite H. eauto 10.
  - unfold duplex_write_all in *. destruct (tx_fault s) as [[n e]|].
    + destruct (Nat.leb_spec (length b) n); simplify_eq/=; repeat split; try done.
      * exists b. by split.
      * eexists. split; [|done]. by apply prefix_take.
    + simplify_eq/=. repeat split; try done. exists b. by split.
Qed.

(** A stream that holds [b] and stays open, writable. *)
Definition open_with (b : list Z) : duplex := Duplex b StaysOpen [] None.
(** A stream that holds [b] and then ends. *)
Definition closed_with (b : list Z) : duplex := Duplex b Eof [] None.

Lemma open_writable b : writable (open_with b).
Proof. reflexivity. Defined.
Lemma closed_writable b : writable (closed_with b).
Proof. reflexivity. Defined.

(** ** Derived facts *)
Section laws.
Context {S : Type} `{!AsyncIO S, !AsyncIOLaws S}.
#[local] Set Default Proof Using "Type*".

(** Two consecutive exact reads are one: nothing between them is lost. *)
Lemma read_exact_split n m (s : S) :
  (n + m <= length (incoming s))%nat ->
  exists s1 s2, read_exact n s = (Ok (take n (incoming s)), s1)
    /\ read_exact m s1 = (Ok (take m (drop n (incoming s))), s2)
    /\ incoming s2 = drop (n + m) (incoming s) /\ ends s2 = ends s
    /\ outgoing s2 = outgoing s /\ (writable s -> writable s2).
Proof.
  intros Hle. destruct (read_exact_enough n s) as (s1 & H1 & Hi1 & He1 & Ho1 & Hw1); [lia|].
  destruct (read_exact_enough m s1) as (s2 & H2 & Hi2 & He2 & Ho2 & Hw2).
  { rewrite Hi1. len. }
  exists s1, s2. rewrite Hi1 in H2. rewrite Hi2, Hi1, drop_drop, He2, He1, Ho2, Ho1.
  repeat split; auto.
Qed.

(** What a stream call leaves alone when it only reads. *)
Definition only_read (s s' : S) : Prop :=
  ends s' = ends s /\ outgoing s' = outgoing s /\ (writable s -> writable s').

#[export] Instance only_read_preorder : PreOrder only_read.
Proof. split; [by intros ?|]. intros ??? (?&?&?) (?&?&?). split_and!; [congruence..|auto]. Qed.

(** Reading exactly a known prefix. *)
Lemma read_exact_app n b rest (s : S) :
  incoming s = b ++ rest -> length b = n ->
  exists s', read_exact n s = (Ok b, s') /\ incoming s' = rest /\ only_read s s'.
Proof.
  intros Hi <-. destruct (read_exact_enough (length b) s) as (s' & H & Hi' & ?).
  { rewrite Hi. len. }
  exists s'. rewrite H, Hi', Hi, take_app_length, drop_app_length. split_and!; [done..|].
  unfold only_read. tauto.
Qed.

Lemma write_all_outcome b (s : S) r s' : write_all b s = (r, s') ->
  incoming s' = incoming s /\ ends s' = ends s.
Proof. intros (_ & ? & ? & _)%write_all_any. done. Qed.
End laws.

(** ** Copying *)

(** [tokio::io::copy_bidirectional] on two streams. *)
Definition copier (A B : Type) : Type := prog (A * B) io_error (Z * Z).

(** Its documentation: it copies both ways until both streams have ended, and returns the counts. *)
Definition copies {A B} `{!AsyncIO A, !AsyncIO B} (copy : copier A B) : Prop :=
  forall a b, writable a -> writable b -> ends a = true -> ends b = true ->
  exists a' b', copy (a, b)
      = (Ok (Z.of_nat (length (incoming a)), Z.of_nat (length (incoming b))), (a', b'))
    /\ outgoing a' = outgoing a ++ incoming b /\ outgoing b' = outgoing b ++ incoming a.

(** Copying between two streams that have ended. *)
Definition duplex_copy : copier duplex duplex := fun '(a, b) =>
  match rx_tail a, rx_tail b with
  | Eof, Eof =>
      (Ok (Z.of_nat (length (rx a)), Z.of_nat (length (rx b))),
       (Duplex [] Eof (tx a ++ rx b) (tx_fault a), Duplex [] Eof (tx b ++ rx a) (tx_fault b)))
  | _, _ => (Pending, (a, b))
  end.

Lemma duplex_copies : copies duplex_copy.
Proof.
  intros a b _ _ Ha Hb. unfold duplex_copy. simpl in *.
  destruct (rx_tail a), (rx_tail b); try done. by do 2 eexists.
Defined.
