(* ===== verification/Lru.v ===== *)
(** * Least-recently-used maps

    The interface of [lru::LruCache] (a crate outside the repository) with its documented
    behaviour, used by the replay filter of [Handshake] and the resolution cache of [Udp], and a
    list of pairs as a concrete instance for the witnesses. *)
From S2P Require Import Prelude.
From stdpp Require Import list.
Open Scope Z_scope.

(** [lru::LruCache]; [entries] are its contents, the most recently used first. *)
Class Lru (K V F : Type) := {
  lru_get : K -> F -> option V * F;
  lru_put : K -> V -> F -> F;
  entries : F -> list (K * V);
  capacity : F -> nat;
}.

Section assoc.
Context {K V : Type} `{!EqDecision K}.
Implicit Types (k : K) (v : V) (l : list (K * V)).

(** The value of a key in an association list. *)
Fixpoint assoc k l : option V :=
  match l with
  | [] => None
  | (k', v) :: l => if decide (k' = k) then Some v else assoc k l
  end.

Lemma assoc_filter k e l :
  assoc e l = None -> assoc e (filter (fun kv => kv.1 <> k) l) = None.
Proof.
  induction l as [|[k' w] l IH]; [done|]. cbn [assoc]. case_decide as He; [done|]. intros Hl.
  rewrite filter_cons. case_decide; cbn [assoc]; [|by apply IH]. rewrite decide_False by done. by apply IH.
Qed.

Lemma assoc_filter_ne k e l :
  e <> k -> assoc e (filter (fun kv => kv.1 <> k) l) = assoc e l.
Proof.
  intros Hne. induction l as [|[k' w] l IH]; [done|].
  rewrite filter_cons. simpl. repeat case_decide; simpl; rewrite ?IH; try congruence.
  - by rewrite decide_True.
  - by rewrite decide_False.
Qed.

Lemma assoc_take n k v l : assoc k (take n l) = Some v -> assoc k l = Some v.
Proof.
  revert n. induction l as [|[k' w] l IH]; intros [|n]; simpl; try done. case_decide; [done|]. apply IH.
Qed.
(** The entry of a key is among the [i + 1] most recent ones. *)
Definition remembered (e : K) (v : V) (i : nat) (l : list (K * V)) : Prop :=
  exists l1 l2, l = l1 ++ (e, v) :: l2 /\ (length l1 <= i)%nat /\ assoc e l1 = None.

Lemma remembered_assoc e v i l : remembered e v i l -> assoc e l = Some v.
Proof.
  intros (l1 & l2 & -> & _ & Ha). revert Ha. induction l1 as [|[k w] l1 IH]; simpl.
  - by rewrite decide_True.
  - case_decide; [done|]. apply IH.
Qed.

Lemma remembered_weaken e v i j l : (i <= j)%nat -> remembered e v i l -> remembered e v j l.
Proof. intros Hij (l1 & l2 & ? & ? & ?). exists l1, l2. split_and!; [done|lia|done]. Qed.

Lemma remembered_first e v l : remembered e v 0 ((e, v) :: l).
Proof. by exists [], l. Qed.

Lemma remembered_take e v i n l : remembered e v i l -> (i < n)%nat -> remembered e v i (take n l).
Proof.
  intros (l1 & l2 & -> & Hi & Ha) Hn. exists l1, (take (n - S (length l1)) l2). split_and!; [|done..].
  rewrite take_app, take_ge by lia. f_equal.
  by destruct (n - length l1)%nat as [|j] eqn:E; [lia|]; replace (n - S (length l1))%nat with j by lia.
Qed.

(** Another entry in front moves it back by one place at most. *)
Lemma remembered_behind e v i k w l :
  remembered e v i l -> k <> e ->
  remembered e v (S i) ((k, w) :: filter (fun kv => kv.1 <> k) l).
Proof.
  intros (l1 & l2 & -> & Hi & Ha) Hk. rewrite filter_app, filter_cons, decide_True by (cbn; congruence).
  exists ((k, w) :: filter (fun kv => kv.1 <> k) l1), (filter (fun kv => kv.1 <> k) l2).
  split_and!; [done| |].
  - simpl. apply le_n_S. etransitivity; [apply length_filter|done].
  - cbn [assoc]. rewrite decide_False by done. by apply assoc_filter.
Qed.

End assoc.

(** Documented behaviour of [lru::LruCache]. *)
Class LruLaws (K V F : Type) `{!EqDecision K, !Lru K V F} : Prop := {
  lru_get_hit k v (f : F) : assoc k (entries f) = Some v ->
    exists f', lru_get k f = (Some v, f') /\ capacity f' = capacity f
      /\ entries f' = (k, v) :: filter (fun kv => kv.1 <> k) (entries f);
  lru_get_miss k (f : F) : assoc k (entries f) = None ->
    exists f', lru_get k f = (None, f') /\ capacity f' = capacity f /\ entries f' = entries f;
  lru_put_spec k v (f : F) :
    entries (lru_put k v f) = take (capacity f) ((k, v) :: filter (fun kv => kv.1 <> k) (entries f))
    /\ capacity (lru_put k v f) = capacity f;
}.

(** A least-recently-used map as a list. *)
Record lru_map (K V : Type) := LruList { items : list (K * V); room : nat }.
Arguments LruList {_ _} _ _.
Arguments items {_ _} _.
Arguments room {_ _} _.

#[export] Instance lru_list_ops {K V} `{!EqDecision K} : Lru K V (lru_map K V) := {|
  lru_get k f :=
    match assoc k (items f) with
    | Some v => (Some v, LruList ((k, v) :: filter (fun kv => kv.1 <> k) (items f)) (room f))
    | None => (None, f)
    end;
  lru_put k v f := LruList (take (room f) ((k, v) :: filter (fun kv => kv.1 <> k) (items f))) (room f);
  entries := items;
  capacity := room;
|}.

#[export] Instance lru_list_laws {K V} `{!EqDecision K} : LruLaws K V (lru_map K V).
Proof.
  constructor.
  - intros k v f Hk. eexists. cbn in *. by rewrite Hk.
  - intros k f Hk. eexists. cbn in *. by rewrite Hk.
  - done.
Qed.
