(* ===== verification/Frame.v ===== *)
(** * Session frames (shuttle/src/session/frame.rs)

    The wire format of the reusable-session protocol: [Frame::encode], [Frame::decode] and the
    stream versions [read_frame] and [write_frame].  Slices are indexed with their bounds checks,
    so "decode does not panic" is a theorem and not a convention. *)
From S2P Require Import Prelude.
From stdpp Require Import strings pretty.
From S2P Require Import Stream.
Open Scope Z_scope.

Definition FRAME_CLIENT_HELLO : Z := 1.
Definition FRAME_OPEN_REQUEST : Z := 2.
Definition FRAME_DATA : Z := 3.
Definition FRAME_END_REQUEST : Z := 4.
Definition FRAME_RESET : Z := 5.
Definition FRAME_PING : Z := 6.
Definition FRAME_PONG : Z := 7.
Definition FRAME_CLOSE : Z := 8.
Definition MAX_FRAME_PAYLOAD : Z := 65535.
Definition PROTOCOL_VERSION : Z := 1.

Module FrameError.
Inductive FrameError :=
| UnknownFrameType (frame_type : Z)
| OversizedPayload (len : nat)
| UnexpectedEof
| InvalidPayload (message : string)
| Io (err : io_error).
End FrameError.
Abbreviation FrameError := FrameError.FrameError.

#[export] Instance FrameError_eq_dec : EqDecision FrameError.
Proof. solve_decision. Defined.

Inductive Frame :=
| ClientHello (version capabilities : Z)
| OpenRequest (cmd atyp : Z) (addr : list Z) (port : Z)
| Data (data : list Z)
| EndRequest (reason : Z)
| Reset (reason : Z)
| Ping (token : Z)
| Pong (token : Z)
| Close (reason : Z).

#[export] Instance Frame_eq_dec : EqDecision Frame.
Proof. solve_decision. Defined.

(** The fields have their Rust types. *)
Definition wf_frame (f : Frame) : Prop :=
  match f with
  | ClientHello version capabilities => is_u8 version /\ is_u16 capabilities
  | OpenRequest cmd atyp addr port => is_u8 cmd /\ is_u8 atyp /\ is_bytes addr /\ is_u16 port
  | Data data => is_bytes data
  | EndRequest reason | Reset reason | Close reason => is_u8 reason
  | Ping token | Pong token => is_u32 token
  end.

#[export] Instance wf_frame_dec f : Decision (wf_frame f).
Proof. destruct f; simpl; apply _. Defined.

(** ** Encoding *)

Definition payload (f : Frame) : Z * list Z :=
  match f with
  | ClientHello version capabilities =>
      (FRAME_CLIENT_HELLO, [version] ++ to_be_bytes 2 capabilities)
  | OpenRequest cmd atyp addr port =>
      (FRAME_OPEN_REQUEST, [cmd] ++ [atyp] ++ addr ++ to_be_bytes 2 port)
  | Data data => (FRAME_DATA, data)
  | EndRequest reason => (FRAME_END_REQUEST, [reason])
  | Reset reason => (FRAME_RESET, [reason])
  | Ping token => (FRAME_PING, to_be_bytes 4 token)
  | Pong token => (FRAME_PONG, to_be_bytes 4 token)
  | Close reason => (FRAME_CLOSE, [reason])
  end.

(** [u16::try_from(payload.len()).unwrap_or_else(|_| panic!(..))] guards the length field. *)
Definition encode {E} (f : Frame) (buf : list Z) : res E (list Z) :=
  let (frame_type, payload) := payload f in
  if decide (is_u16 (Z.of_nat (length payload))) then
    Ok (((buf ++ [frame_type]) ++ to_be_bytes 2 (Z.of_nat (length payload))) ++ payload)
  else Panic.

(** ** Decoding *)

Definition require_len (payload : list Z) (expected : nat) (frame_name : string)
    : res FrameError unit :=
  if decide (length payload = expected) then Ok tt
  else Err (FrameError.InvalidPayload
    (frame_name +:+ " payload must be " +:+ pretty expected +:+ " bytes, got "
     +:+ pretty (length payload))).

(** The [match frame_type] of [decode]. *)
Definition decode_payload (frame_type : Z) (payload : list Z) : res FrameError Frame :=
  if frame_type =? FRAME_CLIENT_HELLO then
    _ ← require_len payload 3 "client hello";
    version ← index payload 0;
    c0 ← index payload 1; c1 ← index payload 2;
    Ok (ClientHello version (from_be_bytes [c0; c1]))
  else if frame_type =? FRAME_OPEN_REQUEST then
    if (length payload <? 4)%nat then
      Err (FrameError.InvalidPayload "open request payload too short")
    else
      cmd ← index payload 0;
      atyp ← index payload 1;
      let addr_len := (length payload - 4)%nat in
      addr ← slice payload 2 (2 + addr_len);
      p0 ← index payload (length payload - 2); p1 ← index payload (length payload - 1);
      Ok (OpenRequest cmd atyp addr (from_be_bytes [p0; p1]))
  else if frame_type =? FRAME_DATA then Ok (Data payload)
  else if frame_type =? FRAME_END_REQUEST then
    _ ← require_len payload 1 "end request";
    reason ← index payload 0; Ok (EndRequest reason)
  else if frame_type =? FRAME_RESET then
    _ ← require_len payload 1 "reset";
    reason ← index payload 0; Ok (Reset reason)
  else if frame_type =? FRAME_PING then
    _ ← require_len payload 4 "ping";
    t0 ← index payload 0; t1 ← index payload 1; t2 ← index payload 2; t3 ← index payload 3;
    Ok (Ping (from_be_bytes [t0; t1; t2; t3]))
  else if frame_type =? FRAME_PONG then
    _ ← require_len payload 4 "pong";
    t0 ← index payload 0; t1 ← index payload 1; t2 ← index payload 2; t3 ← index payload 3;
    Ok (Pong (from_be_bytes [t0; t1; t2; t3]))
  else if frame_type =? FRAME_CLOSE then
    _ ← require_len payload 1 "close";
    reason ← index payload 0; Ok (Close reason)
  else Err (FrameError.UnknownFrameType frame_type).

Definition decode (bytes : list Z) : res FrameError Frame :=
  if (length bytes <? 3)%nat then Err FrameError.UnexpectedEof
  else
    frame_type ← index bytes 0;
    l0 ← index bytes 1; l1 ← index bytes 2;
    let payload_len := Z.to_nat (from_be_bytes [l0; l1]) in
    if (length bytes <? 3 + payload_len)%nat then Err FrameError.UnexpectedEof
    else
      payload ← slice bytes 3 (3 + payload_len);
      decode_payload frame_type payload.

(** The number of bytes the frame at the head of [bs] occupies, when it is whole. *)
Definition frame_length (bs : list Z) : option nat :=
  match bs with
  | _ :: l0 :: l1 :: tl =>
      let n := Z.to_nat (from_be_bytes [l0; l1]) in
      if (n <=? length tl)%nat then Some (3 + n)%nat else None
  | _ => None
  end.

(** ** Stream versions *)

Section stream.
Context {St : Type} `{!AsyncIO St}.

Definition read_frame : prog St FrameError Frame :=
  header ← prog_map_err FrameError.Io (read_exact 3);
  h1 ← lift_res (index header 1); h2 ← lift_res (index header 2);
  let payload_len := Z.to_nat (from_be_bytes [h1; h2]) in
  payload ← prog_map_err FrameError.Io (read_exact payload_len);
  lift_res (decode (header ++ payload)).

Definition write_frame (frame : Frame) : prog St FrameError unit :=
  buf ← lift_res (encode frame []);
  prog_map_err FrameError.Io (write_all buf).

(** A sequence of frames, written or read one after the other. *)
Fixpoint write_frames (fs : list Frame) : prog St FrameError unit :=
  match fs with
  | [] => mret tt
  | f :: fs => _ ← write_frame f; write_frames fs
  end.

Fixpoint read_frames (n : nat) : prog St FrameError (list Frame) :=
  match n with
  | O => mret []
  | S n => f ← read_frame; fs ← read_frames n; mret (f :: fs)
  end.
End stream.

(** ** Proofs about the slice codec *)

Lemma payload_bytes f : wf_frame f -> is_bytes (payload f).2.
Proof. destruct f; simpl; intros; destruct_and?; bytes. Qed.

Lemma encode_ok {E} f buf :
  is_u16 (Z.of_nat (length (payload f).2)) ->
  encode f buf = Ok (buf ++ (payload f).1 ::
    to_be_bytes 2 (Z.of_nat (length (payload f).2)) ++ (payload f).2) :> res E _.
Proof.
  intros H. unfold encode. destruct (payload f) as [t p]. simpl in *.
  rewrite decide_True by done. by rewrite <- !app_assoc.
Qed.

(** The header of a decoded buffer, with the bound checks discharged. *)
Lemma decode_cons t l0 l1 tl :
  decode (t :: l0 :: l1 :: tl) =
    if (length tl <? Z.to_nat (from_be_bytes [l0; l1]))%nat then Err FrameError.UnexpectedEof
    else decode_payload t (take (Z.to_nat (from_be_bytes [l0; l1])) tl).
Proof.
  unfold decode. cbn -[from_be_bytes slice Nat.ltb].
  generalize (Z.to_nat (from_be_bytes [l0; l1])) as n. intros n.
  cases_cmp; try done. rewrite slice_ok by len. simpl. by rewrite Nat.sub_0_r.
Qed.

Lemma decode_short bs : (length bs < 3)%nat -> decode bs = Err FrameError.UnexpectedEof.
Proof. intros. unfold decode. by rewrite (proj2 (Nat.ltb_lt _ _)). Qed.

Lemma decode_payload_payload f :
  wf_frame f -> decode_payload (payload f).1 (payload f).2 = Ok f.
Proof.
  destruct f; simpl; intros; destruct_and?;
    try done; try (destruct (to_be_bytes_2 capabilities) as (a & b & -> & _ & _ & Hz));
    try (destruct (to_be_bytes_4 token) as (a & b & c & d & -> & Hz));
    try (unfold decode_payload; simpl; by rewrite ?Hz).
  all: destruct (to_be_bytes_2 port) as (a & b & -> & _ & _ & Hz).
  unfold decode_payload. change (FRAME_OPEN_REQUEST =? FRAME_CLIENT_HELLO) with false.
  rewrite Z.eqb_refl. cbn [app].
  pose proof (index_last2 (E:=FrameError) (cmd :: atyp :: addr) a b) as [Ha Hb].
  cbn [app] in Ha, Hb. cases_cmp. rewrite Ha, Hb, slice_ok by len. simpl. rewrite Hz by done.
  replace (_ - 0)%nat with (length addr) by len. by rewrite drop_0, take_app_length.
Qed.

(** What [encode] appends is decoded back, whatever follows it in the buffer. *)
Lemma decode_encoded f rest :
  wf_frame f -> is_u16 (Z.of_nat (length (payload f).2)) ->
  decode ((payload f).1 :: to_be_bytes 2 (Z.of_nat (length (payload f).2))
          ++ (payload f).2 ++ rest) = Ok f.
Proof.
  intros Hwf Hlen. destruct (to_be_bytes_2 (Z.of_nat (length (payload f).2)))
    as (a & b & -> & _ & _ & Hz).
  cbn [app]. rewrite decode_cons, Hz, Nat2Z.id by done. cases_cmp.
  rewrite take_app_length. by apply decode_payload_payload.
Qed.

Lemma open_request_inv p f :
  is_bytes p -> (4 <= length p)%nat ->
  (cmd ← index p 0;
   atyp ← index p 1;
   addr ← slice p 2 (2 + (length p - 4));
   p0 ← index p (length p - 2); p1 ← index p (length p - 1);
   Ok (OpenRequest cmd atyp addr (from_be_bytes [p0; p1]))) = Ok f :> res FrameError _ ->
  payload f = (FRAME_OPEN_REQUEST, p) /\ wf_frame f.
Proof.
  intros Hp Hlen. destruct p as [|cmd [|atyp tl]]; simpl in Hlen; [lia..|].
  destruct (split_last2 tl) as (addr & a & b & ->); [lia|].
  pose proof (index_last2 (E:=FrameError) (cmd :: atyp :: addr) a b) as [Ha Hb].
  cbn [app] in Ha, Hb. rewrite Ha, Hb, slice_ok by len. simpl.
  replace (_ - 0)%nat with (length addr) by len. rewrite drop_0, take_app_length.
  intros [= <-]. unfold is_bytes in Hp. rewrite !Forall_cons, Forall_app, !Forall_cons in Hp.
  destruct_and!. destruct (from_be_bytes_2 a b) as [? Heq]; [done..|].
  simpl. by rewrite Heq.
Qed.


(** Inversion of [decode_payload]: the payload is the one [payload] builds. *)
Lemma decode_payload_inv t p f :
  is_bytes p -> decode_payload t p = Ok f -> payload f = (t, p) /\ wf_frame f.
Proof.
  intros Hp. unfold decode_payload, require_len.
  repeat match goal with |- context [?a =? ?b] => destruct (Z.eqb_spec a b) as [->|?] end;
    try (case_decide; [|done]); try discriminate.
  3: by intros [= <-].
  2: { destruct (Nat.ltb_spec (length p) 4) as [|Hlen]; [done|]. by apply open_request_inv. }
  all: explode p; simpl; intros [= <-]; simpl; unfold is_bytes in Hp;
    pose proof Hp as Hp'; rewrite !Forall_cons in Hp'; destruct_and!.
  all: try (destruct (from_be_bytes_2 b0 b1) as [? ->]; done).
  all: try (destruct (from_be_bytes_4 b b0 b1 b2) as [? ->]; done).
  all: done.
Qed.

Lemma decode_frame_length bs n :
  frame_length bs = Some n -> (3 <= n <= length bs)%nat /\ decode (take n bs) = decode bs.
Proof.
  destruct bs as [|t [|l0 [|l1 tl]]]; try done. cbn -[from_be_bytes Nat.leb].
  remember (Z.to_nat (from_be_bytes [l0; l1])) as k eqn:Hk.
  destruct (Nat.leb_spec k (length tl)); [|done]. intros [= <-]. split; [len|].
  cbn [take Nat.add]. rewrite !decode_cons, <- Hk. cases_cmp.
  by rewrite take_take, Nat.min_id.
Qed.

Lemma decode_no_frame bs : frame_length bs = None -> decode bs = Err FrameError.UnexpectedEof.
Proof.
  destruct bs as [|t [|l0 [|l1 tl]]]; try done. cbn -[from_be_bytes Nat.leb].
  rewrite decode_cons. generalize (Z.to_nat (from_be_bytes [l0; l1])) as k.
  intros k. destruct (Nat.leb_spec k (length tl)); [done|]. by cases_cmp.
Qed.

Lemma decode_inv bs f :
  is_bytes bs -> decode bs = Ok f ->
  wf_frame f /\ exists b rest, bs = b ++ rest /\ encode f [] = Ok b :> res FrameError _.
Proof.
  intros Hb Hd. destruct bs as [|t [|l0 [|l1 tl]]]; [done..|].
  rewrite decode_cons in Hd. set (k := Z.to_nat _) in *.
  destruct (Nat.ltb_spec (length tl) k) as [|Hk]; [done|].
  unfold is_bytes in Hb. rewrite !Forall_cons in Hb. destruct_and!.
  apply decode_payload_inv in Hd as [Hp Hwf]; [|bytes]. split; [done|].
  destruct (from_be_bytes_2 l0 l1) as [Hu Heq]; [done..|].
  assert (length (take k tl) = k) as Hlen by len.
  assert (Z.of_nat k = from_be_bytes [l0; l1]) as Hz by (unfold in_u in Hu; lia).
  exists (t :: l0 :: l1 :: take k tl), (drop k tl). split; [by simpl; rewrite take_drop|].
  rewrite encode_ok; rewrite Hp; cbn [fst snd]; rewrite Hlen, Hz; [|done]. by rewrite Heq.
Qed.

(** No byte string makes the slice decoder panic or wait. *)
Lemma decode_payload_total t p :
  (exists f, decode_payload t p = Ok f)
  \/ (exists m, decode_payload t p = Err (FrameError.InvalidPayload m))
  \/ (decode_payload t p = Err (FrameError.UnknownFrameType t) /\ ~ 1 <= t <= 8).
Proof.
  unfold decode_payload, require_len.
  repeat match goal with |- context [?a =? ?b] => destruct (Z.eqb_spec a b) as [->|?] end;
    try (case_decide; [|by eauto]).
  2: {
    destruct (Nat.ltb_spec (length p) 4) as [|Hlen]; [by eauto|].
    destruct p as [|c [|a tl]]; simpl in Hlen; [lia..|].
    destruct (split_last2 tl) as (addr & x & y & ->); [lia|].
    pose proof (index_last2 (E:=FrameError) (c :: a :: addr) x y) as [Hx Hy].
    cbn [app] in Hx, Hy. rewrite Hx, Hy, slice_ok by len. simpl. eauto. }
  all: try (explode p; simpl); eauto.
  right; right. split; [done|].
  unfold FRAME_CLIENT_HELLO, FRAME_OPEN_REQUEST, FRAME_DATA, FRAME_END_REQUEST, FRAME_RESET,
    FRAME_PING, FRAME_PONG, FRAME_CLOSE in *. lia.
Qed.

Lemma decode_whole bs n : frame_length bs = Some n ->
  exists t l, bs = t :: l
    /\ ((exists f, decode bs = Ok f)
        \/ (exists m, decode bs = Err (FrameError.InvalidPayload m))
        \/ (decode bs = Err (FrameError.UnknownFrameType t) /\ ~ 1 <= t <= 8)).
Proof.
  destruct bs as [|t [|l0 [|l1 tl]]]; try done. cbn -[from_be_bytes Nat.leb].
  rewrite decode_cons. destruct (Nat.leb_spec (Z.to_nat (from_be_bytes [l0; l1])) (length tl));
    [|done]. intros _. cases_cmp. do 2 eexists. split; [done|]. apply decode_payload_total.
Qed.

(** ** Correctness of the slice codec *)

(** Encoding appends to the buffer exactly one frame, and decoding that frame gives back the
    value, whatever bytes follow; encoding panics only on a payload over 65535 bytes. *)
Theorem frame_roundtrip (f : Frame) (buf rest : list Z) :
  wf_frame f ->
  match encode f buf : res FrameError _ with
  | Ok out => exists b, out = buf ++ b /\ decode (b ++ rest) = Ok f
  | Panic => MAX_FRAME_PAYLOAD < Z.of_nat (length (payload f).2)
  | _ => False
  end.
Proof.
  intros Hwf. destruct (decide (is_u16 (Z.of_nat (length (payload f).2)))) as [Hu|Hu].
  - rewrite encode_ok by done. eexists. split; [done|].
    pose proof (decode_encoded f rest Hwf Hu) as H. cbn [app].
    by rewrite <- app_assoc.
  - unfold encode. destruct (payload f) as [t p]. simpl in *. rewrite decide_False by done.
    unfold in_u, MAX_FRAME_PAYLOAD in *. lia.
Qed.

Lemma frame_roundtrip_witness :
  wf_frame (OpenRequest 1 3 [101; 120] 443)
  /\ exists b, [9; 9] ++ [2; 0; 6; 1; 3; 101; 120; 1; 187] = [9; 9] ++ b
       /\ decode (b ++ [7]) = Ok (OpenRequest 1 3 [101; 120] 443).
Proof.
  assert (wf_frame (OpenRequest 1 3 [101; 120] 443)) as H by by_compute.
  split; [exact H|]. exact (frame_roundtrip _ [9; 9] [7] H).
Defined.

(** Decoding is canonical: a successfully decoded buffer starts with exactly the bytes that
    encoding the result produces, and the result's fields are in range. *)
Theorem decode_canonical (bs : list Z) (f : Frame) :
  is_bytes bs -> decode bs = Ok f ->
  wf_frame f /\ exists b rest, bs = b ++ rest /\ encode f [] = Ok b :> res FrameError _.
Proof. apply decode_inv. Qed.

Lemma decode_canonical_witness :
  wf_frame (Ping 16909060)
  /\ exists b rest, [6; 0; 4; 1; 2; 3; 4; 99] = b ++ rest
       /\ encode (Ping 16909060) [] = Ok b :> res FrameError _.
Proof.
  apply (decode_canonical [6; 0; 4; 1; 2; 3; 4; 99]); [|reflexivity].
  by_compute.
Defined.

(** The slice decoder is total: on every input it returns a frame or one of three errors, never
    a panic from an out-of-range index; "unexpected end" is reported exactly for a truncated
    header or payload, and "unknown type" only for a tag outside 1..8. *)
Theorem decode_total (bs : list Z) :
  match decode bs with
  | Ok _ | Err (FrameError.InvalidPayload _) => is_Some (frame_length bs)
  | Err FrameError.UnexpectedEof => frame_length bs = None
  | Err (FrameError.UnknownFrameType t) => hd_error bs = Some t /\ ~ 1 <= t <= 8
  | Err (FrameError.OversizedPayload _) | Err (FrameError.Io _) | Panic | Pending => False
  end.
Proof.
  destruct (frame_length bs) as [n|] eqn:Hn; [|by rewrite (decode_no_frame _ Hn)].
  by destruct (decode_whole bs n Hn) as (t & l & -> & [[f ->]|[[m ->]|[-> ?]]]).
Qed.

(** ** Correctness of the stream codec *)

Section stream_proofs.
Context {St : Type} `{!AsyncIO St, !AsyncIOLaws St}.
#[local] Set Default Proof Using "Type*".
Implicit Types s : St.

Lemma read_frame_whole s n :
  frame_length (incoming s) = Some n ->
  exists s', read_frame s = (decode (incoming s), s')
    /\ incoming s' = drop n (incoming s) /\ only_read s s'.
Proof.
  intros Hn. pose proof (decode_frame_length _ _ Hn) as [Hle Hd].
  destruct (incoming s) as [|t [|l0 [|l1 tl]]] eqn:Hi; try done.
  cbn -[from_be_bytes Nat.leb] in Hn. remember (Z.to_nat (from_be_bytes [l0; l1])) as k eqn:Hk.
  destruct (Nat.leb_spec k (length tl)); [|done]. injection Hn as <-.
  destruct (read_exact_split 3 k s) as (s1 & s2 & H1 & H2 & Hi2 & He2 & Ho2 & Hw2); [rewrite Hi; len|].
  rewrite Hi in H1, H2, Hi2. exists s2. split; [|by rewrite Hi2].
  apply (prog_map_err_eq FrameError.Io) in H1, H2. unfold read_frame.
  run H1. change (index (take 3 (t :: l0 :: l1 :: tl)) 1) with (@Ok FrameError Z l0).
  change (index (take 3 (t :: l0 :: l1 :: tl)) 2) with (@Ok FrameError Z l1).
  rewrite bind_lift, bind_lift. cbv zeta. rewrite <- Hk.
  run H2. unfold lift_res. by rewrite <- Hd.
Qed.

Lemma read_frame_partial s :
  frame_length (incoming s) = None ->
  exists r s', read_frame s = (r, s')
    /\ (r = Pending \/ exists e, r = Err (FrameError.Io e))
    /\ (ends s = true -> exists m, r = Err (FrameError.Io (IoErr UnexpectedEof m)))
    /\ only_read s s'.
Proof.
  assert (forall (r : res io_error (list Z)),
    r <> Panic -> (forall b, r <> Ok b) ->
    map_err (A:=list Z) FrameError.Io r = Pending \/ exists e, map_err FrameError.Io r = Err (FrameError.Io e))
    as Hshape by (intros [] ??; naive_solver).
  intros Hn. destruct (decide (length (incoming s) < 3)%nat) as [Hs|Hs].
  { destruct (read_exact_short 3 s Hs) as (r & s' & H1 & Hnp & Hno & Heof & He & Ho & Hw).
    apply (prog_map_err_eq FrameError.Io) in H1. unfold read_frame.
    destruct (Hshape r) as [Hr|[e Hr]]; [done..| |]; rewrite Hr in H1; run H1;
      do 2 eexists; unfold only_read; split_and!; eauto; intros (m & ->)%Heof; naive_solver. }
  destruct (incoming s) as [|t [|l0 [|l1 tl]]] eqn:Hi; simpl in Hs; try lia.
  cbn -[from_be_bytes Nat.leb] in Hn. remember (Z.to_nat (from_be_bytes [l0; l1])) as k eqn:Hk.
  destruct (Nat.leb_spec k (length tl)); [done|].
  destruct (read_exact_enough 3 s) as (s1 & H1 & Hi1 & He1 & Ho1 & Hw1); [rewrite Hi; len|].
  rewrite Hi in H1, Hi1.
  destruct (read_exact_short k s1) as (r & s2 & H2 & Hnp & Hno & Heof & He2 & Ho2 & Hw2).
  { rewrite Hi1. simpl. by rewrite drop_0. }
  apply (prog_map_err_eq FrameError.Io) in H1, H2. unfold read_frame.
  run H1. change (index (take 3 (t :: l0 :: l1 :: tl)) 1) with (@Ok FrameError Z l0).
  change (index (take 3 (t :: l0 :: l1 :: tl)) 2) with (@Ok FrameError Z l1).
  rewrite bind_lift, bind_lift. cbv zeta. rewrite <- Hk.
  destruct (Hshape r) as [Hr|[e Hr]]; [done..| |]; rewrite Hr in H2; run H2;
    do 2 eexists; unfold only_read; rewrite He2, He1, Ho2, Ho1; split_and!; eauto;
    intros Hends; rewrite <- He1 in Hends; destruct (Heof Hends) as [m Hm]; rewrite Hm in Hr; simplify_eq/=; eauto.
Qed.

Lemma write_frame_ok f s b :
  encode f [] = Ok b :> res FrameError _ -> writable s ->
  exists s', write_frame f s = (Ok tt, s') /\ outgoing s' = outgoing s ++ b
    /\ incoming s' = incoming s /\ ends s' = ends s /\ writable s'.
Proof.
  intros Hb Hw. destruct (write_all_writable b s Hw) as (s' & H1 & ?).
  exists s'. split; [|done]. unfold write_frame. rewrite Hb.
  apply (prog_map_err_eq FrameError.Io) in H1. by rewrite bind_lift, H1.
Qed.

(** A write never touches the read side, and only fails with [FrameError::Io] or, on an oversized
    payload, a panic. *)
Lemma write_frame_any f s r s' :
  write_frame f s = (r, s') ->
  incoming s' = incoming s /\ ends s' = ends s
  /\ (forall e, r = Err e -> exists err, e = FrameError.Io err)
  /\ (r = Ok tt -> exists b, encode f [] = Ok b :> res FrameError _ /\ outgoing s' = outgoing s ++ b).
Proof.
  unfold write_frame. destruct (encode f []) as [b|e| |] eqn:Hb.
  - rewrite bind_lift. unfold prog_map_err. destruct (write_all b s) as [r' s1] eqn:Hw.
    intros [= <- <-]. apply write_all_any in Hw as (? & ? & ? & Hok & _). split_and!; [done..| |].
    + intros e. destruct r'; naive_solver.
    + destruct r' as [[]| | |]; try done. naive_solver.
  - unfold encode in Hb. destruct (payload f). by case_decide.
  - intros [= <- <-]. naive_solver.
  - unfold encode in Hb. destruct (payload f). by case_decide.
Qed.

Definition sendable (f : Frame) : Prop :=
  wf_frame f /\ Z.of_nat (length (payload f).2) <= MAX_FRAME_PAYLOAD.

Lemma sendable_encode f :
  sendable f -> exists b, encode f [] = Ok b :> res FrameError _
    /\ frame_length b = Some (length b) /\ forall rest, decode (b ++ rest) = Ok f
      /\ frame_length (b ++ rest) = Some (length b).
Proof.
  intros [Hwf Hlen]. assert (is_u16 (Z.of_nat (length (payload f).2))) as Hu.
  { unfold in_u, MAX_FRAME_PAYLOAD in *. lia. }
  rewrite encode_ok by done. eexists. split; [done|]. cbn [app].
  assert (forall rest, frame_length (((payload f).1
    :: to_be_bytes 2 (Z.of_nat (length (payload f).2)) ++ (payload f).2) ++ rest)
    = Some (3 + length (payload f).2)%nat) as Hfl.
  { intros rest. destruct (to_be_bytes_2 (Z.of_nat (length (payload f).2))) as (x & y & -> & _ & _ & Hz).
    cbn -[from_be_bytes Nat.leb]. rewrite Hz, Nat2Z.id by done. by cases_cmp. }
  replace (length (_ :: _ ++ _)) with (3 + length (payload f).2)%nat by len.
  split; [pose proof (Hfl []) as H0; by rewrite app_nil_r in H0|]. intros rest. split; [|apply Hfl].
  pose proof (decode_encoded f rest Hwf Hu) as Hd. by rewrite <- Hd, <- app_assoc.
Qed.

Lemma read_frame_sent f s b rest :
  sendable f -> encode f [] = Ok b :> res FrameError _ -> incoming s = b ++ rest ->
  exists s', read_frame s = (Ok f, s') /\ incoming s' = rest /\ only_read s s'.
Proof.
  intros (b' & Hb' & _ & Hrest)%sendable_encode Hb Hi.
  assert (b' = b) as -> by congruence. destruct (Hrest rest) as [Hd Hfl]. rewrite <- Hi in Hd, Hfl.
  destruct (read_frame_whole s _ Hfl) as (s' & Hr & Hi' & Hor).
  exists s'. rewrite Hr, Hd, Hi', Hi. split_and!; [done| |done]. by rewrite drop_app_length.
Qed.

(** The same with the bytes of a frame named. *)
Definition wire (f : Frame) : list Z :=
  (payload f).1 :: to_be_bytes 2 (Z.of_nat (length (payload f).2)) ++ (payload f).2.

Lemma encode_wire f : sendable f -> encode f [] = Ok (wire f) :> res FrameError _.
Proof. intros [_ Hlen]. apply (encode_ok f []). unfold in_u, MAX_FRAME_PAYLOAD in *. lia. Qed.

Lemma read_frame_wire f rest s :
  sendable f -> incoming s = wire f ++ rest ->
  exists s', read_frame s = (Ok f, s') /\ incoming s' = rest /\ only_read s s'.
Proof. intros Hf. apply read_frame_sent; [done|by apply encode_wire]. Qed.

Lemma write_frame_wire f s :
  sendable f -> writable s ->
  exists s', write_frame f s = (Ok tt, s') /\ outgoing s' = outgoing s ++ wire f
    /\ incoming s' = incoming s /\ ends s' = ends s /\ writable s'.
Proof. intros Hf. by apply write_frame_ok, encode_wire. Qed.

(** What every read, or every write, of a stream respects, frames respect. *)
Lemma keeps_read_frames (R : relation St) `{!PreOrder R} n :
  (forall m, keeps R (read_exact m)) -> keeps R (read_frames n).
Proof using. intros H. induction n as [|n IH]; cbn; unfold read_frame; keep; auto. Qed.

Lemma keeps_write_frames (R : relation St) `{!PreOrder R} fs :
  (forall b, keeps R (write_all b)) -> keeps R (write_frames fs).
Proof using. intros H. induction fs as [|f fs IH]; cbn; unfold write_frame; keep; auto. Qed.

Lemma write_frames_ok fs s :
  Forall sendable fs -> writable s ->
  exists s' bs, write_frames fs s = (Ok tt, s') /\ outgoing s' = outgoing s ++ bs
    /\ incoming s' = incoming s /\ writable s'
    /\ forall (r : St) rest, incoming r = bs ++ rest ->
         exists r', read_frames (length fs) r = (Ok fs, r') /\ incoming r' = rest.
Proof.
  intros Hfs. revert s. induction Hfs as [|f fs Hf _ IH]; intros s Hw.
  { exists s, []. rewrite app_nil_r. split_and!; [done..|]. simpl. eauto. }
  destruct (sendable_encode f Hf) as (b & Hb & _).
  destruct (write_frame_ok f s b Hb Hw) as (s1 & H1 & Ho1 & Hi1 & _ & Hw1).
  destruct (IH s1 Hw1) as (s2 & bs & H2 & Ho2 & Hi2 & Hw2 & Hread).
  exists s2, (b ++ bs). cbn [write_frames]. run H1.
  split_and!; [done|by rewrite Ho2, Ho1, <- app_assoc|congruence|done|].
  intros r rest Hr. rewrite <- app_assoc in Hr.
  destruct (read_frame_sent f r b _ Hf Hb Hr) as (r1 & Hr1 & Hi' & _).
  destruct (Hread r1 rest Hi') as (r2 & Hr2 & Hi2').
  exists r2. cbn [read_frames length]. run Hr1. run Hr2. done.
Qed.

(** C10: a sequence of frames written to a stream is read back as the same sequence by the peer:
    frame boundaries are recovered exactly and nothing after the last frame is consumed. *)
Theorem frames_roundtrip (fs : list Frame) (w r : St) (rest : list Z) :
  Forall sendable fs -> writable w ->
  exists w' bs, write_frames fs w = (Ok tt, w') /\ outgoing w' = outgoing w ++ bs
    /\ (incoming r = bs ++ rest ->
        exists r', read_frames (length fs) r = (Ok fs, r') /\ incoming r' = rest).
Proof.
  intros Hfs Hw. destruct (write_frames_ok fs w Hfs Hw) as (w' & bs & ? & ? & ? & ? & ?).
  exists w', bs. split_and!; eauto.
Qed.

(** C24: [read_frame] refines [decode]: on a stream that holds a whole frame it returns what
    [decode] returns on the buffered bytes and consumes that frame and nothing more; on a
    truncated frame it waits or fails with [FrameError::Io], and at end of stream the error is
    [Io(UnexpectedEof)].  In particular [FrameError::UnexpectedEof] never comes out of a stream. *)
Theorem read_frame_refines_decode (s : St) :
  match frame_length (incoming s) with
  | Some n => exists s', read_frame s = (decode (incoming s), s')
      /\ incoming s' = drop n (incoming s) /\ only_read s s'
  | None => exists r s', read_frame s = (r, s')
      /\ (r = Pending \/ exists e, r = Err (FrameError.Io e))
      /\ (ends s = true -> exists m, r = Err (FrameError.Io (IoErr UnexpectedEof m)))
      /\ only_read s s'
  end /\ (read_frame s).1 <> Err FrameError.UnexpectedEof.
Proof.
  destruct (frame_length (incoming s)) as [n|] eqn:Hn.
  - destruct (read_frame_whole s n Hn) as (s' & Hr & ?). split; [by eauto|].
    rewrite Hr. simpl.
    destruct (decode_whole _ n Hn) as (t & l & _ & [[f ->]|[[m ->]|[-> ?]]]); congruence.
  - destruct (read_frame_partial s Hn) as (r & s' & Hr & Hshape & ?). split; [by eauto 10|].
    rewrite Hr. simpl. destruct Hshape as [->|[e ->]]; congruence.
Qed.
End stream_proofs.

Lemma frames_roundtrip_witness :
  let r := open_with [6; 0; 4; 0; 0; 0; 42; 3; 0; 2; 1; 2; 77] in
  exists w' bs, write_frames [Ping 42; Data [1; 2]] (open_with []) = (Ok tt, w')
    /\ outgoing w' = outgoing (open_with []) ++ bs
    /\ (incoming r = bs ++ [77] ->
        exists r', read_frames 2 r = (Ok [Ping 42; Data [1; 2]], r') /\ incoming r' = [77]).
Proof.
  intros r. apply (frames_roundtrip [Ping 42; Data [1; 2]] (open_with []) r [77]); [|reflexivity].
  by_compute.
Defined.

Lemma read_frame_refines_decode_witness :
  (exists s', read_frame (open_with [8; 0; 1; 9; 5]) = (decode [8; 0; 1; 9; 5], s')
      /\ incoming s' = [5] /\ only_read (open_with [8; 0; 1; 9; 5]) s')
  /\ (read_frame (open_with [8; 0; 1; 9; 5])).1 <> Err FrameError.UnexpectedEof.
Proof. exact (read_frame_refines_decode (open_with [8; 0; 1; 9; 5])). Defined.

