(* ===== verification/Opt.v ===== *)
(** * Options (shuttle/src/opt.rs)

    The reuse configuration with its validation, and the text parsers of the command line.  Text
    is a list of Unicode scalar values, as Rust's [str] methods see it. *)
From S2P Require Import Prelude.
From stdpp Require Import strings.
From S2P Require Import Time.
Open Scope Z_scope.

(** ** Reuse configuration *)

Record ReuseConfig := {
  max_idle : Z;
  max_requests : Z;
  max_age : Duration;
  idle_timeout : Duration;
  keepalive_interval : Duration;
  keepalive_timeout : Duration;
  jitter_percent : Z;
}.

(** [ReuseConfig::new]: the checks in the order the code makes them. *)
Definition reuse_config_new (max_idle max_requests max_age_secs idle_timeout_secs
    keepalive_interval_secs keepalive_timeout_secs jitter_percent : Z)
    (keepalive_flag_was_set : bool) : res string ReuseConfig :=
  if max_idle =? 0 then Err "reuse-max-idle must be greater than 0"
  else if max_requests =? 0 then Err "reuse-max-requests must be greater than 0"
  else if max_age_secs =? 0 then Err "reuse-max-age must be greater than 0"
  else if idle_timeout_secs =? 0 then Err "reuse-idle-timeout must be greater than 0"
  else if keepalive_interval_secs =? 0 then Err "keepalive-interval must be greater than 0"
  else if keepalive_timeout_secs =? 0 then Err "keepalive-timeout must be greater than 0"
  else if keepalive_interval_secs <=? keepalive_timeout_secs then
    Err "keepalive-timeout must be less than keepalive-interval"
  else if max_age_secs <=? idle_timeout_secs then
    Err "reuse-idle-timeout must be less than reuse-max-age"
  else if 100 <? jitter_percent then Err "reuse-jitter-percent must be between 0 and 100"
  else Ok {|
    max_idle := max_idle;
    max_requests := max_requests;
    max_age := from_secs max_age_secs;
    idle_timeout := from_secs idle_timeout_secs;
    keepalive_interval := from_secs keepalive_interval_secs;
    keepalive_timeout := from_secs keepalive_timeout_secs;
    jitter_percent := jitter_percent;
  |}.

(** The fields of [CltOpt] that [reuse_config] reads. *)
Record CltOpt := {
  reuse : bool;
  reuse_max_idle : Z;
  reuse_max_requests : Z;
  reuse_max_age : Z;
  reuse_idle_timeout : Z;
  opt_keepalive_interval : Z;
  opt_keepalive_timeout : Z;
  reuse_jitter_percent : Z;
}.

Definition wf_opt (o : CltOpt) : Prop :=
  is_u64 (reuse_max_idle o) /\ is_u64 (reuse_max_requests o) /\ is_u64 (reuse_max_age o)
  /\ is_u64 (reuse_idle_timeout o) /\ is_u64 (opt_keepalive_interval o)
  /\ is_u64 (opt_keepalive_timeout o) /\ is_u8 (reuse_jitter_percent o).

Definition reuse_config (self : CltOpt) : res string (option ReuseConfig) :=
  if negb (reuse self) then Ok None
  else Some <$> reuse_config_new (reuse_max_idle self) (reuse_max_requests self)
    (reuse_max_age self) (reuse_idle_timeout self) (opt_keepalive_interval self)
    (opt_keepalive_timeout self) (reuse_jitter_percent self) true.

(** The server's built-in configuration ([default_server_reuse_config] in server.rs). *)
Definition default_server_reuse_config : ReuseConfig := {|
  max_idle := 4;
  max_requests := 100;
  max_age := from_secs 1800;
  idle_timeout := from_secs 300;
  keepalive_interval := from_secs 30;
  keepalive_timeout := from_secs 10;
  jitter_percent := 10;
|}.

(** What the components rely on: counts and timers are positive and ordered. *)
Definition valid_config (c : ReuseConfig) : Prop :=
  0 < max_idle c /\ 0 < max_requests c
  /\ 0 < idle_timeout c < max_age c
  /\ 0 < keepalive_timeout c < keepalive_interval c
  /\ jitter_percent c <= 100.

#[export] Instance wf_opt_dec o : Decision (wf_opt o).
Proof. unfold wf_opt. apply _. Defined.

(** ** Command-line text *)

Definition text := list Z.

(** [char::is_whitespace]: the Unicode [White_Space] property. *)
Definition is_whitespace (c : Z) : bool :=
  ((9 <=? c) && (c <=? 13)) || (c =? 32) || (c =? 133) || (c =? 160) || (c =? 5760)
  || ((8192 <=? c) && (c <=? 8202)) || (c =? 8232) || (c =? 8233) || (c =? 8239)
  || (c =? 8287) || (c =? 12288).

Fixpoint trim_start (s : text) : text :=
  match s with
  | [] => []
  | c :: s' => if is_whitespace c then trim_start s' else s
  end.
(** [str::trim]. *)
Definition trim (s : text) : text := reverse (trim_start (reverse (trim_start s))).

(** The accumulator loop of [usize::from_str]: [None] on a non-digit or an overflow. *)
Fixpoint parse_digits (max acc : Z) (s : text) : option Z :=
  match s with
  | [] => Some acc
  | c :: s' =>
      if (48 <=? c) && (c <=? 57) then
        let acc' := acc * 10 + (c - 48) in
        if acc' <=? max then parse_digits max acc' s' else None
      else None
  end.

(** [str::parse::<uN>]: digits with an optional leading plus; the empty string is an error. *)
Definition parse_unsigned (max : Z) (s : text) : option Z :=
  match s with
  | [] => None
  | 43 :: s' => match s' with [] => None | _ => parse_digits max 0 s' end
  | _ => parse_digits max 0 s
  end.

Definition USIZE_MAX : Z := 2 ^ 64 - 1.
Definition parse_usize : text -> option Z := parse_unsigned USIZE_MAX.

(** [s.find(c)] and [s.split_at(i)] at the first occurrence of [c]: what is before it and what
    starts with it. *)
Fixpoint split_at_first (c : Z) (s : text) : option (text * text) :=
  match s with
  | [] => None
  | d :: s' =>
      if c =? d then Some ([], s)
      else match split_at_first c s' with
           | Some (a, b) => Some (d :: a, b)
           | None => None
           end
  end.

Definition colon : Z := 58.

(** [parse_preflight_bounds]. *)
Definition parse_preflight_bounds (s : text) : res string (Z * option Z) :=
  let s := trim s in
  if decide (s = []) then Ok (0, Some 0)
  else match parse_usize s with
  | Some n => Ok (n, Some n)
  | None =>
    match split_at_first colon s with
    | Some (a, b) =>
        let a := trim a in
        let b := trim (drop 1 b) in
        a ← (if decide (a = []) then Ok 0
             else match parse_usize a with
                  | Some n => Ok n
                  | None => Err "Min present but not integer"%string
                  end);
        b ← (if decide (b = []) then Ok None
             else match parse_usize b with
                  | Some n => Ok (Some n)
                  | None => Err "Max present but not integer"%string
                  end);
        if (a =? 0) && bool_decide (b <> Some 0) then Err "Min cannot be 0 if max is not 0"%string
        else Ok (a, b)
    | None => Err "Unrecognized bounds, expected format: NUM, MIN:MAX, MIN:, :MAX"%string
    end
  end.

(** The array parsers, on the generic parser of [ja3_rustls]: [u16s] and [strings] are
    [ConcatenatedParser::<u16, ','>::from_str] and the same for strings; a string is its bytes. *)
Section arrays.
Context (u16s : text -> res string (list Z)) (strings : text -> res string (list (list Z))).

Definition parse_u16_array (s : text) : res string (list Z) := u16s s.
Definition parse_alpn_array (s : text) : res string (list (list Z)) := strings s.
End arrays.

(** ** Proofs: configuration *)

(** The record [ReuseConfig::new] would build from its arguments. *)
Definition candidate_config (max_idle max_requests max_age_secs idle_timeout_secs
    keepalive_interval_secs keepalive_timeout_secs jitter_percent : Z) : ReuseConfig := {|
  max_idle := max_idle;
  max_requests := max_requests;
  max_age := from_secs max_age_secs;
  idle_timeout := from_secs idle_timeout_secs;
  keepalive_interval := from_secs keepalive_interval_secs;
  keepalive_timeout := from_secs keepalive_timeout_secs;
  jitter_percent := jitter_percent;
|}.

Lemma reuse_config_new_cases mi mr ma it ki kt jp flag :
  0 <= mi -> 0 <= mr -> 0 <= ma -> 0 <= it -> 0 <= ki -> 0 <= kt ->
  (reuse_config_new mi mr ma it ki kt jp flag = Ok (candidate_config mi mr ma it ki kt jp)
    /\ valid_config (candidate_config mi mr ma it ki kt jp))
  \/ ((exists m, reuse_config_new mi mr ma it ki kt jp flag = Err m)
    /\ ~ valid_config (candidate_config mi mr ma it ki kt jp)).
Proof.
  intros. unfold reuse_config_new, valid_config, candidate_config, from_secs, NANOS_PER_SEC.
  cbn [max_idle max_requests max_age idle_timeout keepalive_interval keepalive_timeout jitter_percent].
  cases_cmp; first [right; split; [by eauto|lia] | left; split; [done|lia]].
Qed.

Lemma reuse_config_cases (o : CltOpt) :
  wf_opt o ->
  let c := candidate_config (reuse_max_idle o) (reuse_max_requests o) (reuse_max_age o)
    (reuse_idle_timeout o) (opt_keepalive_interval o) (opt_keepalive_timeout o)
    (reuse_jitter_percent o) in
  match reuse_config o with
  | Ok None => reuse o = false
  | Ok (Some c') => reuse o = true /\ c' = c /\ valid_config c
  | Err _ => reuse o = true /\ ~ valid_config c
  | Panic | Pending => False
  end.
Proof.
  intros Hwf c. unfold wf_opt, in_u in Hwf. unfold reuse_config.
  destruct (reuse o); cbn [negb]; [|done].
  destruct (reuse_config_new_cases (reuse_max_idle o) (reuse_max_requests o) (reuse_max_age o)
    (reuse_idle_timeout o) (opt_keepalive_interval o) (opt_keepalive_timeout o)
    (reuse_jitter_percent o) true) as [[-> ?]|[[m ->] ?]]; simpl;
    destruct_and?; auto; lia.
Qed.

(** C28: [CltOpt::reuse_config] accepts exactly the configurations the components rely on: with
    reuse off the result is [None]; with reuse on it is the configuration built from the options
    when that is valid (positive counts and timers, pong timeout below the ping interval, idle
    timeout below the maximum age, jitter at most 100) and an error otherwise.  It never panics. *)
Theorem reuse_config_valid (o : CltOpt) :
  wf_opt o ->
  let c := candidate_config (reuse_max_idle o) (reuse_max_requests o) (reuse_max_age o)
    (reuse_idle_timeout o) (opt_keepalive_interval o) (opt_keepalive_timeout o)
    (reuse_jitter_percent o) in
  match reuse_config o with
  | Ok None => reuse o = false
  | Ok (Some c') => reuse o = true /\ c' = c /\ valid_config c
  | Err _ => reuse o = true /\ ~ valid_config c
  | Panic | Pending => False
  end.
Proof. apply reuse_config_cases. Qed.

Lemma reuse_config_valid_witness :
  let o := {| reuse := true; reuse_max_idle := 4; reuse_max_requests := 100;
              reuse_max_age := 1800; reuse_idle_timeout := 300; opt_keepalive_interval := 30;
              opt_keepalive_timeout := 10; reuse_jitter_percent := 10 |} in
  true = true /\ default_server_reuse_config = candidate_config 4 100 1800 300 30 10 10
  /\ valid_config (candidate_config 4 100 1800 300 30 10 10).
Proof.
  intros o. assert (wf_opt o) as H by by_compute. exact (reuse_config_valid o H).
Defined.

(** ** Proofs: text *)

Definition is_digit (c : Z) : Prop := 48 <= c <= 57.
(** The decimal value of a digit string. *)
Definition number (s : text) : Z := foldl (fun acc c => acc * 10 + (c - 48)) 0 s.

Lemma number_ge acc s : 0 <= acc -> Forall is_digit s ->
  acc <= foldl (fun acc c => acc * 10 + (c - 48)) acc s.
Proof.
  intros Hacc Hs. revert acc Hacc. induction Hs as [|c s Hc _ IH]; intros acc Hacc; simpl; [lia|].
  unfold is_digit in Hc. specialize (IH (acc * 10 + (c - 48))). lia.
Qed.

Lemma number_nonneg s : Forall is_digit s -> 0 <= number s.
Proof. by apply number_ge. Qed.

Lemma parse_digits_spec max acc s : 0 <= acc <= max -> Forall is_digit s ->
  parse_digits max acc s =
    let n := foldl (fun acc c => acc * 10 + (c - 48)) acc s in
    if n <=? max then Some n else None.
Proof.
  intros Hacc Hs. revert acc Hacc. induction Hs as [|c s Hc Hs IH]; intros acc Hacc; simpl.
  { by rewrite (proj2 (Z.leb_le _ _)) by lia. }
  unfold is_digit in Hc. rewrite (proj2 (Z.leb_le 48 c)), (proj2 (Z.leb_le c 57)) by lia.
  simpl. destruct (Z.leb_spec (acc * 10 + (c - 48)) max); [apply IH; lia|].
  pose proof (number_ge (acc * 10 + (c - 48)) s ltac:(lia) Hs). by cases_cmp.
Qed.

Lemma parse_digits_colon max acc a b : parse_digits max acc (a ++ colon :: b) = None.
Proof.
  revert acc. induction a as [|c a IH]; intros acc; simpl; [done|].
  destruct (_ && _); [|done]. by destruct (_ <=? max).
Qed.

Lemma parse_unsigned_no_plus max c s : c <> 43 ->
  parse_unsigned max (c :: s) = parse_digits max 0 (c :: s).
Proof. intros. unfold parse_unsigned. by repeat case_match. Qed.

Lemma parse_usize_number s : s <> [] -> Forall is_digit s ->
  parse_usize s = if number s <=? USIZE_MAX then Some (number s) else None.
Proof.
  intros Hne Hs. assert (parse_usize s = parse_digits USIZE_MAX 0 s) as ->.
  { destruct Hs as [|c s Hc Hs]; [done|]. unfold is_digit in Hc.
    apply parse_unsigned_no_plus. lia. }
  apply parse_digits_spec; [done|done].
Qed.

Lemma parse_usize_colon a b : parse_usize (a ++ colon :: b) = None.
Proof.
  unfold parse_usize. destruct a as [|c a]; [done|]. cbn [app].
  destruct (decide (c = 43)) as [->|Hc].
  - cbn [parse_unsigned]. destruct (a ++ colon :: b) eqn:E; [by destruct a|].
    rewrite <- E. apply parse_digits_colon.
  - rewrite parse_unsigned_no_plus by done. apply (parse_digits_colon _ _ (c :: a)).
Qed.

Lemma split_at_first_app c a b : c ∉ a -> split_at_first c (a ++ c :: b) = Some (a, c :: b).
Proof.
  induction a as [|d a IH]; simpl; intros Hc.
  - by rewrite Z.eqb_refl.
  - apply not_elem_of_cons in Hc as [? ?]. rewrite IH by done.
    by rewrite (proj2 (Z.eqb_neq _ _)).
Qed.

Lemma trim_start_app w s : Forall (fun c => is_whitespace c = true) w ->
  trim_start (w ++ s) = trim_start s.
Proof. induction 1 as [|c w Hc _ IH]; simpl; [done|]. by rewrite Hc. Qed.

Lemma trim_start_solid s c : hd_error s = Some c -> is_whitespace c = false -> trim_start s = s.
Proof. destruct s; simpl; intros; simplify_eq. by case_match. Qed.

(** Trimming removes exactly the white space around a text that neither starts nor ends with
    white space. *)
Lemma trim_around w1 s w2 c d :
  Forall (fun c => is_whitespace c = true) w1 -> Forall (fun c => is_whitespace c = true) w2 ->
  hd_error s = Some c -> is_whitespace c = false ->
  last s = Some d -> is_whitespace d = false ->
  trim (w1 ++ s ++ w2) = s.
Proof.
  intros Hw1 Hw2 Hc Hcw Hd Hdw. unfold trim. rewrite trim_start_app by done.
  rewrite (trim_start_solid (s ++ w2) c); [|by destruct s|done].
  rewrite reverse_app, trim_start_app by by apply Forall_reverse.
  rewrite (trim_start_solid (reverse s) d); [by rewrite reverse_involutive| |done].
  rewrite <- head_reverse in Hd. by destruct (reverse s).
Qed.

Lemma digit_not_space c : is_digit c -> is_whitespace c = false.
Proof. unfold is_digit, is_whitespace. intros. cases_cmp; done. Qed.

Lemma digits_ends s : s <> [] -> Forall is_digit s ->
  exists c d, hd_error s = Some c /\ is_whitespace c = false
    /\ last s = Some d /\ is_whitespace d = false.
Proof.
  intros Hne Hs. destruct s as [|c s]; [done|].
  destruct (last (c :: s)) as [d|] eqn:Hd; [|by apply last_None in Hd].
  exists c, d. apply Forall_cons in Hs as Hs'. split_and!; [done| |done|].
  - by apply digit_not_space, Hs'.
  - apply digit_not_space. apply last_Some_elem_of in Hd. by eapply Forall_forall in Hs.
Qed.

Lemma trim_digits w1 s w2 :
  Forall (fun c => is_whitespace c = true) w1 -> Forall (fun c => is_whitespace c = true) w2 ->
  s <> [] -> Forall is_digit s -> trim (w1 ++ s ++ w2) = s.
Proof.
  intros ?? Hne Hs. destruct (digits_ends s Hne Hs) as (c & d & ? & ? & ? & ?).
  by apply (trim_around _ _ _ c d).
Qed.

Lemma colon_not_digits s w : Forall is_digit s -> Forall (fun c => is_whitespace c = true) w ->
  colon ∉ s ++ w.
Proof.
  intros Hs Hw [Hc|Hc]%elem_of_app.
  - eapply Forall_forall in Hs; [|done]. unfold is_digit, colon in Hs. lia.
  - eapply Forall_forall in Hw; [|done]. done.
Qed.

(** [parse_preflight_bounds] on ["MIN:MAX"]: with any white space around the two numbers, the
    result is their decimal values; the only rejections are a value over [usize::MAX] and a zero
    minimum with a non-zero maximum.  The two values are never compared, so a minimum above the
    maximum is accepted, for instance ["5:2"]. *)
Theorem parse_preflight_range (w1 a w2 w3 b w4 : text) :
  Forall (fun c => is_whitespace c = true) (w1 ++ w2 ++ w3 ++ w4) ->
  a <> [] -> Forall is_digit a -> b <> [] -> Forall is_digit b ->
  parse_preflight_bounds (w1 ++ a ++ w2 ++ colon :: w3 ++ b ++ w4) =
    if USIZE_MAX <? number a then Err "Min present but not integer"%string
    else if USIZE_MAX <? number b then Err "Max present but not integer"%string
    else if (number a =? 0) && negb (number b =? 0) then
      Err "Min cannot be 0 if max is not 0"%string
    else Ok (number a, Some (number b)).
Proof.
  rewrite !Forall_app. intros (Hw1 & Hw2 & Hw3 & Hw4) Ha Has Hb Hbs.
  destruct (digits_ends a Ha Has) as (c & ? & Hc & Hcw & _).
  destruct (digits_ends b Hb Hbs) as (? & d & _ & _ & Hd & Hdw).
  assert (trim (w1 ++ (a ++ w2 ++ colon :: w3 ++ b) ++ w4) = a ++ w2 ++ colon :: w3 ++ b) as Htrim.
  { apply (trim_around _ _ _ c d); [done..|by destruct a|done| |done].
    rewrite !last_app, last_cons, last_app, Hd. done. }
  unfold parse_preflight_bounds. rewrite <- !app_assoc, <- app_comm_cons, <- app_assoc in Htrim.
  rewrite Htrim. rewrite decide_False by (by destruct a).
  rewrite (app_assoc a w2), parse_usize_colon, split_at_first_app by by apply colon_not_digits.
  change (drop 1 (colon :: w3 ++ b)) with (w3 ++ b).
  pose proof (trim_digits [] a w2) as Ht1. cbn [app] in Ht1.
  pose proof (trim_digits w3 b []) as Ht2. rewrite app_nil_r in Ht2.
  cbv zeta. rewrite Ht1, Ht2 by done. rewrite !decide_False by done.
  rewrite !parse_usize_number by done. pose proof (number_nonneg b Hbs).
  rewrite !Z.ltb_antisym. destruct (number a <=? USIZE_MAX); [|done]. cbn [negb mbind res_bind].
  destruct (number b <=? USIZE_MAX); [|done]. cbn [negb mbind res_bind].
  destruct (Z.eqb_spec (number b) 0) as [->|]; cbn [negb];
    [rewrite bool_decide_eq_false_2 by auto|rewrite bool_decide_eq_true_2 by congruence]; done.
Qed.

Lemma parse_preflight_range_witness :
  parse_preflight_bounds [32; 53; 58; 32; 50] = Ok (5, Some 2).
Proof.
  apply (parse_preflight_range [32] [53] [] [32] [50] []);
    first [discriminate | repeat constructor; vm_compute; congruence].
Defined.
