(* ===== verification/Url.v ===== *)
(** * URLs in proxied requests (shuttle/src/utils.rs)

    [extract_host_addr_from_url] and [url_to_relative], which the HTTP front end applies to the
    target of a request.  A [&str] is the list of its UTF-8 bytes: [len] and slice positions are
    byte positions, and a slice that splits a character panics. *)
From S2P Require Import Prelude.
From stdpp Require Import strings.
From S2P Require Import Opt.
Open Scope Z_scope.

Definition slash : Z := 47.

(** [str::find] of a pattern: the position of its first occurrence. *)
Fixpoint find (pat s : list Z) : option nat :=
  if bool_decide (take (length pat) s = pat) then Some 0%nat
  else match s with
       | [] => None
       | _ :: s' => S <$> find pat s'
       end.

(** [str::is_char_boundary]: not before a continuation byte. *)
Definition is_char_boundary (s : list Z) (i : nat) : bool :=
  match s !! i with
  | Some b => negb ((128 <=? b) && (b <? 192))
  | None => (i =? length s)%nat
  end.

(** [&s[..s.len() - 1]].  On the empty string the subtraction overflows; a release build goes on
    with a huge index, which panics all the same. *)
Definition without_last {E} (s : list Z) : res E (list Z) :=
  let i := (length s - 1)%nat in
  match s with
  | [] => Panic
  | _ => if is_char_boundary s i then Ok (take i s) else Panic
  end.

Definition default_port (scheme : list Z) : option Z :=
  if bool_decide (scheme = byte_string "ftp") then Some 21
  else if bool_decide (scheme = byte_string "https") then Some 443
  else if bool_decide (scheme = byte_string "http" \/ scheme = []) then Some 80
  else None.

(** [s.split(pat).next()] and what is left for the next component, [None] when [s] was the last. *)
Definition next_component (pat s : list Z) : list Z * option (list Z) :=
  match find pat s with
  | Some i => (take i s, Some (drop (i + length pat) s))
  | None => (s, None)
  end.

Definition extract_host_addr_from_url {E} (url : list Z) : res E (option (list Z * Z)) :=
  let (scheme, rest) := next_component [slash; slash] url in
  match rest with
  | None => Ok None
  | Some rest =>
      let (component, _) := next_component [slash; slash] rest in
      let (host, _) := next_component [slash] component in
      scheme ← without_last scheme;
      match default_port scheme with
      | None => Ok None
      | Some port =>
          match split_at_first colon host with
          | Some (h, p) =>
              match parse_unsigned (2 ^ 16 - 1) p with
              | Some p => Ok (Some (h, p))
              | None => Ok None
              end
          | None => Ok (Some (host, port))
          end
      end
  end.

Definition url_to_relative (url : list Z) : option (list Z) :=
  let url := match find [slash; slash] url with
             | Some i => drop (i + 2) url
             | None => url
             end in
  (fun i => drop i url) <$> find [slash] url.

(** ** Proofs *)

Lemma find_none_nil pat : pat <> [] -> find pat [] = None.
Proof. intros. simpl. rewrite take_nil. by rewrite bool_decide_false. Qed.

(** What precedes the first byte of a pattern is skipped. *)
Lemma find_skip c pat a s : c ∉ a -> find (c :: pat) (a ++ s) = (fun i => length a + i)%nat <$> find (c :: pat) s.
Proof.
  induction a as [|x a IH]; intros Hc; cbn [app].
  - simpl length. by destruct (find (c :: pat) s).
  - apply not_elem_of_cons in Hc as [Hx Hc]. cbn [find length take].
    rewrite bool_decide_false by congruence. rewrite IH by done. by destruct (find (c :: pat) s).
Qed.

Lemma find_here pat s : find pat (pat ++ s) = Some 0%nat.
Proof.
  destruct (pat ++ s) eqn:E; cbn [find]; rewrite <- E, take_app_length; by rewrite bool_decide_true.
Qed.

Lemma find_app c pat a b : c ∉ a -> find (c :: pat) (a ++ (c :: pat) ++ b) = Some (length a).
Proof. intros Hc. rewrite find_skip, find_here by done. simpl. by rewrite Nat.add_0_r. Qed.

Lemma find_none c pat a : c ∉ a -> find (c :: pat) a = None.
Proof.
  intros Hc. rewrite <- (app_nil_r a), find_skip by done. by rewrite find_none_nil.
Qed.

Lemma next_component_app c pat a b :
  c ∉ a -> next_component (c :: pat) (a ++ (c :: pat) ++ b) = (a, Some b).
Proof.
  intros Hc. unfold next_component. rewrite find_app, take_app_length by done. do 2 f_equal.
  by rewrite app_assoc, <- length_app, drop_app_length.
Qed.

Lemma next_component_last c pat a : c ∉ a -> next_component (c :: pat) a = (a, None).
Proof. intros Hc. unfold next_component. by rewrite find_none. Qed.

Lemma next_component_prefix pat s : exists k, s = (next_component pat s).1 ++ k.
Proof.
  unfold next_component. destruct (find pat s) as [i|]; [|by exists []; rewrite app_nil_r].
  exists (drop i s). simpl. symmetry. apply take_drop.
Qed.

(** A one-byte separator does not occur in the first component. *)
Lemma next_component_free c s : c ∉ (next_component [c] s).1.
Proof.
  unfold next_component. induction s as [|d s IH]; [by apply not_elem_of_nil|].
  cbn [find length take]. case_bool_decide as H; [by apply not_elem_of_nil|].
  destruct (find [c] s) as [i|]; simpl in *; apply not_elem_of_cons; (split; [by intros ->; apply H; destruct s|exact IH]).
Qed.

Lemma split_at_first_cases c s :
  match split_at_first c s with
  | Some (a, b) => s = a ++ b /\ (c ∉ a) /\ (exists k, b = c :: k)
  | None => c ∉ s
  end.
Proof.
  induction s as [|d s IH]; simpl; [by apply not_elem_of_nil|].
  destruct (Z.eqb_spec c d) as [->|Hd].
  - split_and!; [done|by apply not_elem_of_nil|by eexists].
  - destruct (split_at_first c s) as [[a b]|].
    + destruct IH as (-> & Ha & k & ->). split_and!; [done| |by eexists].
      by apply not_elem_of_cons.
    + by apply not_elem_of_cons.
Qed.

(** The text after a colon is parsed with the colon, and no number starts with one. *)
Lemma parse_colon max k : parse_unsigned max (colon :: k) = None.
Proof. reflexivity. Qed.

Definition slash_or_end (path : list Z) : Prop := path = [] \/ (exists k, path = slash :: k).

(** The host is what precedes the first slash after the scheme, wherever a further [//] is. *)
Lemma host_component host path : slash ∉ host -> slash_or_end path ->
  (next_component [slash] (next_component [slash; slash] (host ++ path)).1).1 = host.
Proof.
  intros Hh Hp. unfold next_component at 2. rewrite find_skip by done.
  assert (forall p, slash_or_end p -> (next_component [slash] (host ++ p)).1 = host) as Hend.
  { intros p [->|[k ->]].
    - rewrite app_nil_r. by rewrite next_component_last.
    - change (slash :: k) with ([slash] ++ k). by rewrite (next_component_app slash [] host k Hh). }
  destruct (find [slash; slash] path) as [i|]; simpl; [|by apply Hend].
  rewrite take_app_add. apply Hend. destruct Hp as [->|[k ->]].
  - left. apply take_nil.
  - destruct i; [by left|]. right. by eexists.
Qed.

Lemma without_last_colon {E} scheme : without_last (scheme ++ [colon]) = Ok scheme :> res E _.
Proof.
  unfold without_last. destruct (scheme ++ [colon]) eqn:E0; [by destruct scheme|].
  rewrite <- E0. replace (length (scheme ++ [colon]) - 1)%nat with (length scheme) by len.
  unfold is_char_boundary. by rewrite lookup_app_r, Nat.sub_diag, take_app_length by done.
Qed.

(** Nothing is extracted from [scheme://host:port/path], whatever the scheme and the port. *)
Lemma url_explicit_port {E} (scheme host port path : list Z) :
  slash ∉ scheme -> slash ∉ host -> slash ∉ port -> slash_or_end path ->
  extract_host_addr_from_url ((scheme ++ [colon]) ++ [slash; slash] ++ (host ++ colon :: port) ++ path)
  = Ok None :> res E _.
Proof.
  intros Hs Hh Hp Hend.
  assert (slash ∉ scheme ++ [colon]) as Hs'.
  { intros [H|H]%elem_of_app; [done|]. apply list_elem_of_singleton in H. discriminate H. }
  assert (slash ∉ host ++ colon :: port) as Hh'.
  { intros [H|H]%elem_of_app; [done|]. apply elem_of_cons in H as [H|H]; [discriminate H|done]. }
  unfold extract_host_addr_from_url. rewrite next_component_app by done.
  pose proof (host_component (host ++ colon :: port) path Hh' Hend) as Hhost.
  destruct (next_component [slash; slash] ((host ++ colon :: port) ++ path)) as [component ?]. simpl in Hhost.
  destruct (next_component [slash] component) as [h ?]. simpl in Hhost. subst h.
  rewrite without_last_colon. cbn [mbind res_bind]. destruct (default_port scheme); [|done].
  pose proof (split_at_first_cases colon (host ++ colon :: port)) as Hsplit.
  destruct (split_at_first colon (host ++ colon :: port)) as [[a b]|].
  - destruct Hsplit as (_ & _ & k & ->). by rewrite parse_colon.
  - exfalso. apply Hsplit, elem_of_app. right. by left.
Qed.

Lemma url_components {E} (scheme host path : list Z) (port : Z) :
  default_port scheme = Some port -> slash ∉ host -> colon ∉ host -> slash_or_end path ->
  let url := (scheme ++ [colon]) ++ [slash; slash] ++ host ++ path in
  extract_host_addr_from_url url = Ok (Some (host, port)) :> res E _
  /\ url_to_relative url = (if decide (path = []) then None else Some path).
Proof.
  intros Hport Hh Hc Hp url.
  assert (slash ∉ scheme ++ [colon]) as Hs.
  { unfold default_port in Hport. repeat case_bool_decide; simplify_eq; destruct_or?; subst;
      by_compute. }
  split.
  - unfold extract_host_addr_from_url, url. rewrite next_component_app by done.
    pose proof (host_component host path Hh Hp) as Hhost.
    destruct (next_component [slash; slash] (host ++ path)) as [component ?]. simpl in Hhost.
    destruct (next_component [slash] component) as [h ?]. simpl in Hhost. subst h.
    rewrite without_last_colon. cbn [mbind res_bind]. rewrite Hport.
    pose proof (split_at_first_cases colon host) as Hsplit.
    destruct (split_at_first colon host) as [[a b]|]; [|done].
    destruct Hsplit as (-> & _ & k & ->). exfalso. apply Hc, elem_of_app. right. by left.
  - unfold url_to_relative, url. rewrite find_app by done.
    replace (length (scheme ++ [colon]) + 2)%nat
      with (length ((scheme ++ [colon]) ++ [slash; slash])) by len.
    rewrite (app_assoc _ [slash; slash]), drop_app_length, find_skip by done.
    destruct Hp as [->|[k ->]]; [done|].
    change (slash :: k) with ([slash] ++ k). rewrite find_here. simpl.
    by rewrite Nat.add_0_r, drop_app_length.
Qed.

(** A URL [scheme://host/path] without an explicit port gives the address of the host with
    the scheme's port, and the relative reference is the path as it stands; a URL that ends with
    the host has an address but no relative reference. *)
Theorem url_parts {E} (scheme host path : list Z) (port : Z) :
  default_port scheme = Some port -> slash ∉ host -> colon ∉ host -> slash_or_end path ->
  let url := (scheme ++ [colon]) ++ [slash; slash] ++ host ++ path in
  extract_host_addr_from_url url = Ok (Some (host, port)) :> res E _
  /\ url_to_relative url = (if decide (path = []) then None else Some path).
Proof. apply url_components. Qed.

(** An address is only ever extracted from a URL without an explicit port.  The port text is
    cut with its leading colon, which no number starts with, so [http://host:8080/] is refused;
    every address has the port of a scheme and a host free of colons and slashes. *)
Theorem explicit_port_refused {E} (url h : list Z) (p : Z) :
  extract_host_addr_from_url url = Ok (Some (h, p)) :> res E _ ->
  p ∈ [21; 443; 80] /\ (colon ∉ h) /\ (slash ∉ h).
Proof.
  unfold extract_host_addr_from_url. destruct (next_component [slash; slash] url) as [scheme [rest|]];
    [|done].
  destruct (next_component [slash; slash] rest) as [component ?].
  pose proof (next_component_free slash component) as Hfree.
  destruct (next_component [slash] component) as [host ?]. simpl in Hfree.
  destruct (without_last scheme) as [name| | |]; cbn [mbind res_bind]; [|done..].
  destruct (default_port name) as [port|] eqn:Hport; [|done].
  pose proof (split_at_first_cases colon host) as Hsplit.
  destruct (split_at_first colon host) as [[a b]|].
  - destruct Hsplit as (_ & _ & k & ->). by rewrite parse_colon.
  - intros ?. simplify_eq. split; [|done]. unfold default_port in Hport.
    repeat case_bool_decide; simplify_eq; by_compute.
Qed.

(** ** Witnesses *)

Lemma url_parts_witness :
  extract_host_addr_from_url (byte_string "http://example.com/a//b?c:1") =
    Ok (Some (byte_string "example.com", 80)) :> res unit _
  /\ url_to_relative (byte_string "http://example.com/a//b?c:1") = Some (byte_string "/a//b?c:1").
Proof.
  destruct (url_parts (E:=unit) (byte_string "http") (byte_string "example.com")
    (byte_string "/a//b?c:1") 80) as [H1 H2].
  - reflexivity.
  - by_compute.
  - by_compute.
  - right. by exists (byte_string "a//b?c:1").
  - split; [exact H1|exact H2].
Defined.

Lemma explicit_port_refused_witness :
  443 ∈ [21; 443; 80] /\ (colon ∉ byte_string "example.com")
  /\ extract_host_addr_from_url (byte_string "https://example.com:8443/") = Ok None :> res unit _.
Proof.
  destruct (explicit_port_refused (E:=unit) (byte_string "https://example.com/")
    (byte_string "example.com") 443 eq_refl) as (H1 & H2 & _).
  split_and!; [exact H1|exact H2|reflexivity].
Defined.
