(* ===== verification/Connector.v ===== *)
(** * Connections opened in advance (shuttle/src/client/connector.rs, client/mod.rs)

    The [Preflighter] with its queue of pending connections, the averages that steer the queue's
    size, the task that fills it, and the choice of a connector in [run_client].  The queue is the
    [deadqueue] crate's; what matters of it here is its capacity.  [f32] arithmetic is the IEEE
    single precision of the Standard Library's [SpecFloat]. *)
From S2P Require Import Prelude.
From stdpp Require Import strings relations sorting.
From Stdlib Require Import Floats.SpecFloat.
From S2P Require Import Time Stream Opt.
Open Scope Z_scope.

(** ** [f32] *)

Definition f32 : Type := spec_float.
Definition f32_add : f32 -> f32 -> f32 := SFadd 24 128.
Definition f32_sub : f32 -> f32 -> f32 := SFsub 24 128.
Definition f32_mul : f32 -> f32 -> f32 := SFmul 24 128.
Definition f32_div : f32 -> f32 -> f32 := SFdiv 24 128.
Definition f32_gt (a b : f32) : bool := SFltb b a.
(** [n as f32]. *)
Definition f32_of_int (n : Z) : f32 := binary_normalize 24 128 n 0 false.

Definition PREFLIHGTER_CONNIDLE : Z := 120.
Definition PREFLIHGTER_EMA_COEFF : f32 := f32_div (f32_of_int 1) (f32_of_int 3).

(** [Duration::as_secs] and [Duration::as_secs_f32]. *)
Definition as_secs (d : Duration) : Z := d / NANOS_PER_SEC.
Definition as_secs_f32 (d : Duration) : f32 :=
  f32_add (f32_of_int (d / NANOS_PER_SEC)) (f32_div (f32_of_int (d mod NANOS_PER_SEC)) (f32_of_int NANOS_PER_SEC)).

(** ** The preflighter *)

(** The shared state: the queue's capacity, the average handshake time and the accumulated
    delay. *)
Record preflighter := Preflighter {
  capacity : Z;
  average_handshake_time : f32;
  cumulative_handshake_delay : f32;
}.
Record bounds := Bounds { bound_min : Z; bound_max : option Z }.

Definition set_capacity (n : Z) (s : preflighter) : preflighter :=
  Preflighter n (average_handshake_time s) (cumulative_handshake_delay s).
Definition set_delay (d : f32) (s : preflighter) : preflighter :=
  Preflighter (capacity s) (average_handshake_time s) d.

Definition bound_top (b : bounds) : Z := default USIZE_MAX (bound_max b).

(** [new_flighting], with its [assert!]. *)
Definition new_flighting {E} (b : bounds) : res E preflighter :=
  if (0 <? bound_min b) && (bound_min b <=? bound_top b)
  then Ok (Preflighter (bound_min b) (f32_of_int 0) (f32_of_int 0))
  else Panic.

(** The task of one connection, after a handshake of [elapsed] that succeeded. *)
Definition update_average (elapsed : Duration) (s : preflighter) : preflighter :=
  Preflighter (capacity s)
    (f32_add (f32_mul (as_secs_f32 elapsed) PREFLIHGTER_EMA_COEFF)
             (f32_mul (average_handshake_time s) (f32_sub (f32_of_int 1) PREFLIHGTER_EMA_COEFF)))
    (cumulative_handshake_delay s).

(** [run]: the number of connections started in the last minute.  [window] holds their times, the
    oldest first; the [while] loop forgets what is older than sixty seconds. *)
Fixpoint expire (now : Instant) (window : list Instant) (count : Z) : list Instant * Z :=
  match window with
  | t :: window' => if 60 <? as_secs (duration_since now t) then expire now window' (count - 1) else (window, count)
  | [] => ([], count)
  end.

Definition run_turn (pushed checked : Instant) (st : list Instant * Z) : list Instant * Z :=
  expire checked (st.1 ++ [pushed]) (st.2 + 1).

Section get.
Context {S : Type} (p : profile) (b : bounds).
Implicit Types s : preflighter.

(** The capacities [get] asks for. *)
Definition shrink_target {E} (cap : Z) : res E Z :=
  n ← arith p 64 (cap - 1);
  Ok (Z.max n (bound_min b)).
Definition grow_target {E} (cap : Z) : res E Z :=
  n ← arith p 64 (cap + 1);
  Ok (Z.min n (bound_top b)).

(** A connection popped from the queue: how long ago it was started, how long it is waited for,
    and its outcome ([Panic]: the task itself failed, which [unwrap] passes on).  [others] is what
    other tasks do to the shared state meanwhile. *)
Record popped := Popped {
  age : Duration;
  wait : Duration;
  outcome : res io_error S;
  others : preflighter -> preflighter;
}.

(** An idle connection lets the queue shrink. *)
Definition shrink_if_idle (c : popped) : prog preflighter io_error unit :=
  if PREFLIHGTER_CONNIDLE <? as_secs (age c) then
    s ← get;
    _ ← lift_res (if 0 <? capacity s then Ok tt else match p with Debug => Panic | Release => Ok tt end);
    n ← lift_res (shrink_target (capacity s));
    modify (set_capacity n)
  else mret tt.

(** The delay of a connection that was waited for is accumulated; when it passes the average, the
    queue grows. *)
Definition grow_if_late (c : popped) : prog preflighter io_error unit :=
  s ← get;
  let aht := average_handshake_time s in
  let chd := f32_add (cumulative_handshake_delay s) (as_secs_f32 (wait c)) in
  _ ← modify (set_delay (if f32_gt chd aht then f32_sub chd aht else chd));
  if f32_gt chd aht then
    s ← get;
    n ← lift_res (grow_target (capacity s));
    modify (set_capacity n)
  else mret tt.

(** [get]: [queue] are the connections in the order they are popped; at its end [pop] waits. *)
Fixpoint get_loop (errcnt : Z) (queue : list popped) : prog preflighter io_error (S * Duration) :=
  match queue with
  | [] => pending
  | c :: queue =>
      _ ← shrink_if_idle c;
      _ ← modify (others c);
      r ← attempt (lift_res (outcome c));
      match r with
      | inl conn => _ ← grow_if_late c; mret (conn, age c)
      | inr e =>
          s ← get;
          let errcnt := errcnt + 1 in
          if errcnt =? capacity s then fail e else get_loop errcnt queue
      end
  end.

Definition get_connection (queue : list popped) : prog preflighter io_error (S * Duration) :=
  get_loop 0 queue.

(** [Connector::connect] of the preflighter. *)
Definition preflighter_connect (queue : list popped) : prog preflighter io_error S :=
  r ← get_connection queue; mret r.1.
End get.
Arguments Popped {_} _ _ _ _.
Arguments age {_} _.
Arguments wait {_} _.
Arguments outcome {_} _.
Arguments others {_} _.

(** [AdHocConnector::connect]: a TCP connection, then [Client::connect] on it. *)
Definition adhoc_connect {S C} (tcp : res io_error C) (handshake : prog C io_error S) : res io_error S :=
  c ← tcp; (handshake c).1.

(** [run_client]: which connector serves, by the bounds of the command line. *)
Inductive connector_kind := AdHoc | Preflight (s : preflighter).
Definition choose_connector {E} (preflight : Z * option Z) : res E connector_kind :=
  match preflight with
  | (0, Some 0) => Ok AdHoc
  | (min, max) => s ← new_flighting (Bounds min max); Ok (Preflight s)
  end.

(** ** Any number of callers

    [get] reads the capacity, computes a new one and asks the queue to take it on, which may wait:
    the requests of several callers overlap.  A state is the capacity and the requests under way. *)
Inductive capacity_step (p : profile) (b : bounds) : Z * list Z -> Z * list Z -> Prop :=
| step_shrink cap reqs n : shrink_target (E:=io_error) p b cap = Ok n ->
    capacity_step p b (cap, reqs) (cap, n :: reqs)
| step_grow cap reqs n : grow_target (E:=io_error) p b cap = Ok n ->
    capacity_step p b (cap, reqs) (cap, n :: reqs)
| step_resize cap l r n : capacity_step p b (cap, l ++ n :: r) (n, l ++ r).

(** ** Proofs: the queue's capacity *)

Section capacity_proofs.
Context (p : profile) (b : bounds).
Hypothesis min_positive : 0 < bound_min b.
Hypothesis min_below : bound_min b <= bound_top b.
Hypothesis top_fits : bound_top b <= USIZE_MAX.
#[local] Set Default Proof Using "Type*".

Definition in_bounds (cap : Z) : Prop := bound_min b <= cap <= bound_top b.

Lemma shrink_target_bounds {E} cap n :
  in_bounds cap -> shrink_target (E:=E) p b cap = Ok n -> in_bounds n /\ n <= cap.
Proof.
  unfold in_bounds, shrink_target, USIZE_MAX in *. intros [H1 H2].
  rewrite arith_ok by (unfold in_u; lia). cbn [mbind res_bind]. intros [= <-]. lia.
Qed.

Lemma grow_target_bounds {E} cap n :
  in_bounds cap -> cap < USIZE_MAX -> grow_target (E:=E) p b cap = Ok n -> in_bounds n /\ n <= cap + 1.
Proof.
  unfold in_bounds, grow_target, USIZE_MAX in *. intros [H1 H2] Hlt.
  rewrite arith_ok by (unfold in_u; lia). cbn [mbind res_bind]. intros [= <-]. lia.
Qed.

(** The capacity and every request are in bounds, and below what [k] steps can reach. *)
Definition capacity_ok (k : nat) (st : Z * list Z) : Prop :=
  Forall (fun n => in_bounds n /\ n <= bound_min b + Z.of_nat k) (st.1 :: st.2).

Lemma capacity_ok_step k st st' :
  bound_min b + Z.of_nat k < USIZE_MAX ->
  capacity_ok k st -> capacity_step p b st st' -> capacity_ok (S k) st'.
Proof.
  intros Hk Hok Hstep.
  assert (capacity_ok (S k) st) as Hok'.
  { eapply Forall_impl; [exact Hok|]. cbn beta. intros n [? ?]. split; [done|lia]. }
  destruct Hstep as [cap reqs n Hn|cap reqs n Hn|cap l r n].
  - apply Forall_cons in Hok as [[Hcap Hle] _]. apply Forall_cons in Hok' as [Hc Hr].
    apply (shrink_target_bounds _ _ Hcap) in Hn as [Hn Hn']. cbn [fst snd] in *.
    repeat constructor; cbn [fst snd]; try done; try apply Hc; try apply Hn. lia.
  - apply Forall_cons in Hok as [[Hcap Hle] _]. apply Forall_cons in Hok' as [Hc Hr]. cbn [fst snd] in *.
    apply (grow_target_bounds _ _ Hcap) in Hn as [Hn Hn']; [|lia].
    repeat constructor; cbn [fst snd]; try done; try apply Hc; try apply Hn. lia.
  - unfold capacity_ok in *. cbn [fst snd] in *. apply Forall_cons in Hok' as [_ Hr].
    apply Forall_app in Hr as [Hl Hr]. apply Forall_cons in Hr as [Hn Hr].
    constructor; [done|]. by apply Forall_app.
Qed.

Lemma capacity_ok_steps k st : 
  nsteps (capacity_step p b) k (bound_min b, []) st -> bound_min b + Z.of_nat k < USIZE_MAX ->
  capacity_ok k st.
Proof.
  revert st. induction k as [|k IH]; intros st Hsteps Hk.
  - inversion Hsteps; subst. repeat constructor; cbn; lia.
  - apply nsteps_inv_r in Hsteps as (st1 & H1 & H2).
    apply (capacity_ok_step k st1); [lia|apply IH; [done|lia]|done].
Qed.
End capacity_proofs.

(** ** Proofs: [get] *)

Section get_proofs.
Context {S : Type} (p : profile) (b : bounds).
Implicit Types (s : preflighter) (c : popped (S:=S)).

(** A connection that was started recently, ended one way or the other, while no other task
    resized the queue. *)
Definition quiet c : Prop :=
  as_secs (age c) <= PREFLIHGTER_CONNIDLE /\ ((exists r, outcome c = Ok r) \/ (exists e, outcome c = Err e))
  /\ forall s, capacity (others c s) = capacity s.
Definition failed c : Prop := exists e, outcome c = Err e.

Lemma shrink_quiet c s : as_secs (age c) <= PREFLIHGTER_CONNIDLE -> shrink_if_idle p b c s = (Ok tt, s).
Proof. intros H. unfold shrink_if_idle. by rewrite (proj2 (Z.ltb_ge _ _) H). Qed.

Lemma grow_if_late_ok c s : 0 < capacity s < USIZE_MAX ->
  exists s', grow_if_late p b c s = (Ok tt, s').
Proof.
  intros Hcap. unfold USIZE_MAX in Hcap. unfold grow_if_late. rewrite (bind_ok get _ s s s eq_refl). cbv zeta.
  rewrite (bind_ok (modify _) _ s _ tt eq_refl). destruct (f32_gt _ _); [|by eexists].
  rewrite (bind_ok get _ _ _ _ eq_refl). unfold grow_target. cbn [set_delay capacity].
  rewrite arith_ok by (unfold in_u; lia). cbn [mbind res_bind]. rewrite bind_lift. by eexists.
Qed.

Lemma get_failed c e errcnt queue s :
  quiet c -> outcome c = Err e ->
  exists s', capacity s' = capacity s
  /\ get_loop p b errcnt (c :: queue) s
     = if errcnt + 1 =? capacity s then (Err e, s') else get_loop p b (errcnt + 1) queue s'.
Proof.
  intros (Hage & _ & Hothers) Hout. exists (others c s). split; [apply Hothers|]. cbn [get_loop].
  rewrite (bind_ok _ _ _ _ _ (shrink_quiet c s Hage)).
  rewrite (bind_ok (modify (others c)) _ s (others c s) tt eq_refl). rewrite Hout.
  rewrite (bind_ok (attempt (lift_res (Err e))) _ (others c s) (others c s) (inr e) eq_refl).
  rewrite (bind_ok get _ _ _ _ eq_refl), Hothers. by case_match.
Qed.

Lemma get_succeeds c conn errcnt queue s :
  quiet c -> outcome c = Ok conn -> 0 < capacity s < USIZE_MAX ->
  exists s', get_loop p b errcnt (c :: queue) s = (Ok (conn, age c), s').
Proof.
  intros (Hage & _ & Hothers) Hout Hcap.
  destruct (grow_if_late_ok c (others c s)) as [s' Hs']; [by rewrite Hothers|]. exists s'. cbn [get_loop].
  rewrite (bind_ok _ _ _ _ _ (shrink_quiet c s Hage)).
  rewrite (bind_ok (modify (others c)) _ s (others c s) tt eq_refl). rewrite Hout.
  rewrite (bind_ok (attempt (lift_res (Ok conn))) _ (others c s) (others c s) (inl conn) eq_refl).
  by run Hs'.
Qed.

(** With as many connections as the failures left, the loop ends. *)
Lemma get_loop_returns queue : forall errcnt s,
  Forall quiet queue -> 0 < capacity s < USIZE_MAX -> errcnt < capacity s ->
  capacity s - errcnt <= Z.of_nat (length queue) ->
  exists pre c rest s', queue = pre ++ c :: rest
  /\ errcnt + Z.of_nat (length pre) < capacity s /\ Forall failed pre
  /\ get_loop p b errcnt queue s
     = (match outcome c with Ok conn => Ok (conn, age c) | Err e => Err e | Panic => Panic | Pending => Pending end, s')
  /\ ((exists conn, outcome c = Ok conn)
      \/ ((exists e, outcome c = Err e) /\ errcnt + Z.of_nat (length pre) + 1 = capacity s)).
Proof.
  induction queue as [|c queue IH]; intros errcnt s Hq Hcap Herr Hlen; [simpl in Hlen; lia|].
  apply Forall_cons in Hq as [Hc Hq]. pose proof Hc as (_ & [[conn Hout]|[e Hout]] & _).
  - destruct (get_succeeds c conn errcnt queue s Hc Hout Hcap) as [s' Hs'].
    exists [], c, queue, s'. rewrite Hout. split_and!; [done|simpl; lia|constructor|done|]. left. by eexists.
  - destruct (get_failed c e errcnt queue s Hc Hout) as (s' & Hcap' & Hrun).
    destruct (Z.eqb_spec (errcnt + 1) (capacity s)) as [Heq|Hne].
    + exists [], c, queue, s'. rewrite Hout. split_and!; [done|simpl; lia|constructor|done|]. right.
      split; [by eexists|]. simpl. lia.
    + cbn [length] in Hlen.
      destruct (IH (errcnt + 1) s' Hq) as (pre & c' & rest & s2 & -> & Hpre & Hf & Hr & Hend);
        [rewrite Hcap'; lia..|].
      exists (c :: pre), c', rest, s2. cbn [length]. rewrite Hrun, Hr. rewrite Hcap' in *.
      split_and!; [done|lia|by constructor; [eexists|]|done|].
      destruct Hend as [?|[? ?]]; [by left|right; split; [done|lia]].
Qed.

(** Past the limit, failures never end the loop. *)
Lemma get_past_limit queue : forall errcnt s,
  Forall quiet queue -> Forall failed queue -> capacity s <= errcnt ->
  exists s', get_loop p b errcnt queue s = (Pending, s').
Proof.
  induction queue as [|c queue IH]; intros errcnt s Hq Hf Herr; [by eexists|].
  apply Forall_cons in Hq as [Hc Hq]. apply Forall_cons in Hf as [[e Hout] Hf].
  destruct (get_failed c e errcnt queue s Hc Hout) as (s' & Hcap' & ->).
  destruct (Z.eqb_spec (errcnt + 1) (capacity s)); [lia|]. apply IH; [done..|lia].
Qed.
End get_proofs.

(** ** Proofs: the bounds of the command line *)

Lemma parse_digits_range max s : forall acc v,
  0 <= acc <= max -> parse_digits max acc s = Some v -> 0 <= v <= max.
Proof.
  induction s as [|c s IH]; intros acc v Hacc Hv; cbn [parse_digits] in Hv; [by simplify_eq|].
  destruct ((48 <=? c) && (c <=? 57)) eqn:Hc; [|done]. apply andb_true_iff in Hc as [H1 H2].
  apply Z.leb_le in H1, H2. destruct (Z.leb_spec (acc * 10 + (c - 48)) max); [|done].
  apply (IH (acc * 10 + (c - 48))); [lia|done].
Qed.

Lemma parse_usize_range s v : parse_usize s = Some v -> 0 <= v <= USIZE_MAX.
Proof.
  unfold parse_usize, parse_unsigned. intros H.
  repeat case_match; simplify_eq; (eapply parse_digits_range; [|eassumption]; unfold USIZE_MAX; lia).
Qed.

(** What the parser guarantees: machine integers, and a zero minimum only with a zero maximum. *)
Lemma parse_preflight_guarantees s min max :
  parse_preflight_bounds s = Ok (min, max) ->
  0 <= min <= USIZE_MAX /\ (min = 0 -> max = Some 0).
Proof.
  unfold parse_preflight_bounds. intros H.
  case_decide; [by simplify_eq|].
  destruct (parse_usize (trim s)) as [n|] eqn:Hn.
  { apply parse_usize_range in Hn. simplify_eq. split; [done|]. by intros ->. }
  destruct (split_at_first colon (trim s)) as [[a b]|]; [|done].
  assert (exists a', (a' = 0 \/ exists t, parse_usize t = Some a') /\
    (exists b', (if (a' =? 0) && bool_decide (b' <> Some 0)
      then Err "Min cannot be 0 if max is not 0"%string else Ok (a', b')) = Ok (min, max) :> res string _))
    as (a' & Ha & b' & Hab).
  { destruct (decide (trim a = [])); cbn [mbind res_bind] in H;
      [|destruct (parse_usize (trim a)) eqn:Hpa; cbn [mbind res_bind] in H; [|done]];
      (destruct (decide (trim (drop 1 b) = [])); cbn [mbind res_bind] in H;
        [|destruct (parse_usize (trim (drop 1 b))); cbn [mbind res_bind] in H; [|done]]); eauto 10. }
  assert (0 <= a' <= USIZE_MAX) as Hrange.
  { destruct Ha as [->|[t Ht]]; [unfold USIZE_MAX; lia|by eapply parse_usize_range]. }
  destruct (Z.eqb_spec a' 0) as [->|Hne]; cbn [andb] in Hab.
  - case_bool_decide as Hb; [done|]. injection Hab as <- <-. split; [done|]. intros _.
    destruct (decide (b' = Some 0)); [done|]. by destruct Hb.
  - injection Hab as <- <-. split; [done|]. by intros ->.
Qed.

(** *** The minute's window *)

Lemma expire_filter now window : forall count,
  count = Z.of_nat (length window) -> StronglySorted Z.le window -> Forall (fun t => t <= now) window ->
  let '(window', count') := expire now window count in
  count' = Z.of_nat (length window') /\ StronglySorted Z.le window'
  /\ window' = filter (fun t => as_secs (duration_since now t) <= 60) window.
Proof.
  induction window as [|t window IH]; intros count Hcount Hsorted Hle; cbn [expire]; [done|].
  inversion Hsorted as [|?? Hs Hall]; subst. apply Forall_cons in Hle as [Ht Hle].
  rewrite filter_cons. destruct (Z.ltb_spec 60 (as_secs (duration_since now t))) as [Hold|Hnew].
  - rewrite decide_False by lia. apply IH; [cbn [length]; lia|done|done].
  - rewrite decide_True by lia. split; [done|]. split; [done|]. f_equal. symmetry.
    clear IH Hs Hsorted. induction window as [|u window IHw]; [done|].
    apply Forall_cons in Hall as [Hu Hall]. apply Forall_cons in Hle as [Hun Hle].
    assert (as_secs (duration_since now u) <= 60).
    { etrans; [|exact Hnew]. apply Z.div_le_mono; unfold duration_since, NANOS_PER_SEC; lia. }
    by rewrite filter_cons, decide_True, IHw.
Qed.

(** ** Correctness *)

(** C22: the queue's capacity stays within its bounds.  Whatever the number of callers and however
    their requests to shrink and grow the queue overlap, the capacity lies between the minimum and
    the maximum, and so does every request under way. *)
Theorem capacity_bounded (p : profile) (b : bounds) (k : nat) (cap : Z) (reqs : list Z) :
  0 < bound_min b -> bound_min b <= bound_top b -> bound_top b <= USIZE_MAX ->
  bound_min b + Z.of_nat k < USIZE_MAX ->
  nsteps (capacity_step p b) k (bound_min b, []) (cap, reqs) ->
  Forall (fun n => bound_min b <= n <= bound_top b) (cap :: reqs).
Proof.
  intros H1 H2 H3 Hk Hsteps. pose proof (capacity_ok_steps p b H1 H2 H3 k _ Hsteps Hk) as Hok.
  eapply Forall_impl; [exact Hok|]. by intros n [? _].
Qed.

(** C23: [get] returns.  While connections are fresh and no one else resizes the queue, it takes at
    most as many connections as the queue has places: it returns the first one that succeeded, or
    the error of the last one when all of these failed. *)
Theorem get_returns {S : Type} (p : profile) (b : bounds) (queue : list (popped (S:=S))) (s : preflighter) :
  Forall quiet queue -> 0 < capacity s < USIZE_MAX -> capacity s <= Z.of_nat (length queue) ->
  exists pre c rest s', queue = pre ++ c :: rest
  /\ Z.of_nat (length pre) < capacity s /\ Forall failed pre
  /\ get_connection p b queue s
     = (match outcome c with Ok conn => Ok (conn, age c) | Err e => Err e | Panic => Panic | Pending => Pending end, s')
  /\ ((exists conn, outcome c = Ok conn)
      \/ ((exists e, outcome c = Err e) /\ Z.of_nat (length pre) + 1 = capacity s)).
Proof.
  intros Hq Hcap Hlen.
  destruct (get_loop_returns p b queue 0 s Hq Hcap) as (pre & c & rest & s' & ? & ? & ? & ? & ?); [lia..|].
  exists pre, c, rest, s'. split_and!; done.
Qed.

(** The limit on failures can be stepped over.  It is compared for equality with the capacity,
    which an idle connection decreases: a fresh failure and an idle one in a queue of two, and
    [get] goes on for ever as long as connections fail. *)
Theorem failures_without_end {S : Type} (p : profile) (b : bounds) (c1 c2 : popped (S:=S))
    (queue : list (popped (S:=S))) (s : preflighter) :
  bound_min b = 1 -> capacity s = 2 ->
  quiet c1 -> failed c1 -> PREFLIHGTER_CONNIDLE < as_secs (age c2) -> failed c2 ->
  (forall s, capacity (others c2 s) = capacity s) -> Forall quiet queue -> Forall failed queue ->
  exists s', get_connection p b (c1 :: c2 :: queue) s = (Pending, s').
Proof.
  intros Hmin Hcap Hq1 [e1 H1] Hage [e2 H2] Hothers Hq Hf. unfold get_connection.
  destruct (get_failed p b c1 e1 0 (c2 :: queue) s Hq1 H1) as (s1 & Hcap1 & ->).
  destruct (Z.eqb_spec (0 + 1) (capacity s)); [lia|]. rewrite Hcap in Hcap1.
  assert (shrink_if_idle p b c2 s1 = (Ok tt, set_capacity 1 s1)) as Hshrink.
  { unfold shrink_if_idle. rewrite (proj2 (Z.ltb_lt _ _) Hage). rewrite (bind_ok get _ _ _ _ eq_refl), Hcap1.
    change (0 <? 2) with true. cbv iota. rewrite bind_lift. unfold shrink_target.
    rewrite arith_ok by (unfold in_u; lia). cbn [mbind res_bind]. rewrite bind_lift, Hmin. done. }
  cbn [get_loop]. rewrite (bind_ok _ _ _ _ _ Hshrink).
  rewrite (bind_ok (modify (others c2)) _ _ _ tt eq_refl). rewrite H2.
  rewrite (bind_ok (attempt (lift_res (Err e2))) _ _ _ (inr e2) eq_refl).
  rewrite (bind_ok get _ _ _ _ eq_refl), Hothers. cbn [set_capacity capacity].
  change (0 + 1 + 1 =? 1) with false. cbv iota.
  apply get_past_limit; [done..|]. rewrite Hothers. cbn. lia.
Qed.

Lemma preflight_kind {E} (text : text) (min : Z) (max : option Z) :
  parse_preflight_bounds text = Ok (min, max) ->
  match choose_connector (E:=E) (min, max) with
  | Ok AdHoc => (min, max) = (0, Some 0)
  | Ok (Preflight s) => capacity s = min /\ 0 < capacity s <= default USIZE_MAX max
  | Panic => exists m, max = Some m /\ m < min
  | Err _ | Pending => False
  end.
Proof.
  intros [Hmin Hzero]%parse_preflight_guarantees.
  destruct (decide (min = 0)) as [->|Hne].
  { by rewrite Hzero. }
  assert (choose_connector (E:=E) (min, max) = (s ← new_flighting (Bounds min max); Ok (Preflight s))) as ->.
  { unfold choose_connector. destruct min; [done|..]; done. }
  unfold new_flighting, bound_top. cbn [bound_min bound_max]. rewrite (proj2 (Z.ltb_lt _ _)) by lia.
  cbn [andb]. destruct (Z.leb_spec min (default USIZE_MAX max)) as [Hle|Hgt]; cbn [mbind res_bind capacity].
  - split_and!; [done|lia|lia].
  - destruct max as [m|]; cbn [default] in *; [|unfold id in *; lia]. by exists m.
Qed.

(** From the command line to the connector.  [parse_preflight_bounds] gives the ad-hoc
    connector exactly for the bounds [0:0]; otherwise the preflighter starts with its minimum as
    capacity, within the bounds; and the assertion of its constructor fails exactly when the text
    has a maximum below its minimum, which the parser accepts. *)
Theorem preflight_choice (text : text) (min : Z) (max : option Z) :
  parse_preflight_bounds text = Ok (min, max) ->
  match choose_connector (E:=unit) (min, max) with
  | Ok AdHoc => min = 0 /\ max = Some 0
  | Ok (Preflight s) => 0 < min /\ capacity s = min /\ min <= default USIZE_MAX max
  | Panic => exists m, max = Some m /\ m < min
  | Err _ | Pending => False
  end.
Proof.
  intros Hp. pose proof (preflight_kind (E:=unit) text min max Hp) as Hk.
  destruct (choose_connector _) as [[|s]| | |]; try done; [by injection Hk|]. destruct Hk. split_and!; lia.
Qed.

(** The log line of the filling task tells the truth: its counter is the number of connections
    started in the last minute, once those that are older were forgotten. *)
Theorem window_counts (pushed checked : Instant) (window : list Instant) (count : Z) :
  count = Z.of_nat (length window) -> StronglySorted Z.le window ->
  Forall (fun t => t <= pushed) window -> pushed <= checked ->
  let '(window', count') := run_turn pushed checked (window, count) in
  count' = Z.of_nat (length window') /\ StronglySorted Z.le window'
  /\ window' = filter (fun t => as_secs (duration_since checked t) <= 60) (window ++ [pushed]).
Proof.
  intros Hcount Hsorted Hle Hpc. unfold run_turn. cbn [fst snd].
  apply expire_filter; [rewrite length_app; cbn [length]; lia| |].
  - clear Hcount. induction Hsorted as [|t window Hs IH Hall]; cbn [app]; [by repeat constructor|].
    apply Forall_cons in Hle as [Ht Hle]. constructor; [by apply IH|]. apply Forall_app. by split; [|constructor].
  - apply Forall_app. split; [|by constructor]. eapply Forall_impl; [exact Hle|]. cbn beta. lia.
Qed.

(** ** Witnesses *)

Definition demo_bounds : bounds := Bounds 1 (Some 4).
Definition demo_state (cap : Z) : preflighter := Preflighter cap (f32_of_int 0) (f32_of_int 0).
Definition fresh_failure : popped (S:=Z) := Popped 0 0 (Err (IoErr Other "refused")) id.
Definition idle_failure : popped (S:=Z) := Popped (from_secs 200) 0 (Err (IoErr Other "reset")) id.
Definition fresh_success : popped (S:=Z) := Popped 0 (from_secs 1) (Ok 7) id.

Lemma quiet_failure : quiet fresh_failure.
Proof. split_and!; [by_compute|right; by eexists|done]. Qed.
Lemma quiet_success : quiet fresh_success.
Proof. split_and!; [by_compute|left; by eexists|done]. Qed.

Lemma capacity_bounded_witness :
  Forall (fun n => 1 <= n <= 4) [2; 2].
Proof.
  apply (capacity_bounded Debug demo_bounds 3 2 [2]).
  - by_compute.
  - by_compute.
  - by_compute.
  - by_compute.
  - apply nsteps_l with (y := (1, [2])); [by apply step_grow|].
    apply nsteps_l with (y := (1, [2; 2])); [by apply step_grow|].
    apply nsteps_l with (y := (2, [2])); [exact (step_resize Debug demo_bounds 1 [] [2] 2)|].
    apply nsteps_O.
Defined.

Lemma get_returns_witness :
  exists pre c rest s', [fresh_failure; fresh_success; fresh_failure] = pre ++ c :: rest
  /\ Z.of_nat (length pre) < 3 /\ Forall failed pre
  /\ get_connection Debug demo_bounds [fresh_failure; fresh_success; fresh_failure] (demo_state 3)
     = (match outcome c with Ok conn => Ok (conn, age c) | Err e => Err e | Panic => Panic | Pending => Pending end, s').
Proof.
  destruct (get_returns Debug demo_bounds [fresh_failure; fresh_success; fresh_failure] (demo_state 3))
    as (pre & c & rest & s' & H1 & H2 & H3 & H4 & _).
  - apply Forall_cons; split; [apply quiet_failure|]. apply Forall_cons; split; [apply quiet_success|].
    apply Forall_singleton, quiet_failure.
  - by_compute.
  - by_compute.
  - exists pre, c, rest, s'. split; [exact H1|]. split; [exact H2|]. split; [exact H3|exact H4].
Defined.

Lemma failures_without_end_witness : exists s',
  get_connection Debug demo_bounds [fresh_failure; idle_failure; fresh_failure; fresh_failure] (demo_state 2)
  = (Pending, s').
Proof.
  apply (failures_without_end Debug demo_bounds fresh_failure idle_failure [fresh_failure; fresh_failure]).
  - reflexivity.
  - reflexivity.
  - apply quiet_failure.
  - by eexists.
  - by_compute.
  - by eexists.
  - intros s. reflexivity.
  - apply Forall_cons; split; [|apply Forall_singleton]; apply quiet_failure.
  - repeat constructor; by eexists.
Defined.

(** ["5:2"]. *)
Lemma preflight_choice_witness : exists m, Some 2 = Some m /\ m < 5.
Proof.
  pose proof (preflight_choice [53; 58; 50] 5 (Some 2) eq_refl) as H.
  exact H.
Defined.

Lemma window_counts_witness :
  let '(window', count') := run_turn (from_secs 100) (from_secs 100) ([from_secs 1; from_secs 90], 2) in
  count' = Z.of_nat (length window') /\ window' = [from_secs 90; from_secs 100].
Proof.
  pose proof (window_counts (from_secs 100) (from_secs 100) [from_secs 1; from_secs 90] 2) as H.
  destruct H as (H1 & _ & H2).
  - reflexivity.
  - repeat constructor; by_compute.
  - repeat constructor; by_compute.
  - by_compute.
  - split; [exact H1|reflexivity].
Defined.
