(* ===== verification/Lifecycle.v ===== *)
(** * Session lifecycle (shuttle/src/session/lifecycle.rs)

    The nine session states and the table of allowed transitions, the close reasons with the
    numbers Rust's [as u8] gives them, and the observability events with the record each one
    produces. *)
From S2P Require Import Prelude.
From stdpp Require Import strings finite relations.
Open Scope Z_scope.

Module SessionState.
Inductive SessionState :=
| Connecting | Handshaking | Idle | Opening | Active | Draining | Closing | Closed | Poisoned.
End SessionState.
Abbreviation SessionState := SessionState.SessionState.

#[export] Instance SessionState_eq_dec : EqDecision SessionState.
Proof. solve_decision. Defined.

(** [SessionState::can_transition_to], clause by clause. *)
Definition can_transition_to (self target : SessionState) : bool :=
  match self, target with
  | SessionState.Connecting, SessionState.Handshaking => true
  | SessionState.Handshaking, SessionState.Idle
  | SessionState.Handshaking, SessionState.Closed => true
  | SessionState.Idle, SessionState.Opening
  | SessionState.Idle, SessionState.Closing
  | SessionState.Idle, SessionState.Poisoned => true
  | SessionState.Opening, SessionState.Active
  | SessionState.Opening, SessionState.Poisoned => true
  | SessionState.Active, SessionState.Draining
  | SessionState.Active, SessionState.Poisoned => true
  | SessionState.Draining, SessionState.Idle
  | SessionState.Draining, SessionState.Closing
  | SessionState.Draining, SessionState.Poisoned => true
  | SessionState.Closing, SessionState.Closed => true
  | SessionState.Poisoned, SessionState.Closed => true
  | _, SessionState.Poisoned | _, SessionState.Closed => true
  | _, _ => false
  end.

Definition display_state (s : SessionState) : string :=
  match s with
  | SessionState.Connecting => "Connecting"
  | SessionState.Handshaking => "Handshaking"
  | SessionState.Idle => "Idle"
  | SessionState.Opening => "Opening"
  | SessionState.Active => "Active"
  | SessionState.Draining => "Draining"
  | SessionState.Closing => "Closing"
  | SessionState.Closed => "Closed"
  | SessionState.Poisoned => "Poisoned"
  end.

Module CloseReason.
Inductive CloseReason :=
| ClientClose | ClientInitiated | ServerClose | ServerError | IdleTimeout | MaxAgeExceeded
| MaxRequestsExceeded | MaxRequestsReached | KeepaliveTimeout | ProtocolError | VersionMismatch
| ShutdownDrain | CheckoutFailed | Poisoned.
End CloseReason.
Abbreviation CloseReason := CloseReason.CloseReason.

#[export] Instance CloseReason_eq_dec : EqDecision CloseReason.
Proof. solve_decision. Defined.

(** [reason as u8]: the position in the declaration. *)
Definition reason_as_u8 (r : CloseReason) : Z :=
  match r with
  | CloseReason.ClientClose => 0
  | CloseReason.ClientInitiated => 1
  | CloseReason.ServerClose => 2
  | CloseReason.ServerError => 3
  | CloseReason.IdleTimeout => 4
  | CloseReason.MaxAgeExceeded => 5
  | CloseReason.MaxRequestsExceeded => 6
  | CloseReason.MaxRequestsReached => 7
  | CloseReason.KeepaliveTimeout => 8
  | CloseReason.ProtocolError => 9
  | CloseReason.VersionMismatch => 10
  | CloseReason.ShutdownDrain => 11
  | CloseReason.CheckoutFailed => 12
  | CloseReason.Poisoned => 13
  end.

Definition display_reason (r : CloseReason) : string :=
  match r with
  | CloseReason.ClientClose => "ClientClose"
  | CloseReason.ClientInitiated => "ClientInitiated"
  | CloseReason.ServerClose => "ServerClose"
  | CloseReason.ServerError => "ServerError"
  | CloseReason.IdleTimeout => "IdleTimeout"
  | CloseReason.MaxAgeExceeded => "MaxAgeExceeded"
  | CloseReason.MaxRequestsExceeded => "MaxRequestsExceeded"
  | CloseReason.MaxRequestsReached => "MaxRequestsReached"
  | CloseReason.KeepaliveTimeout => "KeepaliveTimeout"
  | CloseReason.ProtocolError => "ProtocolError"
  | CloseReason.VersionMismatch => "VersionMismatch"
  | CloseReason.ShutdownDrain => "ShutdownDrain"
  | CloseReason.CheckoutFailed => "CheckoutFailed"
  | CloseReason.Poisoned => "Poisoned"
  end.

Module SessionEvent.
Inductive SessionEvent :=
| PoolHit | PoolMiss | CheckoutFailed | FallbackToOneShot | SessionReused (count : Z)
| PingSent | PingAcked | PingTimeout | IdleEviction | MaxAgeEviction | MaxRequestsEviction
| RemoteClose | GracefulDrain.
End SessionEvent.
Abbreviation SessionEvent := SessionEvent.SessionEvent.

#[export] Instance SessionEvent_eq_dec : EqDecision SessionEvent.
Proof. solve_decision. Defined.

(** [tracing::Level] and the fields of the record an event emits. *)
Inductive Level := DEBUG | INFO | WARN.

Record log_record := Log {
  level : Level;
  event : string;
  reuse_count_field : option Z;
  reason_field : option CloseReason;
  message : string;
}.

(** [SessionEvent::emit]: the [tracing::event!] each variant produces. *)
Definition emit (e : SessionEvent) : log_record :=
  match e with
  | SessionEvent.PoolHit => Log INFO "pool_hit" None None "Session acquired from pool"
  | SessionEvent.PoolMiss => Log INFO "pool_miss" None None "No reusable session in pool"
  | SessionEvent.CheckoutFailed =>
      Log WARN "checkout_failed" None None "Failed to checkout session from pool"
  | SessionEvent.FallbackToOneShot =>
      Log WARN "fallback_to_oneshot" None None "Falling back to one-shot mode"
  | SessionEvent.SessionReused count =>
      Log INFO "session_reused" (Some count) None "Session reused from pool"
  | SessionEvent.PingSent => Log DEBUG "ping_sent" None None "Keepalive ping sent"
  | SessionEvent.PingAcked => Log DEBUG "ping_acked" None None "Keepalive ping acked"
  | SessionEvent.PingTimeout => Log WARN "ping_timeout" None None "Keepalive ping timed out"
  | SessionEvent.IdleEviction =>
      Log INFO "idle_eviction" None (Some CloseReason.IdleTimeout)
        "Session evicted due to idle timeout"
  | SessionEvent.MaxAgeEviction =>
      Log INFO "max_age_eviction" None (Some CloseReason.MaxAgeExceeded)
        "Session evicted due to max age"
  | SessionEvent.MaxRequestsEviction =>
      Log INFO "max_requests_eviction" None (Some CloseReason.MaxRequestsExceeded)
        "Session evicted due to max requests"
  | SessionEvent.RemoteClose => Log INFO "remote_close" None None "Server closed the connection"
  | SessionEvent.GracefulDrain => Log INFO "graceful_drain" None None "Session gracefully drained"
  end.

(** ** The table against its documentation *)

(** The transitions the documentation comment of [can_transition_to] lists. *)
Inductive transition : SessionState -> SessionState -> Prop :=
| t_connect : transition SessionState.Connecting SessionState.Handshaking
| t_ready : transition SessionState.Handshaking SessionState.Idle
| t_open : transition SessionState.Idle SessionState.Opening
| t_idle_close : transition SessionState.Idle SessionState.Closing
| t_activate : transition SessionState.Opening SessionState.Active
| t_drain : transition SessionState.Active SessionState.Draining
| t_drained : transition SessionState.Draining SessionState.Idle
| t_drain_close : transition SessionState.Draining SessionState.Closing
| t_poison s : transition s SessionState.Poisoned
| t_closed s : transition s SessionState.Closed.

Lemma can_transition_to_spec s t : can_transition_to s t = true <-> transition s t.
Proof.
  split.
  - destruct s, t; simpl; intros; try discriminate; constructor.
  - by destruct 1 as [| | | | | | | |[]|[]].
Qed.

(** A run of the machine: consecutive states are related by the table. *)
Fixpoint valid_path (s : SessionState) (p : list SessionState) : bool :=
  match p with
  | [] => true
  | t :: p => can_transition_to s t && valid_path t p
  end.

Definition terminal (s : SessionState) : Prop :=
  s = SessionState.Closed \/ s = SessionState.Poisoned.

Lemma terminal_absorbing s t : terminal s -> transition s t -> terminal t.
Proof. unfold terminal. intros [->| ->]; inversion 1; auto. Qed.

(** The states a run must have visited before it can be in [s]. *)
Definition required (s : SessionState) : list SessionState :=
  match s with
  | SessionState.Handshaking => [SessionState.Handshaking]
  | SessionState.Idle => [SessionState.Handshaking; SessionState.Idle]
  | SessionState.Opening => [SessionState.Handshaking; SessionState.Idle; SessionState.Opening]
  | SessionState.Active | SessionState.Draining =>
      [SessionState.Handshaking; SessionState.Idle; SessionState.Opening; SessionState.Active]
  | SessionState.Connecting | SessionState.Closing | SessionState.Closed
  | SessionState.Poisoned => []
  end.

Lemma required_step s t : can_transition_to s t = true -> ~ terminal t ->
  t <> SessionState.Closing -> required t `sublist_of` required s ++ [t].
Proof.
  intros Hst Ht Hc. unfold terminal in Ht.
  destruct s, t; try done; try (by destruct Ht; auto); simpl; repeat constructor.
Qed.

Lemma path_required s seen p :
  required s `sublist_of` seen -> valid_path s p = true ->
  forall t, last (s :: p) = Some t -> required t `sublist_of` seen ++ p.
Proof.
  revert s seen. induction p as [|u p IH]; intros s seen Hs Hp t Hlast.
  { simplify_eq/=. by rewrite app_nil_r. }
  cbn [valid_path] in Hp. apply andb_true_iff in Hp as [Hsu Hp].
  rewrite last_cons_cons in Hlast. rewrite cons_middle, app_assoc.
  apply (IH u); [|done..].
  destruct (decide (required u = [])) as [->|Hne]; [apply sublist_nil_l|].
  transitivity (required s ++ [u]).
  - apply required_step; [done|intros [->| ->]; done|by intros ->].
  - by apply sublist_app.
Qed.

(** By induction on runs: closed and poisoned sessions never become usable again, and a run
    from [Connecting] that reaches [Active] has gone through [Handshaking], [Idle] and [Opening],
    in this order. *)
Theorem lifecycle_order :
  (forall s t, terminal s -> rtc (fun u v => can_transition_to u v = true) s t -> terminal t)
  /\ (forall p, valid_path SessionState.Connecting p = true ->
       last (SessionState.Connecting :: p) = Some SessionState.Active ->
       [SessionState.Handshaking; SessionState.Idle; SessionState.Opening; SessionState.Active]
         `sublist_of` p).
Proof.
  split.
  - intros s t Hs Hst. induction Hst as [|s u t Hsu _ IH]; [done|].
    apply IH. apply can_transition_to_spec in Hsu. by eapply terminal_absorbing.
  - intros p Hp Hlast. by apply (path_required SessionState.Connecting [] p (sublist_nil_l _) Hp _ Hlast).
Qed.
