(* ===== verification/Negotiate.v ===== *)
(** * Capability negotiation (shuttle/src/session/negotiate.rs)

    Capability bit sets, the two ends of the [ClientHello] exchange, and the tracker that warns
    once per endpoint when a remote does not support reuse. *)
From S2P Require Import Prelude.
From stdpp Require Import strings gmap pretty.
From S2P Require Import Stream Frame Lifecycle.
Open Scope Z_scope.

Definition CAP_REUSE : Z := 1.
Definition CAP_KEEPALIVE : Z := 2.

(** ** Capabilities *)

Record Capabilities := Caps { bits : Z }.

Definition new (bits : Z) : Capabilities := Caps bits.
Definition reuse (self : Capabilities) : bool := negb (Z.land (bits self) CAP_REUSE =? 0).
Definition keepalive (self : Capabilities) : bool := negb (Z.land (bits self) CAP_KEEPALIVE =? 0).
Definition intersect (self other : Capabilities) : Capabilities :=
  Caps (Z.land (bits self) (bits other)).

Record NegotiatedCapabilities := Negotiated {
  neg_reuse : bool;
  neg_keepalive : bool;
  server_version : Z;
}.

Definition from_intersect (client_caps server_caps : Capabilities) (version : Z)
    : NegotiatedCapabilities :=
  let shared := intersect client_caps server_caps in
  Negotiated (reuse shared) (keepalive shared) version.

Module NegotiationError.
Inductive NegotiationError :=
| ServerRejected (reason : Z)
| VersionMismatch (client server : Z)
| NoResponse
| UnexpectedFrame
| Io (e : io_error).
End NegotiationError.
Abbreviation NegotiationError := NegotiationError.NegotiationError.

(** [fmt::Display for FrameError], for the message an [io::Error] is built from. *)
Definition display_frame_error (e : FrameError) : string :=
  match e with
  | FrameError.UnknownFrameType t => "unknown frame type: " +:+ pretty t
  | FrameError.OversizedPayload len => "oversized payload: " +:+ pretty len +:+ " bytes"
  | FrameError.UnexpectedEof => "unexpected end of input"
  | FrameError.InvalidPayload message => "invalid payload: " +:+ message
  | FrameError.Io err => "I/O error: " +:+ msg err
  end.

(** [impl From<FrameError> for NegotiationError]. *)
Definition from_frame_error (err : FrameError) : NegotiationError :=
  match err with
  | FrameError.Io err => NegotiationError.Io err
  | FrameError.UnexpectedEof => NegotiationError.NoResponse
  | other => NegotiationError.Io (IoErr InvalidData (display_frame_error other))
  end.

Definition client_accepts_server_version (server_version : Z) : bool :=
  PROTOCOL_VERSION <=? server_version.
Definition server_accepts_client_version (client_version : Z) : bool :=
  client_version <=? PROTOCOL_VERSION.

Section stream.
Context {St : Type} `{!AsyncIO St}.

(** The five-second [timeout] turns a peer that says nothing into [NoResponse]. *)
Definition read_with_timeout : prog St NegotiationError Frame :=
  frame ← timeout (prog_map_err from_frame_error read_frame);
  match frame with
  | Some frame => mret frame
  | None => fail NegotiationError.NoResponse
  end.

Definition negotiate_client (client_caps : Capabilities)
    : prog St NegotiationError NegotiatedCapabilities :=
  _ ← prog_map_err from_frame_error
        (write_frame (ClientHello PROTOCOL_VERSION (bits client_caps)));
  frame ← read_with_timeout;
  match frame with
  | ClientHello version capabilities =>
      if negb (client_accepts_server_version version) then
        fail (NegotiationError.VersionMismatch PROTOCOL_VERSION version)
      else mret (from_intersect client_caps (new capabilities) version)
  | Close reason => fail (NegotiationError.ServerRejected reason)
  | _ => fail NegotiationError.NoResponse
  end.

Definition negotiate_server (server_caps : Capabilities)
    : prog St NegotiationError NegotiatedCapabilities :=
  frame ← read_with_timeout;
  match frame with
  | ClientHello version capabilities =>
      if negb (server_accepts_client_version version) then
        _ ← prog_map_err from_frame_error
              (write_frame (Close (reason_as_u8 CloseReason.VersionMismatch)));
        fail (NegotiationError.VersionMismatch version PROTOCOL_VERSION)
      else
        _ ← prog_map_err from_frame_error
              (write_frame (ClientHello PROTOCOL_VERSION (bits server_caps)));
        mret (from_intersect (new capabilities) server_caps PROTOCOL_VERSION)
  | _ => fail NegotiationError.UnexpectedFrame
  end.
End stream.

(** ** Fallback warnings *)

(** The set of endpoints already warned about, and the warnings logged so far. *)
Record FallbackTracker := Tracker { warned : gset string; warnings : list string }.

Definition tracker_new : FallbackTracker := Tracker ∅ [].

(** [HashSet::insert] is [true] on a fresh element; only then a warning is logged. *)
Definition warn_fallback (endpoint : string) (t : FallbackTracker) : FallbackTracker :=
  if decide (endpoint ∈ warned t) then t
  else Tracker ({[endpoint]} ∪ warned t) (warnings t ++ [endpoint]).

(** ** Proofs *)

Lemma reuse_testbit c : reuse c = Z.testbit (bits c) 0.
Proof. apply (mask_testbit _ 0). lia. Qed.
Lemma keepalive_testbit c : keepalive c = Z.testbit (bits c) 1.
Proof. apply (mask_testbit _ 1). lia. Qed.

(** A capability is negotiated exactly when both ends offer it. *)
Lemma from_intersect_spec c s v :
  from_intersect c s v = Negotiated (reuse c && reuse s) (keepalive c && keepalive s) v.
Proof.
  unfold from_intersect. rewrite !reuse_testbit, !keepalive_testbit. cbn [bits intersect].
  by rewrite !Z.land_spec.
Qed.

Section stream_proofs.
Context {St : Type} `{!AsyncIO St, !AsyncIOLaws St}.
#[local] Set Default Proof Using "Type*".
Implicit Types s : St.

Lemma read_with_timeout_sent f s b rest :
  sendable f -> encode f [] = Ok b :> res FrameError _ -> incoming s = b ++ rest ->
  exists s', read_with_timeout s = (Ok f, s') /\ incoming s' = rest /\ only_read s s'.
Proof.
  intros Hf Hb Hi. destruct (read_frame_sent f s b rest Hf Hb Hi) as (s' & Hr & ?).
  exists s'. split; [|done].
  apply (prog_map_err_eq from_frame_error), timeout_eq in Hr. unfold read_with_timeout. by run Hr.
Qed.

Lemma read_with_timeout_partial s :
  frame_length (incoming s) = None ->
  exists e s', read_with_timeout s = (Err e, s')
    /\ (e = NegotiationError.NoResponse \/ exists err, e = NegotiationError.Io err)
    /\ (ends s = true -> exists m, e = NegotiationError.Io (IoErr UnexpectedEof m))
    /\ only_read s s'.
Proof.
  intros Hn. destruct (read_frame_partial s Hn) as (r & s' & Hr & Hshape & Heof & Hor).
  apply (prog_map_err_eq from_frame_error), timeout_eq in Hr. unfold read_with_timeout.
  destruct Hshape as [->|[e ->]]; simpl in Hr; run Hr; do 2 eexists; split_and!; eauto.
  - intros (m & ?)%Heof. done.
  - intros (m & [= ->])%Heof. eauto.
Qed.

Lemma hello_sendable v k : is_u8 v -> is_u16 k -> sendable (ClientHello v k).
Proof. intros. split; [done|]. simpl. by vm_compute. Qed.

Lemma close_sendable r : is_u8 r -> sendable (Close r).
Proof. intros. split; [done|]. by vm_compute. Qed.

(** One [write_frame] whose error is converted. *)
Lemma send_ok {E} (conv : FrameError -> E) f b s :
  encode f [] = Ok b :> res FrameError _ -> writable s ->
  exists s', prog_map_err conv (write_frame f) s = (Ok tt, s')
    /\ outgoing s' = outgoing s ++ b /\ incoming s' = incoming s /\ ends s' = ends s
    /\ writable s'.
Proof.
  intros Hb Hw. destruct (write_frame_ok f s b Hb Hw) as (s' & Hr & ?).
  apply (prog_map_err_eq conv) in Hr. eauto.
Qed.

(** The result of [negotiate_client] as a function of the server's reply. *)
Definition client_verdict (client_caps : Capabilities) (reply : Frame)
    : res NegotiationError NegotiatedCapabilities :=
  match reply with
  | ClientHello version capabilities =>
      if PROTOCOL_VERSION <=? version then
        Ok (Negotiated (reuse client_caps && reuse (new capabilities))
              (keepalive client_caps && keepalive (new capabilities)) version)
      else Err (NegotiationError.VersionMismatch PROTOCOL_VERSION version)
  | Close reason => Err (NegotiationError.ServerRejected reason)
  | _ => Err NegotiationError.NoResponse
  end.

Lemma negotiate_client_reply caps hello reply b rest s :
  encode (ClientHello PROTOCOL_VERSION (bits caps)) [] = Ok hello :> res FrameError _ ->
  writable s -> sendable reply -> encode reply [] = Ok b :> res FrameError _ ->
  incoming s = b ++ rest ->
  exists s', negotiate_client caps s = (client_verdict caps reply, s')
    /\ outgoing s' = outgoing s ++ hello /\ incoming s' = rest.
Proof.
  intros Hh Hw Hf Hb Hi.
  destruct (send_ok from_frame_error _ _ s Hh Hw) as (s1 & H1 & Ho1 & Hi1 & _ & Hw1).
  rewrite <- Hi1 in Hi.
  destruct (read_with_timeout_sent reply s1 b rest Hf Hb Hi) as (s2 & H2 & Hi2 & _ & Ho2 & _).
  exists s2. rewrite Ho2, Ho1. split; [|done]. unfold negotiate_client. run H1. run H2.
  destruct reply; try done. unfold client_accepts_server_version. simpl.
  destruct (PROTOCOL_VERSION <=? version); [|done]. simpl. by rewrite from_intersect_spec.
Qed.

Lemma negotiate_server_hello caps v k hello rest s :
  sendable (ClientHello v k) -> encode (ClientHello v k) [] = Ok hello :> res FrameError _ ->
  incoming s = hello ++ rest -> writable s ->
  let reply := if v <=? PROTOCOL_VERSION then ClientHello PROTOCOL_VERSION (bits caps)
               else Close (reason_as_u8 CloseReason.VersionMismatch) in
  forall b, encode reply [] = Ok b :> res FrameError _ ->
  exists s', negotiate_server caps s =
      (if v <=? PROTOCOL_VERSION then
         Ok (Negotiated (reuse (new k) && reuse caps) (keepalive (new k) && keepalive caps)
               PROTOCOL_VERSION)
       else Err (NegotiationError.VersionMismatch v PROTOCOL_VERSION), s')
    /\ outgoing s' = outgoing s ++ b /\ incoming s' = rest.
Proof.
  intros Hf Hb Hi Hw reply b' Hb'.
  destruct (read_with_timeout_sent _ s hello rest Hf Hb Hi) as (s1 & H1 & Hi1 & _ & Ho1 & Hw1).
  destruct (send_ok from_frame_error _ _ s1 Hb' (Hw1 Hw)) as (s2 & H2 & Ho2 & Hi2 & _ & _).
  exists s2. rewrite Ho2, Hi2, Ho1. split; [|done]. unfold negotiate_server. run H1.
  unfold server_accepts_client_version. subst reply. revert H2.
  destruct (v <=? PROTOCOL_VERSION); intros H2; cbn [negb]; run H2; [|done].
  by rewrite from_intersect_spec.
Qed.
End stream_proofs.

Lemma encode_hello caps :
  encode (ClientHello PROTOCOL_VERSION (bits caps)) []
  = Ok ([FRAME_CLIENT_HELLO; 0; 3; PROTOCOL_VERSION] ++ to_be_bytes 2 (bits caps)) :> res FrameError _.
Proof. reflexivity. Qed.

(** ** Correctness of the exchange *)

(** C25: the two ends agree.  Connect [negotiate_client] and [negotiate_server] back to back (each
    reads what the other writes): both succeed with the same record, in which a capability is on
    exactly when both sides offered it, and neither consumes a byte of what follows. *)
Theorem negotiation_agrees {C St : Type} `{!AsyncIO C, !AsyncIOLaws C, !AsyncIO St, !AsyncIOLaws St}
    (client_caps server_caps : Capabilities) :
  is_u16 (bits client_caps) -> is_u16 (bits server_caps) ->
  let agreed := Negotiated (reuse client_caps && reuse server_caps)
                  (keepalive client_caps && keepalive server_caps) PROTOCOL_VERSION in
  exists hello reply,
    (forall (c : C) rest, writable c -> incoming c = reply ++ rest ->
       exists c', negotiate_client client_caps c = (Ok agreed, c')
         /\ outgoing c' = outgoing c ++ hello /\ incoming c' = rest)
    /\ (forall (s : St) rest, writable s -> incoming s = hello ++ rest ->
       exists s', negotiate_server server_caps s = (Ok agreed, s')
         /\ outgoing s' = outgoing s ++ reply /\ incoming s' = rest).
Proof.
  intros Hc Hs agreed. do 2 eexists. split.
  - intros c rest Hw Hi.
    eapply (negotiate_client_reply _ _ (ClientHello PROTOCOL_VERSION (bits server_caps)));
      [apply encode_hello|done|by apply hello_sendable|apply encode_hello|exact Hi].
  - intros s rest Hw Hi.
    eapply (negotiate_server_hello server_caps PROTOCOL_VERSION (bits client_caps));
      [by apply hello_sendable|apply encode_hello|exact Hi|done|apply encode_hello].
Qed.

Lemma negotiation_agrees_witness :
  let cc := Caps 3 in let sc := Caps 1 in
  exists hello reply,
    (forall (c : duplex) rest, writable c -> incoming c = reply ++ rest ->
       exists c', negotiate_client cc c = (Ok (Negotiated true false 1), c')
         /\ outgoing c' = outgoing c ++ hello /\ incoming c' = rest)
    /\ (forall (s : duplex) rest, writable s -> incoming s = hello ++ rest ->
       exists s', negotiate_server sc s = (Ok (Negotiated true false 1), s')
         /\ outgoing s' = outgoing s ++ reply /\ incoming s' = rest).
Proof. apply (negotiation_agrees (C:=duplex) (St:=duplex) (Caps 3) (Caps 1)); by_compute. Defined.

(** Every way the client side can end.  A whole reply decides the result by [client_verdict]
    (a lower version is a mismatch, [Close] a rejection, any other frame [NoResponse]); with no
    whole reply the client never succeeds, a silent peer gives [NoResponse] or an I/O error, and a
    peer that closes gives [Io(UnexpectedEof)], not [NoResponse]. *)
Theorem negotiate_client_outcome {St : Type} `{!AsyncIO St, !AsyncIOLaws St}
    (caps : Capabilities) (s : St) :
  writable s ->
  (forall reply b rest, sendable reply -> encode reply [] = Ok b :> res FrameError _ ->
     incoming s = b ++ rest -> (negotiate_client caps s).1 = client_verdict caps reply)
  /\ (frame_length (incoming s) = None ->
      exists e, (negotiate_client caps s).1 = Err e
        /\ (e = NegotiationError.NoResponse \/ exists err, e = NegotiationError.Io err)
        /\ (ends s = true -> exists m, e = NegotiationError.Io (IoErr UnexpectedEof m))).
Proof.
  intros Hw. pose proof (encode_hello caps) as Hh. split.
  - intros reply b rest Hf Hb Hi.
    by destruct (negotiate_client_reply caps _ reply b rest s Hh Hw Hf Hb Hi) as (s' & -> & _).
  - intros Hn.
    destruct (send_ok from_frame_error _ _ s Hh Hw) as (s1 & H1 & _ & Hi1 & He1 & _).
    destruct (read_with_timeout_partial s1) as (e & s2 & H2 & Hshape & Heof & _); [by rewrite Hi1|].
    exists e. unfold negotiate_client. run H1. run H2. rewrite <- He1. done.
Qed.

Lemma negotiate_client_outcome_witness :
  (negotiate_client (Caps 1) (open_with [8; 0; 1; 127])).1
    = Err (NegotiationError.ServerRejected 127)
  /\ (exists e, (negotiate_client (Caps 1) (closed_with [1; 0])).1 = Err e
        /\ exists m, e = NegotiationError.Io (IoErr UnexpectedEof m)).
Proof.
  split.
  - apply (proj1 (negotiate_client_outcome (Caps 1) (open_with [8; 0; 1; 127]) (open_writable _))
             (Close 127) [8; 0; 1; 127] []); [by_compute|reflexivity..].
  - destruct (proj2 (negotiate_client_outcome (Caps 1) (closed_with [1; 0]) (closed_writable _)) eq_refl)
      as (e & He & _ & Hm). exists e. split; [exact He|exact (Hm eq_refl)].
Defined.

(** The server refuses a client of a newer protocol version: it answers with one [Close]
    frame and reports the mismatch; an equal or older client gets a [ClientHello] back. *)
Theorem negotiate_server_versions {St : Type} `{!AsyncIO St, !AsyncIOLaws St}
    (caps : Capabilities) (v k : Z) (s : St) (hello rest : list Z) :
  is_u8 v -> is_u16 k -> is_u16 (bits caps) ->
  encode (ClientHello v k) [] = Ok hello :> res FrameError _ ->
  incoming s = hello ++ rest -> writable s ->
  exists s', incoming s' = rest /\
    if PROTOCOL_VERSION <? v then
      negotiate_server caps s = (Err (NegotiationError.VersionMismatch v PROTOCOL_VERSION), s')
      /\ outgoing s' = outgoing s ++ [FRAME_CLOSE; 0; 1; reason_as_u8 CloseReason.VersionMismatch]
    else
      negotiate_server caps s =
        (Ok (Negotiated (reuse (new k) && reuse caps) (keepalive (new k) && keepalive caps)
               PROTOCOL_VERSION), s')
      /\ outgoing s' = outgoing s ++ FRAME_CLIENT_HELLO :: 0 :: 3 :: PROTOCOL_VERSION
           :: to_be_bytes 2 (bits caps).
Proof.
  intros Hv Hk Hc Hb Hi Hw.
  pose proof (negotiate_server_hello caps v k hello rest s (hello_sendable v k Hv Hk) Hb Hi Hw) as H.
  cbv zeta in H. rewrite Z.ltb_antisym. destruct (v <=? PROTOCOL_VERSION); cbn [negb].
  - destruct (H _ (encode_hello caps)) as (s' & ? & ? & ?). eauto.
  - destruct (H _ eq_refl) as (s' & ? & ? & ?). eauto.
Qed.

Lemma negotiate_server_versions_witness :
  exists s' : duplex, incoming s' = [5] /\
    negotiate_server (Caps 1) (open_with [1; 0; 3; 2; 0; 1; 5])
      = (Err (NegotiationError.VersionMismatch 2 PROTOCOL_VERSION), s')
    /\ outgoing s' = outgoing (open_with [1; 0; 3; 2; 0; 1; 5]) ++ [8; 0; 1; 10].
Proof.
  apply (negotiate_server_versions (Caps 1) 2 1 (open_with [1; 0; 3; 2; 0; 1; 5]) [1; 0; 3; 2; 0; 1] [5]);
    first [reflexivity | by_compute].
Defined.

(** ** The fallback tracker *)

Lemma warn_fallback_inv t e :
  NoDup (warnings t) -> (forall x, x ∈ warned t <-> x ∈ warnings t) ->
  NoDup (warnings (warn_fallback e t))
  /\ (forall x, x ∈ warned (warn_fallback e t) <-> x ∈ warnings (warn_fallback e t))
  /\ (forall x, x ∈ warnings (warn_fallback e t) <-> x ∈ warnings t \/ x = e).
Proof.
  intros Hnd Hiff. unfold warn_fallback. case_decide as He; simpl.
  - split_and!; [done..|]. intros x. split; [by left|]. intros [?| ->]; [done|by apply Hiff].
  - split_and!.
    + apply NoDup_app. split_and!; [done| |apply NoDup_singleton].
      intros x Hx ->%list_elem_of_singleton. by apply He, Hiff.
    + intros x. rewrite elem_of_union, elem_of_singleton, Hiff, elem_of_app, list_elem_of_singleton.
      tauto.
    + intros x. by rewrite elem_of_app, list_elem_of_singleton.
Qed.

(** However the calls interleave, each endpoint is warned about exactly once, on its first
    fallback. *)
Theorem warn_fallback_once (calls : list string) :
  let final := foldl (fun t e => warn_fallback e t) tracker_new calls in
  NoDup (warnings final) /\ forall e, e ∈ warnings final <-> e ∈ calls.
Proof.
  simpl. assert (forall t, NoDup (warnings t) -> (forall x, x ∈ warned t <-> x ∈ warnings t) ->
    let final := foldl (fun t e => warn_fallback e t) t calls in
    NoDup (warnings final) /\ forall e, e ∈ warnings final <-> e ∈ warnings t \/ e ∈ calls) as H.
  { induction calls as [|c calls IH]; intros t Hnd Hiff; simpl.
    - split; [done|]. intros e. rewrite elem_of_nil. tauto.
    - destruct (warn_fallback_inv t c Hnd Hiff) as (Hnd' & Hiff' & Hw).
      destruct (IH _ Hnd' Hiff') as [? Hall]. split; [done|].
      intros e. rewrite Hall, Hw, elem_of_cons. tauto. }
  destruct (H tracker_new) as [? Hall]; simpl; [by apply NoDup_nil| |].
  { intros x. split; [by intros ?%not_elem_of_empty|by intros ?%not_elem_of_nil]. }
  split; [done|]. intros e. rewrite Hall. simpl. rewrite elem_of_nil. tauto.
Qed.
