(* ===== verification/Keepalive.v ===== *)
(** * Idle keep-alive (shuttle/src/session/keepalive.rs)

    [KeepaliveDriver::ping] and the task that repeats it.  The random token is an argument of the
    model; the events emitted are part of the state. *)
From S2P Require Import Prelude.
From stdpp Require Import strings pretty.
From S2P Require Import Time Stream Frame Opt Lifecycle.
Open Scope Z_scope.

Record KeepaliveDriver := { interval : Duration; ping_timeout : Duration }.

Module KeepaliveError.
Inductive KeepaliveError :=
| Timeout
| TokenMismatch (expected received : Z)
| UnexpectedResponse
| Io (error : io_error).
End KeepaliveError.
Abbreviation KeepaliveError := KeepaliveError.KeepaliveError.

#[export] Instance KeepaliveError_eq_dec : EqDecision KeepaliveError.
Proof. solve_decision. Defined.

(** [fmt::Display] and [Error::source]. *)
Definition display_keepalive_error (e : KeepaliveError) : string :=
  match e with
  | KeepaliveError.Timeout => "keepalive timeout"
  | KeepaliveError.TokenMismatch expected received =>
      "keepalive token mismatch: expected " +:+ pretty expected +:+ ", got " +:+ pretty received
  | KeepaliveError.UnexpectedResponse => "unexpected response frame type"
  | KeepaliveError.Io error => "I/O error: " +:+ msg error
  end.
Definition error_source (e : KeepaliveError) : option io_error :=
  match e with KeepaliveError.Io error => Some error | _ => None end.

(** [KeepaliveDriver::new]. *)
Definition driver_new (interval : Duration) : KeepaliveDriver :=
  let timeout := match checked_mul interval 2 with Some d => d | None => interval end in
  {| interval := interval; ping_timeout := timeout |}.

Definition map_frame_error (error : FrameError) : KeepaliveError :=
  match error with
  | FrameError.Io error => KeepaliveError.Io error
  | _ => KeepaliveError.UnexpectedResponse
  end.

(** The stream with the events emitted so far. *)
Record monitored (St : Type) := Monitored { stream : St; events : list SessionEvent }.
Arguments Monitored {_} _ _.
Arguments stream {_} _.
Arguments events {_} _.

Section driver.
Context {St : Type} `{!AsyncIO St}.

Definition on_stream {E A} (m : prog St E A) : prog (monitored St) E A :=
  zoom stream (fun s w => Monitored s (events w)) m.
Definition emit_event {E} (e : SessionEvent) : prog (monitored St) E unit :=
  modify (fun w => Monitored (stream w) (events w ++ [e])).

(** [KeepaliveDriver::ping] with the random [token]. *)
Definition ping (token : Z) : prog (monitored St) KeepaliveError unit :=
  _ ← on_stream (prog_map_err map_frame_error (write_frame (Ping token)));
  _ ← emit_event SessionEvent.PingSent;
  response ← on_stream (timeout (prog_map_err map_frame_error read_frame));
  match response with
  | None =>
      _ ← emit_event SessionEvent.PingTimeout;
      fail KeepaliveError.Timeout
  | Some (Pong received) =>
      if received =? token then emit_event SessionEvent.PingAcked
      else fail (KeepaliveError.TokenMismatch token received)
  | Some _ => fail KeepaliveError.UnexpectedResponse
  end.

(** [spawn_keepalive_task]: one ping per interval, with the random tokens drawn; the task stops
    on the first failure, after calling [on_timeout].  [Pending]: it is still running when the
    tokens of this run are used up. *)
Fixpoint keepalive_task (on_timeout : monitored St -> monitored St) (tokens : list Z)
    : prog (monitored St) KeepaliveError unit :=
  match tokens with
  | [] => pending
  | token :: tokens =>
      r ← attempt (ping token);
      match r with
      | inl _ => keepalive_task on_timeout tokens
      | inr error => modify on_timeout
      end
  end.
End driver.

(** ** Proofs *)

Section proofs.
Context {St : Type} `{!AsyncIO St, !AsyncIOLaws St}.
#[local] Set Default Proof Using "Type*".
Implicit Types (w : monitored St).

Lemma on_stream_eq {E A} (m : prog St E A) w r s' :
  m (stream w) = (r, s') -> on_stream m w = (r, Monitored s' (events w)).
Proof. intros H. unfold on_stream, zoom. by rewrite H. Qed.

(** The result of one ping, as a function of the frame that answers it. *)
Definition ping_verdict (token : Z) (answer : Frame) : res KeepaliveError unit :=
  match answer with
  | Pong received =>
      if received =? token then Ok tt else Err (KeepaliveError.TokenMismatch token received)
  | _ => Err KeepaliveError.UnexpectedResponse
  end.

Definition ping_bytes (token : Z) : list Z := FRAME_PING :: 0 :: 4 :: to_be_bytes 4 token.

Lemma ping_send token w :
  writable (stream w) ->
  exists s1, on_stream (prog_map_err map_frame_error (write_frame (Ping token))) w
      = (Ok tt, Monitored s1 (events w))
    /\ outgoing s1 = outgoing (stream w) ++ ping_bytes token
    /\ incoming s1 = incoming (stream w) /\ ends s1 = ends (stream w) /\ writable s1.
Proof.
  intros Hw. destruct (write_frame_ok (Ping token) (stream w) (ping_bytes token) eq_refl Hw)
    as (s1 & H1 & Ho & Hi & He & Hw1).
  apply (prog_map_err_eq map_frame_error) in H1. exists s1. by rewrite (on_stream_eq _ _ _ _ H1).
Qed.

Lemma ping_answered token answer b rest w :
  writable (stream w) -> sendable answer -> encode answer [] = Ok b :> res FrameError _ ->
  incoming (stream w) = b ++ rest ->
  exists w', ping token w = (ping_verdict token answer, w')
    /\ incoming (stream w') = rest /\ writable (stream w')
    /\ outgoing (stream w') = outgoing (stream w) ++ ping_bytes token
    /\ events w' = events w ++ SessionEvent.PingSent ::
         (if is_ok (ping_verdict token answer) then [SessionEvent.PingAcked] else []).
Proof.
  intros Hw Hf Hb Hi. destruct (ping_send token w Hw) as (s1 & H1 & Ho1 & Hi1 & He1 & Hw1).
  rewrite <- Hi1 in Hi.
  destruct (read_frame_sent answer s1 b rest Hf Hb Hi) as (s2 & H2 & Hi2 & _ & Ho2 & Hw2).
  apply (prog_map_err_eq map_frame_error), timeout_eq in H2.
  unfold ping. run H1.
  assert (forall w1, stream w1 = s1 -> exists w2,
    on_stream (timeout (prog_map_err map_frame_error read_frame)) w1 = (Ok (Some answer), w2)
    /\ stream w2 = s2 /\ events w2 = events w1) as Hread.
  { intros w1 <-. eexists. by rewrite (on_stream_eq _ _ _ _ H2). }
  destruct (Hread (Monitored s1 (events w ++ [SessionEvent.PingSent])) eq_refl)
    as (w2 & H3 & Hs2 & He2).
  rewrite (bind_ok (emit_event SessionEvent.PingSent) _ _ _ _ eq_refl). run H3.
  simpl in He2. rewrite <- Hs2 in *.
  destruct answer; simpl; try (eexists; split; [done|]; rewrite He2, Ho2, Ho1; auto).
  destruct (token0 =? token); simpl; eexists; (split; [done|]); simpl;
    rewrite ?He2, Ho2, Ho1, <- ?app_assoc; auto.
Qed.

Lemma ping_unanswered token w :
  writable (stream w) -> frame_length (incoming (stream w)) = None ->
  exists e w', ping token w = (Err e, w')
    /\ ((e = KeepaliveError.Timeout
           /\ events w' = events w ++ [SessionEvent.PingSent; SessionEvent.PingTimeout])
        \/ (exists err, e = KeepaliveError.Io err
             /\ events w' = events w ++ [SessionEvent.PingSent])).
Proof.
  intros Hw Hn. destruct (ping_send token w Hw) as (s1 & H1 & _ & Hi1 & _ & _).
  destruct (read_frame_partial s1) as (r & s2 & H2 & Hshape & _); [by rewrite Hi1|].
  apply (prog_map_err_eq map_frame_error), timeout_eq in H2.
  unfold ping. run H1.
  rewrite (bind_ok (emit_event SessionEvent.PingSent) _ _ _ _ eq_refl).
  pose proof (on_stream_eq _ (Monitored s1 (events w ++ [SessionEvent.PingSent])) _ _ H2) as H3.
  destruct Hshape as [->|[e ->]]; simpl map_err in H3; run H3; do 2 eexists; (split; [done|]); simpl.
  - left. by rewrite <- app_assoc.
  - right. eauto.
Qed.

(** Every way a ping can end.  A whole answer decides it: [Ok] exactly for a [Pong] carrying
    the same token, [TokenMismatch] for another token, [UnexpectedResponse] for any other frame;
    with no whole answer on an open stream the ping times out or fails with I/O, never [Ok].  The
    request is on the wire, and [PingAcked] is emitted exactly on success, [PingTimeout] exactly on
    a timeout. *)
Theorem ping_outcome (token : Z) (w : monitored St) :
  writable (stream w) ->
  (forall answer b rest, sendable answer -> encode answer [] = Ok b :> res FrameError _ ->
     incoming (stream w) = b ++ rest ->
     exists w', ping token w = (ping_verdict token answer, w')
       /\ incoming (stream w') = rest /\ writable (stream w')
       /\ outgoing (stream w') = outgoing (stream w) ++ ping_bytes token
       /\ events w' = events w ++ SessionEvent.PingSent ::
            (if is_ok (ping_verdict token answer) then [SessionEvent.PingAcked] else []))
  /\ (frame_length (incoming (stream w)) = None ->
      exists e w', ping token w = (Err e, w')
        /\ ((e = KeepaliveError.Timeout
               /\ events w' = events w ++ [SessionEvent.PingSent; SessionEvent.PingTimeout])
            \/ (exists err, e = KeepaliveError.Io err
                 /\ events w' = events w ++ [SessionEvent.PingSent]))).
Proof. intros Hw. split; [intros; by eapply ping_answered|by apply ping_unanswered]. Qed.
End proofs.

Lemma ping_outcome_witness :
  (exists w' : monitored duplex,
     ping 7 (Monitored (open_with [7; 0; 4; 0; 0; 0; 7]) []) = (Ok tt, w')
     /\ incoming (stream w') = [] /\ writable (stream w')
     /\ outgoing (stream w') = [] ++ ping_bytes 7
     /\ events w' = [SessionEvent.PingSent; SessionEvent.PingAcked])
  /\ exists e w', ping 7 (Monitored (open_with []) []) = (Err e, w').
Proof.
  split.
  - apply (proj1 (ping_outcome 7 (Monitored (open_with [7; 0; 4; 0; 0; 0; 7]) []) (open_writable _))
             (Pong 7) [7; 0; 4; 0; 0; 0; 7] []); [by_compute|reflexivity..].
  - destruct (proj2 (ping_outcome 7 (Monitored (open_with []) []) (open_writable _)) eq_refl)
      as (e & w' & He & _). exists e, w'. exact He.
Defined.

(** ** The repeating task *)

(** A peer that has answered each of [tokens] with the matching pong. *)
Definition pongs (tokens : list Z) : list Z :=
  concat ((fun t => FRAME_PONG :: 0 :: 4 :: to_be_bytes 4 t) <$> tokens).
Definition acked (tokens : list Z) : list SessionEvent :=
  concat ((fun _ => [SessionEvent.PingSent; SessionEvent.PingAcked]) <$> tokens).

Section task.
Context {St : Type} `{!AsyncIO St, !AsyncIOLaws St}.
#[local] Set Default Proof Using "Type*".
Implicit Types (w : monitored St).

Lemma keepalive_task_acked on_timeout tokens later rest w :
  Forall is_u32 tokens -> writable (stream w) -> incoming (stream w) = pongs tokens ++ rest ->
  exists w', keepalive_task on_timeout (tokens ++ later) w = keepalive_task on_timeout later w'
    /\ incoming (stream w') = rest /\ writable (stream w') /\ events w' = events w ++ acked tokens.
Proof.
  intros Ht. revert w. induction Ht as [|t tokens Hu _ IH]; intros w Hw Hi.
  { exists w. rewrite app_nil_r. done. }
  unfold pongs in Hi. cbn [fmap list_fmap concat] in Hi. rewrite <- app_assoc in Hi.
  destruct (ping_answered t (Pong t) _ _ w Hw ltac:(split; [done|by vm_compute]) eq_refl Hi)
    as (w1 & H1 & Hi1 & Hw1 & _ & He1).
  destruct (IH w1 Hw1 Hi1) as (w2 & H2 & Hi2 & Hw2 & He2).
  exists w2. split_and!; [|done..|].
  - cbn [app keepalive_task]. unfold attempt, mbind, prog_bind at 1. rewrite H1.
    cbn [ping_verdict]. rewrite Z.eqb_refl. exact H2.
  - rewrite He2, He1. cbn [ping_verdict]. rewrite Z.eqb_refl. cbn [is_ok].
    by rewrite <- app_assoc.
Qed.

(** C38: the keep-alive task evicts exactly once and only on a failure.  While the peer answers
    every ping, [on_timeout] is not called and the task keeps running; at the first ping without a
    whole answer it calls [on_timeout] once, on the stream it has at that point, and stops,
    leaving the remaining intervals untouched. *)
Theorem keepalive_task_evicts (on_timeout : monitored St -> monitored St)
    (tokens : list Z) (bad : Z) (later rest : list Z) (w : monitored St) :
  Forall is_u32 tokens -> writable (stream w) -> incoming (stream w) = pongs tokens ++ rest ->
  frame_length rest = None ->
  (exists w1, keepalive_task on_timeout tokens w = (Pending, w1)
     /\ events w1 = events w ++ acked tokens)
  /\ (exists w2 e, keepalive_task on_timeout (tokens ++ bad :: later) w = (Ok tt, on_timeout w2)
     /\ events w2 = events w ++ acked tokens ++ SessionEvent.PingSent :: e
     /\ (e = [] \/ e = [SessionEvent.PingTimeout])).
Proof.
  intros Ht Hw Hi Hn. split.
  - destruct (keepalive_task_acked on_timeout tokens [] rest w Ht Hw Hi) as (w1 & H1 & _ & _ & He).
    rewrite app_nil_r in H1. by exists w1.
  - destruct (keepalive_task_acked on_timeout tokens (bad :: later) rest w Ht Hw Hi)
      as (w1 & H1 & Hi1 & Hw1 & He).
    rewrite <- Hi1 in Hn.
    destruct (ping_unanswered bad w1 Hw1 Hn) as (e & w2 & H2 & Hcase).
    rewrite H1. cbn [keepalive_task]. unfold attempt, mbind, prog_bind at 1. rewrite H2.
    exists w2. destruct Hcase as [[_ ->]|(err & _ & ->)]; rewrite He, <- app_assoc.
    + exists [SessionEvent.PingTimeout]. by split_and!; [..|right].
    + exists []. by split_and!; [..|left].
Qed.
End task.

Lemma keepalive_task_evicts_witness :
  let evict w := Monitored (stream w) (events w ++ [SessionEvent.IdleEviction]) in
  let w := Monitored (open_with (pongs [3; 4])) [] in
  (exists w1 : monitored duplex, keepalive_task evict [3; 4] w = (Pending, w1)
     /\ events w1 = acked [3; 4])
  /\ (exists (w2 : monitored duplex) e, keepalive_task evict ([3; 4] ++ 5 :: [6]) w = (Ok tt, evict w2)
     /\ events w2 = acked [3; 4] ++ SessionEvent.PingSent :: e
     /\ (e = [] \/ e = [SessionEvent.PingTimeout])).
Proof.
  intros evict w. apply (keepalive_task_evicts evict [3; 4] 5 [6] [] w);
    first [reflexivity | by_compute].
Defined.

(** The configured pong timeout is not what the driver waits for: whatever a valid
    configuration's [keepalive_timeout] is, a driver built from its interval waits longer (twice
    the interval, or the interval when doubling overflows). *)
Theorem driver_ignores_keepalive_timeout (c : ReuseConfig) :
  valid_config c ->
  let d := driver_new (keepalive_interval c) in
  interval d = keepalive_interval c
  /\ keepalive_timeout c < ping_timeout d
  /\ (is_duration (2 * keepalive_interval c) -> ping_timeout d = 2 * keepalive_interval c).
Proof.
  intros (_ & _ & _ & [??] & _). unfold driver_new, checked_mul, is_duration. simpl.
  cases_cmp; lia.
Qed.

Lemma driver_ignores_keepalive_timeout_witness :
  let d := driver_new (keepalive_interval default_server_reuse_config) in
  interval d = from_secs 30 /\ from_secs 10 < ping_timeout d
  /\ (is_duration (2 * from_secs 30) -> ping_timeout d = 2 * from_secs 30).
Proof.
  apply (driver_ignores_keepalive_timeout default_server_reuse_config).
  vm_compute. repeat split; congruence.
Defined.
