(* ===== verification/Pool.v ===== *)
(** * Reusable session pool (shuttle/src/client/pool.rs)

    [SessionPool] with its idle queue, its counters and its shutdown flag.  Every critical section
    of the code (the code between [inner.lock().await] and the guard's drop) is one atomic
    definition; [checkout] composes two of them around the connection attempt, during which other
    tasks may run.  The step relation at the end interleaves the critical sections of any number
    of tasks, with the sessions the callers hold and the state of [close_all]. *)
From S2P Require Import Prelude.
From stdpp Require Import strings relations.
From S2P Require Import Time Stream Opt Lifecycle.
Open Scope Z_scope.

Record PooledSession (St : Type) := {
  stream : St;
  use_count : Z;
  created_at : Instant;
  last_used : Instant;
  session_reuse_count : Z;
}.
Arguments stream {_} _.
Arguments use_count {_} _.
Arguments created_at {_} _.
Arguments last_used {_} _.
Arguments session_reuse_count {_} _.

Record PoolInner (St : Type) := {
  idle : list (PooledSession St);   (** front of the [VecDeque] first *)
  checked_out : Z;
  closed : bool;
  checkout_count : Z;
  reuse_count : Z;
}.
Arguments idle {_} _.
Arguments checked_out {_} _.
Arguments closed {_} _.
Arguments checkout_count {_} _.
Arguments reuse_count {_} _.

(** The pool, with the value its shutdown [watch] holds, the events emitted so far, and the number
    of [notify_waiters] calls made. *)
Record SessionPool (St : Type) := {
  inner : PoolInner St;
  shutdown : bool;
  log : list SessionEvent;
  notified : nat;
}.
Arguments inner {_} _.
Arguments shutdown {_} _.
Arguments log {_} _.
Arguments notified {_} _.

Section pool.
Context {St : Type} (config : ReuseConfig).
Abbreviation Session := (PooledSession St).
Abbreviation Pool := (SessionPool St).

(** [SessionPool::new] and [with_shutdown], for the current value of the shutdown flag. *)
Definition pool_new (shutdown : bool) : Pool := {|
  inner := {| idle := []; checked_out := 0; closed := false; checkout_count := 0; reuse_count := 0 |};
  shutdown := shutdown;
  log := [];
  notified := 0;
|}.

Definition set_inner (i : PoolInner St) (p : Pool) : Pool :=
  {| inner := i; shutdown := shutdown p; log := log p; notified := notified p |}.
Definition set_idle (l : list Session) (i : PoolInner St) : PoolInner St :=
  {| idle := l; checked_out := checked_out i; closed := closed i;
     checkout_count := checkout_count i; reuse_count := reuse_count i |}.
Definition emit_event (e : SessionEvent) (p : Pool) : Pool :=
  {| inner := inner p; shutdown := shutdown p; log := log p ++ [e]; notified := notified p |}.
Definition emit_events (l : list SessionEvent) (p : Pool) : Pool :=
  {| inner := inner p; shutdown := shutdown p; log := log p ++ l; notified := notified p |}.

Definition is_reusable (session : Session) (now : Instant) : bool :=
  (use_count session <? max_requests config)
  && (duration_since now (created_at session) <? max_age config)
  && (duration_since now (last_used session) <? idle_timeout config).

(** [emit_eviction]: at most one event. *)
Definition emit_eviction (session : Session) (now : Instant) : list SessionEvent :=
  if max_requests config <=? use_count session then [SessionEvent.MaxRequestsEviction]
  else if max_age config <=? duration_since now (created_at session) then
    [SessionEvent.MaxAgeEviction]
  else if idle_timeout config <=? duration_since now (last_used session) then
    [SessionEvent.IdleEviction]
  else [].

(** ** Checkout *)

(** The [while let Some(session) = inner.idle.pop_back()] loop, on the queue from the back: the
    session found, what is left of the queue (still from the back) and the evictions. *)
Fixpoint pop_back_loop (now : Instant) (from_back : list Session)
    : option Session * list Session * list SessionEvent :=
  match from_back with
  | [] => (None, [], [])
  | s :: rest =>
      if is_reusable s now then (Some s, rest, [])
      else
        let '(found, remaining, evs) := pop_back_loop now rest in
        (found, remaining, emit_eviction s now ++ evs)
  end.

(** A session as it is handed out again. *)
Definition reused (s : Session) (now : Instant) : Session :=
  {| stream := stream s; use_count := use_count s + 1; created_at := created_at s;
     last_used := now; session_reuse_count := session_reuse_count s + 1 |}.

(** The first line of [checkout]: the shutdown flag, read before the lock is taken. *)
Definition checkout_gate : prog Pool string unit := fun p =>
  if shutdown p then
    (Err "session pool is shutting down"%string, emit_event SessionEvent.CheckoutFailed p)
  else (Ok tt, p).

(** The first critical section of [checkout].  [None]: no idle session can be reused. *)
Definition checkout_idle (now : Instant) : prog Pool string (option Session) := fun p =>
  if closed (inner p) then
    (Err "session pool is closed"%string, emit_event SessionEvent.CheckoutFailed p)
  else
    let '(found, remaining, evs) := pop_back_loop now (reverse (idle (inner p))) in
    let i := set_idle (reverse remaining) (inner p) in
    match found with
    | Some s =>
        let s := reused s now in
        let i := {| idle := idle i; checked_out := checked_out i + 1; closed := closed i;
                    checkout_count := checkout_count i + 1; reuse_count := reuse_count i + 1 |} in
        (Ok (Some s),
         emit_events (evs ++ [SessionEvent.PoolHit;
                              SessionEvent.SessionReused (session_reuse_count s)]) (set_inner i p))
    | None => (Ok None, emit_events (evs ++ [SessionEvent.PoolMiss]) (set_inner i p))
    end.

(** [new_session], for the outcome of [connector.connect()]. *)
Definition new_session (now : Instant) (connect : res io_error St) : prog Pool string Session := fun p =>
  match connect with
  | Ok stream =>
      (Ok {| stream := stream; use_count := 1; created_at := now; last_used := now;
             session_reuse_count := 0 |}, p)
  | Err e =>
      (Err ("failed to create reusable session: " +:+ msg e)%string,
       emit_event SessionEvent.CheckoutFailed p)
  | Panic => (Panic, p)
  | Pending => (Pending, p)
  end.

(** The second critical section of [checkout]. *)
Definition checkout_finish (session : Session) : prog Pool string Session := fun p =>
  if closed (inner p) || shutdown p then
    (Err "session pool closed while checkout was connecting"%string,
     emit_event SessionEvent.CheckoutFailed p)
  else
    let i := inner p in
    (Ok session,
     set_inner {| idle := idle i; checked_out := checked_out i + 1; closed := closed i;
                  checkout_count := checkout_count i + 1; reuse_count := reuse_count i |} p).

(** [checkout]: [now] and [now2] are the two [Instant::now()] calls, [connect] the outcome of the
    connection attempt, [others] and [others2] what other tasks do to the pool while this call
    waits for the lock and for the connection. *)
Definition checkout (now now2 : Instant) (connect : res io_error St) (others others2 : Pool -> Pool)
    : prog Pool string Session :=
  _ ← checkout_gate;
  _ ← modify others;
  found ← checkout_idle now;
  match found with
  | Some session => mret session
  | None =>
      session ← new_session now2 connect;
      _ ← modify others2;
      checkout_finish session
  end.

(** ** Return and discard *)

(** [return_session]: one critical section. *)
Definition return_session (session : Session) (healthy : bool) (now : Instant)
    : prog Pool string unit := fun p =>
  let session := {| stream := stream session; use_count := use_count session;
                    created_at := created_at session; last_used := now;
                    session_reuse_count := session_reuse_count session |} in
  let i := inner p in
  let '(i, n) :=
    if checked_out i =? 0 then (i, notified p)
    else ({| idle := idle i; checked_out := checked_out i - 1; closed := closed i;
             checkout_count := checkout_count i; reuse_count := reuse_count i |}, S (notified p)) in
  let p := {| inner := i; shutdown := shutdown p; log := log p; notified := n |} in
  let has_other_checked_out := 0 <? checked_out i in
  if negb healthy || negb (is_reusable session now) then
    if healthy then (Ok tt, emit_events (emit_eviction session now) p)
    else (Ok tt, p)
  else if closed i || shutdown p then (Ok tt, p)
  else if max_idle config <=? Z.of_nat (length (idle i)) then
    if has_other_checked_out then (Ok tt, p)
    else
      match idle i with
      | [] => (Ok tt, set_inner (set_idle (idle i ++ [session]) i) p)
      | _ :: newer =>
          (Ok tt, set_inner (set_idle (newer ++ [session]) i) (emit_event SessionEvent.IdleEviction p))
      end
  else (Ok tt, set_inner (set_idle (idle i ++ [session]) i) p).

(** [discard_checked_out]. *)
Definition discard_checked_out (p : Pool) : Pool :=
  let i := inner p in
  if checked_out i =? 0 then p
  else {| inner := {| idle := idle i; checked_out := checked_out i - 1; closed := closed i;
                      checkout_count := checkout_count i; reuse_count := reuse_count i |};
          shutdown := shutdown p; log := log p; notified := S (notified p) |}.

(** The critical section that starts [close_all]; the number is what is still checked out. *)
Definition close_begin (p : Pool) : Pool * Z :=
  let i := inner p in
  let i := {| idle := []; checked_out := checked_out i; closed := true;
              checkout_count := checkout_count i; reuse_count := reuse_count i |} in
  let p := set_inner i p in
  if checked_out i =? 0 then (emit_event SessionEvent.GracefulDrain p, checked_out i)
  else (p, checked_out i).

(** ** Session handles *)

Record SessionHandle := {
  session_of : option Session;
  bytes_relayed : bool;
  retry_used : bool;
}.

Definition checkout_with_retry (now now2 : Instant) (connect : res io_error St)
    (others others2 : Pool -> Pool) : prog Pool string SessionHandle :=
  s ← checkout now now2 connect others others2;
  mret {| session_of := Some s; bytes_relayed := false; retry_used := false |}.

Definition mark_bytes_relayed (h : SessionHandle) : SessionHandle :=
  {| session_of := session_of h; bytes_relayed := true; retry_used := retry_used h |}.

Definition into_session {T} (h : SessionHandle) : prog T string Session :=
  match session_of h with
  | Some s => mret s
  | None => fail "session handle has no active session"%string
  end.

Definition retry_after_protocol_error (h : SessionHandle) (error : string)
    (now now2 : Instant) (connect : res io_error St) (others others2 : Pool -> Pool)
    : prog Pool string SessionHandle :=
  if bytes_relayed h || retry_used h then fail error
  else
    _ ← modify discard_checked_out;
    _ ← modify (emit_event SessionEvent.FallbackToOneShot);
    s ← checkout now now2 connect others others2;
    mret {| session_of := Some s; bytes_relayed := bytes_relayed h; retry_used := true |}.
End pool.

(** ** The pool as a transition system

    Each step is one critical section (or one point where a task can be suspended), so every
    interleaving of any number of tasks is a path.  [held] are the sessions callers own, [leaked]
    counts those a caller dropped without telling the pool, [connected] are the sessions of
    checkouts waiting for the second lock. *)

(** Where a [close_all] call is: about to test [checked_out] under the lock; past the test, with
    the lock released and no waiter registered yet; waiting, since the notification count was
    [seen]; returned. *)
Inductive closer := Testing | Registering | Waiting (seen : nat) | Drained | TimedOut.

#[export] Instance closer_eq_dec : EqDecision closer.
Proof. solve_decision. Defined.

Record world (St : Type) := World {
  wpool : SessionPool St;
  clock : Instant;
  gated : nat;
  connecting : nat;
  connected : list (PooledSession St);
  held : list (PooledSession St);
  leaked : nat;
  closers : list closer;
}.
Arguments World {_} _ _ _ _ _ _ _ _.
Arguments wpool {_} _.
Arguments clock {_} _.
Arguments gated {_} _.
Arguments connecting {_} _.
Arguments connected {_} _.
Arguments held {_} _.
Arguments leaked {_} _.
Arguments closers {_} _.

Section system.
Context {St : Type} (config : ReuseConfig).
Implicit Types (p : SessionPool St) (s : PooledSession St) (w : world St).

Definition world_new (t : Instant) : world St := World (pool_new false) t 0 0 [] [] 0 [].

(** Every session that is alive. *)
Definition sessions w : list (PooledSession St) := idle (inner (wpool w)) ++ connected w ++ held w.

(** The state a [close_all] call is in after it has seen [n] sessions checked out. *)
Definition after_count (n : Z) (busy : closer) : closer := if n =? 0 then Drained else busy.

Inductive step : world St -> world St -> Prop :=
| step_tick p t d g c cs h l k : 0 <= d ->
    step (World p t g c cs h l k) (World p (t + d) g c cs h l k)
| step_shutdown p t g c cs h l k :
    step (World p t g c cs h l k)
      (World {| inner := inner p; shutdown := true; log := log p; notified := notified p |}
         t g c cs h l k)
| step_gate p p' t g c cs h l k : checkout_gate p = (Ok tt, p') ->
    step (World p t g c cs h l k) (World p' t (S g) c cs h l k)
| step_gate_refused p p' e t g c cs h l k : checkout_gate p = (Err e, p') ->
    step (World p t g c cs h l k) (World p' t g c cs h l k)
| step_hit p p' s now t g c cs h l k : now <= t -> checkout_idle config now p = (Ok (Some s), p') ->
    step (World p t (S g) c cs h l k) (World p' t g c cs (h ++ [s]) l k)
| step_miss p p' now t g c cs h l k : now <= t -> checkout_idle config now p = (Ok None, p') ->
    step (World p t (S g) c cs h l k) (World p' t g (S c) cs h l k)
| step_idle_refused p p' e now t g c cs h l k : checkout_idle config now p = (Err e, p') ->
    step (World p t (S g) c cs h l k) (World p' t g c cs h l k)
| step_connected p p' s st now t g c cs h l k : now <= t ->
    st ∉ stream <$> sessions (World p t g c cs h l k) ->
    new_session now (Ok st) p = (Ok s, p') ->
    step (World p t g (S c) cs h l k) (World p' t g c (cs ++ [s]) h l k)
| step_connect_failed p p' now err e t g c cs h l k :
    new_session now (Err err) p = (Err e, p') ->
    step (World p t g (S c) cs h l k) (World p' t g c cs h l k)
| step_finish p p' s t g c cs cs' h l k : checkout_finish s p = (Ok s, p') ->
    step (World p t g c (cs ++ s :: cs') h l k) (World p' t g c (cs ++ cs') (h ++ [s]) l k)
| step_finish_refused p p' s e t g c cs cs' h l k : checkout_finish s p = (Err e, p') ->
    step (World p t g c (cs ++ s :: cs') h l k) (World p' t g c (cs ++ cs') h l k)
| step_cancel_gated p t g c cs h l k :
    step (World p t (S g) c cs h l k) (World p t g c cs h l k)
| step_cancel_connecting p t g c cs h l k :
    step (World p t g (S c) cs h l k) (World p t g c cs h l k)
| step_cancel_connected p s t g c cs cs' h l k :
    step (World p t g c (cs ++ s :: cs') h l k) (World p t g c (cs ++ cs') h l k)
| step_return p p' s healthy now t g c cs h h' l k : now <= t ->
    return_session config s healthy now p = (Ok tt, p') ->
    step (World p t g c cs (h ++ s :: h') l k) (World p' t g c cs (h ++ h') l k)
| step_discard p s t g c cs h h' l k :
    step (World p t g c cs (h ++ s :: h') l k) (World (discard_checked_out p) t g c cs (h ++ h') l k)
| step_leak p s t g c cs h h' l k :
    step (World p t g c cs (h ++ s :: h') l k) (World p t g c cs (h ++ h') (S l) k)
| step_close p p' n t g c cs h l k : close_begin p = (p', n) ->
    step (World p t g c cs h l k) (World p' t g c cs h l (k ++ [after_count n Testing]))
| step_test p i t g c cs h l k : k !! i = Some Testing ->
    step (World p t g c cs h l k)
      (World (if checked_out (inner p) =? 0 then emit_event SessionEvent.GracefulDrain p else p)
         t g c cs h l (<[i := after_count (checked_out (inner p)) Registering]> k))
| step_register p i t g c cs h l k : k !! i = Some Registering ->
    step (World p t g c cs h l k) (World p t g c cs h l (<[i := Waiting (notified p)]> k))
| step_wake p i n t g c cs h l k : k !! i = Some (Waiting n) -> (n < notified p)%nat ->
    step (World p t g c cs h l k) (World p t g c cs h l (<[i := Testing]> k))
| step_expire p i x t g c cs h l k : k !! i = Some x -> x = Testing \/ (exists n, x = Waiting n) ->
    step (World p t g c cs h l k) (World p t g c cs h l (<[i := TimedOut]> k)).

Definition reachable w : Prop := exists t, rtc step (world_new t) w.

(** ** Proofs: one critical section *)

Lemma pop_back_loop_spec now q :
  let '(found, remaining, _) := pop_back_loop config now q in
  exists dropped, Forall (fun s => is_reusable config s now = false) dropped
    /\ match found with
       | Some s => q = dropped ++ s :: remaining /\ is_reusable config s now = true
       | None => q = dropped /\ remaining = []
       end.
Proof.
  induction q as [|s q IH]; simpl; [by exists []|].
  destruct (is_reusable config s now) eqn:Hr; [by exists []|].
  destruct (pop_back_loop config now q) as [[found remaining] evs].
  destruct IH as (dropped & Hd & Hf). exists (s :: dropped). split; [by constructor|].
  destruct found; [destruct Hf as [-> ?]|destruct Hf as [-> ->]]; done.
Qed.

(** What the first critical section does to an open pool. *)
Lemma checkout_idle_spec now p :
  closed (inner p) = false ->
  exists dropped, Forall (fun s => is_reusable config s now = false) dropped
    /\ ((exists older s p', idle (inner p) = older ++ s :: dropped
         /\ is_reusable config s now = true
         /\ checkout_idle config now p = (Ok (Some (reused s now)), p')
         /\ idle (inner p') = older /\ checked_out (inner p') = checked_out (inner p) + 1
         /\ closed (inner p') = false /\ notified p' = notified p)
     \/ (exists p', idle (inner p) = dropped /\ checkout_idle config now p = (Ok None, p')
         /\ idle (inner p') = [] /\ checked_out (inner p') = checked_out (inner p)
         /\ closed (inner p') = false /\ notified p' = notified p)).
Proof.
  intros Hc. unfold checkout_idle. rewrite Hc.
  pose proof (pop_back_loop_spec now (reverse (idle (inner p)))) as H.
  destruct (pop_back_loop config now (reverse (idle (inner p)))) as [[found remaining] evs].
  destruct H as (dropped & Hd & Hf). exists (reverse dropped).
  split; [by apply Forall_reverse|]. destruct found as [s|]; destruct Hf as [Hq Hr].
  - left. exists (reverse remaining), s. eexists. split_and!; try done.
    by rewrite <- (reverse_involutive (idle (inner p))), Hq, reverse_app, reverse_cons, <- app_assoc.
  - right. eexists. rewrite Hr. split_and!; [|done| |done..].
    + by rewrite <- (reverse_involutive (idle (inner p))), Hq.
    + done.
Qed.

Lemma is_reusable_true s now :
  is_reusable config s now = true <->
  use_count s < max_requests config
  /\ duration_since now (created_at s) < max_age config
  /\ duration_since now (last_used s) < idle_timeout config.
Proof. unfold is_reusable. rewrite !andb_true_iff, !Z.ltb_lt. tauto. Qed.

(** The session as [return_session] has it after [session.last_used = now]. *)
Definition touched s (now : Instant) : PooledSession St :=
  {| stream := stream s; use_count := use_count s; created_at := created_at s;
     last_used := now; session_reuse_count := session_reuse_count s |}.

(** Where a returned session ends up: nothing changes in the queue, or it goes to the back of it,
    replacing the oldest one when the queue was full. *)
Definition kept (healthy : bool) s (now : Instant) p : bool :=
  healthy && is_reusable config (touched s now) now && negb (closed (inner p)) && negb (shutdown p)
  && ((Z.of_nat (length (idle (inner p))) <? max_idle config)
      || (checked_out (inner p) <=? 1)).

Lemma return_session_spec s healthy now p :
  0 <= checked_out (inner p) ->
  exists p', return_session config s healthy now p = (Ok tt, p')
    /\ checked_out (inner p') = Z.max 0 (checked_out (inner p) - 1)
    /\ closed (inner p') = closed (inner p) /\ shutdown p' = shutdown p
    /\ (notified p' = if 0 <? checked_out (inner p) then S (notified p) else notified p)
    /\ idle (inner p') =
         if kept healthy s now p then
           (if Z.of_nat (length (idle (inner p))) <? max_idle config then idle (inner p)
            else tail (idle (inner p))) ++ [touched s now]
         else idle (inner p).
Proof.
  intros H0. unfold return_session, kept. fold (touched s now).
  set (i := inner p) in *.
  assert (exists i' n, (if checked_out i =? 0 then (i, notified p)
    else ({| idle := idle i; checked_out := checked_out i - 1; closed := closed i;
             checkout_count := checkout_count i; reuse_count := reuse_count i |}, S (notified p)))
    = (i', n) /\ idle i' = idle i /\ closed i' = closed i
    /\ checked_out i' = Z.max 0 (checked_out i - 1)
    /\ n = (if 0 <? checked_out i then S (notified p) else notified p))
    as (i' & n & -> & Hi & Hc & Hn & Hn').
  { cases_cmp; do 2 eexists; (split; [done|]); simpl; split_and!; lia || done. }
  rewrite Hi, Hc, Hn.
  replace (0 <? Z.max 0 (checked_out i - 1)) with (negb (checked_out i <=? 1)) by (cases_cmp; done).
  replace (max_idle config <=? Z.of_nat (length (idle i)))
    with (negb (Z.of_nat (length (idle i)) <? max_idle config)) by (cases_cmp; done).
  destruct healthy, (is_reusable config (touched s now) now), (closed i) eqn:?, (shutdown p) eqn:?,
    (Z.of_nat (length (idle i)) <? max_idle config) eqn:?, (checked_out i <=? 1) eqn:?; simpl;
    try (eexists; split; [done|]; simpl; split_and!; congruence).
  destruct (idle i); eexists; (split; [done|]); simpl; split_and!; congruence.
Qed.

Lemma discard_checked_out_spec p :
  0 <= checked_out (inner p) ->
  checked_out (inner (discard_checked_out p)) = Z.max 0 (checked_out (inner p) - 1)
  /\ idle (inner (discard_checked_out p)) = idle (inner p)
  /\ closed (inner (discard_checked_out p)) = closed (inner p).
Proof. unfold discard_checked_out. intros. cases_cmp; simpl; split_and!; lia || done. Qed.

(** ** Proofs: the invariant *)

Record pool_inv w : Prop := {
  inv_count : checked_out (inner (wpool w)) = Z.of_nat (length (held w) + leaked w);
  inv_idle : Z.of_nat (length (idle (inner (wpool w)))) <= max_idle config;
  inv_idle_use : Forall (fun s => 1 <= use_count s < max_requests config) (idle (inner (wpool w)));
  inv_live_use :
    Forall (fun s => 1 <= use_count s <= max_requests config) (connected w ++ held w);
  inv_streams : NoDup (stream <$> sessions w);
  inv_closed : closed (inner (wpool w)) = true -> idle (inner (wpool w)) = [];
  inv_closers : closers w <> [] -> closed (inner (wpool w)) = true;
  inv_drained : Drained ∈ closers w -> checked_out (inner (wpool w)) = 0;
}.

Lemma checkout_gate_ok p p' : checkout_gate p = (Ok tt, p') -> inner p' = inner p.
Proof. unfold checkout_gate. destruct (shutdown p); by intros [= <-]. Qed.

Lemma checkout_gate_err p p' e : checkout_gate p = (Err e, p') -> inner p' = inner p.
Proof. unfold checkout_gate. destruct (shutdown p); by intros [= _ <-]. Qed.

(** What an undisturbed checkout does to the counter and the queue. *)
Lemma checkout_effect now now2 connect p r p' :
  checkout config now now2 connect id id p = (r, p') ->
  idle (inner p') `prefix_of` idle (inner p)
  /\ checked_out (inner p') = checked_out (inner p) + (if is_ok r then 1 else 0).
Proof.
  unfold checkout. destruct (checkout_gate p) as [[[]|e| |] p0] eqn:Hg.
  2: apply checkout_gate_err in Hg as Hi; rewrite (bind_err _ _ _ _ _ Hg); intros [= <- <-];
     rewrite Hi; by split; [|simpl; lia].
  2-3: unfold checkout_gate in Hg; by destruct (shutdown p).
  apply checkout_gate_ok in Hg as Hi. rewrite (bind_ok _ _ _ _ _ Hg). rewrite <- Hi.
  rewrite (bind_ok (modify id) _ p0 p0 tt eq_refl).
  destruct (closed (inner p0)) eqn:Hc.
  { unfold checkout_idle, mbind, prog_bind. rewrite Hc. intros [= <- <-]. by split; [|simpl; lia]. }
  destruct (checkout_idle_spec now p0 Hc)
    as (newer & _ & [(older & s & p1 & Hi0 & _ & Hk & Hi1 & Hn & _)|(p1 & Hi0 & Hk & Hi1 & Hn & _)]);
    rewrite (bind_ok _ _ _ _ _ Hk), ?Hi0.
  - intros [= <- <-]. rewrite Hi1. split; [by eexists|simpl; lia].
  - unfold new_session, checkout_finish, mbind, prog_bind, modify, id.
    repeat case_match; intros; simplify_eq/=; rewrite ?Hi1; split; try apply prefix_nil; lia.
Qed.

(** A step that leaves the queue and the counter alone and only drops sessions. *)
Lemma pool_inv_shrink w w' :
  inner (wpool w') = inner (wpool w) ->
  (length (held w') + leaked w' = length (held w) + leaked w)%nat ->
  connected w' ++ held w' ⊆+ connected w ++ held w ->
  closers w' = closers w ->
  pool_inv w -> pool_inv w'.
Proof.
  intros Hi Hl Hs Hk [? ? ? Hu Hn ? ? ?]. constructor; rewrite ?Hi, ?Hk, ?Hl; try done.
  - by eapply submseteq_Forall.
  - eapply submseteq_NoDup; [|exact Hn]. apply fmap_submseteq. unfold sessions. rewrite Hi.
    by apply submseteq_skips_l.
Qed.

(** A step of a [close_all] call on a closed pool. *)
Lemma pool_inv_closer w w' :
  inner (wpool w') = inner (wpool w) -> held w' = held w -> leaked w' = leaked w ->
  connected w' = connected w -> closed (inner (wpool w)) = true ->
  (forall x, x ∈ closers w' -> x = Drained -> x ∈ closers w \/ checked_out (inner (wpool w)) = 0) ->
  pool_inv w -> pool_inv w'.
Proof.
  intros Hi Hh Hl Hc Hcl Hk [? ? ? ? Hn ? ? Hd].
  constructor; rewrite ?Hi, ?Hh, ?Hl, ?Hc; try done.
  - unfold sessions. by rewrite Hi, Hh, Hc.
  - intros Hx. destruct (Hk _ Hx eq_refl); auto.
Qed.

Lemma closer_insert (k : list closer) i y x : x ∈ <[i := y]> k -> x = y \/ x ∈ k.
Proof.
  intros [j Hj]%list_elem_of_lookup. destruct (decide (i = j)) as [<-|].
  - apply list_lookup_insert_Some in Hj as [(_ & -> & _)|[[] _]]; auto.
  - rewrite list_lookup_insert_ne in Hj by done. right. by eapply list_elem_of_lookup_2.
Qed.

Lemma checkout_idle_err p p' e now : checkout_idle config now p = (Err e, p') -> inner p' = inner p.
Proof.
  destruct (closed (inner p)) eqn:Hc.
  - unfold checkout_idle. rewrite Hc. by intros [= _ <-].
  - destruct (checkout_idle_spec now p Hc) as (d & _ & [(? & ? & ? & _ & _ & -> & _)|(? & _ & -> & _)]);
      done.
Qed.

Lemma checkout_idle_open p p' x now : checkout_idle config now p = (Ok x, p') -> closed (inner p) = false.
Proof. unfold checkout_idle. by destruct (closed (inner p)). Qed.

Lemma checkout_finish_ok s p p' : checkout_finish s p = (Ok s, p') ->
  idle (inner p') = idle (inner p) /\ checked_out (inner p') = checked_out (inner p) + 1
  /\ closed (inner p') = false /\ closed (inner p) = false.
Proof.
  unfold checkout_finish. destruct (closed (inner p)) eqn:?; [done|]. destruct (shutdown p); [done|].
  by intros [= <-].
Qed.

Lemma checkout_finish_err s p p' e : checkout_finish s p = (Err e, p') -> inner p' = inner p.
Proof.
  unfold checkout_finish. destruct (closed (inner p) || shutdown p); [|done]. by intros [= _ <-].
Qed.

Lemma new_session_inner now r x p p' : new_session now r p = (x, p') -> inner p' = inner p.
Proof. unfold new_session. by destruct r; intros [= _ <-]. Qed.

(** An open pool has no [close_all] call in progress. *)
Lemma open_no_closers w : pool_inv w -> closed (inner (wpool w)) = false -> closers w = [].
Proof. intros [] ?. destruct (closers w) eqn:?; [done|]. by rewrite inv_closers0 in *. Qed.

(** A step of an open pool that keeps the counter in line with the sessions held. *)
Lemma pool_inv_open w w' :
  pool_inv w -> closed (inner (wpool w)) = false -> closed (inner (wpool w')) = false ->
  closers w' = closers w ->
  checked_out (inner (wpool w')) = Z.of_nat (length (held w') + leaked w') ->
  Z.of_nat (length (idle (inner (wpool w')))) <= max_idle config ->
  Forall (fun s => 1 <= use_count s < max_requests config) (idle (inner (wpool w'))) ->
  Forall (fun s => 1 <= use_count s <= max_requests config) (connected w' ++ held w') ->
  NoDup (stream <$> sessions w') ->
  pool_inv w'.
Proof.
  intros Hw Hc Hc' Hk ?????. pose proof (open_no_closers w Hw Hc) as Hn.
  constructor; rewrite ?Hc', ?Hk, ?Hn; try done. by intros ?%not_elem_of_nil.
Qed.

Ltac streams :=
  match goal with
  | Hn : NoDup (stream <$> sessions _) |- NoDup (stream <$> sessions _) =>
      eapply submseteq_NoDup; [|exact Hn]; unfold sessions in *; simpl in *;
      repeat match goal with H : idle _ = _ |- _ => rewrite H in * end;
      rewrite ?fmap_app; simpl; solve_submseteq
  end.

Lemma step_hit_inv p p' s now t g c cs h l k :
  checkout_idle config now p = (Ok (Some s), p') ->
  pool_inv (World p t (S g) c cs h l k) -> pool_inv (World p' t g c cs (h ++ [s]) l k).
Proof.
  intros Hk Hw. pose proof (checkout_idle_open _ _ _ _ Hk) as Hc.
  destruct (checkout_idle_spec now p Hc)
    as (d & _ & [(older & s0 & p1 & Hi & Hr & Hk' & Hi' & Hn & Hc' & _)|(? & _ & Hk' & _)]);
    rewrite Hk' in Hk; [|done]. injection Hk as <- <-.
  apply is_reusable_true in Hr as (Hu & _).
  destruct Hw as [? Hle Hiu Hlu Hnd ???] eqn:E. clear E. simpl in *.
  rewrite Hi in Hle, Hiu. apply Forall_app in Hiu as [Hiu [Hs _]%Forall_cons].
  apply (pool_inv_open _ _ Hw); simpl; rewrite ?Hi'; try done.
  - len.
  - len.
  - rewrite app_assoc. apply Forall_app. split; [done|]. apply Forall_singleton. simpl. lia.
  - streams.
Qed.

Lemma step_miss_inv p p' now t g c cs h l k :
  0 < max_idle config ->
  checkout_idle config now p = (Ok None, p') ->
  pool_inv (World p t (S g) c cs h l k) -> pool_inv (World p' t g (S c) cs h l k).
Proof.
  intros H0 Hk Hw. pose proof (checkout_idle_open _ _ _ _ Hk) as Hc.
  destruct (checkout_idle_spec now p Hc)
    as (d & _ & [(? & ? & ? & _ & _ & Hk' & _)|(p1 & Hi & Hk' & Hi' & Hn & Hc' & _)]);
    rewrite Hk' in Hk; [done|]. injection Hk as <-.
  destruct Hw as [? Hle Hiu Hlu Hnd ???] eqn:E. clear E. simpl in *.
  apply (pool_inv_open _ _ Hw); simpl; rewrite ?Hi'; try done.
  - len.
  - simpl. lia.
  - streams.
Qed.

Lemma step_connected_inv p p' s st now t g c cs h l k :
  0 < max_requests config ->
  st ∉ stream <$> sessions (World p t g c cs h l k) -> new_session now (Ok st) p = (Ok s, p') ->
  pool_inv (World p t g (S c) cs h l k) -> pool_inv (World p' t g c (cs ++ [s]) h l k).
Proof.
  intros H0 Hst [= <- <-] []. constructor; simpl in *; try done.
  - rewrite <- app_assoc. apply Forall_app in inv_live_use0 as [? ?].
    apply Forall_app; split; [done|]. constructor; [|done]. simpl. lia.
  - eapply submseteq_NoDup; [|apply NoDup_cons; split; [exact Hst|exact inv_streams0]].
    unfold sessions. simpl. rewrite !fmap_app. simpl. solve_submseteq.
Qed.

Lemma step_finish_inv p p' s t g c cs cs' h l k :
  checkout_finish s p = (Ok s, p') ->
  pool_inv (World p t g c (cs ++ s :: cs') h l k) ->
  pool_inv (World p' t g c (cs ++ cs') (h ++ [s]) l k).
Proof.
  intros (Hi & Hn & Hc' & Hc)%checkout_finish_ok Hw.
  destruct Hw as [? Hle Hiu Hlu Hnd ???] eqn:E. clear E. simpl in *.
  apply (pool_inv_open _ _ Hw); simpl; rewrite ?Hi; try done.
  - len.
  - eapply submseteq_Forall; [|exact Hlu]. solve_submseteq.
  - streams.
Qed.

(** A session given back without going to the queue. *)
Lemma pool_inv_release p p' s t g c cs h h' l k :
  idle (inner p') = idle (inner p) -> closed (inner p') = closed (inner p) ->
  checked_out (inner p') = Z.max 0 (checked_out (inner p) - 1) ->
  pool_inv (World p t g c cs (h ++ s :: h') l k) -> pool_inv (World p' t g c cs (h ++ h') l k).
Proof.
  intros Hi Hc Hn [Hco ? ? Hlu Hnd ? ? Hd]. constructor; simpl in *; rewrite ?Hi, ?Hc; try done.
  - len.
  - eapply submseteq_Forall; [|exact Hlu]. solve_submseteq.
  - streams.
  - intros ?%Hd. len.
Qed.

Lemma kept_open healthy s now p : kept healthy s now p = true ->
  closed (inner p) = false /\ use_count s < max_requests config.
Proof.
  unfold kept. destruct (closed (inner p)); [by rewrite !andb_false_r|].
  rewrite !andb_true_iff, is_reusable_true. simpl. tauto.
Qed.

Lemma step_return_inv p p' s healthy now t g c cs h h' l k :
  0 < max_idle config ->
  return_session config s healthy now p = (Ok tt, p') ->
  pool_inv (World p t g c cs (h ++ s :: h') l k) -> pool_inv (World p' t g c cs (h ++ h') l k).
Proof.
  intros H0 Hret Hw. pose proof Hw as [Hco Hle Hiu Hlu Hnd Hcl Hck Hdr]. simpl in *.
  destruct (return_session_spec s healthy now p) as (p1 & Hr & Hn & Hc & _ & _ & Hi); [lia|].
  rewrite Hr in Hret. injection Hret as ->.
  destruct (kept healthy s now p) eqn:Hkept; [|by eapply pool_inv_release].
  apply kept_open in Hkept as [Hopen Huse].
  assert (1 <= use_count s) as Hs.
  { rewrite !Forall_app, Forall_cons in Hlu. lia. }
  set (q := if Z.of_nat (length (idle (inner p))) <? max_idle config
            then idle (inner p) else tail (idle (inner p))) in *.
  assert (q ⊆+ idle (inner p) /\ Z.of_nat (length q) < max_idle config) as [Hq Hlen].
  { subst q. destruct (Z.ltb_spec (Z.of_nat (length (idle (inner p)))) (max_idle config)); [done|].
    destruct (idle (inner p)); simpl in *; [lia|].
    split; [by apply submseteq_cons|lia]. }
  apply (pool_inv_open _ _ Hw); simpl; rewrite ?Hi; try congruence.
  - len.
  - len.
  - apply Forall_app. split; [by eapply submseteq_Forall|]. apply Forall_singleton. simpl. lia.
  - eapply submseteq_Forall; [|exact Hlu]. solve_submseteq.
  - eapply submseteq_NoDup; [|exact Hnd]. unfold sessions. simpl. rewrite Hi.
    trans (stream <$> (q ++ s :: cs ++ h ++ h')).
    + rewrite !fmap_app. simpl. rewrite !fmap_app. solve_submseteq.
    + apply fmap_submseteq. trans (idle (inner p) ++ s :: cs ++ h ++ h');
        [by apply submseteq_skips_r|solve_submseteq].
Qed.

Lemma step_close_inv p p' n t g c cs h l k :
  close_begin p = (p', n) ->
  pool_inv (World p t g c cs h l k) ->
  pool_inv (World p' t g c cs h l (k ++ [after_count n Testing])).
Proof.
  intros Hb [Hco ? ? ? Hnd ? ? Hd].
  assert (n = checked_out (inner p) /\ checked_out (inner p') = n /\ idle (inner p') = []
    /\ closed (inner p') = true) as (-> & Hn & Hi & Hc).
  { unfold close_begin in Hb. simpl in Hb. destruct (checked_out (inner p) =? 0); by injection Hb as <- <-. }
  constructor; simpl in *; rewrite ?Hi, ?Hn, ?Hc; try done.
  - simpl. lia.
  - eapply submseteq_NoDup; [|exact Hnd]. unfold sessions. simpl. rewrite Hi, !fmap_app. solve_submseteq.
  - rewrite elem_of_app, list_elem_of_singleton. intros [?|Hx]; [auto|].
    unfold after_count in Hx. destruct (Z.eqb_spec (checked_out (inner p)) 0); done.
Qed.

#[local] Hint Resolve checkout_gate_ok checkout_gate_err checkout_idle_err checkout_finish_err new_session_inner : shuttle.
#[local] Hint Resolve step_hit_inv step_miss_inv step_connected_inv step_finish_inv step_return_inv
  step_close_inv : shuttle.

Lemma busy_closed w i x : pool_inv w -> closers w !! i = Some x -> closed (inner (wpool w)) = true.
Proof. intros [] Hx. apply inv_closers0. intros Hn. by rewrite Hn in Hx. Qed.

Lemma step_inv w w' :
  0 < max_idle config -> 0 < max_requests config -> step w w' -> pool_inv w -> pool_inv w'.
Proof.
  intros Hmi Hmr Hs Hw. destruct Hs; try solve [eauto 3 with shuttle].
  all: try (eapply pool_inv_shrink; [..|exact Hw]; simpl;
    solve [lia | eauto 2 with shuttle | len | solve_submseteq]).
  - apply (pool_inv_release p _ s); [..|exact Hw]; destruct Hw; simpl in *;
      apply discard_checked_out_spec; lia.
  - eapply pool_inv_closer; [..|exact Hw]; simpl; [by case_match|done..|exact (busy_closed _ _ _ Hw H)|].
    intros x [->| ?]%closer_insert; [|auto]. unfold after_count.
    destruct (Z.eqb_spec (checked_out (inner p)) 0); [auto|done].
  - eapply pool_inv_closer; [..|exact Hw]; simpl; [done..|exact (busy_closed _ _ _ Hw H)|].
    intros x [->| ?]%closer_insert; [done|auto].
  - eapply pool_inv_closer; [..|exact Hw]; simpl; [done..|exact (busy_closed _ _ _ Hw H)|].
    intros x [->| ?]%closer_insert; [done|auto].
  - eapply pool_inv_closer; [..|exact Hw]; simpl; [done..|exact (busy_closed _ _ _ Hw H)|].
    intros y [->| ?]%closer_insert; [done|auto].
Qed.

Lemma reachable_inv w :
  0 < max_idle config -> 0 < max_requests config -> reachable w -> pool_inv w.
Proof.
  intros Hmi Hmr [t Hr]. assert (pool_inv (world_new t)) as H0.
  { constructor; simpl; first [done|lia|by apply NoDup_nil|by intros ?%not_elem_of_nil]. }
  revert H0. induction Hr; eauto using step_inv.
Qed.

(** A [close_all] call that has returned stays returned. *)
Lemma step_drained w w' i : step w w' -> closers w !! i = Some Drained -> closers w' !! i = Some Drained.
Proof.
  destruct 1; simpl; intros Hi; try done.
  { by apply lookup_app_l_Some. }
  all: destruct (decide (i = i0)) as [->|]; [|by rewrite list_lookup_insert_ne].
  all: try congruence. destruct H0 as [?|[??]]; congruence.
Qed.

(** A waiter that registered after the last notification of a drained pool is never woken. *)
Definition stuck (i : nat) w : Prop :=
  closed (inner (wpool w)) = true /\ checked_out (inner (wpool w)) = 0
  /\ (closers w !! i = Some (Waiting (notified (wpool w))) \/ closers w !! i = Some TimedOut).

Lemma return_session_empty s healthy now p p' :
  closed (inner p) = true -> checked_out (inner p) = 0 ->
  return_session config s healthy now p = (Ok tt, p') ->
  closed (inner p') = true /\ checked_out (inner p') = 0 /\ notified p' = notified p.
Proof.
  intros Hc Hn. destruct (return_session_spec s healthy now p) as (p1 & -> & Hn1 & Hc1 & _ & Hnot & _);
    [lia|]. intros [= <-]. rewrite Hn in *. rewrite Hnot, Hc1. done.
Qed.

(** Nothing a task does to a closed pool with no session out notifies anyone. *)
Lemma step_quiet w w' :
  step w w' -> closed (inner (wpool w)) = true -> checked_out (inner (wpool w)) = 0 ->
  closed (inner (wpool w')) = true /\ checked_out (inner (wpool w')) = 0
  /\ notified (wpool w') = notified (wpool w).
Proof.
  destruct 1; simpl; intros Hc Hn; try done.
  all: try (eapply return_session_empty; eassumption).
  all: unfold checkout_gate, checkout_idle, checkout_finish, new_session, discard_checked_out,
    close_begin in *; simpl in *; rewrite ?Hc, ?Hn in *; simpl in *.
  all: repeat case_match; simplify_eq/=; done.
Qed.

Lemma step_stuck w w' i : step w w' -> stuck i w -> stuck i w'.
Proof.
  intros Hs (Hc & Hn & Hi). destruct (step_quiet w w' Hs Hc Hn) as (Hc' & Hn' & Hq).
  split_and!; [done..|]. rewrite Hq. clear Hq Hc' Hn'. destruct Hs; simpl in *; try done.
  { destruct Hi; [left|right]; by apply lookup_app_l_Some. }
  all: destruct (decide (i = i0)) as [->|]; [|by rewrite list_lookup_insert_ne].
  all: rewrite list_lookup_insert_eq by (by eapply lookup_lt_Some; eassumption).
  all: destruct Hi as [Hi|Hi]; rewrite Hi in *; simplify_eq; auto; lia.
Qed.

Lemma rtc_stuck w w' i : rtc step w w' -> stuck i w -> stuck i w'.
Proof. induction 1; eauto using step_stuck. Qed.

Lemma rtc_drained w w' i :
  rtc step w w' -> closers w !! i = Some Drained -> closers w' !! i = Some Drained.
Proof. induction 1; eauto using step_drained. Qed.

Lemma reachable_rtc w w' : reachable w -> rtc step w w' -> reachable w'.
Proof. intros [t ?] ?. exists t. by etrans. Qed.
End system.

(** ** Correctness of the pool *)

Section correctness.
Context {St : Type} (config : ReuseConfig).
Implicit Types (p : SessionPool St) (s : PooledSession St) (w : world St).

(** [checkout] on an open pool.  The most recently returned session that is still reusable is
    handed out with its counters bumped, the sessions queued behind it stay, and the newer ones
    that were no longer reusable are dropped; when none is reusable the queue is emptied and a
    fresh session is connected.  [checked_out] grows by one exactly on success, a failed connection
    is an error, and nothing is handed out once the pool is closed or shutting down. *)
Theorem checkout_most_recent (now now2 : Instant) (connect : res io_error St) p :
  let r := checkout config now now2 connect id id p in
  match closed (inner p) || shutdown p with
  | true => (exists e, r.1 = Err e) /\ inner r.2 = inner p
  | false =>
      exists older newer, idle (inner p) = older ++ newer
        /\ Forall (fun s => is_reusable config s now = false) newer
        /\ match last older with
           | Some s => is_reusable config s now = true
               /\ r.1 = Ok (reused s now)
               /\ older = idle (inner r.2) ++ [s]
               /\ checked_out (inner r.2) = checked_out (inner p) + 1
           | None => idle (inner r.2) = []
               /\ match connect with
                  | Ok st => r.1 = Ok {| stream := st; use_count := 1; created_at := now2;
                                         last_used := now2; session_reuse_count := 0 |}
                      /\ checked_out (inner r.2) = checked_out (inner p) + 1
                  | Err e => r.1 = Err ("failed to create reusable session: " +:+ msg e)%string
                      /\ checked_out (inner r.2) = checked_out (inner p)
                  | Panic => r.1 = Panic
                  | Pending => r.1 = Pending
                  end
           end
  end.
Proof.
  intros r. destruct (closed (inner p) || shutdown p) eqn:Hopen.
  - subst r. unfold checkout, checkout_gate, checkout_idle, mbind, prog_bind, modify, id.
    destruct (shutdown p) eqn:Hs; simpl; [by eauto|]. rewrite orb_false_r in Hopen.
    rewrite Hopen. simpl. eauto.
  - apply orb_false_iff in Hopen as [Hc Hs]. subst r. unfold checkout, checkout_gate.
    assert (forall (k : unit -> prog (SessionPool St) string (PooledSession St)),
      ((fun p0 => if shutdown p0 then
          (Err "session pool is shutting down"%string, emit_event SessionEvent.CheckoutFailed p0)
        else (Ok tt, p0)) ≫= k) p = k tt p) as Hg by (intros; unfold mbind, prog_bind; by rewrite Hs).
    rewrite Hg. rewrite (bind_ok (modify id) _ p p tt eq_refl).
    destruct (checkout_idle_spec config now p Hc)
      as (newer & Hnew & [(older & s & p' & Hi & Hr & Hk & Hi' & Hn & _)
                         |(p' & Hi & Hk & Hi' & Hn & Hc' & _)]).
    + exists (older ++ [s]), newer. rewrite <- app_assoc. split_and!; [done..|].
      rewrite last_snoc. run Hk. simpl. by rewrite Hi'.
    + exists [], newer. split_and!; [done..|]. simpl. run Hk.
      assert (shutdown p' = false) as Hs'.
      { revert Hk. unfold checkout_idle. rewrite Hc. repeat case_match; by intros [= <-]. }
      destruct connect; simpl; unfold mbind, prog_bind, new_session, modify, id, checkout_finish;
        simpl; rewrite ?Hc', ?Hs'; simpl; rewrite ?Hi', ?Hn; done.
Qed.

(** [return_session] on every branch.  It never fails; the caller's session is counted back
    in (and waiters notified) unless none was out; the queue changes only when the session is
    healthy, still reusable and the pool is open, and then the session is the newest entry: when
    the queue is full it replaces the oldest one if no other session is out, and is dropped
    otherwise. *)
Theorem return_session_outcome s (healthy : bool) (now : Instant) p :
  0 <= checked_out (inner p) ->
  exists p', return_session config s healthy now p = (Ok tt, p')
    /\ checked_out (inner p') = Z.max 0 (checked_out (inner p) - 1)
    /\ closed (inner p') = closed (inner p) /\ shutdown p' = shutdown p
    /\ (notified p' = if 0 <? checked_out (inner p) then S (notified p) else notified p)
    /\ idle (inner p') =
         if kept config healthy s now p then
           (if Z.of_nat (length (idle (inner p))) <? max_idle config then idle (inner p)
            else tail (idle (inner p))) ++ [touched s now]
         else idle (inner p).
Proof. apply return_session_spec. Qed.

(** C11: in every state any interleaving of checkouts, connections, returns, discards, leaks,
    cancellations and [close_all] calls can reach: [checked_out] counts exactly the sessions
    callers hold (and leaked ones), the queue never exceeds [max_idle], a queued session has
    uses left and a session handed out is within [max_requests], no stream is in two places at
    once, and a closed pool has an empty queue. *)
Theorem pool_invariant w :
  valid_config config -> reachable config w ->
  let i := inner (wpool w) in
  checked_out i = Z.of_nat (length (held w) + leaked w)
  /\ Z.of_nat (length (idle i)) <= max_idle config
  /\ Forall (fun s => 1 <= use_count s < max_requests config) (idle i)
  /\ Forall (fun s => 1 <= use_count s <= max_requests config) (connected w ++ held w)
  /\ NoDup (stream <$> sessions w)
  /\ (closed i = true -> idle i = []).
Proof. intros (? & ? & _) Hr. destruct (reachable_inv config w); done. Qed.

(** C27: a drained pool is drained for good.  Once a [close_all] call has returned as drained, no
    session is queued, held or leaked, and whatever runs afterwards no caller ever gets one
    again. *)
Theorem drained_is_final w w' (i : nat) :
  valid_config config -> reachable config w -> closers w !! i = Some Drained ->
  rtc (step config) w w' ->
  held w' = [] /\ leaked w' = 0%nat /\ idle (inner (wpool w')) = []
  /\ closed (inner (wpool w')) = true.
Proof.
  intros (? & ? & _) Hr Hi Hs. apply (rtc_drained config _ _ _ Hs) in Hi.
  destruct (reachable_inv config w') as [Hco ? ? ? ? Hcl Hck Hdr]; [done..|by eapply reachable_rtc|].
  rewrite Hdr in Hco by (by eapply list_elem_of_lookup_2).
  assert (closed (inner (wpool w')) = true) as Hc by (apply Hck; by intros Hn; rewrite Hn in Hi).
  split_and!; [|lia|by apply Hcl|done]. apply nil_length_inv. lia.
Qed.

(** A lost wake-up.  [close_all] registers its waiter after the lock is released, so a
    session returned in between is not noticed: from there, whatever runs, the call can only end
    in the drain timeout although no session is out. *)
Theorem close_all_lost_wakeup w w' (i : nat) :
  closed (inner (wpool w)) = true -> checked_out (inner (wpool w)) = 0 ->
  closers w !! i = Some Registering ->
  rtc (step config) (World (wpool w) (clock w) (gated w) (connecting w) (connected w) (held w)
    (leaked w) (<[i := Waiting (notified (wpool w))]> (closers w))) w' ->
  closers w' !! i = Some (Waiting (notified (wpool w'))) \/ closers w' !! i = Some TimedOut.
Proof.
  intros Hc Hn Hi Hs. apply (rtc_stuck config _ _ i) in Hs as (_ & _ & ?); [done|].
  split_and!; [done..|]. left. simpl. apply list_lookup_insert_eq. by eapply lookup_lt_Some.
Qed.

(** A handle retries at most once and never after payload was relayed.  A successful retry
    trades the failed session for another one ([checked_out] is unchanged) and the new handle
    refuses a further retry with the caller's error, leaving the pool alone; a handle that relayed
    bytes refuses at once. *)
Theorem retry_at_most_once (h h' : @SessionHandle St) (error : string) (now now2 : Instant)
    (connect : res io_error St) p p' :
  1 <= checked_out (inner p) ->
  retry_after_protocol_error config h error now now2 connect id id p = (Ok h', p') ->
  bytes_relayed h = false /\ retry_used h = false
  /\ retry_used h' = true /\ is_Some (session_of h')
  /\ checked_out (inner p') = checked_out (inner p)
  /\ forall (error2 : string) now3 now4 connect2 others others2,
       retry_after_protocol_error config h' error2 now3 now4 connect2 others others2 p'
         = (Err error2, p').
Proof.
  intros Hn. unfold retry_after_protocol_error at 1.
  destruct (bytes_relayed h) eqn:Hb; [done|]. destruct (retry_used h) eqn:Hr; [done|]. simpl.
  intros Hk. do 2 (apply bind_inv_ok in Hk as (_ & ? & [= _ <-] & Hk)).
  apply bind_inv_ok in Hk as (s & p1 & Hk & [= <- ->]). apply checkout_effect in Hk as [_ Hk].
  split_and!; try done.
  rewrite Hk. simpl. unfold discard_checked_out.
  destruct (Z.eqb_spec (checked_out (inner p)) 0); simpl; lia.
Qed.
End correctness.

(** ** Witnesses: one session, connected, closed under the caller's hands and given back *)

Definition demo_session : PooledSession Z :=
  {| stream := 7; use_count := 1; created_at := 5; last_used := 5; session_reuse_count := 0 |}.

Definition demo_pool (out : Z) (is_closed : bool) (evs : list SessionEvent) (n : nat) : SessionPool Z :=
  {| inner := {| idle := []; checked_out := out; closed := is_closed; checkout_count := 1;
                 reuse_count := 0 |};
     shutdown := false; log := evs; notified := n |}.

Abbreviation cfg := default_server_reuse_config.

Lemma demo_held : reachable cfg
  (World (demo_pool 1 false [SessionEvent.PoolMiss] 0) 5 0 0 [] [demo_session] 0 []).
Proof.
  exists 5. eapply rtc_l; [by eapply step_gate|].
  eapply rtc_l; [by eapply (step_miss cfg _ _ 5)|].
  eapply rtc_l; [by eapply (step_connected cfg _ _ demo_session 7 5); [|apply not_elem_of_nil|]|].
  eapply rtc_l; [by eapply (step_finish cfg _ _ _ _ _ _ [] [])|]. apply rtc_refl.
Defined.

Lemma demo_returned : reachable cfg
  (World (demo_pool 0 true [SessionEvent.PoolMiss] 1) 5 0 0 [] [] 0 [Registering]).
Proof.
  destruct demo_held as [t Ht]. exists t. etrans; [exact Ht|].
  eapply rtc_l; [by eapply step_close|].
  eapply rtc_l; [by apply (step_test cfg _ 0)|].
  eapply rtc_l; [by eapply (step_return cfg _ _ _ true 5 _ _ _ _ [])|]. apply rtc_refl.
Defined.

Lemma demo_drained : reachable cfg
  (World (demo_pool 0 true [SessionEvent.PoolMiss; SessionEvent.GracefulDrain] 1) 5 0 0 [] [] 0
     [Drained]).
Proof.
  destruct demo_held as [t Ht]. exists t. etrans; [exact Ht|].
  eapply rtc_l; [by eapply step_close|].
  eapply rtc_l; [by eapply (step_return cfg _ _ _ true 5 _ _ _ _ [])|].
  eapply rtc_l; [by apply (step_test cfg _ 0)|]. apply rtc_refl.
Defined.

Lemma valid_cfg : valid_config cfg.
Proof. vm_compute. repeat split; congruence. Defined.

Lemma return_session_outcome_witness :
  exists p', return_session cfg demo_session true 6 (demo_pool 1 false [] 0) = (Ok tt, p')
    /\ checked_out (inner p') = 0 /\ closed (inner p') = false /\ shutdown p' = false
    /\ notified p' = 1%nat /\ idle (inner p') = [touched demo_session 6].
Proof. apply (return_session_outcome cfg demo_session true 6 (demo_pool 1 false [] 0)). done. Defined.

Lemma pool_invariant_witness :
  let w := World (demo_pool 1 false [SessionEvent.PoolMiss] 0) 5 0 0 [] [demo_session] 0 [] in
  checked_out (inner (wpool w)) = 1 /\ Z.of_nat (length (idle (inner (wpool w)))) <= 4
  /\ Forall (fun s : PooledSession Z => 1 <= use_count s < 100) (idle (inner (wpool w)))
  /\ Forall (fun s => 1 <= use_count s <= 100) (connected w ++ held w)
  /\ NoDup (stream <$> sessions w)
  /\ (closed (inner (wpool w)) = true -> idle (inner (wpool w)) = []).
Proof. exact (pool_invariant cfg _ valid_cfg demo_held). Defined.

Lemma drained_is_final_witness :
  let w := World (demo_pool 0 true [SessionEvent.PoolMiss; SessionEvent.GracefulDrain] 1) 5 0 0
             [] [] 0 [Drained] in
  held w = [] /\ leaked w = 0%nat /\ idle (inner (wpool w)) = [] /\ closed (inner (wpool w)) = true.
Proof. apply (drained_is_final cfg _ _ 0 valid_cfg demo_drained eq_refl). apply rtc_refl. Defined.

Lemma close_all_lost_wakeup_witness :
  let w := World (demo_pool 0 true [SessionEvent.PoolMiss] 1) 5 0 0 [] [] 0 [Registering] in
  reachable cfg w /\
  forall w', rtc (step cfg)
      (World (wpool w) (clock w) (gated w) (connecting w) (connected w) (held w) (leaked w)
         (<[0%nat := Waiting (notified (wpool w))]> (closers w))) w' ->
    closers w' !! 0%nat = Some (Waiting (notified (wpool w'))) \/ closers w' !! 0%nat = Some TimedOut.
Proof.
  split; [exact demo_returned|].
  intros w'. apply (close_all_lost_wakeup cfg
    (World (demo_pool 0 true [SessionEvent.PoolMiss] 1) 5 0 0 [] [] 0 [Registering]) w' 0); done.
Defined.

Lemma retry_at_most_once_witness :
  let h := {| session_of := Some demo_session; bytes_relayed := false; retry_used := false |} in
  exists h' p', retry_after_protocol_error cfg h "reset"%string 6 6 (Ok 8) id id (demo_pool 1 false [] 0)
      = (Ok h', p')
    /\ retry_used h' = true /\ checked_out (inner p') = 1
    /\ forall (error2 : string) now3 now4 connect2 others others2,
         retry_after_protocol_error cfg h' error2 now3 now4 connect2 others others2 p'
           = (Err error2, p').
Proof.
  intros h. do 2 eexists. split; [reflexivity|].
  match goal with |- retry_used ?h' = _ /\ checked_out (inner ?p') = _ /\ _ =>
    destruct (retry_at_most_once cfg h h' "reset"%string 6 6 (Ok 8) (demo_pool 1 false [] 0) p')
      as (_ & _ & Hu & _ & Hn & Hall); [done|reflexivity|] end.
  split; [exact Hu|]. split; [exact Hn|exact Hall].
Defined.
