(* ===== verification/Ledger.v ===== *)
(** * What the session pool promises (shuttle/src/client/pool.rs)

    An abstract specification of [Pool]: a ledger of streams, each on the shelf, freshly opened or
    lent to exactly one caller, in a pool that is accepting or closed for ever.  Clocks, counters,
    notifications, events and the order of the queue are gone.  Every step of [Pool.step] is a step
    of the ledger. *)
From S2P Require Import Prelude.
From stdpp Require Import strings relations.
From S2P Require Import Time Stream Opt Lifecycle Pool.
Open Scope Z_scope.

Record ledger (St : Type) := Ledger {
  shelf : list St;
  fresh : list St;
  lent : list St;
  accepting : bool;
}.
Arguments Ledger {_} _ _ _ _.
Arguments shelf {_} _.
Arguments fresh {_} _.
Arguments lent {_} _.
Arguments accepting {_} _.

Section spec.
Context {St : Type} (capacity : Z).
Implicit Types l : ledger St.

(** Every stream the ledger knows. *)
Definition streams l : list St := shelf l ++ fresh l ++ lent l.

Definition ledger_empty : ledger St := Ledger [] [] [] true.

Inductive ledger_step : ledger St -> ledger St -> Prop :=
| ledger_open l l' st :                     (** a connection of its own *)
    st ∉ streams l ->
    shelf l' = shelf l -> fresh l' ≡ₚ st :: fresh l -> lent l' = lent l -> accepting l' = accepting l ->
    ledger_step l l'
| ledger_lend l l' st :                     (** from the shelf; others may be thrown away *)
    accepting l = true -> accepting l' = true ->
    st :: shelf l' ⊆+ shelf l -> fresh l' = fresh l -> lent l' ≡ₚ st :: lent l ->
    ledger_step l l'
| ledger_hand_over l l' st :                (** a fresh one *)
    accepting l = true -> accepting l' = true ->
    shelf l' = shelf l -> fresh l ≡ₚ st :: fresh l' -> lent l' ≡ₚ st :: lent l ->
    ledger_step l l'
| ledger_take_back l l' st :                (** to the shelf, perhaps in another one's place *)
    accepting l = true -> accepting l' = true ->
    lent l ≡ₚ st :: lent l' -> fresh l' = fresh l ->
    st ∈ shelf l' -> shelf l' ⊆+ st :: shelf l -> Z.of_nat (length (shelf l')) <= capacity ->
    ledger_step l l'
| ledger_drop l l' :                        (** streams are closed; perhaps none *)
    shelf l' ⊆+ shelf l -> fresh l' ⊆+ fresh l -> lent l' ⊆+ lent l -> accepting l' = accepting l ->
    ledger_step l l'
| ledger_close l l' :
    accepting l' = false -> shelf l' = [] -> fresh l' = fresh l -> lent l' = lent l ->
    ledger_step l l'.

(** What a client of the ledger may rely on. *)
Record ledger_ok l : Prop := {
  ok_exclusive : NoDup (streams l);
  ok_capacity : Z.of_nat (length (shelf l)) <= capacity;
  ok_closed : accepting l = false -> shelf l = [];
}.

Lemma ledger_empty_ok : 0 <= capacity -> ledger_ok ledger_empty.
Proof. intros. by constructor; [constructor| |]. Qed.

Lemma ledger_step_streams l l' :
  ledger_step l l' ->
  (streams l' ⊆+ streams l) \/ (exists st, (st ∉ streams l) /\ (streams l' ≡ₚ (st :: streams l))).
Proof.
  unfold streams.
  destruct 1 as [l l' st Hst Hs Hf Hl Ha|l l' st Ha Ha' Hs Hf Hl|l l' st Ha Ha' Hs Hf Hl
    |l l' st Ha Ha' Hl Hf Hin Hs Hcap|l l' Hs Hf Hl Ha|l l' Ha Hs Hf Hl].
  - right. exists st. split; [done|]. rewrite Hs, Hl, Hf. cbn [app]. solve_Permutation.
  - left. trans ((st :: shelf l') ++ fresh l ++ lent l); [|by apply submseteq_skips_r].
    rewrite Hf, Hl. cbn [app]. solve_submseteq.
  - left. rewrite Hs, Hf, Hl. cbn [app]. solve_submseteq.
  - left. trans ((st :: shelf l) ++ fresh l ++ lent l').
    + rewrite Hf. by apply submseteq_skips_r.
    + rewrite Hl. cbn [app]. solve_submseteq.
  - left. by repeat apply submseteq_app.
  - left. rewrite Hs, Hf, Hl. cbn [app]. by apply submseteq_inserts_l.
Qed.

Lemma ledger_step_ok l l' : ledger_step l l' -> ledger_ok l -> ledger_ok l'.
Proof.
  intros Hs [Hn Hc Hcl]. pose proof (ledger_step_streams l l' Hs) as Hst. constructor.
  - destruct Hst as [Hst|(st & Hst & Hp)]; [by eapply submseteq_NoDup|]. rewrite Hp. by constructor.
  - assert (forall k, k ⊆+ shelf l -> Z.of_nat (length k) <= capacity) as Hlen.
    { intros k Hk%submseteq_length. lia. }
    destruct Hs as [l l' st _ Hs _ _ _|l l' st _ _ Hs _ _|l l' st _ _ Hs _ _|l l' st _ _ _ _ _ _ Hcap
      |l l' Hs _ _ _|l l' _ Hs _ _]; [by rewrite Hs| |by rewrite Hs|done|by apply Hlen|rewrite Hs; simpl; lia].
    apply Hlen. etrans; [|exact Hs]. by apply submseteq_cons.
  - destruct Hs as [l l' st _ Hs _ _ Ha|l l' st _ Ha _ _ _|l l' st _ Ha _ _ _|l l' st _ Ha _ _ _ _ _
      |l l' Hs _ _ Ha|l l' _ Hs _ _]; intros Hoff; try congruence.
    + rewrite Hs. apply Hcl. congruence.
    + apply submseteq_nil_r. rewrite <- Hcl by congruence. exact Hs.
Qed.

(** A closed ledger stays closed, and lends nothing any more. *)
Lemma ledger_closed_final l l' :
  ledger_step l l' -> accepting l = false -> accepting l' = false /\ lent l' ⊆+ lent l.
Proof. destruct 1; intros Hoff; split; try congruence; rewrite ?H1, ?H2, ?H3; done || congruence. Qed.
End spec.

(** ** The pool implements the ledger *)

Section refinement.
Context {St : Type} (config : ReuseConfig).
Implicit Types (p : SessionPool St) (s : PooledSession St) (w : world St).

Definition ledger_of w : ledger St := {|
  shelf := stream <$> idle (inner (wpool w));
  fresh := stream <$> connected w;
  lent := stream <$> held w;
  accepting := negb (closed (inner (wpool w)));
|}.

Abbreviation step' := (ledger_step (max_idle config)).

(** Steps that leave the queue alone and at most drop sessions. *)
Lemma simulate_drop w w' :
  idle (inner (wpool w')) ⊆+ idle (inner (wpool w)) -> closed (inner (wpool w')) = closed (inner (wpool w)) ->
  connected w' ⊆+ connected w -> held w' ⊆+ held w -> step' (ledger_of w) (ledger_of w').
Proof.
  intros Hi Hc Hcs Hh. apply ledger_drop; cbn; [by apply fmap_submseteq..|by rewrite Hc].
Qed.

Lemma simulate_hit p p' s now t g c cs h l k :
  checkout_idle config now p = (Ok (Some s), p') ->
  step' (ledger_of (World p t (S g) c cs h l k)) (ledger_of (World p' t g c cs (h ++ [s]) l k)).
Proof.
  intros Hk. pose proof (checkout_idle_open config _ _ _ _ Hk) as Hc.
  destruct (checkout_idle_spec config now p Hc)
    as (d & _ & [(older & s0 & p1 & Hi & _ & Hk' & Hi' & _ & Hc' & _)|(? & _ & Hk' & _)]);
    rewrite Hk' in Hk; [|done]. injection Hk as <- <-.
  apply (ledger_lend _ _ _ (stream s0)); cbn; [by rewrite Hc|by rewrite Hc'| |done|].
  - rewrite Hi, Hi', fmap_app, fmap_cons. solve_submseteq.
  - rewrite fmap_app. cbn. solve_Permutation.
Qed.

Lemma simulate_miss p p' now t g c cs h l k :
  checkout_idle config now p = (Ok None, p') ->
  step' (ledger_of (World p t (S g) c cs h l k)) (ledger_of (World p' t g (S c) cs h l k)).
Proof.
  intros Hk. pose proof (checkout_idle_open config _ _ _ _ Hk) as Hc.
  destruct (checkout_idle_spec config now p Hc)
    as (d & _ & [(? & ? & ? & _ & _ & Hk' & _)|(p1 & Hi & Hk' & Hi' & _ & Hc' & _)]);
    rewrite Hk' in Hk; [done|]. injection Hk as <-.
  apply simulate_drop; cbn; [rewrite Hi'; apply submseteq_nil_l|congruence|done..].
Qed.

Lemma simulate_connected p p' s st now t g c cs h l k :
  st ∉ stream <$> sessions (World p t g c cs h l k) -> new_session now (Ok st) p = (Ok s, p') ->
  step' (ledger_of (World p t g (S c) cs h l k)) (ledger_of (World p' t g c (cs ++ [s]) h l k)).
Proof.
  intros Hst [= <- <-]. apply (ledger_open _ _ _ st); cbn; try done.
  - unfold streams, sessions in *. cbn in *. by rewrite !fmap_app in Hst.
  - rewrite fmap_app. cbn. solve_Permutation.
Qed.

Lemma simulate_finish p p' s t g c cs cs' h l k :
  checkout_finish s p = (Ok s, p') ->
  step' (ledger_of (World p t g c (cs ++ s :: cs') h l k)) (ledger_of (World p' t g c (cs ++ cs') (h ++ [s]) l k)).
Proof.
  intros (Hi & _ & Hc' & Hc)%checkout_finish_ok.
  apply (ledger_hand_over _ _ _ (stream s)); cbn; rewrite ?Hi, ?Hc, ?Hc'; try done;
    rewrite !fmap_app; cbn; solve_Permutation.
Qed.

Lemma simulate_return p p' s healthy now t g c cs h h' l k :
  0 < max_idle config -> pool_inv config (World p t g c cs (h ++ s :: h') l k) ->
  return_session config s healthy now p = (Ok tt, p') ->
  step' (ledger_of (World p t g c cs (h ++ s :: h') l k)) (ledger_of (World p' t g c cs (h ++ h') l k)).
Proof.
  intros H0 Hw Hret. pose proof (inv_count config _ Hw) as Hco. pose proof (inv_idle config _ Hw) as Hle.
  cbn in Hco, Hle.
  destruct (return_session_spec config s healthy now p) as (p1 & Hr & _ & Hc & _ & _ & Hi); [lia|].
  rewrite Hr in Hret. injection Hret as ->.
  assert (h ++ h' ⊆+ h ++ s :: h') as Hh by solve_submseteq.
  destruct (kept config healthy s now p) eqn:Hkept.
  2: { apply simulate_drop; cbn; by rewrite ?Hi, ?Hc. }
  apply kept_open in Hkept as [Hopen _].
  set (q := if _ <? _ then _ else _) in Hi.
  assert (q ⊆+ idle (inner p) /\ Z.of_nat (length q) < max_idle config) as [Hq Hlen].
  { subst q. destruct (Z.ltb_spec (Z.of_nat (length (idle (inner p)))) (max_idle config)); [done|].
    destruct (idle (inner p)); simpl in *; [lia|]. split; [by apply submseteq_cons|lia]. }
  apply (ledger_take_back _ _ _ (stream s)); cbn; rewrite ?Hc, ?Hopen, ?Hi; try done.
  - rewrite !fmap_app. cbn. solve_Permutation.
  - rewrite fmap_app, elem_of_app. right. cbn. apply list_elem_of_singleton. done.
  - rewrite fmap_app. cbn. trans (stream s :: (stream <$> q)); [solve_submseteq|].
    by apply submseteq_skip, fmap_submseteq.
  - rewrite length_fmap, length_app. simpl. lia.
Qed.

Lemma simulate_close p p' n t g c cs h l k :
  close_begin p = (p', n) ->
  step' (ledger_of (World p t g c cs h l k)) (ledger_of (World p' t g c cs h l (k ++ [after_count n Testing]))).
Proof.
  intros Hb. assert (idle (inner p') = [] /\ closed (inner p') = true) as [Hi Hc].
  { unfold close_begin in Hb. simpl in Hb. destruct (checked_out (inner p) =? 0); by injection Hb as <- <-. }
  apply ledger_close; cbn; by rewrite ?Hi, ?Hc.
Qed.

(** Steps that touch neither the queue nor the shutdown of the pool. *)
Lemma simulate_same w w' :
  inner (wpool w') = inner (wpool w) -> connected w' ⊆+ connected w -> held w' ⊆+ held w ->
  step' (ledger_of w) (ledger_of w').
Proof. intros Hi. apply simulate_drop; by rewrite Hi. Qed.

#[local] Hint Resolve checkout_gate_ok checkout_gate_err checkout_idle_err checkout_finish_err new_session_inner : shuttle.
#[local] Hint Resolve simulate_hit simulate_miss simulate_connected simulate_finish simulate_return simulate_close : shuttle.

Lemma simulate w w' :
  0 < max_idle config -> pool_inv config w -> step config w w' -> step' (ledger_of w) (ledger_of w').
Proof.
  intros H0 Hw Hs. destruct Hs; try solve [eauto 3 with shuttle].
  all: try (apply simulate_same; simpl; solve [eauto 2 with shuttle | solve_submseteq]).
  - apply simulate_drop; simpl; unfold discard_checked_out; try case_match; simpl; done || solve_submseteq.
  - apply simulate_same; simpl; by try case_match.
Qed.
End refinement.

(** ** Correctness *)

(** C12: the pool refines the ledger.  From the empty ledger on, every step of any interleaving of
    checkouts, connections, returns, discards, leaks, cancellations and shutdowns is a step of the
    ledger: a session is handed out only from the shelf or fresh from its connection, to one
    caller, by a pool that is accepting; it comes back to the shelf only from that caller, within
    the capacity; and a closed pool shelves and lends nothing any more, for ever. *)
Theorem pool_refines_ledger {St : Type} (config : ReuseConfig) (t : Instant) (w w' : world St) :
  valid_config config -> reachable config w -> step config w w' ->
  ledger_of (world_new (St:=St) t) = ledger_empty
  /\ ledger_step (max_idle config) (ledger_of w) (ledger_of w')
  /\ ledger_ok (max_idle config) (ledger_of w')
  /\ (accepting (ledger_of w) = false -> accepting (ledger_of w') = false
      /\ lent (ledger_of w') ⊆+ lent (ledger_of w)).
Proof.
  intros (Hmi & Hmr & _) Hr Hs. pose proof (reachable_inv config w Hmi Hmr Hr) as Hw.
  pose proof (simulate config w w' Hmi Hw Hs) as Hstep.
  split; [done|]. split; [done|]. split.
  - eapply ledger_step_ok; [exact Hstep|]. destruct Hw. constructor; cbn.
    + unfold streams, sessions in *. cbn. by rewrite <- !fmap_app.
    + by rewrite length_fmap.
    + intros Hc%negb_false_iff. by rewrite inv_closed.
  - by eapply ledger_closed_final.
Qed.

Lemma pool_refines_ledger_witness :
  let w := World (demo_pool 1 false [SessionEvent.PoolMiss] 0) 5 0 0 [] [demo_session] 0 [] in
  exists w', step cfg w w'
    /\ ledger_of w = Ledger [] [] [7] true /\ ledger_of w' = Ledger [7] [] [] true
    /\ ledger_step 4 (ledger_of w) (ledger_of w').
Proof.
  intros w. eexists. match goal with |- step _ _ ?w1 /\ _ => set (w' := w1) end.
  assert (step cfg w w') as Hs by (by eapply (step_return cfg _ _ _ true 5 _ _ _ _ [])).
  split; [exact Hs|]. split; [reflexivity|]. split; [reflexivity|].
  exact (proj1 (proj2 (pool_refines_ledger cfg 0 w w' valid_cfg demo_held Hs))).
Defined.
