(* ===== verification/Trojan.v ===== *)
(** * The trojan-like request protocol (shuttle/src/trojan.rs)

    Request headers and UDP datagrams as they travel inside the tunnel.  Addresses are read and
    written by the [socks5_protocol] crate, which is not part of the repository: it is the class
    [Socks5], with the layout RFC 1928 documents as its laws; [rfc1928] is an instance built on
    any stream, on which the witnesses run. *)
From S2P Require Import Prelude.
From stdpp Require Import strings.
From S2P Require Import Stream Frame.
Open Scope Z_scope.

Definition CR : Z := 13.
Definition LF : Z := 10.
Definition CRLF : Z := Z.lor (Z.shiftl CR 8) LF.
Definition MAX_DATAGRAM_SIZE : Z := 65507.

(** [std::net::SocketAddr] and [socks5_protocol::Address]. *)
Inductive SocketAddr :=
| V4 (ip : list Z) (port : Z)
| V6 (ip : list Z) (port : Z).

Inductive Addr :=
| SocketAddress (sa : SocketAddr)
| Domain (host : list Z) (port : Z).

#[export] Instance SocketAddr_eq_dec : EqDecision SocketAddr.
Proof. solve_decision. Defined.
#[export] Instance Addr_eq_dec : EqDecision Addr.
Proof. solve_decision. Defined.

Definition wf_addr (a : Addr) : Prop :=
  match a with
  | SocketAddress (V4 ip port) => is_bytes ip /\ length ip = 4%nat /\ is_u16 port
  | SocketAddress (V6 ip port) => is_bytes ip /\ length ip = 16%nat /\ is_u16 port
  | Domain host port => is_bytes host /\ is_u16 port
  end.
#[export] Instance wf_addr_dec a : Decision (wf_addr a).
Proof. destruct a as [[]|]; simpl; apply _. Defined.

Inductive Cmd := Connect | UdpAssociate.
#[export] Instance Cmd_eq_dec : EqDecision Cmd.
Proof. solve_decision. Defined.

(** [Cmd as u8], [Cmd::to_u8] and [Cmd::from_u8]. *)
Definition cmd_to_u8 (c : Cmd) : Z := match c with Connect => 1 | UdpAssociate => 3 end.
Definition cmd_from_u8 (t : Z) : option Cmd :=
  if t =? 1 then Some Connect else if t =? 3 then Some UdpAssociate else None.

Record TrojanLikeRequest := Request { cmd : Cmd; dest_addr : Addr }.
#[export] Instance TrojanLikeRequest_eq_dec : EqDecision TrojanLikeRequest.
Proof. solve_decision. Defined.

(** ** The address codec of [socks5_protocol] *)

(** [addr_bytes a] is what [write]/[write_to] produce and [serialized_len] measures; [None] is
    their error. *)
Class Socks5 (St : Type) `{!AsyncIO St} := {
  addr_bytes : Addr -> option (list Z);
  addr_read : prog St io_error Addr;
}.
Arguments addr_bytes {_ _ _} _.
Arguments addr_read {_ _ _} _.

(** The layout of RFC 1928, section 5, and that reading is its inverse. *)
Class Socks5Laws (St : Type) `{!AsyncIO St, !Socks5 St} : Prop := {
  addr_bytes_v4 ip port : addr_bytes (SocketAddress (V4 ip port)) = Some (1 :: ip ++ to_be_bytes 2 port);
  addr_bytes_v6 ip port : addr_bytes (SocketAddress (V6 ip port)) = Some (4 :: ip ++ to_be_bytes 2 port);
  addr_bytes_domain host port : (length host <= 255)%nat ->
    addr_bytes (Domain host port) = Some (3 :: Z.of_nat (length host) :: host ++ to_be_bytes 2 port);
  addr_bytes_long host port : (255 < length host)%nat -> addr_bytes (Domain host port) = None;
  addr_read_ok a b rest (s : St) : wf_addr a -> addr_bytes a = Some b -> incoming s = b ++ rest ->
    exists s', addr_read s = (Ok a, s') /\ incoming s' = rest /\ only_read s s';
  addr_read_unknown t rest (s : St) : t <> 1 -> t <> 3 -> t <> 4 -> incoming s = t :: rest ->
    exists e s', addr_read s = (Err e, s') /\ kind e <> UnexpectedEof
      /\ incoming s' = rest /\ only_read s s';
  addr_read_eof (s : St) : incoming s = [] -> ends s = true ->
    exists e s', addr_read s = (Err e, s') /\ kind e = UnexpectedEof
      /\ outgoing s' = outgoing s /\ (writable s -> writable s');
}.

Section rfc1928.
Context {St : Type} `{!AsyncIO St}.

Definition rfc1928_bytes (a : Addr) : option (list Z) :=
  match a with
  | SocketAddress (V4 ip port) => Some (1 :: ip ++ to_be_bytes 2 port)
  | SocketAddress (V6 ip port) => Some (4 :: ip ++ to_be_bytes 2 port)
  | Domain host port =>
      if decide (length host <= 255)%nat then
        Some (3 :: Z.of_nat (length host) :: host ++ to_be_bytes 2 port)
      else None
  end.

Definition rfc1928_read : prog St io_error Addr :=
  t ← read_exact 1;
  match t with
  | [1] => ip ← read_exact 4; p ← read_exact 2; mret (SocketAddress (V4 ip (from_be_bytes p)))
  | [4] => ip ← read_exact 16; p ← read_exact 2; mret (SocketAddress (V6 ip (from_be_bytes p)))
  | [3] =>
      n ← read_exact 1;
      host ← read_exact (Z.to_nat (from_be_bytes n));
      p ← read_exact 2; mret (Domain host (from_be_bytes p))
  | _ => fail (IoErr InvalidData "unknown address type")
  end.

Definition rfc1928 : Socks5 St := {| addr_bytes := rfc1928_bytes; addr_read := rfc1928_read |}.
End rfc1928.

Section rfc1928_laws.
Context {St : Type} `{!AsyncIO St, !AsyncIOLaws St}.
#[local] Set Default Proof Using "Type*".

Lemma port_read port (s : St) rest :
  is_u16 port -> incoming s = to_be_bytes 2 port ++ rest ->
  exists s', read_exact 2 s = (Ok (to_be_bytes 2 port), s')
    /\ from_be_bytes (to_be_bytes 2 port) = port /\ incoming s' = rest /\ only_read s s'.
Proof.
  intros Hp Hi. destruct (read_exact_app 2 _ _ s Hi (length_to_be_bytes 2 port)) as (s' & ? & ?).
  exists s'. split; [done|]. split; [by apply from_to_be_bytes|done].
Qed.

Lemma rfc1928_socks5 : @Socks5Laws St _ rfc1928.
Proof.
  constructor; try done.
  - intros. simpl. by rewrite decide_True.
  - intros. simpl. rewrite decide_False by lia. done.
  - intros a b rest s Hwf Hb Hi. unfold addr_read, rfc1928, rfc1928_read.
    destruct a as [[ip port|ip port]|host port]; simpl in Hb, Hwf.
    1-2: destruct Hwf as (_ & Hl & Hp); injection Hb as <-;
      cbn [app] in Hi; rewrite <- app_assoc in Hi;
      destruct (read_exact_app 1 [_] (ip ++ to_be_bytes 2 port ++ rest) s Hi eq_refl)
        as (s1 & H1 & Hi1 & Ho1);
      destruct (read_exact_app _ _ _ s1 Hi1 Hl) as (s2 & H2 & Hi2 & Ho2);
      destruct (port_read port s2 rest Hp Hi2) as (s3 & H3 & Hport & Hi3 & Ho3);
      exists s3; run H1; run H2; run H3; rewrite Hport;
      (split; [done|]); (split; [done|]); by etrans; [|etrans].
    destruct Hwf as (_ & Hp). destruct (decide (length host <= 255)%nat) as [Hl|]; [|done].
    injection Hb as <-. cbn [app] in Hi. rewrite <- app_assoc in Hi.
    destruct (read_exact_app 1 [3] (Z.of_nat (length host) :: host ++ to_be_bytes 2 port ++ rest)
      s Hi eq_refl) as (s1 & H1 & Hi1 & Ho1).
    destruct (read_exact_app 1 [_] (host ++ to_be_bytes 2 port ++ rest) s1 Hi1 eq_refl)
      as (s2 & H2 & Hi2 & Ho2).
    destruct (read_exact_app (length host) _ _ s2 Hi2 eq_refl) as (s3 & H3 & Hi3 & Ho3).
    destruct (port_read port s3 rest Hp Hi3) as (s4 & H4 & Hport & Hi4 & Ho4).
    exists s4. run H1. run H2.
    replace (Z.to_nat (from_be_bytes [Z.of_nat (length host)])) with (length host)
      by (unfold from_be_bytes; cbn [foldl]; lia).
    run H3. run H4. rewrite Hport. split; [done|]. split; [done|].
    by do 2 (etrans; [eassumption|]); etrans.
  - intros t rest s H1 H3 H4 Hi. unfold addr_read, rfc1928, rfc1928_read.
    destruct (read_exact_app 1 [t] rest s Hi eq_refl) as (s1 & Hr & Hi1 & Ho1).
    exists (IoErr InvalidData "unknown address type"), s1. run Hr.
    split_and!; try done. destruct t as [|[[]|[|[]|]|]|]; done.
  - intros s Hi He. unfold addr_read, rfc1928, rfc1928_read.
    destruct (read_exact_short 1 s) as (r & s' & Hr & Hp & Hn & Heof & _ & Ho & Hw); [rewrite Hi; simpl; lia|].
    destruct (Heof He) as [m ->]. exists (IoErr UnexpectedEof m), s'. by run Hr.
Qed.
End rfc1928_laws.

#[export] Instance duplex_socks5 : Socks5 duplex := rfc1928.
#[export] Instance duplex_socks5_laws : Socks5Laws duplex := rfc1928_socks5.

(** ** Requests *)

Section trojan.
Context {St : Type} `{!AsyncIO St, !Socks5 St}.

(** [serialized_len().unwrap()]. *)
Definition serialized_len {E} (a : Addr) : res E nat :=
  match addr_bytes a with Some b => Ok (length b) | None => Panic end.

(** [TrojanLikeRequest::encode] into a caller's buffer: the buffer after the call, and the
    number of bytes used.  [write_to] past the end of the buffer is an error, unwrapped. *)
Definition encode_request {E} (self : TrojanLikeRequest) (buf : list Z) : res E (list Z * nat) :=
  n ← serialized_len (dest_addr self);
  let len := (1 + n + 2)%nat in
  buf ← set_index buf 0 (cmd_to_u8 (cmd self));
  buf ← match addr_bytes (dest_addr self) with
        | Some b => write_slice buf 1 b
        | None => Panic
        end;
  buf ← set_index buf (len - 2) CR;
  buf ← set_index buf (len - 1) LF;
  Ok (buf, len).

(** [encoded]: [uninit n] is what [vec_uninit(n)] happens to contain. *)
Definition encoded {E} (uninit : nat -> list Z) (self : TrojanLikeRequest) : res E (list Z) :=
  n ← serialized_len (dest_addr self);
  out ← encode_request self (uninit (1 + n + 2)%nat);
  Ok out.1.

Definition write_u8 (v : Z) : prog St io_error unit := write_all [v].
Definition write_u16 (v : Z) : prog St io_error unit := write_all (to_be_bytes 2 v).
Definition read_u8 : prog St io_error Z :=
  b ← read_exact 1; lift_res (index b 0).
Definition read_u16 : prog St io_error Z :=
  b ← read_exact 2; mret (from_be_bytes b).

(** [Addr::write]. *)
Definition write_addr (a : Addr) : prog St io_error unit :=
  match addr_bytes a with
  | Some b => write_all b
  | None => fail (IoErr InvalidInput "address cannot be serialized")
  end.

Definition write (self : TrojanLikeRequest) : prog St io_error nat :=
  n ← lift_res (serialized_len (dest_addr self));
  _ ← write_u8 (cmd_to_u8 (cmd self));
  _ ← write_addr (dest_addr self);
  _ ← write_u16 CRLF;
  mret (1 + n + 2)%nat.

Definition read_trojan_like_request : prog St io_error TrojanLikeRequest :=
  t ← read_u8;
  match cmd_from_u8 t with
  | None => fail (IoErr InvalidData "client request unspported command")
  | Some cmd =>
      addr ← addr_read;
      m ← read_u16;
      if negb (m =? CRLF) then fail (IoErr Other "malformed trojan-like request")
      else mret (Request cmd addr)
  end.

(** ** UDP datagrams *)

Definition send_to (data : list Z) (addr : Addr) : prog St io_error unit :=
  _ ← write_addr addr;
  _ ← write_u16 (wrap 16 (Z.of_nat (length data)));
  _ ← write_u16 CRLF;
  write_all data.

(** [recv_from] into a buffer of [buf_len] bytes: the datagram read into [buf[..len]] and its
    address; [None] at the end of the stream. *)
Definition recv_from (buf_len : Z) : prog St io_error (option (list Z * Addr)) :=
  r ← attempt addr_read;
  match r with
  | inr e => if decide (kind e = UnexpectedEof) then mret None else fail e
  | inl addr =>
      len ← read_u16;
      m ← read_u16;
      if negb (m =? CRLF) then fail (IoErr Other "malformed trojan-like request")
      else if len <? buf_len then
        data ← read_exact (Z.to_nat len);
        mret (Some (data, addr))
      else panic
  end.
End trojan.

(** ** Proofs *)

Section proofs.
Context {St : Type} `{!AsyncIO St, !AsyncIOLaws St, !Socks5 St, !Socks5Laws St}.
#[local] Set Default Proof Using "Type*".
Implicit Types s : St.

(** The wire form of a request. *)
Definition request_bytes (r : TrojanLikeRequest) (b : list Z) : list Z :=
  cmd_to_u8 (cmd r) :: b ++ [CR; LF].

Lemma cmd_from_to c : cmd_from_u8 (cmd_to_u8 c) = Some c.
Proof. by destruct c. Qed.

Lemma encode_request_ok {E} r b buf :
  addr_bytes (dest_addr r) = Some b -> (length (request_bytes r b) <= length buf)%nat ->
  encode_request r buf
  = Ok (request_bytes r b ++ drop (length (request_bytes r b)) buf, length (request_bytes r b))
    :> res E _.
Proof.
  intros Hb Hlen. unfold encode_request, serialized_len, request_bytes in *. rewrite Hb. simpl.
  destruct buf as [|x buf]; [simpl in Hlen; lia|].
  assert (exists m y z tl, buf = m ++ y :: z :: tl /\ length m = length b) as (m & y & z & tl & -> & Hm).
  { exists (take (length b) buf). destruct (drop (length b) buf) as [|y [|z tl]] eqn:Hd.
    1-2: apply (f_equal length) in Hd; len.
    exists y, z, tl. rewrite <- Hd, take_drop. split; [done|len]. }
  change (x :: m ++ y :: z :: tl) with ([] ++ x :: m ++ y :: z :: tl) at 1.
  rewrite set_index_app by done. cbn [mbind res_bind app].
  change (cmd_to_u8 (cmd r) :: m ++ y :: z :: tl) with ([cmd_to_u8 (cmd r)] ++ m ++ y :: z :: tl).
  rewrite write_slice_app by done. rewrite app_assoc. cbn [mbind res_bind].
  rewrite set_index_app by len. cbn [mbind res_bind app].
  replace (_ :: b ++ CR :: z :: tl) with ((cmd_to_u8 (cmd r) :: b ++ [CR]) ++ z :: tl)
    by (simpl; by rewrite <- app_assoc).
  rewrite set_index_app by len. cbn [mbind res_bind app].
  replace (drop _ (x :: m ++ y :: z :: tl)) with tl.
  - do 2 f_equal; [|len]. simpl. by rewrite <- !app_assoc.
  - replace (x :: m ++ y :: z :: tl) with ((x :: m ++ [y; z]) ++ tl) by (simpl; by rewrite <- app_assoc).
    rewrite drop_app_length'; [done|len].
Qed.

(** Two calls on a stream whose effects on what is written are known. *)
Lemma write_all_seq (b : list Z) s :
  writable s -> exists s', write_all b s = (Ok tt, s') /\ outgoing s' = outgoing s ++ b
    /\ incoming s' = incoming s /\ writable s'.
Proof. intros (s' & ? & ? & ? & _ & ?)%(write_all_writable b). eauto 6. Qed.

Lemma write_request_ok r b s :
  addr_bytes (dest_addr r) = Some b -> writable s ->
  exists s', write r s = (Ok (length (request_bytes r b)), s')
    /\ outgoing s' = outgoing s ++ request_bytes r b /\ writable s'.
Proof.
  intros Hb Hw. unfold write, serialized_len, write_addr, request_bytes. rewrite Hb.
  destruct (write_all_seq [cmd_to_u8 (cmd r)] s Hw) as (s1 & H1 & Ho1 & _ & Hw1).
  destruct (write_all_seq b s1 Hw1) as (s2 & H2 & Ho2 & _ & Hw2).
  destruct (write_all_seq (to_be_bytes 2 CRLF) s2 Hw2) as (s3 & H3 & Ho3 & _ & Hw3).
  rewrite bind_lift. unfold write_u8. run H1. run H2. unfold write_u16. run H3.
  exists s3. split_and!; [|by rewrite Ho3, Ho2, Ho1, <- !app_assoc|done].
  unfold mret, prog_ret. do 2 f_equal. len.
Qed.

Lemma read_u16_sent z rest s :
  is_u16 z -> incoming s = to_be_bytes 2 z ++ rest ->
  exists s', read_u16 s = (Ok z, s') /\ incoming s' = rest /\ only_read s s'.
Proof.
  intros Hz Hi. destruct (port_read z s rest Hz Hi) as (s' & Hr & Heq & ?).
  exists s'. unfold read_u16. run Hr. by rewrite Heq.
Qed.

Lemma read_u8_sent z rest s :
  incoming s = z :: rest ->
  exists s', read_u8 s = (Ok z, s') /\ incoming s' = rest /\ only_read s s'.
Proof.
  intros Hi. destruct (read_exact_app 1 [z] rest s Hi eq_refl) as (s' & Hr & ?).
  exists s'. unfold read_u8. by run Hr.
Qed.

Lemma read_request_sent r b rest s :
  wf_addr (dest_addr r) -> addr_bytes (dest_addr r) = Some b ->
  incoming s = request_bytes r b ++ rest ->
  exists s', read_trojan_like_request s = (Ok r, s') /\ incoming s' = rest /\ only_read s s'.
Proof.
  intros Hwf Hb Hi. unfold request_bytes in Hi. cbn [app] in Hi. rewrite <- app_assoc in Hi.
  destruct (read_u8_sent _ _ s Hi) as (s1 & H1 & Hi1 & Ho1).
  destruct (addr_read_ok _ _ _ s1 Hwf Hb Hi1) as (s2 & H2 & Hi2 & Ho2).
  destruct (read_u16_sent CRLF rest s2 ltac:(done) Hi2) as (s3 & H3 & Hi3 & Ho3).
  exists s3. unfold read_trojan_like_request. run H1. rewrite cmd_from_to. run H2. run H3.
  rewrite Z.eqb_refl. simpl. destruct r. split; [done|]. split; [done|]. by etrans; [|etrans].
Qed.

(** The wire form of a datagram. *)
Definition datagram_bytes (data b : list Z) : list Z :=
  b ++ to_be_bytes 2 (Z.of_nat (length data)) ++ [CR; LF] ++ data.

Lemma send_to_ok data a b s :
  addr_bytes a = Some b -> is_u16 (Z.of_nat (length data)) -> writable s ->
  exists s', send_to data a s = (Ok tt, s') /\ outgoing s' = outgoing s ++ datagram_bytes data b
    /\ writable s'.
Proof.
  intros Hb Hu Hw. unfold send_to, write_addr, datagram_bytes. rewrite Hb.
  destruct (write_all_seq b s Hw) as (s1 & H1 & Ho1 & _ & Hw1).
  destruct (write_all_seq (to_be_bytes 2 (Z.of_nat (length data))) s1 Hw1) as (s2 & H2 & Ho2 & _ & Hw2).
  destruct (write_all_seq (to_be_bytes 2 CRLF) s2 Hw2) as (s3 & H3 & Ho3 & _ & Hw3).
  destruct (write_all_seq data s3 Hw3) as (s4 & H4 & Ho4 & _ & Hw4).
  run H1. rewrite wrap_small by done. unfold write_u16. run H2. run H3. rewrite H4.
  exists s4. split_and!; [done| |done]. by rewrite Ho4, Ho3, Ho2, Ho1, <- !app_assoc.
Qed.

(** Programs that only write leave what is to be read alone. *)
Definition same_input (s s' : St) : Prop := incoming s' = incoming s /\ ends s' = ends s.

#[export] Instance same_input_preorder : PreOrder same_input.
Proof using. split; [done|]. intros ??? [] []. split; congruence. Qed.

Lemma keeps_write_all b : keeps same_input (write_all b).
Proof. intros s. destruct (write_all b s) as [r s'] eqn:E. by apply write_all_outcome in E. Qed.

Lemma keeps_write_addr a : keeps same_input (write_addr a).
Proof. unfold write_addr. keep; apply keeps_write_all. Qed.

Lemma keeps_send_to data a : keeps same_input (send_to data a).
Proof. unfold send_to, write_u16. keep; (apply keeps_write_all || apply keeps_write_addr). Qed.

Lemma recv_from_sent data a b rest buf_len s :
  wf_addr a -> addr_bytes a = Some b -> is_u16 (Z.of_nat (length data)) ->
  incoming s = datagram_bytes data b ++ rest ->
  exists s', incoming s' = (if Z.of_nat (length data) <? buf_len then rest else data ++ rest)
    /\ recv_from buf_len s =
       (if Z.of_nat (length data) <? buf_len then Ok (Some (data, a)) else Panic, s').
Proof.
  intros Hwf Hb Hu Hi. unfold datagram_bytes in Hi. rewrite <- !app_assoc in Hi.
  destruct (addr_read_ok a b _ s Hwf Hb Hi) as (s1 & H1 & Hi1 & _).
  destruct (read_u16_sent _ _ s1 Hu Hi1) as (s2 & H2 & Hi2 & _).
  destruct (read_u16_sent CRLF (data ++ rest) s2 ltac:(done) Hi2) as (s3 & H3 & Hi3 & _).
  apply (attempt_eq (E':=io_error)) in H1.
  unfold recv_from. run H1. run H2. run H3. rewrite Z.eqb_refl. simpl.
  destruct (Z.of_nat (length data) <? buf_len); [|by exists s3].
  destruct (read_exact_app (length data) data rest s3 Hi3 eq_refl) as (s4 & H4 & Hi4 & _).
  rewrite Nat2Z.id. exists s4. by run H4.
Qed.

(** A datagram that fits is read whole and nothing else is. *)
Lemma recv_from_ok data a b rest buf_len s :
  wf_addr a -> addr_bytes a = Some b -> is_u16 (Z.of_nat (length data)) ->
  Z.of_nat (length data) < buf_len -> incoming s = datagram_bytes data b ++ rest ->
  exists s', recv_from buf_len s = (Ok (Some (data, a)), s') /\ incoming s' = rest /\ only_read s s'.
Proof.
  intros Hwf Hb Hu Hlt Hi. unfold datagram_bytes in Hi. rewrite <- !app_assoc in Hi.
  destruct (addr_read_ok a b _ s Hwf Hb Hi) as (s1 & H1 & Hi1 & Ho1).
  destruct (read_u16_sent _ _ s1 Hu Hi1) as (s2 & H2 & Hi2 & Ho2).
  destruct (read_u16_sent CRLF (data ++ rest) s2 ltac:(done) Hi2) as (s3 & H3 & Hi3 & Ho3).
  destruct (read_exact_app (length data) data rest s3 Hi3 eq_refl) as (s4 & H4 & Hi4 & Ho4).
  apply (attempt_eq (E':=io_error)) in H1.
  unfold recv_from. run H1. run H2. run H3. rewrite Z.eqb_refl. simpl.
  destruct (Z.ltb_spec (Z.of_nat (length data)) buf_len); [|lia]. rewrite Nat2Z.id. run H4.
  exists s4. split; [done|]. split; [done|]. by do 2 (etrans; [eassumption|]); etrans.
Qed.

(** The end of the stream between two datagrams. *)
Lemma recv_from_eof buf_len s :
  incoming s = [] -> ends s = true ->
  exists s', recv_from buf_len s = (Ok None, s') /\ outgoing s' = outgoing s
    /\ (writable s -> writable s').
Proof.
  intros Hi He. destruct (addr_read_eof s Hi He) as (e & s' & Hr & Hk & Ho & Hw).
  apply (attempt_eq (E':=io_error)) in Hr. exists s'. unfold recv_from. run Hr.
  by rewrite decide_True.
Qed.

(** ** Correctness *)

(** Request headers.  The bytes [encoded] produces do not depend on the uninitialised buffer,
    they are the bytes [write] sends, and the other end reads back the same request, consuming the
    header and nothing after it; encoding panics exactly when the address cannot be serialized. *)
Theorem request_roundtrip (r : TrojanLikeRequest) (uninit : nat -> list Z) (w s : St) (rest : list Z) :
  wf_addr (dest_addr r) -> (forall n, length (uninit n) = n) -> writable w ->
  match encoded uninit r : res unit _ with
  | Ok b =>
      (exists w', write r w = (Ok (length b), w') /\ outgoing w' = outgoing w ++ b)
      /\ (incoming s = b ++ rest ->
          exists s', read_trojan_like_request s = (Ok r, s') /\ incoming s' = rest)
  | Panic => addr_bytes (dest_addr r) = None /\ (write r w).1 = Panic
  | _ => False
  end.
Proof.
  intros Hwf Hun Hw. unfold encoded, serialized_len.
  destruct (addr_bytes (dest_addr r)) as [b|] eqn:Hb; simpl.
  - rewrite (encode_request_ok r b) by (first [done | rewrite Hun; unfold request_bytes; len]). simpl.
    rewrite drop_ge, app_nil_r by (rewrite Hun; unfold request_bytes; len). split.
    + destruct (write_request_ok r b w Hb Hw) as (w' & ? & ? & _). eauto.
    + intros Hi. destruct (read_request_sent r b rest s Hwf Hb Hi) as (s' & ? & ? & _). eauto.
  - split; [done|]. unfold write, serialized_len. by rewrite Hb.
Qed.

(** UDP datagrams.  A datagram sent over the stream is received with its address and its
    exact payload, leaving what follows; but when the payload is as long as the receive buffer
    the receiver panics ([assert!(len < buf.len())]): both relays receive into a buffer of
    [MAX_DATAGRAM_SIZE] bytes, so a datagram of the maximum size, which the sender accepts, kills
    the receiving task. *)
Theorem datagram_roundtrip (data : list Z) (a : Addr) (w s : St) (rest : list Z) (buf_len : Z) :
  wf_addr a -> is_Some (addr_bytes a) -> Z.of_nat (length data) <= MAX_DATAGRAM_SIZE -> writable w ->
  exists b w', send_to data a w = (Ok tt, w') /\ outgoing w' = outgoing w ++ b
    /\ (incoming s = b ++ rest ->
        exists s', recv_from buf_len s =
            (if Z.of_nat (length data) <? buf_len then Ok (Some (data, a)) else Panic, s')
          /\ (Z.of_nat (length data) < buf_len -> incoming s' = rest)).
Proof.
  intros Hwf [b Hb] Hlen Hw.
  assert (is_u16 (Z.of_nat (length data))) as Hu by (unfold in_u, MAX_DATAGRAM_SIZE in *; lia).
  destruct (send_to_ok data a b w Hb Hu Hw) as (w' & ? & ? & _).
  exists (datagram_bytes data b), w'. split_and!; [done..|]. intros Hi.
  destruct (recv_from_sent data a b rest buf_len s Hwf Hb Hu Hi) as (s' & Hi' & Hr).
  exists s'. split; [done|]. intros Hlt. rewrite (proj2 (Z.ltb_lt _ _) Hlt) in Hi'. done.
Qed.
End proofs.

Lemma request_roundtrip_witness :
  let r := Request Connect (Domain [97; 46; 98] 443) in
  let b := [1; 3; 3; 97; 46; 98; 1; 187; 13; 10] in
  (exists w', write r (open_with []) = (Ok (length b), w') /\ outgoing w' = b)
  /\ exists s', read_trojan_like_request (open_with (b ++ [22; 3])) = (Ok r, s') /\ incoming s' = [22; 3].
Proof.
  intros r b.
  destruct (request_roundtrip (Request Connect (Domain [97; 46; 98] 443)) (fun n => replicate n 255)
    (open_with []) (open_with (b ++ [22; 3])) [22; 3]) as [Hw Hr];
    [by_compute|intros n; apply length_replicate|reflexivity|].
  split; [exact Hw|exact (Hr eq_refl)].
Defined.

Lemma datagram_roundtrip_witness :
  let a := SocketAddress (V4 [8; 8; 8; 8] 53) in
  let b := [1; 8; 8; 8; 8; 0; 53; 0; 2; 13; 10; 5; 6] in
  (exists s', recv_from 3 (open_with (b ++ [9])) = (Ok (Some ([5; 6], a)), s')
     /\ (2 < 3 -> incoming s' = [9]))
  /\ exists s', recv_from 2 (open_with (b ++ [9])) = (Panic, s').
Proof.
  intros a b.
  assert (wf_addr a /\ is_Some (addr_bytes a) /\ 2 <= MAX_DATAGRAM_SIZE) as (H1 & H2 & H3) by by_compute.
  split.
  - destruct (datagram_roundtrip [5; 6] a (open_with []) (open_with (b ++ [9])) [9] 3 H1 H2 H3 eq_refl)
      as (b' & w' & Hs & Ho & Hr).
    injection Hs as <-. simpl in Ho. subst b'. exact (Hr eq_refl).
  - destruct (datagram_roundtrip [5; 6] a (open_with []) (open_with (b ++ [9])) [9] 2 H1 H2 H3 eq_refl)
      as (b' & w' & Hs & Ho & Hr).
    injection Hs as <-. simpl in Ho. subst b'. destruct (Hr eq_refl) as (s' & Hs' & _).
    exists s'. exact Hs'.
Defined.
