(* ===== verification/Udp.v ===== *)
(** * UDP relays (shuttle/src/server.rs, shuttle/src/client/plain.rs)

    [relay_udp] on the server moves datagrams between a tunnel and an unconnected UDP socket, with
    a cache of resolved names; [relay_udp_with] on the client moves them between the SOCKS5
    client's UDP socket and the tunnel for as long as the control connection is open.  Both run
    two loops concurrently.  The loops share no state but the counters of their own direction, so
    a run is a sequence of whole turns of either loop, each with what the outside world answered. *)
From S2P Require Import Prelude.
From stdpp Require Import strings.
From S2P Require Import Stream Trojan Lru.
Open Scope Z_scope.

(** ** The server's relay *)

Definition MAX_CACHED_DOMAIN_ADDRS_PER_SOCKET : nat := 64.
Abbreviation host_port := (list Z * Z)%type.

(** A turn of [atob], with the answers of the resolver (if it is asked) and of the socket, or of
    [btoa], with what the socket received. *)
Inductive server_udp_event :=
| FromTunnel (lookup : host_port -> res io_error (list SocketAddr)) (sent : res io_error unit)
| FromSocket (r : res io_error (list Z * SocketAddr)).

(** The tunnel, the resolution cache, the datagrams handed to the socket and the two counters. *)
Record server_udp (St F : Type) := ServerUdp {
  tunnel : St;
  resolved_addrs : F;
  socket_sent : list (list Z * SocketAddr);
  udp_tx : Z;
  udp_rx : Z;
}.
Arguments ServerUdp {_ _} _ _ _ _ _.
Arguments tunnel {_ _} _.
Arguments resolved_addrs {_ _} _.
Arguments socket_sent {_ _} _.
Arguments udp_tx {_ _} _.
Arguments udp_rx {_ _} _.

Section server_udp.
Context {St F : Type} `{!AsyncIO St, !Socks5 St, !Lru host_port SocketAddr F}.
Abbreviation W := (server_udp St F).

Definition set_tunnel (s : St) (w : W) : W :=
  ServerUdp s (resolved_addrs w) (socket_sent w) (udp_tx w) (udp_rx w).
Definition set_resolved (f : F) (w : W) : W :=
  ServerUdp (tunnel w) f (socket_sent w) (udp_tx w) (udp_rx w).
Definition on_tunnel {A} (m : prog St io_error A) : prog W io_error A := zoom tunnel set_tunnel m.

(** [outbound.send_to(data, sa).await?]. *)
Definition socket_send (data : list Z) (sa : SocketAddr) (sent : res io_error unit)
    : prog W io_error unit :=
  _ ← lift_res sent;
  modify (fun w => ServerUdp (tunnel w) (resolved_addrs w) (socket_sent w ++ [(data, sa)])
                     (udp_tx w) (udp_rx w)).

(** The address a datagram goes to: a cached resolution, or the first address of a lookup, which
    is put into the cache and read back as its most recent entry. *)
Definition resolve_addr (lookup : host_port -> res io_error (list SocketAddr)) (dest : Addr)
    : prog W io_error SocketAddr :=
  match dest with
  | SocketAddress sa => mret sa
  | Domain h p =>
      let hp := (h, p) in
      w ← get;
      let (found, f) := lru_get hp (resolved_addrs w) in
      _ ← modify (set_resolved f);
      match found with
      | Some sa => mret sa
      | None =>
          addrs ← lift_res (lookup hp);
          match addrs with
          | [] => fail (IoErr InvalidInput "no addresses to send data to")
          | sa :: _ =>
              _ ← modify (fun w => set_resolved (lru_put hp sa (resolved_addrs w)) w);
              w ← get;
              match entries (resolved_addrs w) with
              | (_, sa) :: _ => mret sa
              | [] => panic
              end
          end
      end
  end.

(** A turn of [atob]; [true]: the tunnel has ended. *)
Definition atob_turn (lookup : host_port -> res io_error (list SocketAddr)) (sent : res io_error unit)
    : prog W io_error bool :=
  r ← on_tunnel (recv_from MAX_DATAGRAM_SIZE);
  match r with
  | None => mret true
  | Some (data, dest) =>
      sa ← resolve_addr lookup dest;
      _ ← socket_send data sa sent;
      _ ← modify (fun w => ServerUdp (tunnel w) (resolved_addrs w) (socket_sent w)
                             (udp_tx w + Z.of_nat (length data)) (udp_rx w));
      mret false
  end.

(** A turn of [btoa].  The kernel truncates a datagram to the buffer; the [BufWriter] is flushed
    after every datagram. *)
Definition btoa_turn (r : res io_error (list Z * SocketAddr)) : prog W io_error unit :=
  '(data, orig_addr) ← lift_res r;
  let data := take (Z.to_nat MAX_DATAGRAM_SIZE) data in
  _ ← on_tunnel (send_to data (SocketAddress orig_addr));
  modify (fun w => ServerUdp (tunnel w) (resolved_addrs w) (socket_sent w)
                     (udp_tx w) (udp_rx w + Z.of_nat (length data))).

(** [relay_udp]'s [select!]: the relay ends with the first loop that does.  At the end of a
    schedule it is still running. *)
Fixpoint relay_udp_loop (evs : list server_udp_event) : prog W io_error (Z * Z) :=
  match evs with
  | [] => pending
  | FromTunnel lookup sent :: evs =>
      eof ← atob_turn lookup sent;
      match eof with
      | true => w ← get; mret (udp_tx w, udp_rx w)
      | false => relay_udp_loop evs
      end
  | FromSocket r :: evs =>
      _ ← btoa_turn r;
      relay_udp_loop evs
  end.

(** [relay_udp]: [cache] is [LruCache::new(MAX_CACHED_DOMAIN_ADDRS_PER_SOCKET)]. *)
Definition relay_udp (cache : nat -> F) (evs : list server_udp_event) : prog (St * list (list Z * SocketAddr)) io_error (Z * Z) :=
  fun '(s, sent) =>
    let (r, w) := relay_udp_loop evs (ServerUdp s (cache MAX_CACHED_DOMAIN_ADDRS_PER_SOCKET) sent 0 0) in
    (r, (tunnel w, socket_sent w)).
End server_udp.

(** ** Specification of the server's relay *)

Section server_spec.
Context {St : Type} `{!AsyncIO St, !Socks5 St}.

(** A datagram on the wire. *)
Definition datagram_wire (d : list Z * Addr) : list Z :=
  datagram_bytes d.1 (default [] (addr_bytes d.2)).

(** Datagrams the framing can carry to a receiver with the relays' buffer. *)
Definition carried (d : list Z * Addr) : Prop :=
  wf_addr d.2 /\ is_Some (addr_bytes d.2) /\ Z.of_nat (length d.1) < MAX_DATAGRAM_SIZE.

(** Name resolution on the contents of a cache of [cap] entries: the address and the contents
    afterwards. *)
Definition resolution (cap : nat) (lookup : host_port -> res io_error (list SocketAddr))
    (dest : Addr) (l : list (host_port * SocketAddr)) : option (SocketAddr * list (host_port * SocketAddr)) :=
  match dest with
  | SocketAddress sa => Some (sa, l)
  | Domain h p =>
      let rest := filter (fun kv => kv.1 <> (h, p)) l in
      match assoc (h, p) l with
      | Some sa => Some (sa, ((h, p), sa) :: rest)
      | None =>
          match lookup (h, p) with
          | Ok (sa :: _) => Some (sa, take cap (((h, p), sa) :: rest))
          | _ => None
          end
      end
  end.

(** Complete exchanges: datagrams [ins] come out of the tunnel and go to the addresses of [sents],
    datagrams [outs] come from the socket, in any interleaving. *)
Inductive udp_exchange (cap : nat) : list (host_port * SocketAddr) -> list server_udp_event ->
    list (list Z * Addr) -> list (list Z * SocketAddr) -> list (list Z * SocketAddr) -> Prop :=
| exchange_nil l : udp_exchange cap l [] [] [] []
| exchange_out l lookup d sa l' evs ins sents outs :
    carried d -> resolution cap lookup d.2 l = Some (sa, l') ->
    udp_exchange cap l' evs ins sents outs ->
    udp_exchange cap l (FromTunnel lookup (Ok tt) :: evs) (d :: ins) ((d.1, sa) :: sents) outs
| exchange_in l data sa evs ins sents outs :
    carried (data, SocketAddress sa) -> udp_exchange cap l evs ins sents outs ->
    udp_exchange cap l (FromSocket (Ok (data, sa)) :: evs) ins sents ((data, sa) :: outs).

Definition total {B} (ds : list (list Z * B)) : Z := foldr (fun d n => Z.of_nat (length d.1) + n) 0 ds.
Definition as_addr (d : list Z * SocketAddr) : list Z * Addr := (d.1, SocketAddress d.2).
End server_spec.

(** ** Proofs: the server's relay *)

Section server_proofs.
Context {St F : Type} `{!AsyncIO St, !AsyncIOLaws St, !Socks5 St, !Socks5Laws St,
  !Lru host_port SocketAddr F, !LruLaws host_port SocketAddr F}.
#[local] Set Default Proof Using "Type*".
Implicit Types w : server_udp St F.

Lemma on_tunnel_eq {A} (m : prog St io_error A) w r s :
  m (tunnel w) = (r, s) -> on_tunnel m w = (r, set_tunnel s w).
Proof. intros H. unfold on_tunnel, zoom. by rewrite H. Qed.

(** [resolve_addr] implements [resolution]. *)
Lemma resolve_addr_spec lookup dest w sa l' :
  resolution (capacity (resolved_addrs w)) lookup dest (entries (resolved_addrs w)) = Some (sa, l') ->
  (0 < capacity (resolved_addrs w))%nat ->
  exists f, resolve_addr lookup dest w = (Ok sa, set_resolved f w)
    /\ entries f = l' /\ capacity f = capacity (resolved_addrs w).
Proof.
  intros Hres Hcap. destruct dest as [sa'|h p]; cbn [resolution] in Hres.
  { simplify_eq. exists (resolved_addrs w). by destruct w. }
  unfold resolve_addr. rewrite (bind_ok get _ w w w eq_refl).
  destruct (assoc (h, p) (entries (resolved_addrs w))) as [sa'|] eqn:Ha.
  - simplify_eq. destruct (lru_get_hit _ _ _ Ha) as (f & -> & Hc & He). exists f. by rewrite Hc.
  - destruct (lru_get_miss _ _ Ha) as (f & -> & Hc & He).
    rewrite (bind_ok (modify (set_resolved f)) _ w (set_resolved f w) tt eq_refl).
    destruct (lookup (h, p)) as [[|sa' addrs]| | |]; simplify_eq. rewrite bind_lift.
    destruct (lru_put_spec (h, p) sa f) as [Hp Hc'].
    exists (lru_put (h, p) sa f). rewrite Hp, Hc', Hc, He. split; [|done].
    unfold mbind, prog_bind, modify, get, set_resolved. cbn [resolved_addrs]. rewrite Hp, Hc.
    by destruct (capacity (resolved_addrs w)); [lia|].
Qed.

(** Whatever it returns, a resolution moves a cached entry back by one place at most. *)
Lemma resolve_addr_remembers e v i lookup dest w :
  remembered e v i (entries (resolved_addrs w)) -> (S i < capacity (resolved_addrs w))%nat ->
  exists f, (resolve_addr lookup dest w).2 = set_resolved f w
    /\ remembered e v (S i) (entries f) /\ capacity f = capacity (resolved_addrs w).
Proof.
  intros Hr Hi.
  assert (remembered e v (S i) (entries (resolved_addrs w))) as Hr'
    by (apply (remembered_weaken e v i); [lia|done]).
  destruct dest as [sa|h p].
  { exists (resolved_addrs w). by destruct w. }
  unfold resolve_addr. rewrite (bind_ok get _ w w w eq_refl).
  destruct (assoc (h, p) (entries (resolved_addrs w))) as [sa|] eqn:Ha.
  - destruct (lru_get_hit _ _ _ Ha) as (f & -> & Hc & He). exists f. rewrite He, Hc.
    split_and!; [done| |done]. destruct (decide ((h, p) = e)) as [<-|Hne].
    + rewrite (remembered_assoc _ _ _ _ Hr) in Ha. simplify_eq.
      apply (remembered_weaken _ _ 0); [lia|apply remembered_first].
    + by apply remembered_behind.
  - destruct (lru_get_miss _ _ Ha) as (f & -> & Hc & He).
    rewrite (bind_ok (modify (set_resolved f)) _ w (set_resolved f w) tt eq_refl).
    destruct (lookup (h, p)) as [[|sa addrs]| | |];
      try (exists f; rewrite He, Hc; split_and!; done).
    rewrite bind_lift. destruct (lru_put_spec (h, p) sa f) as [Hp Hc'].
    exists (lru_put (h, p) sa f). split_and!.
    + unfold mbind, prog_bind, modify, get, set_resolved. cbn [resolved_addrs].
      by destruct (entries (lru_put (h, p) sa f)) as [|[??]?].
    + rewrite Hp, Hc, He. apply remembered_take; [|lia]. apply remembered_behind; [done|].
      intros <-. by rewrite (remembered_assoc _ _ _ _ Hr) in Ha.
    + by rewrite Hc', Hc.
Qed.

(** A turn of either loop leaves the cache of a named address where it was, but for the age. *)
Lemma atob_turn_remembers e v i lookup sent w :
  remembered e v i (entries (resolved_addrs w)) -> (S i < capacity (resolved_addrs w))%nat ->
  let w' := (atob_turn lookup sent w).2 in
  remembered e v (S i) (entries (resolved_addrs w'))
  /\ capacity (resolved_addrs w') = capacity (resolved_addrs w).
Proof.
  intros Hr Hi. unfold atob_turn, on_tunnel, zoom, mbind, prog_bind.
  destruct (recv_from MAX_DATAGRAM_SIZE (tunnel w)) as [r s].
  assert (remembered e v (S i) (entries (resolved_addrs w))) as Hr'
    by (apply (remembered_weaken e v i); [lia|done]).
  destruct r as [[[data dest]|]|?| |]; try done.
  destruct (resolve_addr_remembers e v i lookup dest (set_tunnel s w) Hr Hi) as (f & Hf & Hrem & Hc).
  destruct (resolve_addr lookup dest (set_tunnel s w)) as [r w1]. cbn [snd] in Hf. subst w1.
  destruct r; try done. unfold socket_send, mbind, prog_bind, lift_res. by destruct sent.
Qed.

Lemma btoa_turn_cache r w : resolved_addrs (btoa_turn r w).2 = resolved_addrs w.
Proof.
  unfold btoa_turn, on_tunnel, zoom, mbind, prog_bind, lift_res.
  destruct r as [[data sa]| | |]; try done.
  destruct (send_to _ _ (tunnel w)) as [r s]. by destruct r.
Qed.

Lemma loop_remembers e v evs : forall i w w',
  remembered e v i (entries (resolved_addrs w)) ->
  (i + length evs < capacity (resolved_addrs w))%nat ->
  relay_udp_loop evs w = (Pending, w') ->
  exists j, remembered e v j (entries (resolved_addrs w')).
Proof.
  induction evs as [|ev evs IH]; intros i w w' Hr Hi Hloop; cbn [relay_udp_loop length] in *.
  { unfold pending in Hloop. simplify_eq. by exists i. }
  destruct ev as [lookup sent|r].
  - destruct (atob_turn_remembers e v i lookup sent w Hr ltac:(lia)) as [Hr' Hc].
    unfold mbind, prog_bind in Hloop. destruct (atob_turn lookup sent w) as [[[]|?| |] w1];
      cbn [snd] in *; simplify_eq/=; [|by eexists].
    apply (IH (S i) w1); [done|lia|done].
  - pose proof (btoa_turn_cache r w) as Hc. unfold mbind, prog_bind in Hloop.
    destruct (btoa_turn r w) as [[?|?| |] w1]; cbn [snd] in *; simplify_eq/=.
    + apply (IH i w1); rewrite ?Hc; [done|lia|done].
    + rewrite Hc. by eexists.
Qed.

(** *** Complete exchanges *)

Lemma atob_turn_ok lookup d sa l' rest w :
  carried (St:=St) d -> incoming (tunnel w) = datagram_wire (St:=St) d ++ rest ->
  (0 < capacity (resolved_addrs w))%nat ->
  resolution (capacity (resolved_addrs w)) lookup d.2 (entries (resolved_addrs w)) = Some (sa, l') ->
  exists s f, atob_turn lookup (Ok tt) w
      = (Ok false, ServerUdp s f (socket_sent w ++ [(d.1, sa)]) (udp_tx w + Z.of_nat (length d.1)) (udp_rx w))
    /\ incoming s = rest /\ only_read (tunnel w) s
    /\ entries f = l' /\ capacity f = capacity (resolved_addrs w).
Proof.
  intros (Hwf & [b Hb] & Hlen) Hi Hcap Hres. destruct d as [data a]; simpl in *.
  unfold datagram_wire in Hi. simpl in Hi. rewrite Hb in Hi.
  destruct (recv_from_ok data a b rest MAX_DATAGRAM_SIZE (tunnel w) Hwf Hb) as (s & Hrecv & Hi' & Ho);
    [unfold in_u, MAX_DATAGRAM_SIZE in *; lia|done..|].
  apply on_tunnel_eq in Hrecv.
  destruct (resolve_addr_spec lookup a (set_tunnel s w) sa l' Hres Hcap) as (f & Hf & He & Hc).
  exists s, f. unfold atob_turn. run Hrecv. run Hf. done.
Qed.

Lemma btoa_turn_ok data sa w :
  carried (St:=St) (data, SocketAddress sa) -> writable (tunnel w) ->
  exists s, btoa_turn (Ok (data, sa)) w
      = (Ok tt, ServerUdp s (resolved_addrs w) (socket_sent w) (udp_tx w) (udp_rx w + Z.of_nat (length data)))
    /\ outgoing s = outgoing (tunnel w) ++ datagram_wire (St:=St) (data, SocketAddress sa)
    /\ incoming s = incoming (tunnel w) /\ ends s = ends (tunnel w) /\ writable s.
Proof.
  intros (Hwf & [b Hb] & Hlen) Hw. simpl in *. unfold datagram_wire. simpl. rewrite Hb.
  assert (take (Z.to_nat MAX_DATAGRAM_SIZE) data = data) as Ht by (apply take_ge; lia).
  destruct (send_to_ok data (SocketAddress sa) b (tunnel w) Hb) as (s & Hs & Hrest);
    [unfold in_u, MAX_DATAGRAM_SIZE in *; lia|done|].
  pose proof Hs as Hs0. apply on_tunnel_eq in Hs. exists s. split.
  - unfold btoa_turn. rewrite bind_lift. cbv beta iota zeta. rewrite Ht. by run Hs.
  - destruct Hrest, (keeps_run _ _ _ _ _ (keeps_send_to data (SocketAddress sa)) Hs0). done.
Qed.

Abbreviation wire ds := (concat (datagram_wire (St:=St) <$> ds)).

(** What a complete exchange does to the relay's state. *)
Definition exchanged (ins : list (list Z * Addr)) (sents outs : list (list Z * SocketAddr))
    (w w' : server_udp St F) : Prop :=
  ends (tunnel w') = ends (tunnel w) /\ writable (tunnel w')
  /\ outgoing (tunnel w') = outgoing (tunnel w) ++ wire (as_addr <$> outs)
  /\ socket_sent w' = socket_sent w ++ sents
  /\ udp_tx w' = udp_tx w + total ins /\ udp_rx w' = udp_rx w + total outs.

Lemma exchange_run cap l evs ins sents outs :
  udp_exchange (St:=St) cap l evs ins sents outs -> (0 < cap)%nat ->
  forall w evs' rest, capacity (resolved_addrs w) = cap -> entries (resolved_addrs w) = l ->
  incoming (tunnel w) = wire ins ++ rest -> writable (tunnel w) ->
  exists w', relay_udp_loop (evs ++ evs') w = relay_udp_loop evs' w'
    /\ incoming (tunnel w') = rest /\ exchanged ins sents outs w w'.
Proof.
  intros Hx Hcap.
  induction Hx as [l|l lookup d sa l' evs ins sents outs Hd Hres Hx IH|l data sa evs ins sents outs Hd Hx IH];
    intros w evs' rest Hc He Hi Hw.
  - exists w. unfold exchanged. simpl. rewrite !app_nil_r, !Z.add_0_r. done.
  - cbn [fmap list_fmap concat] in Hi. rewrite <- app_assoc in Hi. rewrite <- Hc, <- He in Hres.
    destruct (atob_turn_ok lookup d sa l' _ w Hd Hi ltac:(lia) Hres)
      as (s & f & Hturn & Hi' & (Hends & Hout & Hwr) & He' & Hc').
    match type of Hturn with _ = (_, ?w1) =>
      destruct (IH w1 evs' rest) as (w' & Hrun & Hi2 & Hends2 & Hw2 & Hout2 & Hsent & Htx & Hrx) end;
      [simpl; congruence|done|done|by apply Hwr|].
    exists w'. cbn [app relay_udp_loop]. run Hturn. rewrite Hrun. split; [done|]. split; [done|].
    unfold exchanged. rewrite Hends2, Hout2, Hsent, Htx, Hrx. simpl.
    rewrite <- app_assoc. split_and!; [done|done|by rewrite Hout|done|lia|done].
  - destruct (btoa_turn_ok data sa w Hd Hw) as (s & Hturn & Hout & Hi' & Hends & Hwr).
    match type of Hturn with _ = (_, ?w1) =>
      destruct (IH w1 evs' rest) as (w' & Hrun & Hi2 & Hends2 & Hw2 & Hout2 & Hsent & Htx & Hrx) end;
      [done|done|simpl; congruence|done|].
    exists w'. cbn [app relay_udp_loop]. run Hturn. rewrite Hrun. split; [done|]. split; [done|].
    unfold exchanged. rewrite Hends2, Hout2, Hsent, Htx, Hrx. simpl.
    rewrite Hout, <- app_assoc. split_and!; [done..|lia].
Qed.

Lemma relay_udp_exchange cache s evs ins sents outs lookup sent last :
  (forall n, capacity (cache n) = n /\ entries (cache n) = []) ->
  udp_exchange (St:=St) MAX_CACHED_DOMAIN_ADDRS_PER_SOCKET [] evs ins sents outs ->
  incoming s = wire ins -> ends s = true -> writable s ->
  exists s', relay_udp cache (evs ++ FromTunnel lookup sent :: last) (s, [])
      = (Ok (total ins, total outs), (s', sents))
    /\ outgoing s' = outgoing s ++ wire (as_addr <$> outs).
Proof.
  intros Hcache Hx Hi He Hw. destruct (Hcache MAX_CACHED_DOMAIN_ADDRS_PER_SOCKET) as [Hc Hl].
  rewrite <- (app_nil_r (wire ins)) in Hi.
  destruct (exchange_run _ _ _ _ _ _ Hx ltac:(unfold MAX_CACHED_DOMAIN_ADDRS_PER_SOCKET; lia)
    (ServerUdp s (cache MAX_CACHED_DOMAIN_ADDRS_PER_SOCKET) [] 0 0)
    (FromTunnel lookup sent :: last) [] Hc Hl Hi Hw)
    as (w' & Hrun & Hi' & He' & Hw' & Hout & Hsent & Htx & Hrx).
  simpl in *. destruct (recv_from_eof MAX_DATAGRAM_SIZE (tunnel w') Hi') as (s' & Hr & Ho' & _);
    [congruence|].
  apply on_tunnel_eq in Hr. exists s'. unfold relay_udp. rewrite Hrun.
  cbn [relay_udp_loop]. unfold atob_turn.
  unfold mbind at 1, prog_bind at 1. run Hr. cbn [mret prog_ret].
  rewrite (bind_ok get _ (set_tunnel s' w') (set_tunnel s' w') (set_tunnel s' w') eq_refl).
  cbn [mret prog_ret set_tunnel udp_tx udp_rx tunnel socket_sent].
  rewrite Htx, Hrx, Hsent, !Z.add_0_l, Ho'. done.
Qed.
End server_proofs.

(** ** Correctness of the server's relay *)

(** C20: the server's UDP relay, for datagrams the code can carry (shorter than MAX_DATAGRAM_SIZE,
    with an address that has an encoding) and names that resolve.  In any interleaving of the two
    directions, every datagram that comes out of the tunnel is sent exactly once, whole and in order, to the address it names or
    to the one its name resolves to under the cache; every datagram the socket receives goes into
    the tunnel with its sender's address, in order; and when the tunnel ends the relay ends with
    the two byte counts.  Whatever was still to come from the socket is dropped. *)
Theorem server_udp_relays {St F : Type} `{!AsyncIO St, !AsyncIOLaws St, !Socks5 St, !Socks5Laws St,
    !Lru host_port SocketAddr F, !LruLaws host_port SocketAddr F}
    (cache : nat -> F) (s : St) (evs last : list server_udp_event) (ins : list (list Z * Addr))
    (sents outs : list (list Z * SocketAddr)) lookup sent :
  (forall n, capacity (cache n) = n /\ entries (cache n) = []) ->
  udp_exchange (St:=St) MAX_CACHED_DOMAIN_ADDRS_PER_SOCKET [] evs ins sents outs ->
  incoming s = concat (datagram_wire (St:=St) <$> ins) -> ends s = true -> writable s ->
  exists s', relay_udp cache (evs ++ FromTunnel lookup sent :: last) (s, [])
      = (Ok (total ins, total outs), (s', sents))
    /\ outgoing s' = outgoing s ++ concat (datagram_wire (St:=St) <$> (as_addr <$> outs)).
Proof. apply relay_udp_exchange. Qed.

(** Name resolution is sticky.  Once a datagram's host and port were resolved to an address,
    later datagrams to the same host and port go to the same address, whatever the resolver would
    say by then, for as long as fewer turns have passed than the cache has places. *)
Theorem resolution_sticky {St F : Type} `{!AsyncIO St, !AsyncIOLaws St, !Socks5 St, !Socks5Laws St,
    !Lru host_port SocketAddr F, !LruLaws host_port SocketAddr F}
    (h : list Z) (p : Z) (sa : SocketAddr) lookup lookup' (w0 w w' : server_udp St F)
    (evs : list server_udp_event) :
  resolve_addr lookup (Domain h p) w0 = (Ok sa, w) ->
  relay_udp_loop evs w = (Pending, w') ->
  (length evs < capacity (resolved_addrs w))%nat ->
  (resolve_addr lookup' (Domain h p) w').1 = Ok sa.
Proof.
  intros Hfirst Hloop Hlen.
  assert (remembered (h, p) sa 0 (entries (resolved_addrs w))) as Hrem.
  { unfold resolve_addr in Hfirst. rewrite (bind_ok get _ w0 w0 w0 eq_refl) in Hfirst.
    destruct (assoc (h, p) (entries (resolved_addrs w0))) as [sa'|] eqn:Ha.
    - destruct (lru_get_hit _ _ _ Ha) as (f & Hf & _ & He). rewrite Hf in Hfirst.
      injection Hfirst as <- <-. simpl. rewrite He. apply remembered_first.
    - destruct (lru_get_miss _ _ Ha) as (f & Hf & _ & He). rewrite Hf in Hfirst.
      unfold mbind, prog_bind, modify, get, lift_res, set_resolved in Hfirst.
      destruct (lookup (h, p)) as [[|sa1 addrs]| | |]; simplify_eq/=.
      destruct (lru_put_spec (h, p) sa1 f) as [Hp _]. rewrite Hp in Hfirst.
      destruct (capacity f); simplify_eq/=. injection Hfirst as <- <-. cbn [resolved_addrs].
      rewrite Hp. by exists [], (take n (filter (fun kv => kv.1 <> (h, p)) (entries f))). }
  destruct (loop_remembers (h, p) sa evs 0 w w' Hrem Hlen Hloop) as (j & Hj).
  apply remembered_assoc in Hj. unfold resolve_addr. rewrite (bind_ok get _ w' w' w' eq_refl).
  by destruct (lru_get_hit _ _ _ Hj) as (f & -> & _).
Qed.

(** ** Witnesses *)

Abbreviation addr_cache := (lru_map host_port SocketAddr).
Definition no_cache (n : nat) : addr_cache := LruList [] n.
Definition dns_host : list Z := byte_string "dns".
Definition demo_sa : SocketAddr := V4 [9; 9; 9; 9] 53.
Definition other_sa : SocketAddr := V4 [8; 8; 8; 8] 53.
Definition answers (sa : SocketAddr) : host_port -> res io_error (list SocketAddr) := fun _ => Ok [sa].

(** Two datagrams to one name, whose resolution changes in between, and an answer. *)
Lemma server_udp_relays_witness :
  exists s', relay_udp no_cache
      ([FromTunnel (answers demo_sa) (Ok tt); FromSocket (Ok ([7; 7], demo_sa));
        FromTunnel (answers other_sa) (Ok tt)] ++ FromTunnel (answers other_sa) (Ok tt) :: [])
      (closed_with (datagram_bytes [1] (3 :: 3 :: dns_host ++ [0; 53])
                    ++ datagram_bytes [2; 3] (3 :: 3 :: dns_host ++ [0; 53])), [])
    = (Ok (3, 2), (s', [([1], demo_sa); ([2; 3], demo_sa)]))
    /\ outgoing s' = [] ++ datagram_bytes [7; 7] [1; 9; 9; 9; 9; 0; 53] ++ [].
Proof.
  edestruct (server_udp_relays (St:=duplex) (F:=addr_cache) (Lru0:=lru_list_ops) no_cache
    (closed_with (datagram_bytes [1] (3 :: 3 :: dns_host ++ [0; 53])
                  ++ datagram_bytes [2; 3] (3 :: 3 :: dns_host ++ [0; 53])))
    [FromTunnel (answers demo_sa) (Ok tt); FromSocket (Ok ([7; 7], demo_sa));
     FromTunnel (answers other_sa) (Ok tt)] [] [([1], Domain dns_host 53); ([2; 3], Domain dns_host 53)]
    [([1], demo_sa); ([2; 3], demo_sa)] [([7; 7], demo_sa)] (answers other_sa) (Ok tt)) as (s' & H & Ho).
  - intros n. split; reflexivity.
  - eapply exchange_out; [split_and!; [by_compute|by eexists|by_compute]|reflexivity|].
    eapply exchange_in; [split_and!; [by_compute|by eexists|by_compute]|].
    eapply exchange_out; [split_and!; [by_compute|by eexists|by_compute]|reflexivity|].
    apply exchange_nil.
  - reflexivity.
  - reflexivity.
  - reflexivity.
  - exists s'. split; [exact H|exact Ho].
Defined.

Lemma resolution_sticky_witness :
  (resolve_addr (answers other_sa) (Domain dns_host 53)
    (ServerUdp (open_with []) (LruList [((dns_host, 53), demo_sa)] 64) [] 0 0)).1 = Ok demo_sa.
Proof.
  apply (resolution_sticky (St:=duplex) (F:=addr_cache) (Lru0:=lru_list_ops) dns_host 53 demo_sa
    (answers demo_sa) (answers other_sa)
    (ServerUdp (open_with []) (no_cache 64) [] 0 0)
    (ServerUdp (open_with []) (LruList [((dns_host, 53), demo_sa)] 64) [] 0 0) _ []).
  - reflexivity.
  - reflexivity.
  - by_compute.
Defined.
