(* ===== verification/UdpClient.v ===== *)
(** * The client's UDP association (shuttle/src/client/plain.rs)

    [relay_udp_with]: datagrams of a SOCKS5 client go into a tunnel of their own and the answers
    come back, for as long as the SOCKS5 control connection stays open; and the two UDP relays,
    client and server, on the two ends of one tunnel. *)
From S2P Require Import Prelude.
From stdpp Require Import strings.
From S2P Require Import Stream Trojan Lru Udp.
Open Scope Z_scope.

Inductive udp_error :=
| HeaderUnsent (e : io_error)
| UnexpectedControlData                (** "unexpected data received from tcp connection" *)
| ControlTerminated (e : io_error)     (** "control connection terminated" *)
| ToRemote (e : io_error)              (** "error when forward data from peer to remote" *)
| ToPeer (e : io_error).               (** "error when forward data from remote to peer" *)

(** What completes next: a datagram from the SOCKS5 client (with the outcome of [connect], if it
    is called), a turn of [btoa] (with the outcome of the socket's [send]), or the read of the
    control connection. *)
Inductive client_udp_event :=
| FromClient (r : res io_error (list Z * SocketAddr)) (connected : res io_error unit)
| FromServer (sent : res io_error unit)
| Control (r : Z + io_error).

(** The tunnel, the buffers of the two loops, the peer the socket is connected to, the datagrams
    sent to it, the counters and the results of the loops that have ended. *)
Record client_udp (St : Type) := ClientUdp {
  outbound : St;
  atob_buf : list Z;
  btoa_buf : list Z;
  peer : option SocketAddr;
  peer_sent : list (list Z);
  cl_tx : Z;
  cl_rx : Z;
  atob_result : option (unit + io_error);
  btoa_result : option (unit + io_error);
}.
Arguments ClientUdp {_} _ _ _ _ _ _ _ _ _.
Arguments outbound {_} _.
Arguments atob_buf {_} _.
Arguments btoa_buf {_} _.
Arguments peer {_} _.
Arguments peer_sent {_} _.
Arguments cl_tx {_} _.
Arguments cl_rx {_} _.
Arguments atob_result {_} _.
Arguments btoa_result {_} _.

Section client_udp.
(** [trace_enabled]: whether the subscriber evaluates the fields of [trace!]; [not_connected]:
    what [peer_addr] answers on an unconnected socket; [read_from]: the address parser of
    [socks5_protocol] on a [Cursor]. *)
Context {St : Type} `{!AsyncIO St, !Socks5 St} (trace_enabled : bool) (not_connected : io_error)
  (read_from : list Z -> res io_error Addr).
Abbreviation W := (client_udp St).

Definition set_outbound (s : St) (w : W) : W := ClientUdp s (atob_buf w) (btoa_buf w) (peer w)
  (peer_sent w) (cl_tx w) (cl_rx w) (atob_result w) (btoa_result w).
Definition set_atob_buf (b : list Z) (w : W) : W := ClientUdp (outbound w) b (btoa_buf w) (peer w)
  (peer_sent w) (cl_tx w) (cl_rx w) (atob_result w) (btoa_result w).
Definition set_btoa_buf (b : list Z) (w : W) : W := ClientUdp (outbound w) (atob_buf w) b (peer w)
  (peer_sent w) (cl_tx w) (cl_rx w) (atob_result w) (btoa_result w).
Definition set_peer (a : SocketAddr) (w : W) : W := ClientUdp (outbound w) (atob_buf w) (btoa_buf w)
  (Some a) (peer_sent w) (cl_tx w) (cl_rx w) (atob_result w) (btoa_result w).
Definition peer_send (b : list Z) (w : W) : W := ClientUdp (outbound w) (atob_buf w) (btoa_buf w)
  (peer w) (peer_sent w ++ [b]) (cl_tx w) (cl_rx w) (atob_result w) (btoa_result w).
Definition count_tx (n : nat) (w : W) : W := ClientUdp (outbound w) (atob_buf w) (btoa_buf w) (peer w)
  (peer_sent w) (cl_tx w + Z.of_nat n) (cl_rx w) (atob_result w) (btoa_result w).
Definition count_rx (n : nat) (w : W) : W := ClientUdp (outbound w) (atob_buf w) (btoa_buf w) (peer w)
  (peer_sent w) (cl_tx w) (cl_rx w + Z.of_nat n) (atob_result w) (btoa_result w).
Definition set_results (a b : option (unit + io_error)) (w : W) : W := ClientUdp (outbound w)
  (atob_buf w) (btoa_buf w) (peer w) (peer_sent w) (cl_tx w) (cl_rx w) a b.
Definition on_outbound {A} (m : prog St io_error A) : prog W io_error A :=
  zoom outbound set_outbound m.

(** The association with the sender of the first datagram.  The [trace!] in that branch asks for
    the address of the peer that is not there yet, with a [?]. *)
Definition associate (addr : SocketAddr) (connected : res io_error unit) : prog W io_error unit :=
  w ← get;
  match peer w with
  | Some _ => mret tt
  | None =>
      _ ← (if trace_enabled then fail not_connected else mret tt);
      _ ← lift_res connected;
      modify (set_peer addr)
  end.

(** A turn of [atob].  The buffer keeps what earlier datagrams left behind the [n] bytes of this
    one; [buf[2]] is looked at whatever [n] is. *)
Definition client_atob (r : res io_error (list Z * SocketAddr)) (connected : res io_error unit)
    : prog W io_error unit :=
  '(data, client_addr) ← lift_res r;
  w ← get;
  let data := take (length (atob_buf w)) data in
  let n := length data in
  buf ← lift_res (write_slice (atob_buf w) 0 data);
  _ ← modify (set_atob_buf buf);
  _ ← associate client_addr connected;
  frag ← lift_res (index buf 2);
  if negb (frag =? 0) then mret tt else
  b ← lift_res (slice buf 3 n);
  dest_addr ← lift_res (read_from b);
  addrlen ← lift_res (serialized_len dest_addr);
  payload ← lift_res (slice buf (3 + addrlen) n);
  _ ← on_outbound (send_to payload dest_addr);
  modify (count_tx n).

(** The answer packet, built in place: [copy_within], the three zero bytes, the address. *)
Definition answer_packet {E} (buf data : list Z) (orig_addr : Addr) : res E (list Z * list Z) :=
  let n := length data in
  buf ← write_slice buf 0 data;
  addrlen ← serialized_len orig_addr;
  moved ← slice buf 0 n;
  buf ← write_slice buf (2 + 1 + addrlen) moved;
  buf ← write_slice buf 0 [0; 0; 0];
  buf ← match addr_bytes orig_addr with
        | Some b => write_slice buf 3 b
        | None => Panic
        end;
  out ← slice buf 0 (3 + n + addrlen);
  Ok (buf, out).

(** A turn of [btoa]; [true]: the tunnel has ended. *)
Definition client_btoa (sent : res io_error unit) : prog W io_error bool :=
  w ← get;
  r ← on_outbound (recv_from (Z.of_nat (length (btoa_buf w))));
  match r with
  | None => mret true
  | Some (data, orig_addr) =>
      '(buf, out) ← lift_res (answer_packet (btoa_buf w) data orig_addr);
      _ ← modify (set_btoa_buf buf);
      _ ← lift_res sent;
      _ ← modify (peer_send out);
      _ ← modify (count_rx (length data));
      mret false
  end.

(** [tokio::join!] completes when both loops have ended. *)
Definition joined (k : prog W udp_error (Z * Z)) : prog W udp_error (Z * Z) :=
  w ← get;
  match atob_result w, btoa_result w with
  | Some r1, Some r2 =>
      match r1, r2 with
      | inr e, _ => fail (ToRemote e)
      | _, inr e => fail (ToPeer e)
      | inl _, inl _ => panic
      end
  | _, _ => k
  end.

(** The [select!] of the control connection and the joined loops.  A loop that has ended is not
    polled any more. *)
Fixpoint client_udp_loop (evs : list client_udp_event) : prog W udp_error (Z * Z) :=
  match evs with
  | [] => pending
  | Control r :: _ =>
      match r with
      | inl _ => fail UnexpectedControlData
      | inr e =>
          if decide (kind e = UnexpectedEof) then w ← get; mret (cl_tx w, cl_rx w)
          else fail (ControlTerminated e)
      end
  | FromClient r connected :: evs =>
      w ← get;
      match atob_result w with
      | Some _ => client_udp_loop evs
      | None =>
          x ← attempt (client_atob r connected);
          match x with
          | inl _ => client_udp_loop evs
          | inr e =>
              _ ← modify (fun w => set_results (Some (inr e)) (btoa_result w) w);
              joined (client_udp_loop evs)
          end
      end
  | FromServer sent :: evs =>
      w ← get;
      match btoa_result w with
      | Some _ => client_udp_loop evs
      | None =>
          x ← attempt (client_btoa sent);
          match x with
          | inl false => client_udp_loop evs
          | inl true =>
              _ ← modify (fun w => set_results (atob_result w) (Some (inl tt)) w);
              joined (client_udp_loop evs)
          | inr e =>
              _ ← modify (fun w => set_results (atob_result w) (Some (inr e)) w);
              joined (client_udp_loop evs)
          end
      end
  end.

(** [relay_udp_with]: the request header waits in the [BufWriter] for the first datagram.
    [uninit n] is what [vec_uninit(n)] contains. *)
Definition relay_udp_with (uninit : nat -> list Z) (header : TrojanLikeRequest)
    (evs : list client_udp_event) : prog (St * list (list Z)) udp_error (Z * Z) :=
  fun '(s, sent) =>
    match write header s with
    | (Ok _, s) =>
        let buf := uninit (Z.to_nat MAX_DATAGRAM_SIZE) in
        let (r, w) := client_udp_loop evs (ClientUdp s buf buf None sent 0 0 None None) in
        (r, (outbound w, peer_sent w))
    | (Err e, s) => (Err (HeaderUnsent e), (s, sent))
    | (Panic, s) => (Panic, (s, sent))
    | (Pending, s) => (Pending, (s, sent))
    end.
End client_udp.

(** ** Specification *)

Section client_spec.
Context {St : Type} `{!AsyncIO St, !Socks5 St}.

(** RFC 1928, section 7: a datagram between the SOCKS5 client and the proxy. *)
Definition socks_packet (rsv : Z * Z) (frag : Z) (d : list Z * Addr) : list Z :=
  [rsv.1; rsv.2; frag] ++ default [] (addr_bytes d.2) ++ d.1.

Definition fits (b : list Z) : Prop := Z.of_nat (length b) <= MAX_DATAGRAM_SIZE.

(** Complete exchanges: the client sends the packets [ins] (besides fragments, which are ignored)
    and the tunnel delivers the datagrams [outs], in any interleaving. *)
Inductive client_exchange : list client_udp_event -> list (list Z * Addr) -> list (list Z * Addr) -> Prop :=
| client_exchange_nil : client_exchange [] [] []
| client_exchange_send rsv d from evs ins outs :
    carried (St:=St) d -> fits (socks_packet rsv 0 d) -> client_exchange evs ins outs ->
    client_exchange (FromClient (Ok (socks_packet rsv 0 d, from)) (Ok tt) :: evs) (d :: ins) outs
| client_exchange_fragment rsv frag body from evs ins outs :
    frag <> 0 -> fits ([rsv.1; rsv.2; frag] ++ body) -> client_exchange evs ins outs ->
    client_exchange (FromClient (Ok ([rsv.1; rsv.2; frag] ++ body, from)) (Ok tt) :: evs) ins outs
| client_exchange_answer d evs ins outs :
    carried (St:=St) d -> fits (socks_packet (0, 0) 0 d) -> client_exchange evs ins outs ->
    client_exchange (FromServer (Ok tt) :: evs) ins (d :: outs).

(** The size of a packet, as [tx] counts it. *)
Definition packet_total (ins : list (list Z * Addr)) : Z :=
  foldr (fun d n => Z.of_nat (length (socks_packet (0, 0) 0 d)) + n) 0 ins.
End client_spec.

(** ** Proofs *)

Lemma write_slice_start {E} (l b : list Z) :
  (length b <= length l)%nat -> write_slice l 0 b = Ok (b ++ drop (length b) l) :> res E _.
Proof. intros. unfold write_slice. by rewrite decide_True by lia. Qed.

Lemma write_slice_inside {E} (l b : list Z) at_ :
  (at_ + length b <= length l)%nat ->
  write_slice l at_ b = Ok (take at_ l ++ b ++ drop (at_ + length b) l) :> res E _.
Proof. intros. unfold write_slice. by rewrite decide_True. Qed.

Lemma write_slice_outside {E} (l b : list Z) at_ :
  (length l < at_ + length b)%nat -> write_slice l at_ b = Panic :> res E _.
Proof. intros. unfold write_slice. by rewrite decide_False by lia. Qed.

Lemma index_third {E} (x y z : Z) l m : index (([x; y; z] ++ l) ++ m) 2 = Ok z :> res E Z.
Proof. done. Qed.

Lemma foldr_sum {A} (f : A -> Z) l n :
  foldr (fun d n => f d + n) n l = foldr (fun d n => f d + n) 0 l + n.
Proof. induction l as [|x l IH]; cbn [foldr]; [done|]. rewrite IH. lia. Qed.

Section packets.
Context {St : Type} `{!AsyncIO St, !Socks5 St}.
Implicit Types w : client_udp St.

Lemma on_outbound_eq {A} (m : prog St io_error A) w r s :
  m (outbound w) = (r, s) -> on_outbound m w = (r, set_outbound s w).
Proof. intros H. unfold on_outbound, zoom. by rewrite H. Qed.

(** The in-place construction gives the packet, or panics when it outgrows the buffer. *)
Lemma answer_packet_outcome {E} buf data a b :
  addr_bytes (St:=St) a = Some b -> (length data <= length buf)%nat ->
  let out := [0; 0; 0] ++ b ++ data in
  if decide (length out <= length buf)%nat then
    answer_packet (St:=St) buf data a = Ok (out ++ drop (length out) buf, out) :> res E _
  else answer_packet (St:=St) buf data a = Panic :> res E _.
Proof.
  intros Hb Hlen out. assert (length out = 3 + length b + length data)%nat as Hout by (unfold out; len).
  unfold answer_packet, serialized_len. rewrite Hb, write_slice_start by done. cbn [mbind res_bind].
  set (buf0 := data ++ drop (length data) buf).
  assert (length buf0 = length buf) as H0 by (unfold buf0; len).
  rewrite slice_ok by lia. cbn [mbind res_bind].
  assert (take (length data - 0) (drop 0 buf0) = data) as ->.
  { rewrite Nat.sub_0_r. unfold buf0. apply take_app_length. }
  rewrite Hout. case_decide as Hd; [|by rewrite write_slice_outside by lia].
  rewrite write_slice_inside by lia. cbn [mbind res_bind].
  assert (exists h m, take (2 + 1 + length b) buf0 = h ++ m /\ length h = 3%nat /\ length m = length b)
    as (h & m & -> & Hh & Hm).
  { exists (take 3 (take (2 + 1 + length b) buf0)), (drop 3 (take (2 + 1 + length b) buf0)).
    rewrite take_drop. split; [done|len]. }
  replace (drop (2 + 1 + length b + length data) buf0) with (drop (length out) buf).
  2: { unfold buf0. rewrite drop_app_ge by lia. rewrite drop_drop. f_equal. lia. }
  rewrite write_slice_start by len. cbn [mbind res_bind].
  replace (drop (length [0; 0; 0]) ((h ++ m) ++ data ++ drop (length out) buf))
    with (m ++ data ++ drop (length out) buf) by (by rewrite <- app_assoc, drop_app_length').
  rewrite write_slice_app by done. cbn [mbind res_bind].
  replace ([0; 0; 0] ++ b ++ data ++ drop (length out) buf) with (out ++ drop (length out) buf)
    by (unfold out; by rewrite <- !app_assoc).
  rewrite slice_ok by len. cbn [mbind res_bind].
  replace (3 + length data + length b - 0)%nat with (length out) by lia.
  rewrite drop_0, take_app_length. by rewrite Hout.
Qed.

End packets.

Section client_proofs.
Context {St : Type} `{!AsyncIO St, !AsyncIOLaws St, !Socks5 St, !Socks5Laws St}.
Context (trace_enabled : bool) (not_connected : io_error) (read_from : list Z -> res io_error Addr).
(** The parser is the inverse of the serialiser. *)
Hypothesis read_from_ok : forall a b rest,
  wf_addr a -> addr_bytes (St:=St) a = Some b -> read_from (b ++ rest) = Ok a.
#[local] Set Default Proof Using "Type*".
Implicit Types w : client_udp St.

Abbreviation capacity_of_buffer := (Z.to_nat MAX_DATAGRAM_SIZE).
Abbreviation wire ds := (concat (datagram_wire (St:=St) <$> ds)).
Abbreviation packet := (socks_packet (St:=St)).

(** Both loops run, with buffers of full size. *)
Definition running w : Prop :=
  length (atob_buf w) = capacity_of_buffer /\ length (btoa_buf w) = capacity_of_buffer
  /\ writable (outbound w) /\ atob_result w = None /\ btoa_result w = None.

Definition client_exchanged (ins outs : list (list Z * Addr)) w w' : Prop :=
  running w' /\ ends (outbound w') = ends (outbound w)
  /\ outgoing (outbound w') = outgoing (outbound w) ++ wire ins
  /\ peer_sent w' = peer_sent w ++ (packet (0, 0) 0 <$> outs)
  /\ cl_tx w' = cl_tx w + packet_total (St:=St) ins /\ cl_rx w' = cl_rx w + total outs.

(** The part of a turn before the look at the fragment number. *)
Lemma client_atob_received data from connected w :
  running w -> fits data -> (trace_enabled = false /\ connected = Ok tt) \/ is_Some (peer w) ->
  exists w1, client_atob trace_enabled not_connected read_from (Ok (data, from)) connected w =
    ((frag ← lift_res (index (atob_buf w1) 2);
      if negb (frag =? 0) then mret tt else
      b ← lift_res (slice (atob_buf w1) 3 (length data));
      dest_addr ← lift_res (read_from b);
      addrlen ← lift_res (serialized_len dest_addr);
      payload ← lift_res (slice (atob_buf w1) (3 + addrlen) (length data));
      _ ← on_outbound (send_to payload dest_addr);
      modify (count_tx (length data))) w1)
    /\ atob_buf w1 = data ++ drop (length data) (atob_buf w) /\ running w1
    /\ outbound w1 = outbound w /\ peer_sent w1 = peer_sent w /\ cl_tx w1 = cl_tx w
    /\ cl_rx w1 = cl_rx w /\ btoa_buf w1 = btoa_buf w.
Proof.
  intros (Ha & Hb & Hw & Hra & Hrb) Hfit Hpeer. unfold fits in Hfit.
  unfold client_atob. rewrite bind_lift. cbv beta iota. rewrite (bind_ok get _ w w w eq_refl).
  cbv zeta. rewrite take_ge by lia. rewrite write_slice_start, bind_lift by lia.
  set (buf := data ++ drop (length data) (atob_buf w)).
  rewrite (bind_ok (modify _) _ w (set_atob_buf buf w) tt eq_refl).
  assert (exists a, associate trace_enabled not_connected from connected (set_atob_buf buf w)
    = (Ok tt, a) /\ (a = set_atob_buf buf w \/ a = set_peer from (set_atob_buf buf w))) as (a & Has & Hcase).
  { unfold associate. rewrite (bind_ok get _ _ _ _ eq_refl). cbn [set_atob_buf peer].
    destruct (peer w); [by eauto|]. destruct Hpeer as [[-> ->]|[? [=]]].
    eexists. split; [reflexivity|]. by right. }
  exists a. run Has. assert (atob_buf a = buf) as -> by by destruct Hcase as [-> | ->].
  split; [done|]. assert (length buf = capacity_of_buffer) as Hbuf by (unfold buf; len).
  unfold running. destruct Hcase as [-> | ->]; cbn; split_and!; done.
Qed.

Lemma client_atob_packet rsv d from connected w :
  running w -> carried (St:=St) d -> fits (packet rsv 0 d) ->
  (trace_enabled = false /\ connected = Ok tt) \/ is_Some (peer w) ->
  exists w', client_atob trace_enabled not_connected read_from (Ok (packet rsv 0 d, from)) connected w
    = (Ok tt, w') /\ client_exchanged [d] [] w w' /\ incoming (outbound w') = incoming (outbound w).
Proof.
  intros Hrun (Hwf & [b Hb] & Hlen) Hfit Hpeer.
  destruct (client_atob_received (packet rsv 0 d) from connected w Hrun Hfit Hpeer)
    as (w1 & -> & Hbuf & (Ha & Hbb & Hw & Hres) & Hout & Hsent & Htx & Hrx & _).
  destruct d as [data a]. cbn [fst snd] in *.
  assert (packet rsv 0 (data, a) = [rsv.1; rsv.2; 0] ++ b ++ data) as Hp
    by (unfold socks_packet; simpl; by rewrite Hb).
  remember (length (packet rsv 0 (data, a))) as n eqn:Hn0.
  assert (n = 3 + length b + length data)%nat as Hn by (rewrite Hn0, Hp; len).
  set (tail := drop n (atob_buf w)) in *.
  rewrite Hp in Hbuf. rewrite Hbuf, index_third, bind_lift. cbv beta. rewrite Z.eqb_refl. cbn [negb].
  rewrite slice_ok by (rewrite ?length_app; simpl; rewrite ?length_app; lia). rewrite bind_lift.
  assert (take (n - 3) (drop 3 (([rsv.1; rsv.2; 0] ++ b ++ data) ++ tail)) = b ++ data) as ->.
  { change (drop 3 _) with ((b ++ data) ++ tail). rewrite take_app_length'; [done|len]. }
  rewrite (read_from_ok a b data Hwf Hb), bind_lift. cbv beta. unfold serialized_len. rewrite Hb, bind_lift.
  rewrite slice_ok by (rewrite ?length_app; simpl; rewrite ?length_app; lia). rewrite bind_lift.
  assert (take (n - (3 + length b)) (drop (3 + length b) (([rsv.1; rsv.2; 0] ++ b ++ data) ++ tail)) = data) as ->.
  { change (drop (3 + length b) _) with (drop (length b) ((b ++ data) ++ tail)).
    rewrite <- app_assoc, drop_app_length, take_app_length'; [done|len]. }
  destruct (send_to_ok data a b (outbound w1) Hb) as (s & Hs & Hos & Hws);
    [unfold in_u, MAX_DATAGRAM_SIZE in *; lia|done|].
  destruct (keeps_run _ _ _ _ _ (keeps_send_to data a) Hs) as [His Hes]. apply on_outbound_eq in Hs. run Hs.
  eexists. split; [reflexivity|]. unfold client_exchanged, running.
  cbn [outbound atob_buf btoa_buf peer_sent cl_tx cl_rx atob_result btoa_result set_outbound count_tx
       fmap list_fmap concat total packet_total foldr].
  rewrite Hout in *. destruct Hres. split_and!; try done.
  - unfold datagram_wire. simpl. by rewrite Hb, app_nil_r.
  - by rewrite app_nil_r.
  - rewrite Htx, Hn. unfold socks_packet. cbn [fst snd]. rewrite Hb. len.
  - by rewrite Z.add_0_r.
Qed.

(** A fragment is dropped. *)
Lemma client_atob_fragment rsv frag body from connected w :
  running w -> frag <> 0 -> fits ([rsv.1; rsv.2; frag] ++ body) ->
  (trace_enabled = false /\ connected = Ok tt) \/ is_Some (peer w) ->
  exists w', client_atob trace_enabled not_connected read_from
      (Ok ([rsv.1; rsv.2; frag] ++ body, from)) connected w
    = (Ok tt, w') /\ client_exchanged [] [] w w' /\ incoming (outbound w') = incoming (outbound w).
Proof.
  intros Hrun Hfrag Hfit Hpeer.
  destruct (client_atob_received _ from connected w Hrun Hfit Hpeer)
    as (w1 & -> & Hbuf & Hrun1 & Hout & Hsent & Htx & Hrx & _).
  rewrite Hbuf, index_third, bind_lift. cbv beta. destruct (Z.eqb_spec frag 0); [done|].
  exists w1. split; [done|]. unfold client_exchanged. rewrite Hout, Hsent, Htx, Hrx. simpl.
  rewrite !app_nil_r, !Z.add_0_r. done.
Qed.

Lemma client_btoa_answer d rest w :
  running w -> carried (St:=St) d -> fits (packet (0, 0) 0 d) ->
  incoming (outbound w) = datagram_wire (St:=St) d ++ rest ->
  exists w', client_btoa (Ok tt) w = (Ok false, w')
    /\ client_exchanged [] [d] w w' /\ incoming (outbound w') = rest.
Proof.
  intros (Ha & Hbb & Hw & Hra & Hrb) (Hwf & [b Hb] & Hlen) Hfit Hi. destruct d as [data a].
  unfold datagram_wire, fits, socks_packet in *. cbn [fst snd] in *. rewrite Hb in *. cbn [default] in *.
  destruct (recv_from_ok data a b rest (Z.of_nat (length (btoa_buf w))) (outbound w) Hwf Hb)
    as (s & Hr & Hi' & He & Ho & Hw'); [unfold in_u, MAX_DATAGRAM_SIZE in *; lia|lia|done|].
  apply on_outbound_eq in Hr.
  pose proof (answer_packet_outcome (E:=io_error) (btoa_buf w) data a b Hb) as Hout.
  rewrite decide_True in Hout by (unfold id in *; lia).
  unfold client_btoa. rewrite (bind_ok get _ w w w eq_refl). run Hr.
  cbn [btoa_buf set_outbound]. rewrite Hout, bind_lift by lia. cbv beta iota.
  eexists. split; [reflexivity|]. split; [|done]. unfold client_exchanged, running, socks_packet.
  cbn [outbound atob_buf btoa_buf peer_sent cl_tx cl_rx atob_result btoa_result set_outbound set_btoa_buf
       peer_send count_rx fmap list_fmap concat total packet_total foldr fst snd].
  rewrite Hb. split_and!; try done.
  - len.
  - by apply Hw'.
  - by rewrite app_nil_r.
  - lia.
  - lia.
Qed.

Lemma client_exchanged_trans ins1 outs1 ins2 outs2 w1 w2 w3 :
  client_exchanged ins1 outs1 w1 w2 -> client_exchanged ins2 outs2 w2 w3 ->
  client_exchanged (ins1 ++ ins2) (outs1 ++ outs2) w1 w3.
Proof.
  intros (_ & He & Ho & Hs & Ht & Hr) (Hrun & He2 & Ho2 & Hs2 & Ht2 & Hr2). unfold client_exchanged.
  rewrite He2, Ho2, Hs2, Ht2, Hr2, He, Ho, Hs, Ht, Hr. split_and!; try done.
  - by rewrite fmap_app, concat_app, app_assoc.
  - by rewrite fmap_app, app_assoc.
  - unfold packet_total. rewrite foldr_app, (foldr_sum _ ins1 (foldr _ 0 ins2)). lia.
  - unfold total. rewrite foldr_app, (foldr_sum _ outs1 (foldr _ 0 outs2)). lia.
Qed.

Lemma client_exchange_run evs ins outs :
  client_exchange (St:=St) evs ins outs -> trace_enabled = false ->
  forall w evs' rest, running w -> incoming (outbound w) = wire outs ++ rest ->
  exists w', client_udp_loop trace_enabled not_connected read_from (evs ++ evs') w
      = client_udp_loop trace_enabled not_connected read_from evs' w'
    /\ client_exchanged ins outs w w' /\ incoming (outbound w') = rest.
Proof.
  intros Hx Htrace. induction Hx as [|rsv d from evs ins outs Hd Hf Hx IH
    |rsv frag body from evs ins outs Hfrag Hf Hx IH|d evs ins outs Hd Hf Hx IH];
    intros w evs' rest Hrun Hi.
  - exists w. split; [done|]. split; [|done]. unfold client_exchanged. simpl.
    rewrite !app_nil_r, !Z.add_0_r. done.
  - destruct (client_atob_packet rsv d from (Ok tt) w Hrun Hd Hf ltac:(by left)) as (w1 & H1 & Hex & Hi1).
    destruct (IH w1 evs' rest) as (w' & Hl & Hex' & Hi'); [apply Hex|congruence|].
    exists w'. split; [|by split; [apply (client_exchanged_trans [d] [] ins outs w w1 w')|]].
    cbn [app client_udp_loop]. rewrite (bind_ok get _ w w w eq_refl).
    destruct Hrun as (_ & _ & _ & -> & _). apply (attempt_eq (E':=udp_error)) in H1. run H1. exact Hl.
  - destruct (client_atob_fragment rsv frag body from (Ok tt) w Hrun Hfrag Hf ltac:(by left))
      as (w1 & H1 & Hex & Hi1).
    destruct (IH w1 evs' rest) as (w' & Hl & Hex' & Hi'); [apply Hex|congruence|].
    exists w'. split; [|by split; [apply (client_exchanged_trans [] [] ins outs w w1 w')|]].
    cbn [app client_udp_loop]. rewrite (bind_ok get _ w w w eq_refl).
    destruct Hrun as (_ & _ & _ & -> & _). apply (attempt_eq (E':=udp_error)) in H1. run H1. exact Hl.
  - cbn [fmap list_fmap concat] in Hi. rewrite <- app_assoc in Hi.
    destruct (client_btoa_answer d _ w Hrun Hd Hf Hi) as (w1 & H1 & Hex & Hi1).
    destruct (IH w1 evs' rest) as (w' & Hl & Hex' & Hi'); [apply Hex|done|].
    exists w'. split; [|by split; [apply (client_exchanged_trans [] [d] ins outs w w1 w')|]].
    cbn [app client_udp_loop]. rewrite (bind_ok get _ w w w eq_refl).
    destruct Hrun as (_ & _ & _ & _ & ->). apply (attempt_eq (E':=udp_error)) in H1. run H1. exact Hl.
Qed.

(** A datagram without a complete header is judged by what an earlier one left in the buffer. *)
Lemma client_atob_short data from connected w :
  running w -> (length data < 3)%nat ->
  (trace_enabled = false /\ connected = Ok tt) \/ is_Some (peer w) ->
  exists w', client_atob trace_enabled not_connected read_from (Ok (data, from)) connected w
    = (if decide (atob_buf w !! 2%nat = Some 0) then Panic else Ok tt, w').
Proof.
  intros Hrun Hlen Hpeer.
  assert (fits data) as Hfit by (unfold fits, MAX_DATAGRAM_SIZE; lia).
  destruct (client_atob_received data from connected w Hrun Hfit Hpeer) as (w1 & -> & Hbuf & Hrun1 & _).
  assert (atob_buf w1 !! 2%nat = atob_buf w !! 2%nat) as Hthird.
  { rewrite Hbuf, lookup_app_r, lookup_drop by lia. f_equal. lia. }
  destruct Hrun as (Ha & _). destruct (atob_buf w !! 2%nat) as [x|] eqn:Hx.
  2: { apply lookup_ge_None in Hx. rewrite Ha in Hx. unfold MAX_DATAGRAM_SIZE in Hx. lia. }
  exists w1. rewrite (index_ok _ _ _ Hthird), bind_lift. destruct (Z.eqb_spec x 0) as [->|Hne]; cbn [negb].
  - rewrite decide_True by done. unfold slice. by rewrite decide_False by lia.
  - by rewrite decide_False by congruence.
Qed.

(** An answer that leaves no room for the SOCKS5 header. *)
Lemma client_oversized d rest sent evs w :
  running w -> carried (St:=St) d -> ~ fits (packet (0, 0) 0 d) ->
  incoming (outbound w) = datagram_wire (St:=St) d ++ rest ->
  (client_udp_loop trace_enabled not_connected read_from (FromServer sent :: evs) w).1 = Panic.
Proof.
  intros (_ & Hbb & _ & _ & Hres) (Hwf & [b Hb] & Hlen) Hfit Hi. destruct d as [data a].
  unfold datagram_wire, fits, socks_packet in *. cbn [fst snd] in *. rewrite Hb in *. cbn [default] in *.
  destruct (recv_from_ok data a b rest (Z.of_nat (length (btoa_buf w))) (outbound w) Hwf Hb)
    as (s & Hr & Hi' & _); [unfold in_u, MAX_DATAGRAM_SIZE in *; lia|lia|done|].
  apply on_outbound_eq in Hr.
  pose proof (answer_packet_outcome (E:=io_error) (btoa_buf w) data a b Hb) as Hout.
  rewrite decide_False in Hout by (unfold id in *; lia).
  assert (client_btoa sent w = (Panic, set_outbound s w)) as Hturn.
  { unfold client_btoa. rewrite (bind_ok get _ w w w eq_refl). run Hr.
    cbn [btoa_buf set_outbound]. by rewrite Hout by lia. }
  apply (attempt_eq (E':=udp_error)) in Hturn.
  cbn [client_udp_loop]. rewrite (bind_ok get _ w w w eq_refl), Hres. by run Hturn.
Qed.

(** The association as it starts. *)
Lemma client_udp_started uninit header b s :
  (forall n, length (uninit n) = n) -> addr_bytes (St:=St) (dest_addr header) = Some b -> writable s ->
  exists w, running w /\ peer w = None /\ peer_sent w = [] /\ cl_tx w = 0 /\ cl_rx w = 0
    /\ incoming (outbound w) = incoming s /\ outgoing (outbound w) = outgoing s ++ request_bytes header b
    /\ forall evs, relay_udp_with trace_enabled not_connected read_from uninit header evs (s, [])
       = (let (r, w') := client_udp_loop trace_enabled not_connected read_from evs w in
          (r, (outbound w', peer_sent w'))).
Proof.
  intros Huninit Hb Hw.
  assert (keeps same_input (write (St:=St) header)) as Hkeep.
  { unfold write, serialized_len. rewrite Hb. keep; (apply keeps_write_all || apply keeps_write_addr). }
  destruct (write_request_ok header b s Hb Hw) as (s1 & H1 & Ho1 & Hw1).
  destruct (keeps_run _ _ _ _ _ Hkeep H1) as [Hi1 He1].
  set (buf := uninit capacity_of_buffer).
  assert (length buf = capacity_of_buffer) as Hbuf by apply Huninit.
  exists (ClientUdp s1 buf buf None [] 0 0 None None). split_and!; try done.
  intros evs. unfold relay_udp_with. by rewrite H1.
Qed.

(** The end of the control connection ends the association. *)
Lemma client_control e last w :
  kind e = UnexpectedEof ->
  client_udp_loop trace_enabled not_connected read_from (Control (inr e) :: last) w = (Ok (cl_tx w, cl_rx w), w).
Proof using.
  intros He. cbn [client_udp_loop]. rewrite decide_True by done. by rewrite (bind_ok get _ w w w eq_refl).
Qed.

(** The whole association. *)
Lemma client_udp_complete uninit header b s evs ins outs rest e last :
  trace_enabled = false -> (forall n, length (uninit n) = n) ->
  addr_bytes (St:=St) (dest_addr header) = Some b -> client_exchange (St:=St) evs ins outs ->
  incoming s = wire outs ++ rest -> writable s -> kind e = UnexpectedEof ->
  exists s', relay_udp_with trace_enabled not_connected read_from uninit header
      (evs ++ Control (inr e) :: last) (s, [])
    = (Ok (packet_total (St:=St) ins, total outs), (s', packet (0, 0) 0 <$> outs))
    /\ outgoing s' = outgoing s ++ request_bytes header b ++ wire ins /\ incoming s' = rest.
Proof.
  intros Htrace Huninit Hb Hx Hi Hw He.
  destruct (client_udp_started uninit header b s Huninit Hb Hw)
    as (w & Hrun & _ & Hs0 & Ht0 & Hr0 & Hi0 & Ho0 & Hrel). rewrite <- Hi0 in Hi.
  destruct (client_exchange_run evs ins outs Hx Htrace w (Control (inr e) :: last) rest Hrun Hi)
    as (w' & Hl & (_ & _ & Ho & Hs & Ht & Hr) & Hi').
  exists (outbound w'). rewrite Hrel, Hl, client_control by done.
  by rewrite Hs, Ht, Hr, Ho, Ho0, Hs0, Ht0, Hr0, <- app_assoc, !Z.add_0_l.
Qed.

(** An answer too long for the buffer after any such exchange. *)
Lemma client_udp_oversized uninit header b s evs ins outs d rest sent last :
  trace_enabled = false -> (forall n, length (uninit n) = n) ->
  addr_bytes (St:=St) (dest_addr header) = Some b -> client_exchange (St:=St) evs ins outs ->
  carried (St:=St) d -> ~ fits (packet (0, 0) 0 d) ->
  incoming s = wire outs ++ datagram_wire (St:=St) d ++ rest -> writable s ->
  (relay_udp_with trace_enabled not_connected read_from uninit header (evs ++ FromServer sent :: last) (s, [])).1
    = Panic.
Proof.
  intros Htrace Huninit Hb Hx Hd Hfit Hi Hw.
  destruct (client_udp_started uninit header b s Huninit Hb Hw)
    as (w & Hrun & _ & _ & _ & _ & Hi0 & _ & Hrel). rewrite <- Hi0 in Hi.
  destruct (client_exchange_run evs ins outs Hx Htrace w (FromServer sent :: last) _ Hrun Hi)
    as (w' & Hl & (Hrun' & _) & Hi').
  pose proof (client_oversized d rest sent last w' Hrun' Hd Hfit Hi') as Hpanic.
  rewrite Hrel, Hl. by destruct (client_udp_loop _ _ _ _ w').
Qed.
End client_proofs.

(** With trace events on, the first datagram of every association ends the loop that reads from
    the client: the field of the [trace!] is evaluated, with its [?], before [connect]. *)
Lemma trace_breaks_association {St : Type} `{!AsyncIO St, !AsyncIOLaws St, !Socks5 St, !Socks5Laws St}
    not_connected read_from data from connected (w : client_udp St) :
  peer w = None -> running w -> fits data ->
  exists buf, client_atob true not_connected read_from (Ok (data, from)) connected w
    = (Err not_connected, set_atob_buf buf w).
Proof.
  intros Hp (Ha & _) Hfit. unfold fits in Hfit. unfold client_atob. rewrite bind_lift. cbv beta iota.
  rewrite (bind_ok get _ w w w eq_refl). cbv zeta. rewrite take_ge by lia.
  rewrite write_slice_start, bind_lift by lia. rewrite (bind_ok (modify _) _ w _ tt eq_refl).
  eexists. unfold associate. unfold mbind at 1, prog_bind at 1. rewrite (bind_ok get _ _ _ _ eq_refl).
  cbn [set_atob_buf peer]. by rewrite Hp.
Qed.

(** ** Correctness of the client's association *)

(** C21: the client's UDP association.  With trace events off, as long as every answer of the
    tunnel fits, with its SOCKS5 header, into [MAX_DATAGRAM_SIZE] bytes: in any interleaving of the
    two directions, the tunnel carries the request header (which the code keeps in its write buffer
    until the first packet) and then every unfragmented packet of the SOCKS5 client as one datagram,
    in order; fragments are dropped; every datagram from the tunnel reaches the client as one packet
    with the address of its origin, in order; and when the control connection closes the relay ends with the bytes of the packets taken and of the payloads
    delivered.  The first answer that does not fit panics the task.  With trace events on, the
    first packet of the client, whatever it is, ends its direction: nothing of the client's is
    carried, and the association stays until the control connection closes. *)
Theorem client_udp_relays {St : Type} `{!AsyncIO St, !AsyncIOLaws St, !Socks5 St, !Socks5Laws St}
    (not_connected e : io_error) (read_from : list Z -> res io_error Addr) (uninit : nat -> list Z)
    (header : TrojanLikeRequest) (b : list Z) (s : St) (last : list client_udp_event) :
  (forall a b rest, wf_addr a -> addr_bytes (St:=St) a = Some b -> read_from (b ++ rest) = Ok a) ->
  (forall n, length (uninit n) = n) ->
  addr_bytes (St:=St) (dest_addr header) = Some b -> writable s -> kind e = UnexpectedEof ->
  (forall evs ins outs rest, client_exchange (St:=St) evs ins outs ->
     incoming s = concat (datagram_wire (St:=St) <$> outs) ++ rest ->
     exists s', relay_udp_with false not_connected read_from uninit header
         (evs ++ Control (inr e) :: last) (s, [])
       = (Ok (packet_total (St:=St) ins, total outs), (s', socks_packet (St:=St) (0, 0) 0 <$> outs))
       /\ outgoing s' = outgoing s ++ request_bytes header b ++ concat (datagram_wire (St:=St) <$> ins)
       /\ incoming s' = rest)
  /\ (forall evs ins outs d rest sent, client_exchange (St:=St) evs ins outs ->
     carried (St:=St) d -> ~ fits (socks_packet (St:=St) (0, 0) 0 d) ->
     incoming s = concat (datagram_wire (St:=St) <$> outs) ++ datagram_wire (St:=St) d ++ rest ->
     (relay_udp_with false not_connected read_from uninit header (evs ++ FromServer sent :: last) (s, [])).1
       = Panic)
  /\ (forall data from connected more, fits data -> Forall (fun ev => exists x, ev = FromClient x (Ok tt)) more ->
     exists s', relay_udp_with true not_connected read_from uninit header
         (FromClient (Ok (data, from)) connected :: more ++ Control (inr e) :: last) (s, []) = (Ok (0, 0), (s', []))
       /\ outgoing s' `prefix_of` outgoing s ++ request_bytes header b).
Proof.
  intros Hread Huninit Hb Hw He. split; [|split].
  - intros evs ins outs rest Hx Hi. by apply client_udp_complete.
  - intros evs ins outs d rest sent Hx Hd Hfit Hi. by eapply client_udp_oversized.
  - intros data from connected more Hfit Hmore.
    destruct (client_udp_started true not_connected read_from Hread uninit header b s Huninit Hb Hw)
      as (w & Hrun & Hp & Hs0 & Ht0 & Hr0 & _ & Ho0 & ->).
    destruct (trace_breaks_association not_connected read_from data from connected w Hp Hrun Hfit)
      as (buf & Ha).
    destruct Hrun as (_ & _ & _ & Hra & Hrb).
    set (w1 := set_results (Some (inr not_connected)) None (set_atob_buf buf w)).
    assert (client_udp_loop true not_connected read_from
      (FromClient (Ok (data, from)) connected :: more ++ Control (inr e) :: last) w
      = client_udp_loop true not_connected read_from (Control (inr e) :: last) w1) as ->.
    { apply (attempt_eq (E':=udp_error)) in Ha. cbn [client_udp_loop].
      rewrite (bind_ok get _ w w w eq_refl), Hra. run Ha.
      rewrite (bind_ok (modify _) _ _ w1 tt) by (unfold modify, w1; cbn; by rewrite Hrb).
      unfold joined. rewrite (bind_ok get _ _ _ _ eq_refl). cbn [w1 atob_result btoa_result set_results].
      induction Hmore as [|ev more [x ->] _ IH]; [done|]. exact IH. }
    rewrite client_control by done. exists (outbound w). cbn. by rewrite Ht0, Hr0, Hs0, Ho0.
Qed.

(** C7: the UDP path from end to end.  With trace events off and answers that fit, the server that
    reads what the client's association wrote finds the UDP ASSOCIATE request, and hands its socket
    exactly the payloads of the unfragmented packets the SOCKS5 client sent, in order. *)
Theorem udp_end_to_end {C St F : Type} `{!AsyncIO C, !AsyncIOLaws C, !Socks5 C, !Socks5Laws C,
    !AsyncIO St, !AsyncIOLaws St, !Socks5 St, !Socks5Laws St,
    !Lru host_port SocketAddr F, !LruLaws host_port SocketAddr F}
    (not_connected e : io_error) (read_from : list Z -> res io_error Addr) (uninit : nat -> list Z)
    (a : Addr) (rest : list Z) (c : C) (cache : nat -> F)
    (evs last : list client_udp_event) (ins outs : list (list Z * Addr))
    (sevs slast : list server_udp_event) (sents souts : list (list Z * SocketAddr)) lookup sent :
  (forall a b rest, wf_addr a -> addr_bytes (St:=C) a = Some b -> read_from (b ++ rest) = Ok a) ->
  (forall n, length (uninit n) = n) -> (forall n, capacity (cache n) = n /\ entries (cache n) = []) ->
  (forall a, wf_addr a -> addr_bytes (St:=C) a = addr_bytes (St:=St) a) ->
  wf_addr a -> is_Some (addr_bytes (St:=C) a) ->
  client_exchange (St:=C) evs ins outs ->
  incoming c = concat (datagram_wire (St:=C) <$> outs) ++ rest -> outgoing c = [] -> writable c ->
  kind e = UnexpectedEof ->
  udp_exchange (St:=St) MAX_CACHED_DOMAIN_ADDRS_PER_SOCKET [] sevs ins sents souts ->
  exists c' counts packets, relay_udp_with false not_connected read_from uninit
      (Request UdpAssociate a) (evs ++ Control (inr e) :: last) (c, []) = (Ok counts, (c', packets))
  /\ (forall s : St, incoming s = outgoing c' -> ends s = true -> writable s ->
     exists s1 s2 scounts, read_trojan_like_request s = (Ok (Request UdpAssociate a), s1)
       /\ relay_udp cache (sevs ++ FromTunnel lookup sent :: slast) (s1, []) = (Ok scounts, (s2, sents))
       /\ sents.*1 = ins.*1).
Proof.
  intros Hread Huninit Hcache Hsame Ha [b Hb] Hx Hi Ho Hw He Hsx.
  destruct (client_udp_complete false not_connected read_from Hread uninit (Request UdpAssociate a)
    b c evs ins outs rest e last eq_refl Huninit Hb Hx Hi Hw He) as (c' & Hrun & Hout & _).
  exists c', (packet_total (St:=C) ins, total outs), (socks_packet (St:=C) (0, 0) 0 <$> outs).
  split; [exact Hrun|]. intros s Hs Hends Hws. rewrite Hout, Ho in Hs. cbn [app] in Hs.
  destruct (read_request_sent (Request UdpAssociate a) b (concat (datagram_wire (St:=C) <$> ins)) s)
    as (s1 & H1 & Hi1 & He1 & Ho1 & Hw1); [done|by rewrite <- Hsame|done|].
  assert (concat (datagram_wire (St:=C) <$> ins) = concat (datagram_wire (St:=St) <$> ins)
    /\ sents.*1 = ins.*1) as [Hwire Hpay].
  { clear - Hsx Hsame. induction Hsx as [|l lookup d sa l' evs ins sents outs Hd _ _ [IH1 IH2]|];
      [done| |done]. split; [|exact (f_equal (cons d.1) IH2)].
    cbn [fmap list_fmap concat]. f_equal; [|exact IH1].
    unfold datagram_wire. by rewrite Hsame by apply Hd. }
  rewrite Hwire in Hi1.
  destruct (relay_udp_exchange cache s1 sevs ins sents souts lookup sent slast Hcache Hsx Hi1)
    as (s2 & H2 & _); [congruence|by apply Hw1|].
  exists s1, s2. eexists. split; [exact H1|]. split; [exact H2|done].
Qed.

(** Two inputs panic the task of an association.  A datagram of fewer than three bytes has no
    fragment number; the code reads the third byte of its buffer, where an earlier datagram left
    its own, and goes on to slice out of range when that is zero.  An answer from the server that
    leaves no room for the SOCKS5 header in a buffer of [MAX_DATAGRAM_SIZE] is copied out of
    range. *)
Theorem client_udp_panics {St : Type} `{!AsyncIO St, !AsyncIOLaws St, !Socks5 St, !Socks5Laws St}
    (not_connected : io_error) (read_from : list Z -> res io_error Addr)
    (w : client_udp St) (evs : list client_udp_event) :
  (forall a b rest, wf_addr a -> addr_bytes (St:=St) a = Some b -> read_from (b ++ rest) = Ok a) ->
  running w ->
  (forall data from, (length data < 3)%nat -> atob_buf w !! 2%nat = Some 0 ->
     (client_udp_loop false not_connected read_from (FromClient (Ok (data, from)) (Ok tt) :: evs) w).1
     = Panic)
  /\ (forall d rest sent, carried (St:=St) d -> ~ fits (socks_packet (St:=St) (0, 0) 0 d) ->
     incoming (outbound w) = datagram_wire (St:=St) d ++ rest ->
     (client_udp_loop false not_connected read_from (FromServer sent :: evs) w).1 = Panic).
Proof.
  intros Hread Hrun. split.
  - intros data from Hlen Hthird.
    destruct (client_atob_short false not_connected read_from Hread data from (Ok tt) w Hrun Hlen
      ltac:(by left)) as (w' & Hw'). rewrite decide_True in Hw' by done.
    cbn [client_udp_loop]. rewrite (bind_ok get _ w w w eq_refl).
    destruct Hrun as (_ & _ & _ & -> & _). apply (attempt_eq (E':=udp_error)) in Hw'. by run Hw'.
  - intros d rest sent. by apply client_oversized.
Qed.

(** *** What the turns leave alone *)

Section results.
Context {St : Type} `{!AsyncIO St, !Socks5 St}.
Context (trace_enabled : bool) (not_connected : io_error) (read_from : list Z -> res io_error Addr).

Definition same_results (w w' : client_udp St) : Prop :=
  atob_result w' = atob_result w /\ btoa_result w' = btoa_result w.

#[export] Instance same_results_preorder : PreOrder same_results.
Proof using. split; [done|]. intros ??? [] []. split; congruence. Qed.

Lemma keeps_results_outbound {A} (m : prog St io_error A) : keeps same_results (on_outbound m).
Proof using. intros w. unfold on_outbound, zoom. by destruct (m (outbound w)). Qed.
End results.

Ltac keep_results :=
  repeat first
    [ progress keep | apply keeps_results_outbound | apply keeps_modify; intros; split; reflexivity
    | intros ?; split; reflexivity ].

Lemma client_btoa_keeps {St : Type} `{!AsyncIO St, !Socks5 St} sent (w : client_udp St) :
  same_results w (client_btoa sent w).2.
Proof.
  revert w. change (keeps same_results (client_btoa (St:=St) sent)). unfold client_btoa. keep_results.
Qed.

Section results_lemmas.
Context {St : Type} `{!AsyncIO St, !Socks5 St}.
Context (trace_enabled : bool) (not_connected : io_error) (read_from : list Z -> res io_error Addr).
#[local] Set Default Proof Using "Type*".
Implicit Types w : client_udp St.

Lemma client_atob_keeps r connected w :
  same_results w (client_atob trace_enabled not_connected read_from r connected w).2.
Proof.
  revert w. change (keeps same_results (client_atob (St:=St) trace_enabled not_connected read_from r connected)).
  unfold client_atob, associate. keep_results.
Qed.

(** [atob] never ends well, so the branch for the other direction's error is dead. *)
Lemma loop_not_to_peer evs e' : forall w, (forall u, atob_result w <> Some (inl u)) ->
  (client_udp_loop trace_enabled not_connected read_from evs w).1 <> Err (ToPeer e').
Proof.
  induction evs as [|ev evs IH]; intros w Ha; [done|]. destruct ev as [r connected|sent|[?|e]]; cbn [client_udp_loop].
  - rewrite (bind_ok get _ w w w eq_refl). destruct (atob_result w) as [r1|] eqn:Hr; [apply IH; congruence|].
    pose proof (client_atob_keeps r connected w) as [Hk1 Hk2].
    unfold mbind at 1, prog_bind at 1, attempt.
    destruct (client_atob _ _ _ r connected w) as [[?|e| |] w1]; cbn [snd] in *; [apply IH; congruence| |done..].
    rewrite (bind_ok (modify _) _ w1 _ tt eq_refl).
    unfold joined. rewrite (bind_ok get _ _ _ _ eq_refl). cbn [atob_result set_results].
    destruct (btoa_result _); [done|]. apply IH. by intros u [=].
  - rewrite (bind_ok get _ w w w eq_refl). destruct (btoa_result w) as [r1|] eqn:Hr; [by apply IH|].
    pose proof (client_btoa_keeps sent w) as [Hk1 Hk2].
    unfold mbind at 1, prog_bind at 1, attempt.
    assert (forall x w1, atob_result w1 = atob_result w ->
      (joined (client_udp_loop trace_enabled not_connected read_from evs)
        (set_results (atob_result w1) (Some x) w1)).1 <> Err (ToPeer e')) as Hjoin.
    { intros x w1 Hw1. unfold joined. rewrite (bind_ok get _ _ _ _ eq_refl).
      cbn [atob_result btoa_result set_results]. rewrite Hw1.
      destruct (atob_result w) as [[u|?]|] eqn:Hw; [by destruct (Ha u)|done|].
      apply IH. cbn [atob_result set_results]. congruence. }
    destruct (client_btoa sent w) as [[[]|e| |] w1]; cbn [snd] in *; [| | |done..].
    + rewrite (bind_ok (modify _) _ w1 _ tt eq_refl). by apply Hjoin.
    + apply IH. congruence.
    + rewrite (bind_ok (modify _) _ w1 _ tt eq_refl). by apply Hjoin.
  - done.
  - case_decide; [|done]. by rewrite (bind_ok get _ w w w eq_refl).
Qed.

(** Once [btoa] has ended its events change nothing. *)
Lemma loop_answers_over evs w :
  Forall (fun ev => exists r, ev = FromServer r) evs -> is_Some (btoa_result w) ->
  client_udp_loop trace_enabled not_connected read_from evs w = (Pending, w).
Proof.
  intros Hevs [r Hr]. induction Hevs as [|ev evs [sent ->] _ IH]; [done|].
  cbn [client_udp_loop]. by rewrite (bind_ok get _ w w w eq_refl), Hr.
Qed.
End results_lemmas.

(** A failure in the direction from the server is never reported.  The loops are joined, not
    raced: when reading the tunnel fails, the relay goes on with the other loop, and the error
    branch for this direction cannot be reached by any schedule; without further datagrams from
    the client the association stays as it is, whatever completes, until the control connection
    ends. *)
Theorem answer_failure_unreported {St : Type} `{!AsyncIO St, !Socks5 St}
    (trace_enabled : bool) (not_connected : io_error) (read_from : list Z -> res io_error Addr)
    (w w' : client_udp St) (evs : list client_udp_event) (sent : res io_error unit) (e : io_error) :
  atob_result w = None -> btoa_result w = None -> client_btoa sent w = (Err e, w') ->
  (forall e', (client_udp_loop trace_enabled not_connected read_from (FromServer sent :: evs) w).1
     <> Err (ToPeer e'))
  /\ (Forall (fun ev => exists r, ev = FromServer r) evs ->
     (client_udp_loop trace_enabled not_connected read_from (FromServer sent :: evs) w).1 = Pending).
Proof.
  intros Ha Hb Hturn. pose proof (client_btoa_keeps sent w) as Hkeep. rewrite Hturn in Hkeep.
  apply (attempt_eq (E':=udp_error)) in Hturn.
  destruct Hkeep as [Ha' Hb']. cbn [snd] in *.
  assert (client_udp_loop trace_enabled not_connected read_from (FromServer sent :: evs) w
    = client_udp_loop trace_enabled not_connected read_from evs (set_results None (Some (inr e)) w')) as ->.
  { cbn [client_udp_loop]. rewrite (bind_ok get _ w w w eq_refl), Hb. run Hturn.
    rewrite (bind_ok (modify _) _ w' (set_results None (Some (inr e)) w') tt); [done|].
    unfold modify. by rewrite Ha', Ha. }
  split.
  - intros e'. by apply loop_not_to_peer.
  - intros Hevs. by rewrite loop_answers_over.
Qed.

(** ** Witnesses *)

(** The address parser of [rfc1928] on a slice. *)
Definition demo_read_from (b : list Z) : res io_error Addr := (addr_read (closed_with b)).1.

Lemma demo_read_from_ok a b rest :
  wf_addr a -> addr_bytes (St:=duplex) a = Some b -> demo_read_from (b ++ rest) = Ok a.
Proof.
  intros Ha Hb. unfold demo_read_from.
  by destruct (addr_read_ok a b rest (closed_with (b ++ rest)) Ha Hb eq_refl) as (s' & -> & _).
Qed.

Definition zeros (n : nat) : list Z := replicate n 0.
Lemma length_zeros n : length (zeros n) = n.
Proof. apply length_replicate. Qed.

Definition demo_dest : Addr := SocketAddress demo_sa.
Definition eof : io_error := IoErr UnexpectedEof "early eof".
Definition unassociated : Addr := SocketAddress (V4 [0; 0; 0; 0] 0).
Definition demo_client_events : list client_udp_event :=
  [FromClient (Ok (socks_packet (St:=duplex) (0, 0) 0 ([1; 2], demo_dest), other_sa)) (Ok tt);
   FromServer (Ok tt);
   FromClient (Ok ([0; 0; 7] ++ [1], other_sa)) (Ok tt)].

Lemma demo_client_exchange :
  client_exchange (St:=duplex) demo_client_events [([1; 2], demo_dest)] [([5], demo_dest)].
Proof.
  eapply client_exchange_send; [split_and!; [by_compute|by eexists|by_compute]|by_compute|].
  eapply client_exchange_answer; [split_and!; [by_compute|by eexists|by_compute]|by_compute|].
  eapply (client_exchange_fragment (0, 0)); [done|by_compute|]. apply client_exchange_nil.
Defined.

Lemma client_udp_relays_witness :
  (exists s', relay_udp_with (St:=duplex) false (IoErr Other "not connected") demo_read_from zeros
      (Request UdpAssociate unassociated) (demo_client_events ++ Control (inr eof) :: [])
      (open_with (datagram_bytes [5] [1; 9; 9; 9; 9; 0; 53]), [])
    = (Ok (12, 1), (s', [[0; 0; 0; 1; 9; 9; 9; 9; 0; 53; 5]]))
    /\ outgoing s' = [3; 1; 0; 0; 0; 0; 0; 0; 13; 10] ++ datagram_bytes [1; 2] [1; 9; 9; 9; 9; 0; 53])
  /\ exists s', relay_udp_with (St:=duplex) true (IoErr Other "not connected") demo_read_from zeros
      (Request UdpAssociate unassociated) (FromClient (Ok ([1], other_sa)) (Ok tt) :: [] ++ Control (inr eof) :: [])
      (open_with (datagram_bytes [5] [1; 9; 9; 9; 9; 0; 53]), []) = (Ok (0, 0), (s', [])).
Proof.
  destruct (client_udp_relays (St:=duplex) (IoErr Other "not connected") eof demo_read_from zeros
    (Request UdpAssociate unassociated) [1; 0; 0; 0; 0; 0; 0]
    (open_with (datagram_bytes [5] [1; 9; 9; 9; 9; 0; 53])) [] demo_read_from_ok length_zeros eq_refl eq_refl eq_refl)
    as (H & _ & Htrace).
  split.
  - destruct (H demo_client_events [([1; 2], demo_dest)] [([5], demo_dest)] [] demo_client_exchange)
      as (s' & Hr & Ho & _); [reflexivity|]. exists s'. split; [exact Hr|exact Ho].
  - destruct (Htrace [1] other_sa (Ok tt) []) as (s' & Hr & _); [by_compute|apply Forall_nil; exact I|].
    exists s'. exact Hr.
Defined.

Lemma udp_end_to_end_witness :
  exists c' counts packets s1 s2 scounts,
  relay_udp_with (St:=duplex) false (IoErr Other "not connected") demo_read_from zeros
      (Request UdpAssociate unassociated) (demo_client_events ++ Control (inr eof) :: [])
      (open_with (datagram_bytes [5] [1; 9; 9; 9; 9; 0; 53]), []) = (Ok counts, (c', packets))
  /\ read_trojan_like_request (closed_with (outgoing c')) = (Ok (Request UdpAssociate unassociated), s1)
  /\ relay_udp no_cache ([FromTunnel (answers demo_sa) (Ok tt)]
           ++ FromTunnel (answers demo_sa) (Ok tt) :: []) (s1, []) = (Ok scounts, (s2, [([1; 2], demo_sa)])).
Proof.
  destruct (udp_end_to_end (C:=duplex) (St:=duplex) (F:=addr_cache) (Lru0:=lru_list_ops)
    (IoErr Other "not connected") eof demo_read_from zeros unassociated []
    (open_with (datagram_bytes [5] [1; 9; 9; 9; 9; 0; 53])) no_cache demo_client_events []
    [([1; 2], demo_dest)] [([5], demo_dest)] [FromTunnel (answers demo_sa) (Ok tt)] []
    [([1; 2], demo_sa)] [] (answers demo_sa) (Ok tt) demo_read_from_ok length_zeros)
    as (c' & counts & packets & H1 & H2).
  - intros n. split; reflexivity.
  - reflexivity.
  - by_compute.
  - by eexists.
  - exact demo_client_exchange.
  - reflexivity.
  - reflexivity.
  - reflexivity.
  - reflexivity.
  - eapply exchange_out; [split_and!; [by_compute|by eexists|by_compute]|reflexivity|]. apply exchange_nil.
  - destruct (H2 (closed_with (outgoing c'))) as (s1 & s2 & scounts & H3 & H4 & _); [reflexivity..|].
    exists c', counts, packets, s1, s2, scounts. split; [exact H1|]. split; [exact H3|exact H4].
Defined.

Definition idle_client (b : list Z) (third : Z) : client_udp duplex :=
  ClientUdp (open_with b) (<[2%nat := third]> (zeros (Z.to_nat MAX_DATAGRAM_SIZE)))
    (zeros (Z.to_nat MAX_DATAGRAM_SIZE)) None [] 0 0 None None.

Lemma idle_client_running b : running (idle_client b 0).
Proof.
  split_and!; [|apply length_zeros|reflexivity|reflexivity|reflexivity].
  cbn [atob_buf idle_client]. by rewrite length_insert, length_zeros.
Qed.

Lemma client_udp_panics_witness :
  (client_udp_loop false (IoErr Other "not connected") demo_read_from
    [FromClient (Ok ([5], other_sa)) (Ok tt)] (idle_client [] 0)).1 = Panic.
Proof.
  destruct (client_udp_panics (St:=duplex) (IoErr Other "not connected") demo_read_from
    (idle_client [] 0) [] demo_read_from_ok (idle_client_running [])) as [H _].
  apply (H [5] other_sa); [by_compute|].
  cbn [atob_buf idle_client]. apply list_lookup_insert_eq. by rewrite length_zeros; by_compute.
Defined.

(** The tunnel delivers a datagram with a broken separator. *)
Lemma answer_failure_unreported_witness :
  (client_udp_loop false (IoErr Other "not connected") demo_read_from
    [FromServer (Ok tt); FromServer (Ok tt)]
    (idle_client [1; 9; 9; 9; 9; 0; 53; 0; 1; 0; 0; 5] 0)).1 = Pending.
Proof.
  destruct (client_btoa (Ok tt) (idle_client [1; 9; 9; 9; 9; 0; 53; 0; 1; 0; 0; 5] 0)) as [r w'] eqn:E.
  assert (r = Err (IoErr Other "malformed trojan-like request")) as Hr.
  { apply (f_equal fst) in E. simpl in E. rewrite <- E. reflexivity. }
  destruct (answer_failure_unreported (St:=duplex) false (IoErr Other "not connected") demo_read_from
    (idle_client [1; 9; 9; 9; 9; 0; 53; 0; 1; 0; 0; 5] 0) w' [FromServer (Ok tt)] (Ok tt)
    (IoErr Other "malformed trojan-like request") eq_refl eq_refl) as [_ H].
  - rewrite E. by rewrite Hr.
  - apply H. repeat constructor. by eexists.
Defined.
