(* ===== verification/Relay.v ===== *)
(** * The server's framed TCP relay (relay_framed_tcp in shuttle/src/server/session_loop.rs)

    This relay and the client's (in [Plain]) are [tokio::select!] loops.  Which branch completes
    next is an event of a schedule, with what the branch delivered; the loop is a function of the
    schedule.  A branch that did not
    complete is dropped, and [read_frame] is built on [read_exact], which loses the bytes it has
    already read when dropped: every event of another branch carries the number of bytes [lost]
    that way. *)
From S2P Require Import Prelude.
From stdpp Require Import strings pretty.
From S2P Require Import Stream Frame Lifecycle.
Open Scope Z_scope.

Definition END_REQUEST_OK : Z := 0.

(** The [anyhow::Error]s of the relays. *)
Inductive relay_error :=
| ErrFrame (e : FrameError)
| ErrIo (context : string) (e : io_error)
| ErrMsg (message : string)
| ErrUnexpected (message : string) (frame : Frame).

(** A [read_frame] future dropped after it has read [lost] bytes. *)
Definition dropped_read {St} `{!AsyncIO St} (lost : nat) (s : St) : St := (read_exact lost s).2.

(** ** The server's side *)

Inductive relay_event :=
| SessionFrame
| TargetRead (lost : nat) (r : res io_error (list Z))
| ShutdownChanged (lost : nat) (value : bool)
| DrainElapsed (lost : nat).

Record relay (St T : Type) := Relay {
  session : St;
  target : T;
  tx : Z;
  rx : Z;
  client_ended : bool;
  target_ended : bool;
  draining : bool;
  fin_sent : bool;    (** [outbound_w.shutdown()] has been called *)
}.
Arguments Relay {_ _} _ _ _ _ _ _ _ _.
Arguments session {_ _} _.
Arguments target {_ _} _.
Arguments tx {_ _} _.
Arguments rx {_ _} _.
Arguments client_ended {_ _} _.
Arguments target_ended {_ _} _.
Arguments draining {_ _} _.
Arguments fin_sent {_ _} _.

Section server_relay.
Context {St T : Type} `{!AsyncIO St, !AsyncIO T}.
Abbreviation R := (relay St T).

Definition set_session (s : St) (r : R) : R :=
  Relay s (target r) (tx r) (rx r) (client_ended r) (target_ended r) (draining r) (fin_sent r).
Definition set_target (t : T) (r : R) : R :=
  Relay (session r) t (tx r) (rx r) (client_ended r) (target_ended r) (draining r) (fin_sent r).
Definition add_tx (n : nat) (r : R) : R :=
  Relay (session r) (target r) (tx r + Z.of_nat n) (rx r) (client_ended r) (target_ended r)
    (draining r) (fin_sent r).
Definition add_rx (n : nat) (r : R) : R :=
  Relay (session r) (target r) (tx r) (rx r + Z.of_nat n) (client_ended r) (target_ended r)
    (draining r) (fin_sent r).
Definition end_client (r : R) : R :=
  Relay (session r) (target r) (tx r) (rx r) true (target_ended r) (draining r) true.
Definition end_target (r : R) : R :=
  Relay (session r) (target r) (tx r) (rx r) (client_ended r) true (draining r) (fin_sent r).
Definition start_draining (r : R) : R :=
  Relay (session r) (target r) (tx r) (rx r) (client_ended r) (target_ended r) true (fin_sent r).

Definition on_session {A} (m : prog St FrameError A) : prog R relay_error A :=
  prog_map_err ErrFrame (zoom session set_session m).
Definition on_target {A} (context : string) (m : prog T io_error A) : prog R relay_error A :=
  prog_map_err (ErrIo context) (zoom target set_target m).

(** The [read_frame] branch is enabled while [!client_ended]; when another branch completes, the
    dropped future has taken [lost] bytes. *)
Definition drop_read (lost : nat) : prog R relay_error unit :=
  modify (fun r => if client_ended r then r else set_session (dropped_read lost (session r)) r).

(** One turn of the loop: the event of an enabled branch; an event of a disabled one is ignored. *)
Definition relay_turn (ev : relay_event) : prog R relay_error unit :=
  r ← get;
  match ev with
  | SessionFrame =>
      if client_ended r then mret tt else
      frame ← on_session read_frame;
      match frame with
      | Data data =>
          _ ← modify (add_tx (length data));
          on_target "failed to write reusable data to target" (write_all data)
      | EndRequest _ => modify end_client
      | Reset reason => fail (ErrMsg ("client reset reusable request: " +:+ pretty reason))
      | Ping token => on_session (write_frame (Pong token))
      | frame => fail (ErrUnexpected "unexpected reusable request frame" frame)
      end
  | TargetRead lost read =>
      if target_ended r then mret tt else
      _ ← drop_read lost;
      data ← prog_map_err (ErrIo "failed to read target response") (lift_res read);
      match data with
      | [] => _ ← modify end_target; on_session (write_frame (EndRequest END_REQUEST_OK))
      | _ => _ ← modify (add_rx (length data)); on_session (write_frame (Data data))
      end
  | ShutdownChanged lost value =>
      if draining r then mret tt else
      _ ← drop_read lost;
      if value then modify start_draining else mret tt
  | DrainElapsed lost =>
      if draining r then fail (ErrMsg "timed out draining reusable request during shutdown")
      else mret tt
  end.

(** The loop; [Pending] when the schedule ends before the request does. *)
Fixpoint relay_loop (evs : list relay_event) : prog R relay_error (Z * Z) :=
  match evs with
  | [] => pending
  | ev :: evs =>
      _ ← relay_turn ev;
      r ← get;
      if client_ended r && target_ended r then mret (tx r, rx r) else relay_loop evs
  end.

(** [relay_framed_tcp]: [shutdown] is the flag when the relay starts. *)
Definition relay_start (stream : St) (outbound : T) (shutdown : bool) : R :=
  Relay stream outbound 0 0 false false shutdown false.
Definition relay_framed_tcp (stream : St) (outbound : T) (shutdown : bool) (evs : list relay_event)
    : res relay_error (Z * Z) * R :=
  relay_loop evs (relay_start stream outbound shutdown).
End server_relay.

(** ** Proofs: the server's relay *)

(** What the client has sent, cut up the way the loop meets it: whole frames, and the bytes a
    dropped [read_frame] has taken. *)
Inductive piece := Whole (f : Frame) | Lost (b : list Z).
Definition piece_bytes (p : piece) : list Z := match p with Whole f => wire f | Lost b => b end.
Definition spell (ps : list piece) : list Z := concat (piece_bytes <$> ps).
Definition lose (b : list Z) (ps : list piece) : list piece :=
  match b with [] => ps | _ => Lost b :: ps end.

(** The data of a sequence of frames. *)
Fixpoint data_of (fs : list Frame) : list Z :=
  match fs with
  | [] => []
  | Data d :: fs => d ++ data_of fs
  | _ :: fs => data_of fs
  end.

(** The whole frames among the pieces, and whether the client has ended the request. *)
Fixpoint frames_of (ps : list piece) : list Frame :=
  match ps with [] => [] | Whole f :: ps => f :: frames_of ps | Lost _ :: ps => frames_of ps end.
Definition ends_request (fs : list Frame) : bool :=
  existsb (fun f => match f with EndRequest _ => true | _ => false end) fs.

(** Where a schedule leaves the relay. *)
Inductive ending := Complete | Waiting.
Definition result {E A} (e : ending) (x : A) : res E A :=
  match e with Complete => Ok x | Waiting => Pending end.

(** Exchanges, with any interleaving of the two directions.  [runs e dr ce te evs ps sent received
    out]: from a state where the relay is draining ([dr]), the client has ended ([ce]) and the target
    has ended ([te]), the schedule [evs] meets the pieces [ps] of the client's stream, whose frames
    carry [sent], and the target's bytes [received], the relay answers the client with the frames
    [out], and the schedule takes the relay to its end or to a point where it still waits ([e]).
    Whenever another branch completes while the client has not ended, the dropped [read_frame] may
    have taken any bytes that had arrived. *)
Definition drops (ce : bool) (lost : nat) (b : list Z) : Prop :=
  if ce then b = [] else lost = length b.
Inductive runs : ending -> bool -> bool -> bool -> list relay_event -> list piece -> list Z -> list Z -> list Frame -> Prop :=
| runs_done dr evs : runs Complete dr true true evs [] [] [] []
| runs_wait dr ce te : ce && te = false -> runs Waiting dr ce te [] [] [] [] []
| runs_data d e dr te evs ps sent received out : sendable (Data d) ->
    runs e dr false te evs ps sent received out ->
    runs e dr false te (SessionFrame :: evs) (Whole (Data d) :: ps) (d ++ sent) received out
| runs_ping t e dr te evs ps sent received out : is_u32 t ->
    runs e dr false te evs ps sent received out ->
    runs e dr false te (SessionFrame :: evs) (Whole (Ping t) :: ps) sent received (Pong t :: out)
| runs_end reason e dr te evs received out : is_u8 reason ->
    runs e dr true te evs [] [] received out ->
    runs e dr false te (SessionFrame :: evs) [Whole (EndRequest reason)] [] received out
| runs_chunk lost lb b d e dr ce evs ps sent received out : sendable (Data (b :: d)) -> drops ce lost lb ->
    runs e dr ce false evs ps sent received out ->
    runs e dr ce false (TargetRead lost (Ok (b :: d)) :: evs) (lose lb ps) sent ((b :: d) ++ received)
      (Data (b :: d) :: out)
| runs_eof lost lb e dr ce evs ps sent out : drops ce lost lb ->
    runs e dr ce true evs ps sent [] out ->
    runs e dr ce false (TargetRead lost (Ok []) :: evs) (lose lb ps) sent [] (EndRequest END_REQUEST_OK :: out)
| runs_shutdown v lost lb e ce te evs ps sent received out :
    ce && te = false -> drops ce lost lb ->
    runs e v ce te evs ps sent received out ->
    runs e false ce te (ShutdownChanged lost v :: evs) (lose lb ps) sent received out
| runs_draining v lost e ce te evs ps sent received out :   (** the branch is disabled *)
    ce && te = false ->
    runs e true ce te evs ps sent received out ->
    runs e true ce te (ShutdownChanged lost v :: evs) ps sent received out.

Lemma spell_lose b ps : spell (lose b ps) = b ++ spell ps.
Proof. by destruct b. Qed.
Lemma spell_whole fs : spell (Whole <$> fs) = concat (wire <$> fs).
Proof. induction fs as [|f fs IH]; [done|]. unfold spell in *. cbn. by rewrite <- IH. Qed.
Lemma frames_of_lose b ps : frames_of (lose b ps) = frames_of ps.
Proof. by destruct b. Qed.
Lemma frames_of_whole fs : frames_of (Whole <$> fs) = fs.
Proof. induction fs as [|f fs IH]; [done|]. cbn. by f_equal. Qed.
Lemma data_of_app fs fs' : data_of (fs ++ fs') = data_of fs ++ data_of fs'.
Proof. induction fs as [|[] fs IH]; cbn; rewrite ?IH, ?app_assoc; done. Qed.

(** The target's share of a schedule is the data of the whole frames, the client's is the data of
    the answers. *)
Lemma runs_data_of e dr ce te evs ps sent received out :
  runs e dr ce te evs ps sent received out -> sent = data_of (frames_of ps) /\ received = data_of out.
Proof.
  induction 1; rewrite ?frames_of_lose; cbn; destruct_and?; subst; by rewrite ?app_nil_r.
Qed.

Section server_proofs.
Context {St T : Type} `{!AsyncIO St, !AsyncIOLaws St, !AsyncIO T, !AsyncIOLaws T}.
#[local] Set Default Proof Using "Type*".
Implicit Types r : relay St T.

Lemma on_session_eq {A} (m : prog St FrameError A) r x s' :
  m (session r) = (x, s') -> on_session m r = (map_err ErrFrame x, set_session s' r).
Proof. intros H. unfold on_session, prog_map_err, zoom. by rewrite H. Qed.

Lemma on_target_eq {A} c (m : prog T io_error A) r x t' :
  m (target r) = (x, t') -> on_target c m r = (map_err (ErrIo c) x, set_target t' r).
Proof. intros H. unfold on_target, prog_map_err, zoom. by rewrite H. Qed.

Lemma dropped_read_app lb rest (s : St) :
  incoming s = lb ++ rest ->
  incoming (dropped_read (length lb) s) = rest /\ only_read s (dropped_read (length lb) s).
Proof.
  intros Hi. destruct (read_exact_app _ lb rest s Hi eq_refl) as (s' & H & ? & ?).
  unfold dropped_read. by rewrite H.
Qed.

Lemma dropped_read_0 (s : St) :
  incoming (dropped_read 0 s) = incoming s /\ only_read s (dropped_read 0 s).
Proof. by apply (dropped_read_app []). Qed.

Lemma drop_read_eq lost r :
  drop_read lost r = (Ok tt, if client_ended r then r else set_session (dropped_read lost (session r)) r).
Proof. done. Qed.

(** What [drop_read] leaves of a relay whose client's stream goes on with the lost bytes. *)
Lemma drop_read_app lost lb rest r :
  drops (client_ended r) lost lb -> incoming (session r) = lb ++ rest -> writable (session r) ->
  exists s0, drop_read lost r = (Ok tt, set_session s0 r) /\ incoming s0 = rest
    /\ outgoing s0 = outgoing (session r) /\ writable s0.
Proof.
  intros Hd Hi Hw. rewrite drop_read_eq. unfold drops in Hd. destruct (client_ended r).
  - subst lb. exists (session r). by destruct r.
  - subst lost. destruct (dropped_read_app lb rest (session r) Hi) as (Hi0 & _ & Ho0 & Hw0).
    exists (dropped_read (length lb) (session r)). auto.
Qed.

(** What one call of the loop leaves of the relay besides the two streams. *)
Definition relay_continue (evs : list relay_event) : prog (relay St T) relay_error (Z * Z) := fun r =>
  if client_ended r && target_ended r then (Ok (tx r, rx r), r) else relay_loop evs r.

Lemma relay_loop_cons ev evs r r' :
  relay_turn ev r = (Ok tt, r') -> relay_loop (ev :: evs) r = relay_continue evs r'.
Proof.
  intros H. cbn [relay_loop]. run H. unfold relay_continue.
  rewrite (bind_ok get _ _ _ _ eq_refl). by destruct (client_ended r' && target_ended r').
Qed.

(** The parts of the state [runs] speaks about. *)
Definition relay_at (dr ce te : bool) (r : relay St T) : Prop :=
  draining r = dr /\ client_ended r = ce /\ target_ended r = te /\ fin_sent r = ce
  /\ writable (session r) /\ writable (target r).

(** From [r] to [r'], [sent] went to the target, [received] was counted and [out] went to the
    client. *)
Definition moved (sent received : list Z) (out : list Frame) r r' : Prop :=
  outgoing (target r') = outgoing (target r) ++ sent
  /\ outgoing (session r') = outgoing (session r) ++ concat (wire <$> out)
  /\ tx r' = tx r + Z.of_nat (length sent) /\ rx r' = rx r + Z.of_nat (length received).

Lemma moved_trans r1 r2 r3 s1 s2 c1 c2 o1 o2 :
  moved s1 c1 o1 r1 r2 -> moved s2 c2 o2 r2 r3 ->
  moved (s1 ++ s2) (c1 ++ c2) (o1 ++ o2) r1 r3.
Proof.
  intros (Ht & Hs & Hx & Hr) (Ht' & Hs' & Hx' & Hr'). unfold moved.
  rewrite Ht', Hs', Hx', Hr', Ht, Hs, Hx, Hr, fmap_app, concat_app, !app_assoc.
  split_and!; first [done|len].
Qed.

Lemma turn_frame f rest r :
  client_ended r = false -> sendable f -> incoming (session r) = wire f ++ rest ->
  exists s', incoming s' = rest /\ only_read (session r) s'
    /\ relay_turn SessionFrame r =
       match f with
       | Data data => (_ ← modify (add_tx (length data));
                       on_target "failed to write reusable data to target" (write_all data))
       | EndRequest _ => modify end_client
       | Reset reason => fail (ErrMsg ("client reset reusable request: " +:+ pretty reason))
       | Ping token => on_session (write_frame (Pong token))
       | frame => fail (ErrUnexpected "unexpected reusable request frame" frame)
       end (set_session s' r).
Proof.
  intros Hc Hf Hi. destruct (read_frame_wire f rest (session r) Hf Hi) as (s' & Hr & Hi' & Ho).
  exists s'. split; [done|]. split; [done|]. unfold relay_turn.
  rewrite (bind_ok get _ r r r eq_refl), Hc. apply on_session_eq in Hr. run Hr. by destruct f.
Qed.

Lemma session_write f r :
  sendable f -> writable (session r) ->
  exists s', on_session (write_frame f) r = (Ok tt, set_session s' r)
    /\ outgoing s' = outgoing (session r) ++ wire f /\ incoming s' = incoming (session r)
    /\ writable s'.
Proof.
  intros Hf Hw. destruct (write_frame_wire f (session r) Hf Hw) as (s' & Hr & Ho & Hi & _ & Hw').
  exists s'. apply on_session_eq in Hr. by rewrite Hr.
Qed.

Lemma turn_data d dr te rest r :
  relay_at dr false te r -> sendable (Data d) -> incoming (session r) = wire (Data d) ++ rest ->
  exists r', relay_turn SessionFrame r = (Ok tt, r') /\ relay_at dr false te r'
    /\ incoming (session r') = rest /\ moved d [] [] r r'.
Proof.
  intros (Hdr & Hc & Ht & Hfin & Hws & Hwt) Hf Hi.
  destruct (turn_frame _ rest r Hc Hf Hi) as (s' & Hi' & (_ & Ho' & Hw') & ->).
  destruct (write_all_writable d (target r) Hwt) as (t' & Hw & Hot & _ & _ & Hwt').
  rewrite (bind_ok (modify _) _ _ _ tt eq_refl).
  assert (target (add_tx (length d) (set_session s' r)) = target r) as Htg by done.
  rewrite <- Htg in Hw. apply (on_target_eq "failed to write reusable data to target") in Hw.
  eexists. split; [exact Hw|]. unfold relay_at, moved. simpl.
  rewrite app_nil_r. split_and!; auto; lia.
Qed.

Lemma turn_ping t dr te rest r :
  relay_at dr false te r -> is_u32 t -> incoming (session r) = wire (Ping t) ++ rest ->
  exists r', relay_turn SessionFrame r = (Ok tt, r') /\ relay_at dr false te r'
    /\ incoming (session r') = rest /\ moved [] [] [Pong t] r r'.
Proof.
  intros (Hdr & Hc & Ht & Hfin & Hws & Hwt) Hu Hi.
  assert (sendable (Ping t) /\ sendable (Pong t)) as [Hf Hf'] by (by split; (split; [|by vm_compute])).
  destruct (turn_frame _ rest r Hc Hf Hi) as (s' & Hi' & (_ & Ho' & Hw') & ->).
  destruct (session_write (Pong t) (set_session s' r) Hf' (Hw' Hws)) as (s2 & -> & Ho2 & Hi2 & Hw2).
  eexists. split; [done|]. unfold relay_at, moved. simpl in *.
  rewrite !app_nil_r, Ho2, Ho', Hi2. split_and!; auto; lia.
Qed.

Lemma turn_end reason dr te rest r :
  relay_at dr false te r -> is_u8 reason -> incoming (session r) = wire (EndRequest reason) ++ rest ->
  exists r', relay_turn SessionFrame r = (Ok tt, r') /\ relay_at dr true te r'
    /\ incoming (session r') = rest /\ moved [] [] [] r r'.
Proof.
  intros (Hdr & Hc & Ht & Hfin & Hws & Hwt) Hu Hi.
  assert (sendable (EndRequest reason)) as Hf by (by split; [|by vm_compute]).
  destruct (turn_frame _ rest r Hc Hf Hi) as (s' & Hi' & (_ & Ho' & Hw') & ->).
  eexists. split; [done|]. unfold relay_at, moved. simpl. rewrite !app_nil_r. split_and!; auto; lia.
Qed.

(** A turn of the target's branch: the dropped read loses its bytes, then one frame is written. *)
Lemma turn_target d lost lb dr ce rest r :
  relay_at dr ce false r -> sendable (Data d) -> drops ce lost lb -> incoming (session r) = lb ++ rest ->
  exists r', relay_turn (TargetRead lost (Ok d)) r = (Ok tt, r')
    /\ relay_at dr ce (bool_decide (d = [])) r' /\ incoming (session r') = rest
    /\ moved [] d [match d with [] => EndRequest END_REQUEST_OK | _ => Data d end] r r'.
Proof.
  intros (Hdr & Hc & Ht & Hfin & Hws & Hwt) Hf Hlb Hi. unfold relay_turn.
  rewrite (bind_ok get _ r r r eq_refl), Ht. rewrite <- Hc in Hlb.
  destruct (drop_read_app lost lb rest r Hlb Hi Hws) as (s0 & Hd0 & Hi1 & Ho1 & Hw1). run Hd0.
  assert (prog_map_err (ErrIo "failed to read target response") (lift_res (Ok d)) (set_session s0 r)
    = (Ok d, set_session s0 r)) as Hd by done.
  run Hd.
  assert (sendable (EndRequest END_REQUEST_OK)) as He by (by split; [|by vm_compute]).
  destruct d as [|b d]; rewrite (bind_ok (modify _) _ _ _ tt eq_refl).
  - destruct (session_write _ (end_target (set_session s0 r)) He Hw1) as (s2 & -> & Ho2 & Hi2 & Hw2).
    eexists. split; [done|]. unfold relay_at, moved. simpl in *.
    rewrite !app_nil_r, Ho2, Ho1, Hi2, Hi1. split_and!; auto; lia.
  - destruct (session_write _ (add_rx (length (b :: d)) (set_session s0 r)) Hf Hw1)
      as (s2 & -> & Ho2 & Hi2 & Hw2).
    eexists. split; [done|]. unfold relay_at, moved. simpl in *.
    rewrite !app_nil_r, Ho2, Ho1, Hi2, Hi1. split_and!; auto; lia.
Qed.

Lemma turn_shutdown v lost lb ce te rest r :
  relay_at false ce te r -> drops ce lost lb -> incoming (session r) = lb ++ rest ->
  exists r', relay_turn (ShutdownChanged lost v) r = (Ok tt, r') /\ relay_at v ce te r'
    /\ incoming (session r') = rest /\ moved [] [] [] r r'.
Proof.
  intros (Hdr & Hc & Ht & Hfin & Hws & Hwt) Hlb Hi. unfold relay_turn.
  rewrite (bind_ok get _ r r r eq_refl), Hdr. rewrite <- Hc in Hlb.
  destruct (drop_read_app lost lb rest r Hlb Hi Hws) as (s0 & Hd0 & Hi1 & Ho1 & Hw1). run Hd0.
  destruct v; [exists (start_draining (set_session s0 r))|exists (set_session s0 r)]; (split; [done|]);
    unfold relay_at, moved; simpl; rewrite ?app_nil_r, ?Ho1, ?Hi1; split_and!; auto; lia.
Qed.

Lemma moved_refl r : moved [] [] [] r r.
Proof. unfold moved. simpl. rewrite !app_nil_r. split_and!; auto; lia. Qed.

Lemma turn_draining v lost ce te r :
  relay_at true ce te r -> relay_turn (ShutdownChanged lost v) r = (Ok tt, r).
Proof. intros (Hdr & _). unfold relay_turn. by rewrite (bind_ok get _ r r r eq_refl), Hdr. Qed.

(** One turn, then the rest of the exchange. *)
Ltac next_turn H Hm1 Hm2 :=
  rewrite (relay_loop_cons _ _ _ _ H); do 3 (split; [done|]);
  split; [exact (moved_trans _ _ _ _ _ _ _ _ _ Hm1 Hm2)|done].

Lemma relay_runs e dr ce te evs ps sent received out r rest :
  runs e dr ce te evs ps sent received out -> relay_at dr ce te r ->
  incoming (session r) = spell ps ++ rest ->
  exists r', relay_continue evs r = (result e (tx r', rx r'), r')
    /\ fin_sent r' = ce || ends_request (frames_of ps)
    /\ incoming (session r') = rest /\ moved sent received out r r' /\ writable (session r').
Proof.
  intros Hruns. revert r. induction Hruns as
    [dr evs|dr ce te Hne|d e dr te evs ps sent rcv out Hf _ IH|t e dr te evs ps sent rcv out Hu _ IH
    |reason e dr te evs rcv out Hu _ IH|lost lb b d e dr ce evs ps sent rcv out Hf Hlb _ IH
    |lost lb e dr ce evs ps sent out Hlb _ IH|v lost lb e ce te evs ps sent rcv out Hne Hlb _ IH
    |v lost e ce te evs ps sent rcv out Hne _ IH]; intros r Hat Hi;
    pose proof Hat as (_ & Hc & Ht & Hfin & Hws & _); unfold relay_continue; rewrite Hc, Ht;
    rewrite ?spell_lose in Hi; rewrite ?frames_of_lose; unfold spell in Hi;
    cbn [fmap list_fmap concat piece_bytes] in Hi; rewrite <- ?app_assoc in Hi.
  - exists r. by split_and!; [..|apply moved_refl|].
  - exists r. rewrite Hne, orb_false_r. by split_and!; [..|apply moved_refl|].
  - destruct (turn_data d dr te _ r Hat Hf Hi) as (r1 & H1 & Hat1 & Hi1 & Hm1).
    destruct (IH r1 Hat1 Hi1) as (r2 & H2 & ? & ? & Hm2 & ?).
    exists r2. cbn [andb]. next_turn H1 Hm1 Hm2.
  - destruct (turn_ping t dr te _ r Hat Hu Hi) as (r1 & H1 & Hat1 & Hi1 & Hm1).
    destruct (IH r1 Hat1 Hi1) as (r2 & H2 & ? & ? & Hm2 & ?).
    exists r2. cbn [andb]. next_turn H1 Hm1 Hm2.
  - destruct (turn_end reason dr te _ r Hat Hu Hi) as (r1 & H1 & Hat1 & Hi1 & Hm1).
    destruct (IH r1 Hat1 Hi1) as (r2 & H2 & ? & ? & Hm2 & ?).
    exists r2. cbn [andb]. next_turn H1 Hm1 Hm2.
  - destruct (turn_target (b :: d) lost lb dr ce _ r Hat Hf Hlb Hi) as (r1 & H1 & Hat1 & Hi1 & Hm1).
    destruct (IH r1 Hat1 Hi1) as (r2 & H2 & ? & ? & Hm2 & ?).
    exists r2. rewrite andb_false_r. next_turn H1 Hm1 Hm2.
  - assert (sendable (Data [])) as Hf by (split; [by apply Forall_nil_2|by vm_compute]).
    destruct (turn_target [] lost lb dr ce _ r Hat Hf Hlb Hi) as (r1 & H1 & Hat1 & Hi1 & Hm1).
    destruct (IH r1 Hat1 Hi1) as (r2 & H2 & ? & ? & Hm2 & ?).
    exists r2. rewrite andb_false_r. next_turn H1 Hm1 Hm2.
  - destruct (turn_shutdown v lost lb ce te _ r Hat Hlb Hi) as (r1 & H1 & Hat1 & Hi1 & Hm1).
    destruct (IH r1 Hat1 Hi1) as (r2 & H2 & ? & ? & Hm2 & ?).
    exists r2. rewrite Hne. next_turn H1 Hm1 Hm2.
  - pose proof (turn_draining v lost ce te r Hat) as H1.
    destruct (IH r Hat Hi) as (r2 & H2 & ? & ? & Hm2 & ?).
    exists r2. rewrite Hne. next_turn H1 (moved_refl r) Hm2.
Qed.
End server_proofs.

(** ** Correctness of the server's relay *)

Section correctness.
Context {St T : Type} `{!AsyncIO St, !AsyncIOLaws St, !AsyncIO T, !AsyncIOLaws T}.
#[local] Set Default Proof Using "Type*".

Lemma relay_framed_tcp_runs (e : ending) (evs : list relay_event) (ps : list piece) (out : list Frame)
    (sent received rest : list Z) (stream : St) (outbound : T) (shutdown : bool) :
  runs e shutdown false false evs ps sent received out ->
  writable stream -> writable outbound -> incoming stream = spell ps ++ rest ->
  exists r', relay_framed_tcp stream outbound shutdown evs
      = (result e (Z.of_nat (length sent), Z.of_nat (length received)), r')
    /\ outgoing (target r') = outgoing outbound ++ sent
    /\ fin_sent r' = ends_request (frames_of ps)
    /\ outgoing (session r') = outgoing stream ++ concat (wire <$> out)
    /\ incoming (session r') = rest /\ writable (session r').
Proof.
  intros Hruns Hs Ht Hi.
  destruct (relay_runs _ _ _ _ _ _ _ _ _ (relay_start stream outbound shutdown) rest Hruns)
    as (r' & Hr & Hfin & Hi' & (Hot & Hos & Htx & Hrx) & Hw); [by repeat split|done|].
  exists r'. unfold relay_framed_tcp. change (relay_loop evs (relay_start stream outbound shutdown))
    with (relay_continue evs (relay_start stream outbound shutdown)).
  rewrite Hr, Htx, Hrx. simpl in *. by split_and!.
Qed.

(** C14: a request is relayed exactly, at every point of every interleaving of client frames,
    target data and shutdown notifications, also of those where a frame read is cut off half-way.
    The client's stream is whole frames (data, pings, the end-of-request) and the bytes that
    cancelled reads have taken, which are lost: the target has received the data of the whole
    frames, in order, nothing of the lost bytes, and the end of the stream if the client's
    end-of-request is among them; the client has received one data frame per target read, a pong
    per ping and an end-of-request when the target has ended; nothing further is consumed.  When
    both sides have ended the call returns the byte counts of both directions, before that it
    waits.  If no read is cut off, the whole frames are the client's frames. *)
Theorem relay_complete (e : ending) (evs : list relay_event) (ps : list piece) (out : list Frame)
    (sent received rest : list Z) (stream : St) (outbound : T) (shutdown : bool) :
  runs e shutdown false false evs ps sent received out ->
  writable stream -> writable outbound -> incoming stream = spell ps ++ rest ->
  sent = data_of (frames_of ps) /\ received = data_of out
  /\ (forall fs, ps = Whole <$> fs -> spell ps = concat (wire <$> fs) /\ sent = data_of fs)
  /\ exists r', relay_framed_tcp stream outbound shutdown evs
      = (result e (Z.of_nat (length sent), Z.of_nat (length received)), r')
    /\ outgoing (target r') = outgoing outbound ++ sent
    /\ fin_sent r' = ends_request (frames_of ps)
    /\ outgoing (session r') = outgoing stream ++ concat (wire <$> out)
    /\ incoming (session r') = rest.
Proof.
  intros Hruns Hs Ht Hi. destruct (runs_data_of _ _ _ _ _ _ _ _ _ Hruns) as [Hsent Hrcv].
  destruct (relay_framed_tcp_runs _ _ _ _ _ _ rest stream outbound shutdown Hruns Hs Ht Hi)
    as (r' & ? & ? & ? & ? & ? & _).
  split_and!; [done..| |by exists r'].
  intros fs ->. by rewrite spell_whole, Hsent, frames_of_whole.
Qed.

(** The [select!] loop loses bytes.  If the client's data frame has arrived up to its header
    when target data completes the other branch, the half-read frame is dropped: the relay then
    takes the payload for the next frame, so data chosen by the proxied client (the encoding of
    any frame [g]) is executed as a protocol frame.  Without the interruption the same bytes are
    data. *)
Theorem dropped_read_injects (g : Frame) (rest d : list Z) (r : relay St T) :
  sendable g -> sendable (Data (wire g)) -> sendable (Data d) -> writable (session r) ->
  client_ended r = false -> target_ended r = false ->
  incoming (session r) = wire (Data (wire g)) ++ rest ->
  (exists r' s', relay_turn (TargetRead 3 (Ok d)) r = (Ok tt, r')
     /\ read_frame (session r') = (Ok g, s') /\ incoming s' = rest)
  /\ (exists r' s', relay_turn (TargetRead 0 (Ok d)) r = (Ok tt, r')
     /\ read_frame (session r') = (Ok (Data (wire g)), s') /\ incoming s' = rest).
Proof.
  intros Hg Hgd Hd Hw Hce Hte Hi.
  assert (forall lost s0, dropped_read lost (session r) = s0 -> writable s0 ->
    exists r', relay_turn (TargetRead lost (Ok d)) r = (Ok tt, r') /\ incoming (session r') = incoming s0)
    as Hturn.
  { intros lost s0 Hs Hw0. unfold relay_turn. rewrite (bind_ok get _ r r r eq_refl), Hte.
    rewrite (bind_ok _ _ _ _ _ (drop_read_eq lost r)), Hce, Hs.
    assert (prog_map_err (ErrIo "failed to read target response") (lift_res (Ok d)) (set_session s0 r)
      = (Ok d, set_session s0 r)) as Hdd by done.
    run Hdd. assert (sendable (EndRequest END_REQUEST_OK)) as He by (by split; [|by vm_compute]).
    destruct d as [|b d']; rewrite (bind_ok (modify _) _ _ _ tt eq_refl).
    - destruct (session_write _ (end_target (set_session s0 r)) He Hw0) as (s2 & -> & _ & Hi2 & _).
      by eexists.
    - destruct (session_write _ (add_rx (length (b :: d')) (set_session s0 r)) Hd Hw0)
        as (s2 & -> & _ & Hi2 & _). by eexists. }
  split.
  - unfold wire at 1 in Hi. cbn [payload fst snd] in Hi.
    assert (incoming (session r) = (FRAME_DATA :: to_be_bytes 2 (Z.of_nat (length (wire g))))
      ++ wire g ++ rest) as Hi3 by (rewrite Hi; cbn [app]; by rewrite <- app_assoc).
    destruct (read_exact_app 3 _ _ _ Hi3) as (s0 & H0 & Hi0 & Ho0); [by cbn [length]; rewrite length_to_be_bytes|].
    destruct (Hturn 3%nat s0) as (r' & Hr & Hir); [unfold dropped_read; by rewrite H0|by apply Ho0|].
    rewrite Hi0 in Hir. destruct (read_frame_wire g rest _ Hg Hir) as (s' & ? & ? & _). eauto 6.
  - destruct (dropped_read_0 (session r)) as (Hi0 & Ho0).
    destruct (Hturn 0%nat _ eq_refl) as (r' & Hr & Hir); [by apply Ho0|].
    rewrite Hi0, Hi in Hir.
    destruct (read_frame_wire (Data (wire g)) rest _ Hgd Hir) as (s' & ? & ? & _). eauto 6.
Qed.
End correctness.

(** A request whose second frame is cut off after five bytes: the rest of it is the ping. *)
Definition demo_schedule : list relay_event :=
  [SessionFrame; TargetRead 5 (Ok [7]); SessionFrame; TargetRead 0 (Ok []); SessionFrame].
Definition demo_pieces : list piece :=
  [Whole (Data [1; 2]); Lost (take 5 (wire (Data ([65; 66] ++ wire (Ping 9))))); Whole (Ping 9);
   Whole (EndRequest 0)].

Lemma demo_pieces_run : runs Complete false false false demo_schedule demo_pieces [1; 2] [7]
  [Data [7]; Pong 9; EndRequest 0].
Proof.
  apply (runs_data [1; 2] _ _ _ _ _ []); [by_compute|].
  apply (runs_chunk 5 (take 5 (wire (Data ([65; 66] ++ wire (Ping 9))))) 7 [] _ _ _ _ _ [] []);
    [by_compute|reflexivity|].
  apply runs_ping; [by_compute|]. apply (runs_eof 0 []); [reflexivity|].
  apply runs_end; [by_compute|]. apply runs_done.
Qed.

Lemma relay_complete_witness :
  let stream := open_with (concat (wire <$> [Data [1; 2]; Data ([65; 66] ++ wire (Ping 9)); EndRequest 0])
    ++ [8; 0]) in
  exists r', relay_framed_tcp stream (open_with []) false demo_schedule = (Ok (2, 1), r')
    /\ outgoing (target r') = [1; 2] /\ fin_sent r' = true
    /\ outgoing (session r') = concat (wire <$> [Data [7]; Pong 9; EndRequest 0])
    /\ incoming (session r') = [8; 0].
Proof.
  intros stream.
  destruct (relay_complete _ _ _ _ _ _ [8; 0] stream (open_with []) false demo_pieces_run
    (open_writable _) (open_writable _) eq_refl)
    as (_ & _ & _ & r' & Hr & Hrest).
  exists r'. split; [exact Hr|exact Hrest].
Defined.

Lemma dropped_read_injects_witness :
  let r := relay_start (open_with (wire (Data (wire (Reset 1))) ++ [])) (open_with []) false in
  (exists r' s', relay_turn (TargetRead 3 (Ok [5])) r = (Ok tt, r')
     /\ read_frame (session r') = (Ok (Reset 1), s') /\ incoming s' = [])
  /\ (exists r' s', relay_turn (TargetRead 0 (Ok [5])) r = (Ok tt, r')
     /\ read_frame (session r') = (Ok (Data (wire (Reset 1))), s') /\ incoming s' = []).
Proof.
  intros r. apply (dropped_read_injects (Reset 1) [] [5] r); first [reflexivity | by_compute].
Defined.
