(* ===== verification/Plain.v ===== *)
(** * The client's TCP path (shuttle/src/client/plain.rs)

    How a proxied connection reaches the server: over a pooled session ([relay_tcp_reusable] with
    the header translated by [open_request_from_trojan_header], then [relay_tcp_frames]) or over a
    tunnel of its own ([relay_tcp_with]), and the choice between them ([relay_tcp_remote]). *)
From S2P Require Import Prelude.
From stdpp Require Import strings pretty.
From S2P Require Import Time Stream Frame Opt Lifecycle Negotiate Trojan Relay.
From S2P Require Pool.
Open Scope Z_scope.

Definition MAX_FIRST_PACKET_SIZE : Z := 8192.
(** The room left in the first packet after [n] bytes. *)
Definition room (n : nat) : nat := Z.to_nat (MAX_FIRST_PACKET_SIZE - Z.of_nat n).

(** ** Trojan headers as open requests *)

Definition trojan_header_len (outbuf : list Z) : res relay_error nat :=
  if (length outbuf <? 4)%nat then Err (ErrMsg "truncated trojan header") else
  atyp ← index outbuf 1;
  addr_len ←
    (if atyp =? 1 then Ok 4%nat
     else if atyp =? 4 then Ok 16%nat
     else if atyp =? 3 then (n ← index outbuf 2; Ok (Z.to_nat n + 1)%nat)
     else Err (ErrMsg ("unsupported address type in trojan request: " +:+ pretty atyp)));
  let len := (1 + 1 + addr_len + 2 + 2)%nat in
  if (length outbuf <? len)%nat then Err (ErrMsg "truncated trojan header") else Ok len.

Definition open_request_from_trojan_header (outbuf : option (list Z)) : res relay_error Frame :=
  match outbuf with
  | None => Err (ErrMsg "reusable tcp relay requires an encoded trojan request")
  | Some outbuf =>
      cmd ← index outbuf 0;
      atyp ← index outbuf 1;
      '(addr_start, addr_end, port_start) ←
        (if atyp =? 1 then Ok (2, 6, 6)%nat
         else if atyp =? 4 then Ok (2, 18, 18)%nat
         else if atyp =? 3 then
           (n ← index outbuf 2; let len := Z.to_nat n in Ok (3, 3 + len, 3 + len)%nat)
         else Err (ErrMsg ("unsupported address type in trojan request: " +:+ pretty atyp)));
      if (length outbuf <? port_start + 2)%nat then Err (ErrMsg "truncated trojan request header") else
      p0 ← index outbuf port_start; p1 ← index outbuf (port_start + 1);
      addr ← slice outbuf addr_start addr_end;
      Ok (OpenRequest cmd atyp addr (from_be_bytes [p0; p1]))
  end.

(** ** The framed relay *)

Inductive client_event :=
| InboundRead (lost : nat) (r : res io_error (list Z))
| ServerFrame.

Record client_relay (St I : Type) := ClientRelay {
  session : St;
  inbound : I;
  tx : Z;
  rx : Z;
  client_closed : bool;
}.
Arguments ClientRelay {_ _} _ _ _ _ _.
Arguments session {_ _} _.
Arguments inbound {_ _} _.
Arguments tx {_ _} _.
Arguments rx {_ _} _.
Arguments client_closed {_ _} _.

Section frames.
Context {St I : Type} `{!AsyncIO St, !AsyncIO I}.
Abbreviation R := (client_relay St I).

Definition set_session (s : St) (r : R) : R :=
  ClientRelay s (inbound r) (tx r) (rx r) (client_closed r).
Definition set_inbound (i : I) (r : R) : R :=
  ClientRelay (session r) i (tx r) (rx r) (client_closed r).
Definition add_tx (n : nat) (r : R) : R :=
  ClientRelay (session r) (inbound r) (tx r + Z.of_nat n) (rx r) (client_closed r).
Definition add_rx (n : nat) (r : R) : R :=
  ClientRelay (session r) (inbound r) (tx r) (rx r + Z.of_nat n) (client_closed r).
Definition set_closed (r : R) : R := ClientRelay (session r) (inbound r) (tx r) (rx r) true.

Definition on_session {A} (m : prog St FrameError A) : prog R relay_error A :=
  prog_map_err ErrFrame (zoom session set_session m).
Definition on_inbound {A} (context : string) (m : prog I io_error A) : prog R relay_error A :=
  prog_map_err (ErrIo context) (zoom inbound set_inbound m).

(** The request header is not sent again; what follows it in [outbuf] and what the client sends
    within [FIRST_PACKET_TIMEOUT] ([first]: the bytes read, [None] on a timeout or an error)
    go out as the first data frame. *)
Definition send_first (outbuf : option (list Z)) (first : option (list Z))
    : prog R relay_error unit :=
  match outbuf with
  | None => mret tt
  | Some outbuf =>
      header_len ← lift_res (trojan_header_len outbuf);
      let outbuf :=
        if Z.of_nat (length outbuf) <? MAX_FIRST_PACKET_SIZE then
          match first with
          | Some b => outbuf ++ take (room (length outbuf)) b
          | None => outbuf
          end
        else outbuf in
      if (header_len <? length outbuf)%nat then
        let data := drop header_len outbuf in
        _ ← modify (add_tx (length data));
        on_session (write_frame (Data data))
      else mret tt
  end.

(** One turn of the loop; [true]: the server has ended the request ([break]). *)
Definition client_turn (ev : client_event) : prog R relay_error bool :=
  r ← get;
  match ev with
  | InboundRead lost read =>
      if client_closed r then mret false else
      _ ← modify (fun r => set_session (dropped_read lost (session r)) r);
      data ← prog_map_err (ErrIo "failed to read inbound client data") (lift_res read);
      match data with
      | [] =>
          _ ← modify set_closed;
          _ ← on_session (write_frame (EndRequest (reason_as_u8 CloseReason.ClientClose)));
          mret false
      | _ =>
          _ ← modify (add_tx (length data));
          _ ← on_session (write_frame (Data data));
          mret false
      end
  | ServerFrame =>
      frame ← on_session read_frame;
      match frame with
      | Data data =>
          _ ← modify (add_rx (length data));
          _ ← on_inbound "failed to write framed server data to inbound client" (write_all data);
          mret false
      | EndRequest _ => mret true
      | Reset reason => fail (ErrMsg ("reusable request reset by server: " +:+ pretty reason))
      | Close reason => fail (ErrMsg ("reusable session closed by server: " +:+ pretty reason))
      | Ping token => _ ← on_session (write_frame (Pong token)); mret false
      | frame => fail (ErrUnexpected "unexpected reusable relay frame" frame)
      end
  end.

Fixpoint client_loop (evs : list client_event) : prog R relay_error (Z * Z) :=
  match evs with
  | [] => pending
  | ev :: evs =>
      stop ← client_turn ev;
      match stop with
      | true => r ← get; mret (tx r, rx r)
      | false => client_loop evs
      end
  end.

Definition relay_tcp_frames (outbuf first : option (list Z)) (evs : list client_event)
    : prog R relay_error (Z * Z) :=
  _ ← modify (fun r => ClientRelay (session r) (inbound r) 0 0 false);
  _ ← send_first outbuf first;
  client_loop evs.

(** ** The one-shot relay *)

(** [relay_tcp_with] up to [copy_bidirectional], on the proxied client and the tunnel: the header
    goes out together with what the client sends within the timeout.  [first] is the outcome of that
    one read (the number of bytes it takes; [None] when it times out).
    [outbuf.reserve_exact(MAX_FIRST_PACKET_SIZE - outbuf.len())] has no guard: a longer buffer
    underflows the subtraction.  The result is [initlen]. *)
Definition first_packet (outbuf : option (list Z)) (first : option (res io_error nat))
    : prog (I * St) relay_error nat :=
  match outbuf with
  | None => mret 0%nat
  | Some outbuf =>
      if MAX_FIRST_PACKET_SIZE <? Z.of_nat (length outbuf) then panic else
      b ← prog_map_err (ErrIo "failed to read initial inbound data")
            (match first with
             | Some r =>
                 n ← lift_res r;
                 zoom fst (fun i w => (i, w.2)) (read_exact (Nat.min n (room (length outbuf))))
             | None => mret []
             end);
      _ ← prog_map_err (ErrIo "failed to write request header together with initial inbound data")
            (zoom snd (fun s w => (w.1, s)) (write_all (outbuf ++ b)));
      mret (length b)
  end.

Definition relay_tcp_with (outbuf : option (list Z)) (first : option (res io_error nat))
    (copy : copier I St) : prog (I * St) relay_error (Z * Z) :=
  initlen ← first_packet outbuf first;
  counts ← prog_map_err (ErrIo "") copy;
  mret (counts.1 + Z.of_nat initlen, counts.2).
End frames.

(** ** One proxied connection *)

Inductive reuse_error :=
| CheckoutFailed (message : string)
| NoReuse (capabilities : NegotiatedCapabilities)
| NegotiationFailed (e : NegotiationError)
| BadHeader (e : relay_error)
| OpenFailed (e : FrameError)
| RelayFailed (e : relay_error).

(** What surrounds one call: the pool, the proxied client and the fallback tracker. *)
Record client_world (St I : Type) := ClientWorld {
  pool : Pool.SessionPool St;
  client : I;
  tracker : FallbackTracker;
}.
Arguments ClientWorld {_ _} _ _ _.
Arguments pool {_ _} _.
Arguments client {_ _} _.
Arguments tracker {_ _} _.

Section connection.
Context {St I : Type} `{!AsyncIO St, !AsyncIO I} (config : ReuseConfig).
Abbreviation W := (client_world St I).
Abbreviation Session := (Pool.PooledSession St).

Definition set_pool (p : Pool.SessionPool St) (w : W) : W := ClientWorld p (client w) (tracker w).
Definition set_client (i : I) (w : W) : W := ClientWorld (pool w) i (tracker w).
Definition on_pool {E A} (m : prog (Pool.SessionPool St) E A) : prog W E A := zoom pool set_pool m.

Definition with_stream (st : St) (s : Session) : Session := {|
  Pool.stream := st;
  Pool.use_count := Pool.use_count s;
  Pool.created_at := Pool.created_at s;
  Pool.last_used := Pool.last_used s;
  Pool.session_reuse_count := Pool.session_reuse_count s;
|}.

(** [pool.return_session(session, healthy).await.ok()]. *)
Definition give_back {E} (s : Session) (st : St) (healthy : bool) (now : Instant) : prog W E unit :=
  _ ← on_pool (attempt (Pool.return_session config (with_stream st s) healthy now));
  mret tt.

(** The negotiation a session gets on its first use, on its stream. *)
Definition negotiate_first (s : Session) : res reuse_error unit * St :=
  if Pool.session_reuse_count s =? 0 then
    let (r, st) := negotiate_client (new CAP_REUSE) (Pool.stream s) in
    (match r with
     | Ok capabilities => if neg_reuse capabilities then Ok tt else Err (NoReuse capabilities)
     | Err e => Err (NegotiationFailed e)
     | Panic => Panic
     | Pending => Pending
     end, st)
  else (Ok tt, Pool.stream s).

(** Times, connection outcomes and concurrent activity one call sees: [env_others] and
    [env_others2] are the other tasks' effects on the pool where the checkout waits, [env_others3]
    their effects from the checkout to the return of the session. *)
Record call_env := CallEnv {
  env_now : Instant;
  env_connect_now : Instant;
  env_return_now : Instant;
  env_connect : res io_error St;
  env_others : Pool.SessionPool St -> Pool.SessionPool St;
  env_others2 : Pool.SessionPool St -> Pool.SessionPool St;
  env_others3 : Pool.SessionPool St -> Pool.SessionPool St;
}.

Definition relay_tcp_reusable (env : call_env) (outbuf first : option (list Z))
    (evs : list client_event) : prog W reuse_error (Z * Z) :=
  s ← prog_map_err CheckoutFailed (on_pool (Pool.checkout config (env_now env)
        (env_connect_now env) (env_connect env) (env_others env) (env_others2 env)));
  let (negotiated, st) := negotiate_first s in
  match negotiated with
  | Err e =>
      _ ← on_pool (modify (env_others3 env));
      _ ← give_back s st false (env_return_now env);
      fail e
  | Panic => panic
  | Pending => pending
  | Ok _ =>
      request ← lift_res (map_err BadHeader (open_request_from_trojan_header outbuf));
      let (sent, st) := write_frame request st in
      match sent with
      | Err e =>
          _ ← on_pool (modify (env_others3 env));
          _ ← give_back s st false (env_return_now env);
          fail (OpenFailed e)
      | Panic => panic
      | Pending => pending
      | Ok _ =>
          w ← get;
          let (r, c) := relay_tcp_frames outbuf first evs (ClientRelay st (client w) 0 0 false) in
          _ ← modify (set_client (inbound c));
          _ ← on_pool (modify (env_others3 env));
          match r with
          | Panic => panic
          | Pending => pending
          | _ =>
              _ ← give_back s (session c) (is_ok r) (env_return_now env);
              lift_res (map_err RelayFailed r)
          end
      end
  end.

(** [relay_tcp_remote].  [oneshot] is the outcome of the one-shot connection attempt, [first2] that
    of the read for its first packet and [copy] stands for [tokio::io::copy_bidirectional]. *)
Definition relay_tcp_remote (env : call_env) (endpoint : string) (use_pool : bool)
    (outbuf first : option (list Z)) (evs : list client_event)
    (oneshot : res io_error St) (first2 : option (res io_error nat))
    (copy : copier I St) : prog W relay_error ((Z * Z) * option St) :=
  r ← (if use_pool then attempt (relay_tcp_reusable env outbuf first evs)
       else mret (inr (CheckoutFailed "no pool")));
  match r with
  | inl result => mret (result, None)
  | inr _ =>
      _ ← (if use_pool then
             _ ← on_pool (modify (Pool.emit_event SessionEvent.FallbackToOneShot));
             modify (fun w => ClientWorld (pool w) (client w) (warn_fallback endpoint (tracker w)))
           else mret tt);
      outbound ← lift_res (map_err (ErrIo "failed to establish snowy tunnel") oneshot);
      w ← get;
      let '(copied, (inbound, outbound)) := relay_tcp_with outbuf first2 copy (client w, outbound) in
      _ ← modify (set_client inbound);
      counts ← lift_res copied;
      mret (counts, Some outbound)
  end.
End connection.

(** ** Proofs: the framed relay *)

(** Exchanges on the client's side, in any interleaving: from a state where the proxied client has
    ([closed]) ended, the schedule meets the pieces [ps] of the server's stream, whose frames carry
    [received], and the client's bytes [sent], the relay writes the frames [out], and the schedule
    takes it to the server's end-of-request or to a point where it still waits.  When the inbound
    branch completes, the dropped [read_frame] may have taken any bytes that had arrived. *)
Inductive client_runs : ending -> bool -> list client_event -> list piece -> list Z -> list Z -> list Frame -> Prop :=
| cr_end c reason evs : is_u8 reason ->
    client_runs Complete c (ServerFrame :: evs) [Whole (EndRequest reason)] [] [] []
| cr_wait c : client_runs Waiting c [] [] [] [] []
| cr_data e c d evs ps sent received out : sendable (Data d) ->
    client_runs e c evs ps sent received out ->
    client_runs e c (ServerFrame :: evs) (Whole (Data d) :: ps) sent (d ++ received) out
| cr_ping e c t evs ps sent received out : is_u32 t ->
    client_runs e c evs ps sent received out ->
    client_runs e c (ServerFrame :: evs) (Whole (Ping t) :: ps) sent received (Pong t :: out)
| cr_chunk lb b d e evs ps sent received out : sendable (Data (b :: d)) ->
    client_runs e false evs ps sent received out ->
    client_runs e false (InboundRead (length lb) (Ok (b :: d)) :: evs) (lose lb ps) ((b :: d) ++ sent)
      received (Data (b :: d) :: out)
| cr_eof lb e evs ps received out :
    client_runs e true evs ps [] received out ->
    client_runs e false (InboundRead (length lb) (Ok []) :: evs) (lose lb ps) [] received
      (EndRequest 0 :: out).

Lemma client_runs_data_of e c evs ps sent received out :
  client_runs e c evs ps sent received out -> received = data_of (frames_of ps) /\ sent = data_of out.
Proof.
  induction 1; rewrite ?frames_of_lose; cbn; destruct_and?; subst; by rewrite ?app_nil_r.
Qed.

Section frames_proofs.
Context {St I : Type} `{!AsyncIO St, !AsyncIOLaws St, !AsyncIO I, !AsyncIOLaws I}.
#[local] Set Default Proof Using "Type*".
Implicit Types r : client_relay St I.

Lemma client_on_session_eq {A} (m : prog St FrameError A) r x s' :
  m (session r) = (x, s') -> on_session m r = (map_err ErrFrame x, set_session s' r).
Proof. intros H. unfold on_session, prog_map_err, zoom. by rewrite H. Qed.

Lemma on_inbound_eq {A} c (m : prog I io_error A) r x i' :
  m (inbound r) = (x, i') -> on_inbound c m r = (map_err (ErrIo c) x, set_inbound i' r).
Proof. intros H. unfold on_inbound, prog_map_err, zoom. by rewrite H. Qed.

Lemma client_session_write f r :
  sendable f -> writable (session r) ->
  exists s', on_session (write_frame f) r = (Ok tt, set_session s' r)
    /\ outgoing s' = outgoing (session r) ++ wire f /\ incoming s' = incoming (session r)
    /\ writable s'.
Proof.
  intros Hf Hw. destruct (write_frame_wire f (session r) Hf Hw) as (s' & Hr & Ho & Hi & _ & Hw').
  exists s'. apply client_on_session_eq in Hr. by rewrite Hr.
Qed.

Definition client_at (c : bool) r : Prop :=
  client_closed r = c /\ writable (session r) /\ writable (inbound r).

Definition moved (sent received : list Z) (out : list Frame) r r' : Prop :=
  outgoing (inbound r') = outgoing (inbound r) ++ received
  /\ outgoing (session r') = outgoing (session r) ++ concat (wire <$> out)
  /\ tx r' = tx r + Z.of_nat (length sent) /\ rx r' = rx r + Z.of_nat (length received).

Lemma client_moved_trans r1 r2 r3 s1 s2 c1 c2 o1 o2 :
  moved s1 c1 o1 r1 r2 -> moved s2 c2 o2 r2 r3 ->
  moved (s1 ++ s2) (c1 ++ c2) (o1 ++ o2) r1 r3.
Proof.
  intros (Ht & Hs & Hx & Hr) (Ht' & Hs' & Hx' & Hr'). unfold moved.
  rewrite Ht', Hs', Hx', Hr', Ht, Hs, Hx, Hr, fmap_app, concat_app, !app_assoc.
  split_and!; first [done|len].
Qed.

(** A server frame: what the turn does once the frame is read. *)
Lemma client_turn_frame f rest r :
  sendable f -> incoming (session r) = wire f ++ rest ->
  exists s', incoming s' = rest /\ only_read (session r) s'
    /\ client_turn ServerFrame r =
       match f with
       | Data data =>
           (_ ← modify (add_rx (length data));
            _ ← on_inbound "failed to write framed server data to inbound client" (write_all data);
            mret false)
       | EndRequest _ => mret true
       | Reset reason => fail (ErrMsg ("reusable request reset by server: " +:+ pretty reason))
       | Close reason => fail (ErrMsg ("reusable session closed by server: " +:+ pretty reason))
       | Ping token => (_ ← on_session (write_frame (Pong token)); mret false)
       | frame => fail (ErrUnexpected "unexpected reusable relay frame" frame)
       end (set_session s' r).
Proof.
  intros Hf Hi. destruct (read_frame_wire f rest (session r) Hf Hi) as (s' & Hr & Hi' & Ho).
  exists s'. split; [done|]. split; [done|]. unfold client_turn.
  rewrite (bind_ok get _ r r r eq_refl). apply client_on_session_eq in Hr. run Hr. by destruct f.
Qed.

Lemma client_turn_data d c rest r :
  client_at c r -> sendable (Data d) -> incoming (session r) = wire (Data d) ++ rest ->
  exists r', client_turn ServerFrame r = (Ok false, r') /\ client_at c r'
    /\ incoming (session r') = rest /\ moved [] d [] r r'.
Proof.
  intros (Hc & Hws & Hwi) Hf Hi.
  destruct (client_turn_frame _ rest r Hf Hi) as (s' & Hi' & (_ & Ho' & Hw') & ->).
  destruct (write_all_writable d (inbound r) Hwi) as (t' & Hw & Hot & _ & _ & Hwt').
  rewrite (bind_ok (modify _) _ _ _ tt eq_refl).
  change (inbound r) with (inbound (add_rx (length d) (set_session s' r))) in Hw.
  apply (on_inbound_eq "failed to write framed server data to inbound client") in Hw. run Hw.
  eexists. split; [done|]. unfold client_at, moved. simpl.
  rewrite app_nil_r. split_and!; auto; lia.
Qed.

Lemma client_turn_ping t c rest r :
  client_at c r -> is_u32 t -> incoming (session r) = wire (Ping t) ++ rest ->
  exists r', client_turn ServerFrame r = (Ok false, r') /\ client_at c r'
    /\ incoming (session r') = rest /\ moved [] [] [Pong t] r r'.
Proof.
  intros (Hc & Hws & Hwi) Hu Hi.
  assert (sendable (Ping t) /\ sendable (Pong t)) as [Hf Hf'] by (by split; (split; [|by vm_compute])).
  destruct (client_turn_frame _ rest r Hf Hi) as (s' & Hi' & (_ & Ho' & Hw') & ->).
  destruct (client_session_write (Pong t) (set_session s' r) Hf' (Hw' Hws)) as (s2 & H2 & Ho2 & Hi2 & Hw2).
  run H2. eexists. split; [done|]. unfold client_at, moved. simpl in *.
  rewrite !app_nil_r, Ho2, Ho', Hi2. split_and!; auto; lia.
Qed.

Lemma turn_inbound d lb rest r :
  client_at false r -> sendable (Data d) -> incoming (session r) = lb ++ rest ->
  exists r', client_turn (InboundRead (length lb) (Ok d)) r = (Ok false, r')
    /\ client_at (bool_decide (d = [])) r' /\ incoming (session r') = rest
    /\ moved d [] [match d with [] => EndRequest 0 | _ => Data d end] r r'.
Proof.
  intros (Hc & Hws & Hwi) Hf Hi. unfold client_turn.
  rewrite (bind_ok get _ r r r eq_refl), Hc. rewrite (bind_ok (modify _) _ _ _ tt eq_refl).
  destruct (dropped_read_app lb rest (session r) Hi) as (Hi0 & _ & Ho0 & Hw0).
  set (s0 := dropped_read (length lb) (session r)) in *.
  assert (prog_map_err (ErrIo "failed to read inbound client data") (lift_res (Ok d)) (set_session s0 r)
    = (Ok d, set_session s0 r)) as Hd by done.
  run Hd.
  assert (sendable (EndRequest (reason_as_u8 CloseReason.ClientClose))) as He
    by (by split; [|by vm_compute]).
  destruct d as [|b d]; rewrite (bind_ok (modify _) _ _ _ tt eq_refl).
  - destruct (client_session_write _ (set_closed (set_session s0 r)) He (Hw0 Hws)) as (s2 & H2 & Ho2 & Hi2 & Hw2).
    run H2. eexists. split; [done|]. unfold client_at, moved. simpl in *.
    rewrite !app_nil_r, Ho2, Ho0, Hi2, Hi0. split_and!; auto; lia.
  - destruct (client_session_write _ (add_tx (length (b :: d)) (set_session s0 r)) Hf (Hw0 Hws))
      as (s2 & H2 & Ho2 & Hi2 & Hw2).
    run H2. eexists. split; [done|]. unfold client_at, moved. simpl in *.
    rewrite !app_nil_r, Ho2, Ho0, Hi2, Hi0. split_and!; auto; lia.
Qed.

Lemma client_loop_cons ev evs r r' :
  client_turn ev r = (Ok false, r') -> client_loop (ev :: evs) r = client_loop evs r'.
Proof. intros H. cbn [client_loop]. by run H. Qed.

(** One turn, then the rest of the exchange. *)
Ltac next_turn H Hm1 Hm2 :=
  rewrite (client_loop_cons _ _ _ _ H); do 2 (split; [done|]);
  exact (client_moved_trans _ _ _ _ _ _ _ _ _ Hm1 Hm2).

Lemma client_loop_runs e c evs ps sent received out r rest :
  client_runs e c evs ps sent received out -> client_at c r ->
  incoming (session r) = spell ps ++ rest ->
  exists r', client_loop evs r = (result e (tx r', rx r'), r')
    /\ incoming (session r') = rest /\ moved sent received out r r'.
Proof.
  intros Hruns. revert r. induction Hruns as
    [c reason evs Hu|c|e c d evs ps sent rcv out Hf _ IH|e c t evs ps sent rcv out Hu _ IH
    |lb b d e evs ps sent rcv out Hf _ IH|lb e evs ps rcv out _ IH]; intros r Hat Hi;
    rewrite ?spell_lose in Hi; unfold spell in Hi;
    cbn [fmap list_fmap concat piece_bytes] in Hi; rewrite <- ?app_assoc in Hi.
  - destruct (client_turn_frame (EndRequest reason) rest r) as (s' & Hi' & (_ & Ho' & _) & Ht);
      [by split; [|by vm_compute]|done|].
    exists (set_session s' r). cbn [client_loop].
    rewrite (bind_ok _ _ _ _ true Ht). split; [done|]. split; [done|].
    unfold moved. simpl. rewrite !app_nil_r. split_and!; auto; lia.
  - exists r. split; [done|]. split; [done|]. unfold moved. simpl. rewrite !app_nil_r. split_and!; auto; lia.
  - destruct (client_turn_data d c _ r Hat Hf Hi) as (r1 & H1 & Hat1 & Hi1 & Hm1).
    destruct (IH r1 Hat1 Hi1) as (r2 & H2 & ? & Hm2). exists r2. next_turn H1 Hm1 Hm2.
  - destruct (client_turn_ping t c _ r Hat Hu Hi) as (r1 & H1 & Hat1 & Hi1 & Hm1).
    destruct (IH r1 Hat1 Hi1) as (r2 & H2 & ? & Hm2). exists r2. next_turn H1 Hm1 Hm2.
  - destruct (turn_inbound (b :: d) lb _ r Hat Hf Hi) as (r1 & H1 & Hat1 & Hi1 & Hm1).
    destruct (IH r1 Hat1 Hi1) as (r2 & H2 & ? & Hm2). exists r2. next_turn H1 Hm1 Hm2.
  - assert (sendable (Data [])) as Hf by (split; [by apply Forall_nil_2|by vm_compute]).
    destruct (turn_inbound [] lb _ r Hat Hf Hi) as (r1 & H1 & Hat1 & Hi1 & Hm1).
    destruct (IH r1 Hat1 Hi1) as (r2 & H2 & ? & Hm2). exists r2. next_turn H1 Hm1 Hm2.
Qed.
End frames_proofs.

(** ** Proofs: one proxied connection *)

Section connection_proofs.
Context {St I : Type} `{!AsyncIO St, !AsyncIO I} (config : ReuseConfig).
Implicit Types w : client_world St I.

(** What giving a session back does to the pool. *)
Lemma give_back_eq {E} s st healthy now w :
  0 <= Pool.checked_out (Pool.inner (pool w)) ->
  exists p', give_back (E:=E) config s st healthy now w = (Ok tt, set_pool p' w)
    /\ Pool.checked_out (Pool.inner p') = Z.max 0 (Pool.checked_out (Pool.inner (pool w)) - 1)
    /\ (healthy = false -> Pool.idle (Pool.inner p') = Pool.idle (Pool.inner (pool w))).
Proof.
  intros H0.
  destruct (Pool.return_session_spec config (with_stream st s) healthy now (pool w) H0)
    as (p' & Hr & Hn & _ & _ & _ & Hi).
  exists p'. split; [|split; [done|]].
  - unfold give_back, on_pool, zoom, attempt, mbind, prog_bind. by rewrite Hr.
  - intros ->. by rewrite Hi.
Qed.

(** With no other task at work. *)
Lemma others_idle {E} env w :
  env_others3 env = id -> on_pool (E:=E) (modify (env_others3 env)) w = (Ok tt, w).
Proof. intros ->. by destruct w. Qed.

(** The outcomes after which the session has been accounted for. *)
Definition accounted (r : res reuse_error (Z * Z)) : bool :=
  match r with Err (BadHeader _) | Panic | Pending => false | _ => true end.

(** The pool after a call that ended in [r]: the session is accounted for, except after a bad
    header (and when the call never ends), and on a failure nothing is queued. *)
Definition settled w (r : res reuse_error (Z * Z)) w' : Prop :=
  (accounted r = true ->
     Pool.checked_out (Pool.inner (pool w')) = Pool.checked_out (Pool.inner (pool w)))
  /\ (forall e, r = Err (BadHeader e) ->
     Pool.checked_out (Pool.inner (pool w')) = Pool.checked_out (Pool.inner (pool w)) + 1)
  /\ (is_ok r = false ->
     Pool.idle (Pool.inner (pool w')) `prefix_of` Pool.idle (Pool.inner (pool w))).

(** One more session is out in [w1] than in [w]. *)
Definition one_out w w1 : Prop :=
  0 <= Pool.checked_out (Pool.inner (pool w))
  /\ Pool.checked_out (Pool.inner (pool w1)) = Pool.checked_out (Pool.inner (pool w)) + 1
  /\ Pool.idle (Pool.inner (pool w1)) `prefix_of` Pool.idle (Pool.inner (pool w)).

Lemma settled_stopped w w1 (r : res reuse_error (Z * Z)) :
  one_out w w1 -> r = Panic \/ r = Pending \/ (exists e, r = Err (BadHeader e)) -> settled w r w1.
Proof. intros (_ & ? & ?) [->|[->|[e ->]]]; by split_and!. Qed.

Lemma settled_back w w1 w' s st healthy now (x r : res reuse_error (Z * Z)) :
  one_out w w1 -> accounted x = true -> healthy = is_ok x ->
  (_ ← give_back config s st healthy now; lift_res x) w1 = (r, w') -> settled w r w'.
Proof.
  intros (H0 & Hn & Hpre) Hx Hh.
  destruct (give_back_eq (E:=reuse_error) s st healthy now w1) as (p' & Hg & Hn' & Hi'); [lia|].
  run Hg. intros [= <- <-]. split_and!; simpl.
  - intros _. lia.
  - intros e ->. done.
  - intros Hok. rewrite Hi' by congruence. done.
Qed.

Lemma negotiate_first_err s e st : negotiate_first (St:=St) s = (Err e, st) -> accounted (Err e) = true.
Proof.
  unfold negotiate_first. destruct (_ =? 0); [|done].
  destruct (negotiate_client _ _) as [[c|e'| |] st']; [destruct (neg_reuse c)|..]; by intros [= <- _].
Qed.

Lemma relay_tcp_reusable_settled env outbuf first evs w r w' :
  env_others env = id -> env_others2 env = id -> env_others3 env = id ->
  0 <= Pool.checked_out (Pool.inner (pool w)) ->
  relay_tcp_reusable config env outbuf first evs w = (r, w') -> settled w r w'.
Proof.
  intros Ho1 Ho2 Ho3 H0. unfold relay_tcp_reusable. rewrite Ho1, Ho2.
  destruct (Pool.checkout config (env_now env) (env_connect_now env) (env_connect env) id id (pool w))
    as [rc p1] eqn:Hk.
  pose proof (Pool.checkout_effect config _ _ _ _ _ _ Hk) as [Hpre Hn].
  assert (prog_map_err CheckoutFailed (on_pool (Pool.checkout config (env_now env)
    (env_connect_now env) (env_connect env) id id)) w = (map_err CheckoutFailed rc, set_pool p1 w)) as Hc.
  { unfold prog_map_err, on_pool, zoom. by rewrite Hk. }
  destruct rc as [s|e| |]; simpl in Hc, Hn; run Hc.
  2-4: intros [= <- <-]; split_and!; simpl; rewrite ?Hn; done || lia.
  assert (one_out w (set_pool p1 w)) as Hout by done.
  destruct (negotiate_first s) as [neg st] eqn:Hneg. destruct neg as [[]|e| |].
  2: { run (others_idle (E:=reuse_error) env (set_pool p1 w) Ho3).
       apply (settled_back w (set_pool p1 w) w' s st false (env_return_now env) (Err e)); [done| |done].
       by eapply negotiate_first_err. }
  2-3: intros [= <- <-]; apply settled_stopped; auto.
  destruct (open_request_from_trojan_header outbuf) as [request|e| |] eqn:Hh; simpl map_err.
  2-4: intros [= <- <-]; apply settled_stopped; eauto.
  rewrite bind_lift. destruct (write_frame request st) as [[[]|e| |] st1].
  2: by run (others_idle (E:=reuse_error) env (set_pool p1 w) Ho3);
     apply (settled_back w (set_pool p1 w) w' s st1 false (env_return_now env) (Err (OpenFailed e))).
  2-3: intros [= <- <-]; apply settled_stopped; auto.
  rewrite (bind_ok get _ _ _ _ eq_refl).
  destruct (relay_tcp_frames outbuf first evs _) as [rr c].
  rewrite (bind_ok (modify _) _ _ _ tt eq_refl).
  run (others_idle (E:=reuse_error) env (set_client (inbound c) (set_pool p1 w)) Ho3).
  destruct rr as [x|e| |]; try (intros [= <- <-]; apply settled_stopped; auto).
  - by apply (settled_back w (set_client (inbound c) (set_pool p1 w)) w' s (session c) true
      (env_return_now env) (Ok x)).
  - by apply (settled_back w (set_client (inbound c) (set_pool p1 w)) w' s (session c) false
      (env_return_now env) (Err (RelayFailed e))).
Qed.
End connection_proofs.

Section header_proofs.
Context {St : Type} `{!AsyncIO St, !Socks5 St, !Socks5Laws St}.
#[local] Set Default Proof Using "Type*".

(** The three layouts of an encoded address. *)
Lemma addr_layout a b :
  wf_addr a -> addr_bytes (St:=St) a = Some b ->
  exists atyp h hl port, b = atyp :: h ++ to_be_bytes 2 port /\ is_u16 port /\ is_bytes hl
    /\ ((atyp = 1 /\ h = hl /\ length hl = 4%nat /\ a = SocketAddress (V4 hl port))
        \/ (atyp = 4 /\ h = hl /\ length hl = 16%nat /\ a = SocketAddress (V6 hl port))
        \/ (atyp = 3 /\ h = Z.of_nat (length hl) :: hl /\ (length hl <= 255)%nat
            /\ a = Domain hl port)).
Proof.
  destruct a as [[ip port|ip port]|host port]; simpl; intros (Hb & Hrest) Ha.
  - rewrite addr_bytes_v4 in Ha. destruct Hrest. exists 1, ip, ip, port. naive_solver.
  - rewrite addr_bytes_v6 in Ha. destruct Hrest. exists 4, ip, ip, port. naive_solver.
  - destruct (decide (length host <= 255)%nat) as [Hl|].
    + rewrite addr_bytes_domain in Ha by done. exists 3, (Z.of_nat (length host) :: host), host, port.
      naive_solver.
    + by rewrite addr_bytes_long in Ha by lia.
Qed.

Lemma header_len_encoded r b extra :
  wf_addr (dest_addr r) -> addr_bytes (St:=St) (dest_addr r) = Some b ->
  trojan_header_len (request_bytes r b ++ extra) = Ok (length (request_bytes r b)).
Proof.
  intros Hwf Hb. unfold request_bytes.
  destruct (addr_layout _ _ Hwf Hb) as (atyp & h & hl & port & -> & _ & _ & Hcase).
  unfold trojan_header_len.
  destruct Hcase as [(-> & -> & Hl & _)|[(-> & -> & Hl & _)|(-> & -> & Hl & _)]];
    cases_cmp; cbn [app index lookup list_lookup]; unfold index; simpl; rewrite ?Nat2Z.id;
    cases_cmp; f_equal; len.
Qed.

(** The open request names the address the header encodes. *)
Lemma open_request_encoded r b extra :
  wf_addr (dest_addr r) -> addr_bytes (St:=St) (dest_addr r) = Some b ->
  open_request_from_trojan_header (Some (request_bytes r b ++ extra))
  = Ok match dest_addr r with
       | SocketAddress (V4 ip port) => OpenRequest (cmd_to_u8 (cmd r)) 1 ip port
       | SocketAddress (V6 ip port) => OpenRequest (cmd_to_u8 (cmd r)) 4 ip port
       | Domain host port => OpenRequest (cmd_to_u8 (cmd r)) 3 host port
       end.
Proof.
  intros Hwf Hb. unfold request_bytes.
  destruct (addr_layout _ _ Hwf Hb) as (atyp & h & hl & port & -> & Hp & _ & Hcase).
  destruct (to_be_bytes_2 port) as (p0 & p1 & -> & _ & _ & Hport). specialize (Hport Hp).
  assert (forall (l rest : list Z), (l ++ p0 :: p1 :: rest) !! length l = Some p0
    /\ (l ++ p0 :: p1 :: rest) !! (length l + 1)%nat = Some p1) as Hat.
  { intros l rest. rewrite lookup_app_r, Nat.sub_diag by lia. split; [done|].
    rewrite lookup_app_r by lia. by replace (length l + 1 - length l)%nat with 1%nat by lia. }
  set (c := cmd_to_u8 (cmd r)).
  assert (request_bytes_norm : ((c :: (atyp :: h ++ [p0; p1]) ++ [CR; LF]) ++ extra)
    = (c :: atyp :: h) ++ p0 :: p1 :: CR :: LF :: extra).
  { cbn [app]. by rewrite <- !app_assoc. }
  rewrite request_bytes_norm. clear request_bytes_norm.
  destruct (Hat (c :: atyp :: h) (CR :: LF :: extra)) as [H0 H1]. cbn [length] in H0, H1.
  remember ((c :: atyp :: h) ++ p0 :: p1 :: CR :: LF :: extra) as buf eqn:Hbuf.
  assert (buf !! 0%nat = Some c /\ buf !! 1%nat = Some atyp) as [Hc Ha] by (by subst buf).
  assert (length buf = (2 + length h + 4 + length extra)%nat) as Hlen by (subst buf; len).
  unfold open_request_from_trojan_header.
  rewrite (index_ok _ _ _ Hc), (index_ok _ _ _ Ha). cbn [mbind res_bind].
  destruct Hcase as [(-> & -> & Hl & ->)|[(-> & -> & Hl & ->)|(-> & -> & Hl & ->)]];
    cbn [Z.eqb Pos.eqb mbind res_bind].
  3: assert (buf !! 2%nat = Some (Z.of_nat (length hl))) as H2 by (by subst buf);
     rewrite (index_ok _ _ _ H2); cbn [mbind res_bind length] in *; rewrite Nat2Z.id;
     replace (S (S (S (length hl)))) with (3 + length hl)%nat in * by lia.
  1-2: rewrite Hl in H0, H1.
  all: replace (length buf <? _)%nat with false by (symmetry; apply Nat.ltb_ge; lia).
  all: cbn [Nat.add] in H0, H1 |- *; rewrite (index_ok _ _ _ H0), (index_ok _ _ _ H1).
  all: cbn [mbind res_bind]; rewrite slice_ok by lia; cbn [mbind res_bind]; rewrite Hport.
  all: do 2 f_equal; subst buf; cbn [app drop]; by rewrite drop_0, take_app_length' by lia.
Qed.
End header_proofs.

Section reset_proofs.
Context {St I : Type} `{!AsyncIO St, !AsyncIOLaws St, !AsyncIO I}.
#[local] Set Default Proof Using "Type*".

(** A relay that forwards client data and is then reset by the server. *)
Lemma frames_reset outbuf d reason rest (r : client_relay St I) :
  trojan_header_len outbuf = Ok (length outbuf) -> d <> [] -> sendable (Data d) -> is_u8 reason ->
  writable (session r) -> incoming (session r) = wire (Reset reason) ++ rest ->
  exists e r', relay_tcp_frames (Some outbuf) None [InboundRead 0 (Ok d); ServerFrame] r = (Err e, r')
    /\ inbound r' = inbound r.
Proof.
  intros Hn Hne Hf Hu Hw Hi. unfold relay_tcp_frames.
  rewrite (bind_ok (modify _) _ r _ tt eq_refl).
  set (r0 := ClientRelay (session r) (inbound r) 0 0 false).
  assert (send_first (Some outbuf) None r0 = (Ok tt, r0)) as Hfirst.
  { unfold send_first. rewrite Hn, bind_lift. destruct (Z.of_nat (length outbuf) <? _);
      by rewrite Nat.ltb_irrefl. }
  run Hfirst. destruct (dropped_read_0 (session r)) as (Hi0 & _ & _ & Hw0).
  set (s0 := dropped_read 0 (session r)) in *. destruct d as [|b d]; [done|].
  assert (Hds : prog_map_err (ErrIo "failed to read inbound client data") (lift_res (Ok (b :: d)))
    (set_session s0 r0) = (Ok (b :: d), set_session s0 r0)) by done.
  destruct (write_frame_wire (Data (b :: d)) s0 Hf (Hw0 Hw)) as (s2 & Hs2 & _ & Hi2 & _ & _).
  set (r1 := set_session s2 (add_tx (length (b :: d)) (set_session s0 r0))).
  assert (client_turn (InboundRead 0 (Ok (b :: d))) r0 = (Ok false, r1)) as H1.
  { unfold client_turn. rewrite (bind_ok get _ r0 r0 r0 eq_refl).
    assert (client_closed r0 = false) as -> by done.
    rewrite (bind_ok (modify _) _ r0 _ tt eq_refl). fold s0. run Hds.
    rewrite (bind_ok (modify _) _ _ _ tt eq_refl).
    assert (on_session (write_frame (Data (b :: d))) (add_tx (length (b :: d)) (set_session s0 r0))
      = (Ok tt, r1)) as Hwr by (unfold on_session, prog_map_err, zoom; simpl; by rewrite Hs2).
    by run Hwr. }
  cbn [client_loop]. run H1.
  assert (incoming (session r1) = wire (Reset reason) ++ rest) as Hi1
    by (change (session r1) with s2; congruence).
  destruct (read_frame_wire (Reset reason) rest (session r1)) as (s3 & H3 & _);
    [by split; [|by vm_compute]|done|].
  assert (on_session read_frame r1 = (Ok (Reset reason), set_session s3 r1)) as Hrd
    by (unfold on_session, prog_map_err, zoom; by rewrite H3).
  exists (ErrMsg ("reusable request reset by server: " +:+ pretty reason)), (set_session s3 r1).
  unfold client_turn, mbind, prog_bind, get. by rewrite Hrd.
Qed.

Lemma reusable_reset config (env : call_env (St:=St)) outbuf d reason rest request s p1
    (w : client_world St I) :
  env_others env = id -> env_others2 env = id -> env_others3 env = id ->
  0 <= Pool.checked_out (Pool.inner p1) ->
  Pool.checkout config (env_now env) (env_connect_now env) (env_connect env) id id (pool w) = (Ok s, p1) ->
  Pool.session_reuse_count s <> 0 ->
  writable (Pool.stream s) -> incoming (Pool.stream s) = wire (Reset reason) ++ rest -> is_u8 reason ->
  trojan_header_len outbuf = Ok (length outbuf) ->
  open_request_from_trojan_header (Some outbuf) = Ok request -> sendable request ->
  d <> [] -> sendable (Data d) ->
  exists e w', relay_tcp_reusable config env (Some outbuf) None [InboundRead 0 (Ok d); ServerFrame] w
    = (Err e, w') /\ client w' = client w.
Proof.
  intros Ho1 Ho2 Ho3 Hp Hk Hrc Hw Hi Hu Hn Hreq Hfreq Hne Hf.
  assert (prog_map_err CheckoutFailed (on_pool (Pool.checkout config (env_now env)
    (env_connect_now env) (env_connect env) id id)) w = (Ok s, set_pool p1 w)) as Hc.
  { unfold prog_map_err, on_pool, zoom. by rewrite Hk. }
  unfold relay_tcp_reusable. rewrite Ho1, Ho2. run Hc. unfold negotiate_first.
  rewrite (proj2 (Z.eqb_neq _ _) Hrc), Hreq. cbn [map_err]. rewrite bind_lift.
  destruct (write_frame_wire request (Pool.stream s) Hfreq Hw) as (s1 & -> & _ & Hi1 & _ & Hw1).
  rewrite (bind_ok get _ _ _ _ eq_refl). rewrite <- Hi1 in Hi.
  destruct (frames_reset outbuf d reason rest (ClientRelay s1 (client (set_pool p1 w)) 0 0 false)
    Hn Hne Hf Hu Hw1 Hi) as (e & c & -> & Hc').
  rewrite (bind_ok (modify _) _ _ _ tt eq_refl).
  run (others_idle (E:=reuse_error) env (set_client (inbound c) (set_pool p1 w)) Ho3).
  destruct (give_back_eq (E:=reuse_error) config s (session c) false (env_return_now env)
    (set_client (inbound c) (set_pool p1 w))) as (p' & Hg & _); [done|].
  exists (RelayFailed e), (set_pool p' (set_client (inbound c) (set_pool p1 w))). cbn [is_ok]. by run Hg.
Qed.
End reset_proofs.

(** ** Correctness *)

(** The frame of the first packet; nothing is sent for an empty one. *)
Definition first_frames (data : list Z) : list Frame :=
  match data with [] => [] | _ => [Data data] end.

Lemma send_first_data {St I : Type} `{!AsyncIO St, !AsyncIOLaws St, !AsyncIO I, !AsyncIOLaws I}
    (outbuf data : list Z) (first : option (list Z)) (n : nat) (r : client_relay St I) :
  trojan_header_len outbuf = Ok n ->
  data = drop n (outbuf ++ take (room (length outbuf)) (default [] first)) -> sendable (Data data) ->
  writable (session r) ->
  exists s', send_first (Some outbuf) first r = (Ok tt, set_session s' (add_tx (length data) r))
    /\ outgoing s' = outgoing (session r) ++ concat (wire <$> first_frames data)
    /\ incoming s' = incoming (session r) /\ writable s'.
Proof.
  intros Hn Hd Hf Hw. unfold send_first. rewrite Hn, bind_lift.
  set (buf := if Z.of_nat (length outbuf) <? MAX_FIRST_PACKET_SIZE then _ else outbuf).
  assert (buf = outbuf ++ take (room (length outbuf)) (default [] first)) as Hbuf.
  { subst buf. destruct (Z.ltb_spec (Z.of_nat (length outbuf)) MAX_FIRST_PACKET_SIZE).
    - destruct first; [done|]. cbn [default]; by rewrite take_nil, app_nil_r.
    - assert (room (length outbuf) = 0%nat) as -> by (unfold room; lia). by rewrite app_nil_r. }
  rewrite <- Hbuf in Hd. rewrite <- Hd. destruct (Nat.ltb_spec n (length buf)) as [Hlt|Hge].
  - destruct data as [|b data]; [apply (f_equal length) in Hd; revert Hd; len|].
    rewrite (bind_ok (modify _) _ r _ tt eq_refl).
    destruct (client_session_write (Data (b :: data)) (add_tx (length (b :: data)) r) Hf Hw)
      as (s1 & H1 & Ho1 & Hi1 & Hw1).
    exists s1. split_and!; [done| |done..]. cbn [first_frames fmap list_fmap concat]. by rewrite app_nil_r.
  - rewrite drop_ge in Hd by done. subst data. exists (session r). cbn. rewrite app_nil_r.
    split_and!; [|done..]. unfold set_session, add_tx. cbn. rewrite Z.add_0_r. by destruct r.
Qed.

(** The first packet of a one-shot relay takes its bytes from the client. *)
Lemma first_packet_sent {St I : Type} `{!AsyncIO St, !AsyncIOLaws St, !AsyncIO I, !AsyncIOLaws I}
    (outbuf : list Z) (first : option nat) (i : I) (o : St) :
  Z.of_nat (length outbuf) <= MAX_FIRST_PACKET_SIZE -> (default 0 first <= length (incoming i))%nat -> writable o ->
  exists d i' o', first_packet (Some outbuf) (Ok <$> first) (i, o) = (Ok (length d), (i', o'))
    /\ length d = Nat.min (default 0%nat first) (room (length outbuf))
    /\ incoming i = d ++ incoming i' /\ only_read i i'
    /\ outgoing o' = outgoing o ++ outbuf ++ d /\ incoming o' = incoming o /\ ends o' = ends o /\ writable o'.
Proof.
  intros Hmax Hn Hw. set (d := take (Nat.min (default 0%nat first) (room (length outbuf))) (incoming i)).
  assert (length d = Nat.min (default 0%nat first) (room (length outbuf))) as Hl by (unfold d; len).
  destruct (write_all_writable (outbuf ++ d) o Hw) as (o' & Hwr & Ho & Hi & He & Hw').
  destruct (read_exact_app (length d) d (drop (length d) (incoming i)) i) as (i1 & H1 & Hi1 & Hr1);
    [by rewrite Hl; unfold d; rewrite take_drop|done|].
  assert (exists i', incoming i = d ++ incoming i' /\ only_read i i'
    /\ (match Ok <$> first with
        | Some r => n ← lift_res r; zoom fst (fun i w => (i, w.2)) (read_exact (Nat.min n (room (length outbuf))))
        | None => mret []
        end : prog (I * St) io_error (list Z)) (i, o) = (Ok d, (i', o))) as (i' & Hi' & Hr' & Hread).
  { destruct first as [n|]; cbn [fmap option_fmap option_map default] in *; unfold id in *.
    - exists i1. rewrite Hi1. split; [by rewrite Hl; unfold d; rewrite take_drop|]. split; [done|].
      rewrite bind_lift. unfold zoom. cbn [fst snd]. by rewrite <- Hl, H1.
    - exists i. by unfold d. }
  apply (prog_map_err_eq (ErrIo "failed to read initial inbound data")) in Hread. cbn [map_err] in Hread.
  exists d, i', o'. split; [|by split_and!]. unfold first_packet. rewrite (proj2 (Z.ltb_ge _ _)) by lia.
  run Hread. unfold prog_map_err at 1, zoom, mbind, prog_bind. cbn [fst snd]. by rewrite Hwr.
Qed.

Lemma relay_tcp_frames_runs {St I : Type} `{!AsyncIO St, !AsyncIOLaws St, !AsyncIO I, !AsyncIOLaws I}
    (outbuf data : list Z) (first : option (list Z)) (n : nat) (e : ending) (evs : list client_event)
    (ps : list piece) (out : list Frame) (sent received rest : list Z) (r : client_relay St I) :
  trojan_header_len outbuf = Ok n ->
  data = drop n (outbuf ++ take (room (length outbuf)) (default [] first)) -> sendable (Data data) ->
  client_runs e false evs ps sent received out ->
  writable (session r) -> writable (inbound r) -> incoming (session r) = spell ps ++ rest ->
  exists r', relay_tcp_frames (Some outbuf) first evs r
      = (result e (Z.of_nat (length (data ++ sent)), Z.of_nat (length received)), r')
    /\ outgoing (session r') = outgoing (session r) ++ concat (wire <$> first_frames data ++ out)
    /\ outgoing (inbound r') = outgoing (inbound r) ++ received
    /\ incoming (session r') = rest.
Proof.
  intros Hn Hd Hf Hruns Hws Hwi Hi.
  unfold relay_tcp_frames. rewrite (bind_ok (modify _) _ r _ tt eq_refl).
  set (r0 := ClientRelay (session r) (inbound r) 0 0 false).
  destruct (send_first_data outbuf data first n r0 Hn Hd Hf Hws) as (s1 & H1 & Ho1 & Hi1 & Hw1).
  run H1. set (r1 := set_session s1 (add_tx (length data) r0)) in *. simpl in Hi1. rewrite <- Hi1 in Hi.
  destruct (client_loop_runs _ _ _ _ _ _ _ r1 rest Hruns) as (r' & Hr & Hi' & Hoi & Hos & Htx & Hrx);
    [done|exact Hi|].
  exists r'. simpl in *. rewrite Hr, Htx, Hrx, Hos, Ho1, fmap_app, concat_app, <- app_assoc.
  split_and!; [do 2 f_equal; f_equal; len|done..].
Qed.

(** C26: the framed relay of one request, at every point of every interleaving, also of those where
    a frame read is cut off half-way.  The bytes buffered behind the request header and the client's
    first packet, if there are any, leave as one data frame without the header; then the server
    gets one data frame per client read, a pong per ping and an end-of-request when the client
    closes.  The server's stream is whole frames (data, pings, the end-of-request) and the bytes
    that cancelled reads have taken, which are lost: the client gets the data of the whole frames in
    order, and nothing of the lost bytes.  The call returns the byte counts of both directions
    at the server's end-of-request and waits until then.  If no read is cut off, the whole frames
    are the server's frames. *)
Theorem client_relay_complete {St I : Type} `{!AsyncIO St, !AsyncIOLaws St, !AsyncIO I, !AsyncIOLaws I}
    (outbuf data : list Z) (first : option (list Z)) (n : nat) (e : ending) (evs : list client_event)
    (ps : list piece) (out : list Frame) (sent received rest : list Z) (r : client_relay St I) :
  trojan_header_len outbuf = Ok n ->
  data = drop n (outbuf ++ take (room (length outbuf)) (default [] first)) -> sendable (Data data) ->
  client_runs e false evs ps sent received out ->
  writable (session r) -> writable (inbound r) -> incoming (session r) = spell ps ++ rest ->
  received = data_of (frames_of ps) /\ sent = data_of out
  /\ (forall fs, ps = Whole <$> fs -> spell ps = concat (wire <$> fs) /\ received = data_of fs)
  /\ exists r', relay_tcp_frames (Some outbuf) first evs r
      = (result e (Z.of_nat (length (data ++ sent)), Z.of_nat (length received)), r')
    /\ outgoing (session r') = outgoing (session r) ++ concat (wire <$> first_frames data ++ out)
    /\ outgoing (inbound r') = outgoing (inbound r) ++ received
    /\ incoming (session r') = rest.
Proof.
  intros Hn Hd Hf Hruns Hws Hwi Hi. destruct (client_runs_data_of _ _ _ _ _ _ _ Hruns) as [Hrcv Hsent].
  split_and!; [done..| |by eapply relay_tcp_frames_runs].
  intros fs ->. by rewrite spell_whole, Hrcv, frames_of_whole.
Qed.

(** C39: a pooled attempt accounts for its session.  Run without interference, whatever the
    outcome (failed checkout, failed or refused negotiation, failed open request, failed or
    complete relay), [checked_out] is what it was, and only a complete relay can put a session
    into the queue.  The exception is an open request that cannot be built: that early return
    leaves the session counted as checked out for ever. *)
Theorem reusable_accounting {St I : Type} `{!AsyncIO St, !AsyncIO I} (config : ReuseConfig)
    (env : call_env (St:=St)) (outbuf first : option (list Z)) (evs : list client_event)
    (w w' : client_world St I) (r : res reuse_error (Z * Z)) :
  env_others env = id -> env_others2 env = id -> env_others3 env = id ->
  0 <= Pool.checked_out (Pool.inner (pool w)) ->
  relay_tcp_reusable config env outbuf first evs w = (r, w') ->
  match r with
  | Ok _ => Pool.checked_out (Pool.inner (pool w')) = Pool.checked_out (Pool.inner (pool w))
  | Err (BadHeader _) =>
      Pool.checked_out (Pool.inner (pool w')) = Pool.checked_out (Pool.inner (pool w)) + 1
  | Err _ =>
      Pool.checked_out (Pool.inner (pool w')) = Pool.checked_out (Pool.inner (pool w))
      /\ Pool.idle (Pool.inner (pool w')) `prefix_of` Pool.idle (Pool.inner (pool w))
  | Panic | Pending => True
  end.
Proof.
  intros H1 H2 H3 H0 Hr.
  destruct (relay_tcp_reusable_settled config env outbuf first evs w r w' H1 H2 H3 H0 Hr)
    as (Hacc & Hbad & Hidle).
  destruct r as [x|e| |]; [by apply Hacc| |done..]. destruct e; try (split; [by apply Hacc|by apply Hidle]).
  by eapply Hbad.
Qed.

(** The retry of [relay_tcp_remote] loses payload.  When the pooled session fails after
    client data was already forwarded, the one-shot connection is given the request header again
    and whatever the client sends next, but not the data the failed attempt had taken from the
    client: the proxied connection goes on, reported as successful, with those bytes missing. *)
Theorem retry_drops_payload {St I : Type} `{!AsyncIO St, !AsyncIOLaws St, !AsyncIO I, !AsyncIOLaws I}
    (config : ReuseConfig) (env : call_env (St:=St)) (endpoint : string)
    (outbuf d first2 later rest : list Z) (request : Frame) (reason : Z) (copy : copier I St)
    (s : Pool.PooledSession St) (p1 : Pool.SessionPool St) (oneshot : St) (w : client_world St I) :
  env_others env = id -> env_others2 env = id -> env_others3 env = id ->
  Pool.checkout config (env_now env) (env_connect_now env) (env_connect env) id id (pool w) = (Ok s, p1) ->
  0 <= Pool.checked_out (Pool.inner p1) ->
  Pool.session_reuse_count s <> 0 ->
  writable (Pool.stream s) -> incoming (Pool.stream s) = wire (Reset reason) ++ rest -> is_u8 reason ->
  trojan_header_len outbuf = Ok (length outbuf) ->
  open_request_from_trojan_header (Some outbuf) = Ok request -> sendable request ->
  Z.of_nat (length outbuf + length first2) <= MAX_FIRST_PACKET_SIZE ->
  d <> [] -> sendable (Data d) -> incoming (client w) = first2 ++ later ->
  writable oneshot -> (forall streams, copy streams = (Ok (0, 0), streams)) ->
  exists o' w', relay_tcp_remote config env endpoint true (Some outbuf) None
      [InboundRead 0 (Ok d); ServerFrame] (Ok oneshot) (Some (Ok (length first2))) copy w
      = (Ok ((Z.of_nat (length first2), 0), Some o'), w')
    /\ outgoing o' = outgoing oneshot ++ outbuf ++ first2.
Proof.
  intros Ho1 Ho2 Ho3 Hk Hp Hrc Hws Hi Hu Hn Hreq Hfreq Hmax Hne Hf Hic Hwo Hcopy.
  destruct (reusable_reset config env outbuf d reason rest request s p1 w) as (e & w1 & Hr & Hcl); [done..|].
  apply (attempt_eq (E':=relay_error)) in Hr. unfold relay_tcp_remote. run Hr.
  match goal with |- context [(?m ≫= _) w1] =>
    assert (exists w2, m w1 = (Ok tt, w2) /\ client w2 = client w1) as (w2 & Hw2 & Hcl2) by (by eexists) end.
  run Hw2. cbn [map_err]. rewrite bind_lift.
  rewrite (bind_ok get _ _ _ _ eq_refl). rewrite Hcl2, Hcl.
  destruct (first_packet_sent outbuf (Some (length first2)) (client w) oneshot)
    as (d' & i' & o' & Hfp & Hl & Hd & _ & Ho' & _); [lia|cbn; rewrite Hic; len|done|].
  assert (d' = first2) as ->.
  { cbn in Hl. rewrite Nat.min_l in Hl by (unfold room; lia). rewrite Hic in Hd.
    by apply app_inj_1 in Hd as [-> _]. }
  assert (relay_tcp_with (Some outbuf) (Some (Ok (length first2))) copy (client w, oneshot)
    = (Ok (Z.of_nat (length first2), 0), (i', o'))) as ->.
  { unfold relay_tcp_with. cbn in Hfp. run Hfp. unfold prog_map_err, mbind, prog_bind. by rewrite Hcopy. }
  do 2 eexists. split; [|exact Ho']. by rewrite (bind_ok (modify _) _ _ _ tt eq_refl).
Qed.

(** The server's first data frame is cut off after four bytes: the rest of it is the ping. *)
Lemma client_relay_complete_witness :
  let outbuf := [1; 1; 10; 0; 0; 1; 0; 80; 13; 10] in
  let cut := take 4 (wire (Data (8 :: wire (Ping 4)))) in
  let r := ClientRelay (open_with (concat (wire <$> [Data (8 :: wire (Ping 4)); Data [9]; EndRequest 0]) ++ [6]))
             (open_with []) 0 0 false in
  exists r', relay_tcp_frames (Some outbuf) (Some [71; 69])
      [InboundRead 4 (Ok [84]); ServerFrame; InboundRead 0 (Ok []); ServerFrame; ServerFrame] r
      = (Ok (3, 1), r')
    /\ outgoing (session r') = wire (Data [71; 69]) ++ concat (wire <$> [Data [84]; Pong 4; EndRequest 0])
    /\ outgoing (inbound r') = [9] /\ incoming (session r') = [6].
Proof.
  intros outbuf cut r.
  assert (client_runs Complete false
    [InboundRead 4 (Ok [84]); ServerFrame; InboundRead 0 (Ok []); ServerFrame; ServerFrame]
    [Lost cut; Whole (Ping 4); Whole (Data [9]); Whole (EndRequest 0)] [84] [9]
    [Data [84]; Pong 4; EndRequest 0]) as Hruns.
  { apply (cr_chunk cut 84 [] _ _ _ []); [by_compute|]. apply cr_ping; [by_compute|].
    apply (cr_eof []). apply (cr_data _ _ [9] _ _ _ []); [by_compute|]. apply cr_end. by_compute. }
  destruct (client_relay_complete outbuf [71; 69] (Some [71; 69]) 10 _ _ _ _ _ _ [6] r
    ltac:(reflexivity) ltac:(reflexivity) ltac:(by_compute) Hruns (open_writable _) (open_writable _) ltac:(reflexivity))
    as (_ & _ & _ & r' & Hr & Hrest).
  exists r'. split; [exact Hr|exact Hrest].
Defined.

(** A pool that holds one idle session to a server about to reset it. *)
Definition demo_session : Pool.PooledSession duplex := {|
  Pool.stream := open_with (wire (Reset 7));
  Pool.use_count := 1; Pool.created_at := 0; Pool.last_used := 0; Pool.session_reuse_count := 0;
|}.
Definition demo_world : client_world duplex duplex := ClientWorld
  {| Pool.inner := {| Pool.idle := [demo_session]; Pool.checked_out := 0; Pool.closed := false;
                      Pool.checkout_count := 1; Pool.reuse_count := 0 |};
     Pool.shutdown := false; Pool.log := []; Pool.notified := 0 |}
  (open_with []) tracker_new.
Definition demo_env : call_env (St:=duplex) := CallEnv 1 1 2 Pending id id id.

Lemma reusable_accounting_witness :
  let r := relay_tcp_reusable default_server_reuse_config demo_env
             (Some [1; 1; 10; 0; 0; 1; 0; 80; 13; 10]) None [ServerFrame] demo_world in
  (exists e, r.1 = Err (RelayFailed e))
  /\ Pool.checked_out (Pool.inner (pool r.2)) = 0
  /\ Pool.idle (Pool.inner (pool r.2)) `prefix_of` [demo_session].
Proof.
  intros r.
  pose proof (reusable_accounting default_server_reuse_config demo_env
    (Some [1; 1; 10; 0; 0; 1; 0; 80; 13; 10]) None [ServerFrame] demo_world r.2 r.1
    eq_refl eq_refl eq_refl ltac:(vm_compute; congruence) (surjective_pairing r)) as H.
  split; [|exact H]. eexists. reflexivity.
Defined.

Lemma retry_drops_payload_witness :
  exists o' w', relay_tcp_remote default_server_reuse_config demo_env "s" true
      (Some [1; 1; 10; 0; 0; 1; 0; 80; 13; 10]) None [InboundRead 0 (Ok [71; 69; 84]); ServerFrame]
      (Ok (open_with [])) (Some (Ok 1%nat)) (fun streams => (Ok (0, 0), streams))
      (set_client (open_with [32]) demo_world)
      = (Ok ((Z.of_nat (length [32]), 0), Some o'), w')
    /\ outgoing o' = outgoing (open_with []) ++ [1; 1; 10; 0; 0; 1; 0; 80; 13; 10] ++ [32].
Proof.
  eapply (retry_drops_payload default_server_reuse_config demo_env "s"
    [1; 1; 10; 0; 0; 1; 0; 80; 13; 10] [71; 69; 84] [32] [] [] (OpenRequest 1 1 [10; 0; 0; 1] 80) 7
    (fun streams => (Ok (0, 0), streams)) _ _ (open_with []) (set_client (open_with [32]) demo_world));
    first [reflexivity | by_compute | discriminate | intros; reflexivity].
Defined.
