(* ===== verification/Http.v ===== *)
(** * The HTTP front end (shuttle/src/client/plain.rs)

    [handle_connection_http] up to the relay: reading the request head, the headers of the proxy,
    CONNECT, absolute-form requests, and the answers to everything else.  The head is parsed by
    the [httparse] crate, an argument of the model.  Strings are lists of UTF-8 bytes. *)
From S2P Require Import Prelude.
From stdpp Require Import strings pretty.
From S2P Require Import Stream Opt Url Trojan Plain.
Open Scope Z_scope.

(** ** The standard library's text functions *)

Definition to_ascii_lowercase (b : Z) : Z := if (65 <=? b) && (b <=? 90) then b + 32 else b.
Definition eq_ignore_ascii_case (a b : list Z) : bool :=
  bool_decide (to_ascii_lowercase <$> a = to_ascii_lowercase <$> b).

Definition between (lo hi b : Z) : bool := (lo <=? b) && (b <=? hi).
Definition continuation : Z -> bool := between 128 191.

(** [std::str::from_utf8]: whether the bytes are well-formed UTF-8 (Unicode, table 3-7). *)
Fixpoint from_utf8 (s : list Z) : bool :=
  match s with
  | [] => true
  | a :: s1 =>
      if between 0 127 a then from_utf8 s1 else
      match s1 with
      | [] => false
      | b :: s2 =>
          if between 194 223 a && continuation b then from_utf8 s2 else
          match s2 with
          | [] => false
          | c :: s3 =>
              if ((a =? 224) && between 160 191 b || between 225 236 a && continuation b
                  || (a =? 237) && between 128 159 b || between 238 239 a && continuation b)
                 && continuation c
              then from_utf8 s3 else
              match s3 with
              | [] => false
              | d :: s4 =>
                  if ((a =? 240) && between 144 191 b || between 241 243 a && continuation b
                      || (a =? 244) && between 128 143 b)
                     && continuation c && continuation d
                  then from_utf8 s4 else false
              end
          end
      end
  end.

(** [&s[..n]] and [&s[n..]] of a string: panic off a character boundary. *)
Definition str_split {E} (s : list Z) (n : nat) : res E (list Z * list Z) :=
  if is_char_boundary s n then Ok (take n s, drop n s) else Panic.

(** ** [httparse] *)

Abbreviation header := (list Z * list Z)%type.

(** [httparse::Request] after a complete parse, whose [method], [path] and [version] are there;
    [body] is the offset of what follows the head. *)
Record http_request := HttpRequest {
  body : nat;
  method : list Z;
  path : list Z;
  version : Z;
  headers : list header;
}.
Inductive parsed := Complete (r : http_request) | Partial | Unparsable.

Inductive http_error :=
| HttpIo (e : io_error)
| Incomplete                (** "incompleted http request" *)
| MalformedHead             (** [httparse::Error] *)
| InvalidHost
| InvalidAddress
| NotProxied
| InvalidUrl
| UnsupportedMethod
| TunnelFailed (e : io_error).

(** How the connection goes on: with [relay_tcp_remote], or over a tunnel that was opened on the
    spot and to which [initlen] bytes of request were written. *)
Inductive http_plan (S : Type) :=
| RemoteRelay (outbuf : list Z)
| DirectRelay (outbound : S) (initlen : Z).
Arguments RemoteRelay {_} _.
Arguments DirectRelay {_} _ _.

(** ** Requests *)

Definition CRLF_bytes : list Z := [13; 10].
Definition HTTP_200_CONNECTION_ESTABLISHED : list Z :=
  byte_string "HTTP/1.1 200 Connection Established" ++ CRLF_bytes
  ++ byte_string "X-Powered-By: noisy-shuttle" ++ CRLF_bytes ++ CRLF_bytes.
Definition HTTP_400_BAD_REQUEST : list Z :=
  byte_string "HTTP/1.1 400 Bad Request" ++ CRLF_bytes ++ CRLF_bytes
  ++ byte_string "<html><h1>Not Proxied Request</h1>Powered by noisy-shuttle</html>".
Definition HTTP_405_METHOD_NOT_ALLOWED : list Z :=
  byte_string "HTTP/1.1 405 Method Not Allowed" ++ CRLF_bytes ++ CRLF_bytes
  ++ byte_string "<html><h1>Method Not Allowed</h1>Powered by noisy-shuttle</html>".

(** A header for the proxy itself. *)
Definition is_proxy_header {E} (name : list Z) : res E bool :=
  if (6 <=? length name)%nat then
    prefix ← str_split name 6;
    Ok (eq_ignore_ascii_case prefix.1 (byte_string "Proxy-"))
  else Ok false.

(** The [filter_map] over the headers: those of the proxy are dropped, the last [Host] is noted. *)
Fixpoint filter_headers {E} (hs : list header) : res E (list header * option (list Z)) :=
  match hs with
  | [] => Ok ([], None)
  | h :: hs =>
      is_proxy_header h.1 ≫= fun proxy : bool =>
      filter_headers hs ≫= fun rest : list header * option (list Z) =>
      Ok (if proxy then rest
          else (h :: rest.1,
                match rest.2 with
                | Some host => Some host
                | None => if eq_ignore_ascii_case h.1 (byte_string "Host") then Some h.2 else None
                end))
  end.

Definition header_line (h : header) : list Z :=
  h.1 ++ byte_string ": " ++ (if from_utf8 h.2 then h.2 else []) ++ CRLF_bytes.

(** The head the code writes, in origin form. *)
Definition rewritten_head (method path : list Z) (hver : Z) (hs : list header) : list Z :=
  method ++ byte_string " " ++ path ++ byte_string " HTTP/1." ++ byte_string (pretty hver) ++ CRLF_bytes
  ++ concat (header_line <$> hs) ++ CRLF_bytes.

Definition proxied_methods : list (list Z) :=
  byte_string <$> ["GET"; "POST"; "OPTIONS"; "HEAD"; "PUT"; "DELETE"; "TRACE"; "PATCH"]%string.

Section http.
(** [uninit n] is what [vec_uninit(n)] contains; [http_parse] is [httparse::Request::parse];
    [addr_from_str] is [socks5_protocol::Address::from_str]. *)
Context {I St : Type} `{!AsyncIO I, !AsyncIO St, !Socks5 St} (uninit : nat -> list Z)
  (http_parse : list Z -> parsed) (addr_from_str : list Z -> option Addr).

Definition reply (b : list Z) : prog I http_error unit := prog_map_err HttpIo (write_all b).

(** The encoded request at the start of a fresh buffer, cut to its length. *)
Definition trojan_prefix {E} (dest_addr : Addr) : res E (list Z) :=
  '(buf, n) ← encode_request (Request Connect dest_addr) (uninit (Z.to_nat MAX_FIRST_PACKET_SIZE));
  Ok (take n buf).

(** CONNECT: success is reported before anything is connected; what follows the head goes out
    behind the request.  [buf] is [&buf[..end]]. *)
Definition serve_connect (url buf : list Z) (start : nat) : prog I http_error (http_plan St) :=
  match addr_from_str url with
  | None => fail InvalidAddress
  | Some dest_addr =>
      _ ← reply HTTP_200_CONNECTION_ESTABLISHED;
      prefix ← lift_res (trojan_prefix dest_addr);
      rest ← lift_res (slice buf start (length buf));
      mret (RemoteRelay (prefix ++ rest))
  end.

(** The first bytes for the tunnel of a request in absolute form, and [initlen]. *)
Definition absolute_outbuf {E} (dest_addr : Addr) (text buf : list Z) (start : nat)
    : res E (list Z * Z) :=
  prefix ← trojan_prefix dest_addr;
  rest ← slice buf start (length buf);
  Ok (prefix ++ text ++ rest, Z.of_nat (length text) + Z.of_nat (length rest)).

(** A request in absolute form.  [tunnel] is the outcome of [connector.connect()], used when there
    is no pool. *)
Definition serve_absolute (has_pool : bool) (tunnel : res io_error St) (method url : list Z) (hver : Z)
    (hs : list header) (buf : list Z) (start : nat) : prog I http_error (http_plan St) :=
  if bool_decide (head url = Some slash) then
    _ ← reply HTTP_400_BAD_REQUEST; fail NotProxied
  else
    extracted ← lift_res (extract_host_addr_from_url url);
    match extracted with
    | None => fail InvalidUrl
    | Some (h, port) =>
        if negb (length h <? 256)%nat then fail InvalidUrl else
        match url_to_relative url with
        | None => fail InvalidUrl
        | Some path =>
            '(outbuf, initlen) ←
              lift_res (absolute_outbuf (Domain h port) (rewritten_head method path hver hs) buf start);
            if has_pool then mret (RemoteRelay outbuf)
            else
              snowys ← lift_res (map_err TunnelFailed tunnel);
              match write_all outbuf snowys with
              | (Ok _, snowys) => mret (DirectRelay snowys initlen)
              | (Err e, _) => fail (HttpIo e)
              | (Panic, _) => panic
              | (Pending, _) => pending
              end
        end
    end.

(** A complete head. *)
Definition serve_request (has_pool : bool) (tunnel : res io_error St) (buf : list Z) (req : http_request)
    : prog I http_error (http_plan St) :=
  '(hs, host) ← lift_res (filter_headers (headers req));
  if negb (from_utf8 (default [] host)) then fail InvalidHost
  else if bool_decide (method req = byte_string "CONNECT") then
    serve_connect (path req) buf (body req)
  else if bool_decide (method req ∈ proxied_methods) then
    serve_absolute has_pool tunnel (method req) (path req) (version req) hs buf (body req)
  else
    _ ← reply HTTP_405_METHOD_NOT_ALLOWED; fail UnsupportedMethod.

(** The reading loop.  Every read starts at the beginning of the buffer while [end] grows, so what
    a second read is parsed with is laid over the first.  [reads] says how much each read returns,
    no more than the buffer holds; nothing is the end of the stream. *)
Fixpoint read_head (has_pool : bool) (tunnel : res io_error St) (buf : list Z) (end_ : nat)
    (reads : list (res io_error nat)) : prog I http_error (http_plan St) :=
  match reads with
  | [] => pending
  | r :: reads =>
      n ← lift_res (map_err HttpIo r);
      let n := Nat.min n (length buf) in
      if (n =? 0)%nat then fail Incomplete else
      data ← prog_map_err HttpIo (read_exact n);
      buf ← lift_res (write_slice buf 0 data);
      let end_ := (end_ + n)%nat in
      head ← lift_res (slice buf 0 end_);
      match http_parse head with
      | Complete req => serve_request has_pool tunnel head req
      | Partial => read_head has_pool tunnel buf end_ reads
      | Unparsable => fail MalformedHead
      end
  end.

(** [handle_connection_http] up to the relay. *)
Definition http_front (has_pool : bool) (tunnel : res io_error St) (reads : list (res io_error nat))
    : prog I http_error (http_plan St) :=
  read_head has_pool tunnel (uninit (Z.to_nat MAX_FIRST_PACKET_SIZE)) 0 reads.
End http.

(** ** Specification *)

Definition is_ascii (s : list Z) : Prop := Forall (fun b => 0 <= b < 128) s.

(** A header of the proxy, by its name. *)
Definition proxy_header (h : header) : bool :=
  eq_ignore_ascii_case (take 6 h.1) (byte_string "Proxy-").
Definition host_header (h : header) : bool := eq_ignore_ascii_case h.1 (byte_string "Host").

(** The headers that are passed on, and the host they name. *)
Definition kept_headers (hs : list header) : list header := filter (fun h => proxy_header h = false) hs.
Definition last_host (hs : list header) : option (list Z) :=
  snd <$> last (filter (fun h => host_header h = true) (kept_headers hs)).

(** The text parsed after two reads: the second laid over the first. *)
Definition overlay (u a b : list Z) : list Z :=
  b ++ take (length a) (drop (length b) (a ++ drop (length a) u)).

(** ** Proofs *)

Lemma eq_ignore_ascii_case_length a b : length a <> length b -> eq_ignore_ascii_case a b = false.
Proof.
  intros Hl. unfold eq_ignore_ascii_case. apply bool_decide_false. intros Heq.
  apply (f_equal length) in Heq. by rewrite !length_fmap in Heq.
Qed.

Lemma ascii_boundary s n : is_ascii s -> (n <= length s)%nat -> is_char_boundary s n = true.
Proof.
  intros Ha Hn. unfold is_char_boundary. destruct (s !! n) as [b|] eqn:Hb.
  - eapply Forall_lookup in Ha; [|exact Hb]. apply negb_true_iff, andb_false_iff. left.
    apply Z.leb_gt. simpl in Ha. lia.
  - apply lookup_ge_None in Hb. apply Nat.eqb_eq. lia.
Qed.

Lemma is_proxy_header_ok {E} h : is_ascii h.1 -> is_proxy_header h.1 = Ok (proxy_header h) :> res E _.
Proof.
  intros Ha. unfold is_proxy_header, proxy_header, str_split.
  destruct (Nat.leb_spec 6 (length h.1)).
  - by rewrite ascii_boundary by done.
  - by rewrite eq_ignore_ascii_case_length by
      (change (length (byte_string "Proxy-")) with 6%nat; rewrite length_take; lia).
Qed.

Lemma filter_headers_ok {E} hs : Forall (fun h => is_ascii h.1) hs ->
  filter_headers hs = Ok (kept_headers hs, last_host hs) :> res E _.
Proof.
  unfold kept_headers, last_host. induction 1 as [|h hs Ha _ IH]; [done|]. cbn [filter_headers].
  rewrite is_proxy_header_ok by done. cbn [mbind res_bind]. rewrite IH. cbn [mbind res_bind].
  unfold kept_headers. rewrite filter_cons. destruct (proxy_header h); cbn [fst snd].
  - by rewrite decide_False by done.
  - rewrite decide_True by done. rewrite filter_cons. do 2 f_equal.
    fold (host_header h). set (l := filter _ (filter _ hs)).
    case_decide as Hh.
    + rewrite Hh, last_cons. by destruct (last l).
    + destruct (host_header h); [done|]. by destruct (last l).
Qed.

(** The domain address of a host of a URL. *)
Definition domain_wire (host : list Z) (port : Z) : list Z :=
  3 :: Z.of_nat (length host) :: host ++ to_be_bytes 2 port.

Lemma domain_wire_ok {St : Type} `{!AsyncIO St, !Socks5 St, !Socks5Laws St} host port : (length host < 256)%nat ->
  addr_bytes (St:=St) (Domain host port) = Some (domain_wire host port)
  /\ (length (domain_wire host port) <= 260)%nat.
Proof.
  intros Hl. rewrite addr_bytes_domain by lia. split; [done|]. unfold domain_wire. len.
Qed.

Section http_proofs.
Context {I St : Type} `{!AsyncIO I, !AsyncIOLaws I, !AsyncIO St, !AsyncIOLaws St, !Socks5 St, !Socks5Laws St}.
Context (uninit : nat -> list Z) (http_parse : list Z -> parsed) (addr_from_str : list Z -> option Addr).
Hypothesis uninit_length : forall n, length (uninit n) = n.
#[local] Set Default Proof Using "All".
Implicit Types i : I.

Abbreviation front := (http_front (St:=St) uninit http_parse addr_from_str).
Abbreviation bufsize := (Z.to_nat MAX_FIRST_PACKET_SIZE).

Lemma trojan_prefix_ok {E} a b :
  addr_bytes (St:=St) a = Some b -> (length b <= 260)%nat ->
  trojan_prefix (St:=St) uninit a = Ok (request_bytes (Request Connect a) b) :> res E _.
Proof.
  intros Hb Hl. unfold trojan_prefix.
  rewrite (encode_request_ok (Request Connect a) b) by (try done; rewrite uninit_length;
    unfold request_bytes, MAX_FIRST_PACKET_SIZE; len).
  cbn [mbind res_bind]. by rewrite take_app_length.
Qed.

(** How the front end goes on with the text it parses. *)
Definition go_on has_pool (tunnel : res io_error St) (head buf : list Z) (reads : list (res io_error nat))
    : prog I http_error (http_plan St) :=
  match http_parse head with
  | Complete req => serve_request uninit addr_from_str has_pool tunnel head req
  | Partial => read_head uninit http_parse addr_from_str has_pool tunnel buf (length head) reads
  | Unparsable => fail MalformedHead
  end.

(** One read into a buffer with room for it behind the [end_] bytes before. *)
Lemma read_head_step has_pool (tunnel : res io_error St) buf end_ data more reads i :
  length buf = bufsize -> data <> [] -> (length data <= bufsize)%nat ->
  incoming i = data ++ more ->
  let buf' := data ++ drop (length data) buf in
  exists i1, incoming i1 = more /\ only_read i i1
  /\ read_head uninit http_parse addr_from_str has_pool tunnel buf end_ (Ok (length data) :: reads) i
  = if decide (end_ + length data <= bufsize)%nat
    then go_on has_pool tunnel (take (end_ + length data) buf') buf' reads i1
    else (Panic, i1).
Proof.
  intros Hbuf Hne Hlen Hi buf'. cbn [read_head map_err].
  destruct (read_exact_app (length data) data more i Hi eq_refl) as (i1 & Hr & Hi1 & Ho).
  exists i1. split; [done|]. split; [done|].
  apply (prog_map_err_eq HttpIo) in Hr. rewrite bind_lift, Nat.min_l by lia.
  destruct (Nat.eqb_spec (length data) 0) as [H0|_]; [by destruct data|]. run Hr.
  assert (write_slice buf 0 data = Ok buf' :> res http_error _) as ->.
  { unfold write_slice, buf'. by rewrite decide_True by lia. }
  rewrite bind_lift. assert (length buf' = bufsize) as Hb' by (unfold buf'; len).
  case_decide as Hend.
  - rewrite slice_ok by lia. rewrite bind_lift, drop_0, Nat.sub_0_r. unfold go_on.
    rewrite length_take, Nat.min_l by lia. by destruct (http_parse _).
  - unfold slice. by rewrite decide_False by lia.
Qed.

(** A head that arrives in the first read. *)
Lemma front_one_read has_pool tunnel data more req reads i :
  data <> [] -> (length data <= bufsize)%nat -> http_parse data = Complete req ->
  incoming i = data ++ more ->
  exists i1, incoming i1 = more /\ only_read i i1
    /\ front has_pool tunnel (Ok (length data) :: reads) i
       = serve_request uninit addr_from_str has_pool tunnel data req i1.
Proof.
  intros Hne Hlen Hp Hi.
  destruct (read_head_step has_pool tunnel (uninit bufsize) 0 data more reads i (uninit_length _) Hne Hlen Hi)
    as (i1 & Hi1 & Ho & Heq).
  exists i1. split; [done|]. split; [done|]. unfold http_front. rewrite Heq, decide_True by lia.
  unfold go_on. cbn [Nat.add]. by rewrite take_app_length, Hp.
Qed.

(** A second read when the first was not enough. *)
Lemma front_two_reads has_pool tunnel a b more reads i :
  a <> [] -> b <> [] -> (length a <= bufsize)%nat -> (length b <= bufsize)%nat ->
  http_parse a = Partial -> incoming i = a ++ b ++ more ->
  exists i2, incoming i2 = more /\ only_read i i2
  /\ front has_pool tunnel (Ok (length a) :: Ok (length b) :: reads) i
  = if decide (length a + length b <= bufsize)%nat then
      go_on has_pool tunnel (overlay (uninit bufsize) a b)
        (b ++ drop (length b) (a ++ drop (length a) (uninit bufsize))) reads i2
    else (Panic, i2).
Proof.
  intros Ha Hb Hla Hlb Hp Hi.
  destruct (read_head_step has_pool tunnel (uninit bufsize) 0 a (b ++ more) (Ok (length b) :: reads) i
    (uninit_length _) Ha Hla Hi) as (i1 & Hi1 & Ho1 & Heq1).
  unfold http_front. rewrite Heq1, decide_True by lia. unfold go_on. cbn [Nat.add].
  rewrite take_app_length, Hp. set (u1 := a ++ drop (length a) (uninit bufsize)).
  assert (length u1 = bufsize) as Hu by (unfold u1; rewrite length_app, length_drop, uninit_length; lia).
  destruct (read_head_step has_pool tunnel u1 (length a) b more reads i1 Hu Hb Hlb Hi1) as (i2 & Hi2 & Ho2 & Heq2).
  exists i2. split; [done|]. split; [by etrans|]. rewrite Heq2. case_decide; [|done].
  assert (take (length a + length b) (b ++ drop (length b) u1) = overlay (uninit bufsize) a b) as ->; [|done].
  unfold overlay. fold u1. rewrite Nat.add_comm. apply take_app_add.
Qed.

Lemma reply_ok b i : writable i -> exists i', reply b i = (Ok tt, i')
  /\ outgoing i' = outgoing i ++ b /\ incoming i' = incoming i /\ ends i' = ends i /\ writable i'.
Proof.
  intros Hw. destruct (write_all_writable b i Hw) as (i' & H & ? & ? & ? & ?).
  exists i'. unfold reply. by rewrite (prog_map_err_eq HttpIo _ _ _ _ H).
Qed.

(** A request whose headers the handler can read. *)
Definition readable (req : http_request) : Prop :=
  Forall (fun h => is_ascii h.1) (headers req) /\ from_utf8 (default [] (last_host (headers req))) = true.

Lemma serve_request_readable has_pool (tunnel : res io_error St) buf req i :
  readable req ->
  serve_request uninit addr_from_str has_pool tunnel buf req i
  = (if bool_decide (method req = byte_string "CONNECT") then
       serve_connect uninit addr_from_str (path req) buf (body req)
     else if bool_decide (method req ∈ proxied_methods) then
       serve_absolute uninit has_pool tunnel (method req) (path req) (version req)
         (kept_headers (headers req)) buf (body req)
     else _ ← reply HTTP_405_METHOD_NOT_ALLOWED; fail UnsupportedMethod) i.
Proof.
  intros [Hascii Hhost]. unfold serve_request. rewrite filter_headers_ok by done.
  rewrite bind_lift. cbv beta iota. by rewrite Hhost.
Qed.

Lemma absolute_outbuf_ok {E} a b text buf start :
  addr_bytes (St:=St) a = Some b -> (length b <= 260)%nat -> (start <= length buf)%nat ->
  absolute_outbuf (St:=St) uninit a text buf start
  = Ok (request_bytes (Request Connect a) b ++ text ++ drop start buf,
        Z.of_nat (length text) + Z.of_nat (length (drop start buf))) :> res E _.
Proof.
  intros Hb Hl Hs. unfold absolute_outbuf. rewrite (trojan_prefix_ok a b) by done. cbn [mbind res_bind].
  rewrite slice_ok by lia. cbn [mbind res_bind]. rewrite take_ge; [done|]. rewrite length_drop. lia.
Qed.

(** What a request [method scheme://host/path] without an explicit port turns into. *)
Lemma serve_absolute_ok has_pool (tunnel : res io_error St) (s : St) method scheme host rel port hver hs buf start i :
  default_port scheme = Some port -> slash ∉ host -> colon ∉ host -> (length host < 256)%nat ->
  (exists k, rel = slash :: k) -> (start <= length buf)%nat ->
  (has_pool = false -> tunnel = Ok s /\ writable s) ->
  let url := (scheme ++ [colon]) ++ [slash; slash] ++ host ++ rel in
  let text := rewritten_head method rel hver hs in
  let outbuf := request_bytes (Request Connect (Domain host port)) (domain_wire host port)
                ++ text ++ drop start buf in
  exists plan, serve_absolute uninit has_pool tunnel method url hver hs buf start i = (Ok plan, i)
  /\ match plan with
     | RemoteRelay b => has_pool = true /\ b = outbuf
     | DirectRelay s' n => has_pool = false /\ outgoing s' = outgoing s ++ outbuf
         /\ n = Z.of_nat (length text + length (drop start buf))
     end.
Proof.
  intros Hport Hslash Hcolon Hlen [k ->] Hstart Htunnel url text outbuf.
  destruct (url_components (E:=http_error) scheme host (slash :: k) port Hport Hslash Hcolon) as [Hex Hrel];
    [right; by eexists|]. fold url in Hex, Hrel.
  destruct (domain_wire_ok host port Hlen) as [Hb Hlb].
  unfold serve_absolute. rewrite bool_decide_false.
  2: { unfold url, default_port in *. repeat case_bool_decide; simplify_eq; destruct_or?; subst; done. }
  rewrite Hex, bind_lift. destruct (Nat.ltb_spec (length host) 256); [|lia]. cbn [negb].
  rewrite Hrel. rewrite decide_False by done.
  rewrite (absolute_outbuf_ok _ (domain_wire host port)), bind_lift by done. cbv beta iota.
  destruct has_pool; [by eexists|]. destruct (Htunnel eq_refl) as [-> Hw]. cbn [map_err]. rewrite bind_lift.
  destruct (write_all_writable outbuf s Hw) as (s' & Hw' & Ho & _).
  fold text. fold outbuf. rewrite Hw'. eexists. split; [reflexivity|]. split_and!; [done|done|lia].
Qed.
End http_proofs.

(** ** Correctness *)

(** The URLs that are refused: what is extracted of them, or that no relative reference is. *)
Lemma url_refused {E} (url : list Z) :
  (exists scheme host port rest, (slash ∉ scheme) /\ (slash ∉ host) /\ (slash ∉ port) /\ slash_or_end rest
     /\ url = (scheme ++ [colon]) ++ [slash; slash] ++ (host ++ colon :: port) ++ rest)
  \/ (exists scheme host port, default_port scheme = Some port /\ (slash ∉ host) /\ (colon ∉ host)
     /\ url = (scheme ++ [colon]) ++ [slash; slash] ++ host ++ [])
  \/ (exists x, head url <> Some slash /\ (extract_host_addr_from_url url = Ok x :> res E _)
     /\ (x = None \/ url_to_relative url = None)) ->
  exists x, head url <> Some slash /\ (extract_host_addr_from_url url = Ok x :> res E _)
    /\ (x = None \/ url_to_relative url = None).
Proof.
  intros [(scheme & host & port & rest & Hs & Hh & Hp & Hend & ->)|[(scheme & host & port & Hport & Hh & Hc & ->)|H]];
    [| |done].
  - exists None. split; [|split; [by apply url_explicit_port|by left]].
    destruct scheme as [|c scheme]; [done|]. intros [= ->]. apply Hs. by left.
  - destruct (url_components (E:=E) scheme host [] port Hport Hh Hc (or_introl eq_refl)) as [H1 H2].
    exists (Some (host, port)). split; [|split; [exact H1|right; exact H2]].
    destruct scheme as [|c scheme]; [done|]. intros [= ->]. revert Hport. unfold default_port.
    repeat case_bool_decide; destruct_or?; simplify_eq; done.
Qed.

Lemma serve_absolute_refused {I St : Type} `{!AsyncIO I, !AsyncIO St, !Socks5 St} (uninit : nat -> list Z)
    (addr_from_str : list Z -> option Addr) has_pool (tunnel : res io_error St) method url hver hs buf start x (i : I) :
  head url <> Some slash -> extract_host_addr_from_url url = Ok x :> res http_error _ ->
  x = None \/ url_to_relative url = None ->
  serve_absolute uninit has_pool tunnel method url hver hs buf start i = (Err InvalidUrl, i).
Proof.
  intros Hhead Hx Hnone. unfold serve_absolute. rewrite bool_decide_false by done.
  rewrite Hx, bind_lift. destruct x as [[h port]|]; [|done]. destruct Hnone as [?|Hnone]; [done|].
  rewrite Hnone. by destruct (length h <? 256)%nat.
Qed.

Section http_claims.
Context {I St : Type} `{!AsyncIO I, !AsyncIOLaws I, !AsyncIO St, !AsyncIOLaws St, !Socks5 St, !Socks5Laws St}.
Context (uninit : nat -> list Z) (http_parse : list Z -> parsed) (addr_from_str : list Z -> option Addr).
#[local] Set Default Proof Using "All".
Abbreviation front := (http_front (St:=St) uninit http_parse addr_from_str).

(** C8: a request in absolute form.  When its head arrives in one read, with a proxied method and a
    URL [scheme://host/path] without a port, nothing is sent to the client and nothing behind the
    read is consumed; the tunnel gets the trojan-like request for the URL's host and the scheme's
    port, the head in origin form with the headers that are not the proxy's, and whatever followed
    the head.  The server's reader takes exactly the request off these bytes.  Without a pool they
    are written to a fresh tunnel at once, and counted. *)
Theorem http_request_forwarded (has_pool : bool) (tunnel : res io_error St) (s : St) (data more : list Z)
    (req : http_request) (scheme host rel : list Z) (port : Z) (reads : list (res io_error nat)) (i : I) :
  (forall n, length (uninit n) = n) -> incoming i = data ++ more ->
  data <> [] -> (length data <= Z.to_nat MAX_FIRST_PACKET_SIZE)%nat -> http_parse data = Complete req ->
  readable req -> (body req <= length data)%nat -> method req ∈ proxied_methods ->
  path req = (scheme ++ [colon]) ++ [slash; slash] ++ host ++ rel ->
  default_port scheme = Some port -> is_bytes host -> slash ∉ host -> colon ∉ host ->
  (length host < 256)%nat -> (exists k, rel = slash :: k) ->
  (has_pool = false -> tunnel = Ok s /\ writable s) ->
  let text := rewritten_head (method req) rel (version req) (kept_headers (headers req)) in
  exists plan outbuf i', front has_pool tunnel (Ok (length data) :: reads) i = (Ok plan, i')
  /\ incoming i' = more /\ only_read i i'
  /\ match plan with
     | RemoteRelay b => has_pool = true /\ b = outbuf
     | DirectRelay s' n => has_pool = false /\ outgoing s' = outgoing s ++ outbuf
         /\ n = Z.of_nat (length text + length (drop (body req) data))
     end
  /\ (forall (v : St) vmore, incoming v = outbuf ++ vmore ->
     exists v', read_trojan_like_request v = (Ok (Request Connect (Domain host port)), v')
       /\ incoming v' = text ++ drop (body req) data ++ vmore).
Proof.
  intros Huninit Hi Hne Hlen Hparse Hread Hbody Hmethod Hpath Hport Hbytes Hslash Hcolon Hhost Hrel Htunnel text.
  assert (method req <> byte_string "CONNECT") as Hnc.
  { intros Hm. rewrite Hm in Hmethod. revert Hmethod. by_compute. }
  destruct (front_one_read uninit http_parse addr_from_str Huninit has_pool tunnel data more req reads i
    Hne Hlen Hparse Hi) as (i' & Hi' & Ho & Hfront).
  destruct (serve_absolute_ok (I:=I) uninit http_parse addr_from_str Huninit has_pool tunnel s (method req)
    scheme host rel port (version req) (kept_headers (headers req)) data (body req) i' Hport Hslash Hcolon
    Hhost Hrel Hbody Htunnel) as (plan & Hserve & Hplan).
  exists plan. do 2 eexists. split; [|split; [exact Hi'|split; [exact Ho|split; [exact Hplan|]]]].
  - rewrite Hfront. rewrite (serve_request_readable uninit http_parse addr_from_str Huninit) by done.
    rewrite bool_decide_false, bool_decide_true by done. by rewrite Hpath.
  - intros v vmore Hv. destruct (domain_wire_ok (St:=St) host port Hhost) as [Hb _].
    rewrite <- !app_assoc in Hv.
    destruct (read_request_sent (Request Connect (Domain host port)) (domain_wire host port)
      (text ++ drop (body req) data ++ vmore) v) as (v' & Hr & Hiv & _).
    + split; [done|]. unfold default_port in Hport. repeat case_bool_decide; simplify_eq; by_compute.
    + done.
    + exact Hv.
    + exists v'. by split.
Qed.

(** CONNECT.  The client is told of success before anything is connected; the tunnel gets the
    trojan-like request for the address, and what the client sent behind the head. *)
Theorem http_connect_answered (has_pool : bool) (tunnel : res io_error St) (data more : list Z)
    (req : http_request) (a : Addr) (b : list Z) (reads : list (res io_error nat)) (i : I) :
  (forall n, length (uninit n) = n) -> incoming i = data ++ more ->
  data <> [] -> (length data <= Z.to_nat MAX_FIRST_PACKET_SIZE)%nat -> http_parse data = Complete req ->
  readable req -> (body req <= length data)%nat -> method req = byte_string "CONNECT" ->
  addr_from_str (path req) = Some a -> addr_bytes (St:=St) a = Some b -> (length b <= 260)%nat ->
  writable i ->
  exists i', front has_pool tunnel (Ok (length data) :: reads) i
      = (Ok (RemoteRelay (request_bytes (Request Connect a) b ++ drop (body req) data)), i')
    /\ outgoing i' = outgoing i ++ HTTP_200_CONNECTION_ESTABLISHED /\ incoming i' = more /\ writable i'.
Proof.
  intros Huninit Hi Hne Hlen Hparse Hread Hbody Hmethod Ha Hb Hlb Hw.
  destruct (front_one_read uninit http_parse addr_from_str Huninit has_pool tunnel data more req reads i
    Hne Hlen Hparse Hi) as (i1 & Hi1 & (_ & Ho1 & Hw1) & Hfront).
  destruct (reply_ok uninit http_parse addr_from_str Huninit (St:=St) HTTP_200_CONNECTION_ESTABLISHED i1 (Hw1 Hw))
    as (i' & Hreply & Ho & Hi' & _ & Hw').
  exists i'. split_and!; [|congruence|congruence|done].
  rewrite Hfront, (serve_request_readable uninit http_parse addr_from_str Huninit) by done.
  rewrite bool_decide_true by done. unfold serve_connect. rewrite Ha. run Hreply.
  rewrite (trojan_prefix_ok uninit http_parse addr_from_str Huninit (I:=I) a b), bind_lift by done.
  rewrite slice_ok, bind_lift by lia. rewrite take_ge by (rewrite length_drop; lia). done.
Qed.

(** A head that needs two reads is not read.  The second read overwrites the first: with a
    second read no longer than the first, the front end goes on with the same text whatever the
    first [length b] bytes of the request were; and when the two reads do not fit the buffer
    together, the task panics. *)
Theorem split_head_lost (has_pool : bool) (tunnel : res io_error St) (a a' b more : list Z)
    (reads : list (res io_error nat)) (i i' : I) :
  (forall n, length (uninit n) = n) ->
  b <> [] -> (length b <= length a)%nat -> (length a <= Z.to_nat MAX_FIRST_PACKET_SIZE)%nat ->
  length a' = length a -> drop (length b) a' = drop (length b) a ->
  http_parse a = Partial -> http_parse a' = Partial ->
  incoming i = a ++ b ++ more -> incoming i' = a' ++ b ++ more ->
  let schedule := Ok (length a) :: Ok (length b) :: reads in
  exists i1 i1', incoming i1 = more /\ incoming i1' = more
  /\ if decide (length a + length b <= Z.to_nat MAX_FIRST_PACKET_SIZE)%nat then
       exists head buf, take (length b) head = b /\ length head = (length a + length b)%nat
       /\ front has_pool tunnel schedule i
          = go_on uninit http_parse addr_from_str has_pool tunnel head buf reads i1
       /\ front has_pool tunnel schedule i'
          = go_on uninit http_parse addr_from_str has_pool tunnel head buf reads i1'
     else front has_pool tunnel schedule i = (Panic, i1) /\ front has_pool tunnel schedule i' = (Panic, i1').
Proof.
  intros Huninit Hb Hle Ha Hlen Hdrop Hp Hp' Hi Hi' schedule.
  assert (forall x : list Z, (length b <= length x)%nat -> x <> []) as Hnn.
  { intros x Hx ->. destruct b; [done|simpl in Hx; lia]. }
  destruct (front_two_reads uninit http_parse addr_from_str Huninit has_pool tunnel a b more reads i
    (Hnn a Hle) Hb Ha ltac:(lia) Hp Hi) as (i1 & Hi1 & _ & H1).
  destruct (front_two_reads uninit http_parse addr_from_str Huninit has_pool tunnel a' b more reads i'
    (Hnn a' ltac:(lia)) Hb ltac:(lia) ltac:(lia) Hp' Hi') as (i1' & Hi1' & _ & H2).
  assert (forall u x : list Z, length x = length a -> drop (length b) (x ++ u) = drop (length b) x ++ u) as Hd.
  { intros u x Hx. apply drop_app_le. lia. }
  unfold overlay in H1, H2. rewrite !Hd in H1 by done. rewrite !Hd in H2 by done. rewrite Hlen, Hdrop in H2.
  exists i1, i1'. split; [done|]. split; [done|]. unfold schedule.
  case_decide as Hfit; [|done]. do 2 eexists. split; [|split; [|split; [exact H1|exact H2]]].
  - by rewrite take_app_length.
  - rewrite length_app, length_take, length_app, !length_drop, Huninit. lia.
Qed.

(** C35: what is refused, and how.  A request in origin form gets a 400, an unknown method a 405.  A
    URL with an explicit port, [scheme://host:port] with or without a path, one that ends with the
    host, and any other URL from which no address or no relative reference is taken are dropped
    without an answer; so is a connection that closes before its head is complete, at whatever turn
    of the reading loop. *)
Theorem http_refusals (has_pool : bool) (tunnel : res io_error St) (data more : list Z) (req : http_request)
    (reads : list (res io_error nat)) (i : I) :
  (forall n, length (uninit n) = n) -> incoming i = data ++ more ->
  data <> [] -> (length data <= Z.to_nat MAX_FIRST_PACKET_SIZE)%nat -> writable i ->
  (forall buf end_ (j : I), read_head uninit http_parse addr_from_str has_pool tunnel buf end_ (Ok 0%nat :: reads) j
     = (Err Incomplete, j))
  /\ (http_parse data = Partial -> exists i',
     front has_pool tunnel (Ok (length data) :: Ok 0%nat :: reads) i = (Err Incomplete, i')
     /\ outgoing i' = outgoing i)
  /\ (http_parse data = Complete req -> readable req ->
     exists r i', front has_pool tunnel (Ok (length data) :: reads) i = (r, i')
     /\ (method req ∈ proxied_methods -> head (path req) = Some slash ->
        r = Err NotProxied /\ outgoing i' = outgoing i ++ HTTP_400_BAD_REQUEST)
     /\ (method req ∉ proxied_methods -> method req <> byte_string "CONNECT" ->
        r = Err UnsupportedMethod /\ outgoing i' = outgoing i ++ HTTP_405_METHOD_NOT_ALLOWED)
     /\ (method req ∈ proxied_methods ->
        (exists scheme host port rest, (slash ∉ scheme) /\ (slash ∉ host) /\ (slash ∉ port) /\ slash_or_end rest
           /\ path req = (scheme ++ [colon]) ++ [slash; slash] ++ (host ++ colon :: port) ++ rest)
        \/ (exists scheme host port, default_port scheme = Some port /\ (slash ∉ host) /\ (colon ∉ host)
           /\ path req = (scheme ++ [colon]) ++ [slash; slash] ++ host ++ [])
        \/ (exists x, head (path req) <> Some slash
           /\ (extract_host_addr_from_url (path req) = Ok x :> res http_error _)
           /\ (x = None \/ url_to_relative (path req) = None)) ->
        r = Err InvalidUrl /\ outgoing i' = outgoing i)).
Proof.
  intros Huninit Hi Hne Hlen Hw.
  assert (forall buf end_ (j : I), read_head uninit http_parse addr_from_str has_pool tunnel buf end_ (Ok 0%nat :: reads) j
     = (Err Incomplete, j)) as Heof.
  { intros buf end_ i0. cbn [read_head map_err]. by rewrite bind_lift. }
  split; [done|]. split.
  { intros Hparse. destruct (read_head_step uninit http_parse addr_from_str Huninit has_pool tunnel
      (uninit (Z.to_nat MAX_FIRST_PACKET_SIZE)) 0 data more (Ok 0%nat :: reads) i (Huninit _) Hne Hlen Hi)
      as (i1 & _ & (_ & Ho & _) & Heq).
    exists i1. split; [|done]. unfold http_front. rewrite Heq, decide_True by lia.
    unfold go_on. cbn [Nat.add]. by rewrite take_app_length, Hparse; apply Heof. }
  intros Hparse Hread.
  assert (method req ∈ proxied_methods -> method req <> byte_string "CONNECT") as Hnc.
  { intros Hm Heq. rewrite Heq in Hm. revert Hm. by_compute. }
  destruct (front_one_read uninit http_parse addr_from_str Huninit has_pool tunnel data more req reads i
    Hne Hlen Hparse Hi) as (i1 & _ & (_ & Ho1 & Hw1) & Hfront).
  rewrite (serve_request_readable uninit http_parse addr_from_str Huninit) in Hfront by done.
  assert (forall b e i2, writable i1 ->
    (_ ← reply b; fail e : prog I http_error (http_plan St)) i1 = i2 ->
    i2.1 = Err e /\ outgoing i2.2 = outgoing i ++ b) as Hanswer.
  { intros b e i2 Hw2 <-. destruct (reply_ok uninit http_parse addr_from_str Huninit (St:=St) b i1 Hw2)
      as (i' & Hreply & Ho & _). run Hreply. simpl. by rewrite Ho, Ho1. }
  destruct (front has_pool tunnel (Ok (length data) :: reads) i) as [r i'].
  exists r, i'. split; [done|]. split_and!.
  - intros Hm Hhead. rewrite bool_decide_false, bool_decide_true in Hfront by auto.
    unfold serve_absolute in Hfront. rewrite bool_decide_true in Hfront by done.
    by apply (Hanswer HTTP_400_BAD_REQUEST NotProxied (r, i') (Hw1 Hw)).
  - intros Hm Hc. rewrite !bool_decide_false in Hfront by auto.
    by apply (Hanswer HTTP_405_METHOD_NOT_ALLOWED UnsupportedMethod (r, i') (Hw1 Hw)).
  - intros Hm Hurl. rewrite bool_decide_false, bool_decide_true in Hfront by auto.
    destruct (url_refused _ Hurl) as (x & Hhead & Hx & Hnone).
    rewrite (serve_absolute_refused uninit addr_from_str has_pool tunnel _ _ _ _ _ _ x i1 Hhead Hx Hnone) in Hfront.
    by simplify_eq.
Qed.
End http_claims.

(** ** Witnesses *)

(** A stand-in for [httparse]: lines up to an empty one, the first split at two spaces. *)
Fixpoint toy_lines (fuel : nat) (s : list Z) : list (list Z) :=
  match fuel, find CRLF_bytes s with
  | S fuel, Some i => take i s :: toy_lines fuel (drop (i + 2) s)
  | _, _ => []
  end.
Definition toy_header (line : list Z) : header :=
  let (name, value) := next_component (byte_string ": ") line in (name, default [] value).
Definition toy_http_parse (s : list Z) : parsed :=
  match find (CRLF_bytes ++ CRLF_bytes) s with
  | None => Partial
  | Some e =>
      match toy_lines 64 (take (e + 2) s) with
      | [] => Unparsable
      | line :: lines =>
          match next_component [32] line with
          | (method, Some line) =>
              match next_component [32] line with
              | (path, Some version) =>
                  Complete (HttpRequest (e + 4) method path (default 48 (last version) - 48)
                    (toy_header <$> lines))
              | _ => Unparsable
              end
          | _ => Unparsable
          end
      end
  end.

Definition fresh_zeros (n : nat) : list Z := replicate n 0.
Lemma fresh_zeros_length n : length (fresh_zeros n) = n.
Proof. apply length_replicate. Qed.
Definition demo_addr_from_str (s : list Z) : option Addr :=
  Some (Domain (next_component [colon] s).1 443).

Definition demo_get : list Z :=
  byte_string "GET http://example.com/a HTTP/1.1" ++ CRLF_bytes ++ byte_string "Host: example.com" ++ CRLF_bytes
  ++ byte_string "proxy-connection: close" ++ CRLF_bytes ++ CRLF_bytes ++ byte_string "body".
Definition demo_get_text : list Z :=
  byte_string "GET /a HTTP/1.1" ++ CRLF_bytes ++ byte_string "Host: example.com" ++ CRLF_bytes ++ CRLF_bytes.
Definition parsed_head (s : list Z) : http_request :=
  match toy_http_parse s with Complete r => r | _ => HttpRequest 0 [] [] 0 [] end.

Lemma http_request_forwarded_witness :
  exists plan outbuf, http_front (I:=duplex) (St:=duplex) fresh_zeros toy_http_parse demo_addr_from_str false
      (Ok (open_with [])) (Ok (length demo_get) :: []) (open_with demo_get) = (Ok plan, open_with [])
  /\ (exists s' n, plan = DirectRelay s' n /\ outgoing s' = outbuf /\ n = 42)
  /\ exists v', read_trojan_like_request (open_with (outbuf ++ [9]))
       = (Ok (Request Connect (Domain (byte_string "example.com") 80)), v')
     /\ incoming v' = demo_get_text ++ byte_string "body" ++ [9].
Proof.
  destruct (http_request_forwarded (I:=duplex) (St:=duplex) fresh_zeros toy_http_parse demo_addr_from_str
    false (Ok (open_with [])) (open_with []) demo_get [] (parsed_head demo_get) (byte_string "http")
    (byte_string "example.com") (byte_string "/a") 80 [] (open_with demo_get) fresh_zeros_length)
    as (plan & outbuf & i' & Hrun & Hi & (He & Ho & _) & Hplan & Hread).
  - by rewrite app_nil_r.
  - discriminate.
  - by_compute.
  - reflexivity.
  - split; [repeat constructor; by_compute|reflexivity].
  - by_compute.
  - by_compute.
  - reflexivity.
  - reflexivity.
  - by_compute.
  - by_compute.
  - by_compute.
  - by_compute.
  - by exists (byte_string "a").
  - intros _. split; reflexivity.
  - exists plan, outbuf. split.
    { rewrite Hrun. f_equal. revert Hrun. vm_compute. by intros [= _ <-]. }
    split.
    + destruct plan as [b|s' n]; [by destruct Hplan|]. destruct Hplan as (_ & Hos & Hn).
      exists s', n. split; [done|]. split; [exact Hos|]. rewrite Hn. reflexivity.
    + destruct (Hread (open_with (outbuf ++ [9])) [9] eq_refl) as (v' & Hr & Hiv).
      exists v'. split; [exact Hr|]. rewrite Hiv. reflexivity.
Defined.

Definition demo_connect : list Z :=
  byte_string "CONNECT example.com:443 HTTP/1.1" ++ CRLF_bytes ++ CRLF_bytes ++ [22; 3; 1].

Lemma http_connect_answered_witness :
  exists i', http_front (I:=duplex) (St:=duplex) fresh_zeros toy_http_parse demo_addr_from_str true
      (Err (IoErr Other "")) (Ok (length demo_connect) :: []) (open_with demo_connect)
    = (Ok (RemoteRelay (([1; 3; 11] ++ byte_string "example.com" ++ [1; 187; 13; 10]) ++ [22; 3; 1])), i')
  /\ outgoing i' = [] ++ HTTP_200_CONNECTION_ESTABLISHED.
Proof.
  destruct (http_connect_answered (I:=duplex) (St:=duplex) fresh_zeros toy_http_parse demo_addr_from_str true
    (Err (IoErr Other "")) demo_connect [] (parsed_head demo_connect) (Domain (byte_string "example.com") 443)
    ([3; 11] ++ byte_string "example.com" ++ [1; 187]) [] (open_with demo_connect) fresh_zeros_length)
    as (i' & H & Ho & _).
  - by rewrite app_nil_r.
  - discriminate.
  - by_compute.
  - reflexivity.
  - split; [repeat constructor; by_compute|reflexivity].
  - by_compute.
  - reflexivity.
  - reflexivity.
  - reflexivity.
  - by_compute.
  - reflexivity.
  - exists i'. split; [exact H|exact Ho].
Defined.

(** The first halves ["GET http"] and ["PUT http"] of two requests, one text for both. *)
Lemma split_head_lost_witness : exists head buf i1 i1',
  http_front (I:=duplex) (St:=duplex) fresh_zeros toy_http_parse demo_addr_from_str true
    (Err (IoErr Other "")) [Ok 8%nat; Ok 5%nat] (open_with (byte_string "GET http://h/"))
  = go_on fresh_zeros toy_http_parse demo_addr_from_str true (Err (IoErr Other "")) head buf [] i1
  /\ http_front (I:=duplex) (St:=duplex) fresh_zeros toy_http_parse demo_addr_from_str true
    (Err (IoErr Other "")) [Ok 8%nat; Ok 5%nat] (open_with (byte_string "PUT http://h/"))
  = go_on fresh_zeros toy_http_parse demo_addr_from_str true (Err (IoErr Other "")) head buf [] i1'.
Proof.
  destruct (split_head_lost (I:=duplex) (St:=duplex) fresh_zeros toy_http_parse demo_addr_from_str true
    (Err (IoErr Other "")) (byte_string "GET http") (byte_string "PUT http") (byte_string "://h/") [] []
    (open_with (byte_string "GET http://h/")) (open_with (byte_string "PUT http://h/")) fresh_zeros_length)
    as (i1 & i1' & _ & _ & H).
  - discriminate.
  - by_compute.
  - by_compute.
  - reflexivity.
  - reflexivity.
  - reflexivity.
  - reflexivity.
  - reflexivity.
  - reflexivity.
  - rewrite decide_True in H by by_compute. destruct H as (head & buf & _ & _ & H1 & H2).
    exists head, buf, i1, i1'. split; [exact H1|exact H2].
Defined.

Definition demo_origin : list Z := byte_string "GET /x HTTP/1.1" ++ CRLF_bytes ++ CRLF_bytes.

Definition demo_port : list Z :=
  byte_string "GET http://example.com:8080/ HTTP/1.1" ++ CRLF_bytes ++ CRLF_bytes.

Lemma http_refusals_witness :
  (exists i', http_front (I:=duplex) (St:=duplex) fresh_zeros toy_http_parse demo_addr_from_str true
      (Err (IoErr Other "")) (Ok (length demo_origin) :: []) (open_with demo_origin) = (Err NotProxied, i')
    /\ outgoing i' = [] ++ HTTP_400_BAD_REQUEST)
  /\ (exists i', http_front (I:=duplex) (St:=duplex) fresh_zeros toy_http_parse demo_addr_from_str true
      (Err (IoErr Other "")) (Ok (length demo_port) :: []) (open_with demo_port) = (Err InvalidUrl, i')
    /\ outgoing i' = [])
  /\ (exists i', http_front (I:=duplex) (St:=duplex) fresh_zeros toy_http_parse demo_addr_from_str true
      (Err (IoErr Other "")) (Ok 3%nat :: Ok 0%nat :: []) (closed_with [71; 69; 84]) = (Err Incomplete, i')
    /\ outgoing i' = []).
Proof.
  split; [|split].
  - destruct (http_refusals (I:=duplex) (St:=duplex) fresh_zeros toy_http_parse demo_addr_from_str true
      (Err (IoErr Other "")) demo_origin [] (parsed_head demo_origin) [] (open_with demo_origin) fresh_zeros_length)
      as (_ & _ & H); [by rewrite app_nil_r|discriminate|by_compute|reflexivity|].
    destruct H as (r & i' & Hr & H400 & _); [reflexivity|split; [repeat constructor|reflexivity]|].
    destruct H400 as [-> Ho]; [by_compute|reflexivity|]. exists i'. split; [exact Hr|exact Ho].
  - destruct (http_refusals (I:=duplex) (St:=duplex) fresh_zeros toy_http_parse demo_addr_from_str true
      (Err (IoErr Other "")) demo_port [] (parsed_head demo_port) [] (open_with demo_port) fresh_zeros_length)
      as (_ & _ & H); [by rewrite app_nil_r|discriminate|by_compute|reflexivity|].
    destruct H as (r & i' & Hr & _ & _ & Hurl); [reflexivity|split; [repeat constructor|reflexivity]|].
    destruct Hurl as [-> Ho]; [by_compute| |exists i'; split; [exact Hr|exact Ho]].
    left. exists (byte_string "http"), (byte_string "example.com"), (byte_string "8080"), (byte_string "/").
    split; [by_compute|]. split; [by_compute|]. split; [by_compute|].
    split; [right; exists []; reflexivity|reflexivity].
  - destruct (http_refusals (I:=duplex) (St:=duplex) fresh_zeros toy_http_parse demo_addr_from_str true
      (Err (IoErr Other "")) [71; 69; 84] [] (parsed_head demo_port) [] (closed_with [71; 69; 84]) fresh_zeros_length)
      as (_ & H & _); [reflexivity|discriminate|by_compute|reflexivity|].
    exact (H eq_refl).
Defined.
