(* ===== verification/Front.v ===== *)
(** * The client's front ends (shuttle/src/client/plain.rs)

    [handle_connection]: the choice by the first byte, [handle_connection_socks5], and both front
    ends joined with the relays of [Plain] and [UdpClient].  The messages of SOCKS5 are read and
    written by the [socks5_protocol] crate: the class [Socks5Messages], with RFC 1928 as laws and
    an instance over any stream. *)
From S2P Require Import Prelude.
From stdpp Require Import strings.
From S2P Require Import Time Stream Opt Negotiate Trojan Udp UdpClient Relay Plain Http.
From S2P Require Pool.
Open Scope Z_scope.

(** ** SOCKS5 messages *)

Inductive Command := CmdConnect | CmdBind | CmdUdpAssociate.
Definition command_to_u8 (c : Command) : Z :=
  match c with CmdConnect => 1 | CmdBind => 2 | CmdUdpAssociate => 3 end.

Class Socks5Messages (I : Type) `{!AsyncIO I, !Socks5 I} := {
  version_read : prog I io_error unit;
  auth_request_read : prog I io_error (list Z);
  (** [req.select_from(offered).into()] *)
  select_from : list Z -> list Z -> Z;
  command_request_read : prog I io_error (Command * Addr);
  (** the bytes of [CommandResponse::success(addr)] *)
  success_bytes : Addr -> option (list Z);
}.

(** RFC 1928, sections 3, 4 and 6. *)
Class Socks5MessagesLaws (I : Type) `{!AsyncIO I, !Socks5 I, !Socks5Messages I} : Prop := {
  version_read_ok rest (i : I) : incoming i = 5 :: rest ->
    exists i', version_read i = (Ok tt, i') /\ incoming i' = rest /\ only_read i i';
  auth_request_ok methods rest (i : I) : (length methods < 256)%nat ->
    incoming i = Z.of_nat (length methods) :: methods ++ rest ->
    exists i', auth_request_read i = (Ok methods, i') /\ incoming i' = rest /\ only_read i i';
  select_from_ok m methods : select_from methods [m] = if decide (m ∈ methods) then m else 255;
  command_request_ok c a b rest (i : I) : wf_addr a -> addr_bytes (St:=I) a = Some b ->
    incoming i = [5; command_to_u8 c; 0] ++ b ++ rest ->
    exists i', command_request_read i = (Ok (c, a), i') /\ incoming i' = rest /\ only_read i i';
  success_bytes_ok a : success_bytes a = (fun b => [5; 0; 0] ++ b) <$> addr_bytes (St:=I) a;
}.

Section rfc1928_messages.
Context {I : Type} `{!AsyncIO I, !Socks5 I}.

Definition rfc_version : prog I io_error unit :=
  v ← read_u8; if v =? 5 then mret tt else fail (IoErr InvalidData "not SOCKS5").
Definition rfc_command : prog I io_error (Command * Addr) :=
  _ ← rfc_version;
  c ← read_u8;
  _ ← read_u8;
  a ← addr_read;
  if c =? 1 then mret (CmdConnect, a)
  else if c =? 2 then mret (CmdBind, a)
  else if c =? 3 then mret (CmdUdpAssociate, a)
  else fail (IoErr InvalidData "unknown command").

Definition rfc1928_messages : Socks5Messages I := {|
  version_read := rfc_version;
  auth_request_read := n ← read_u8; read_exact (Z.to_nat n);
  select_from methods offered :=
    default 255 (head (filter (fun m => m ∈ methods) offered));
  command_request_read := rfc_command;
  success_bytes a := (fun b => [5; 0; 0] ++ b) <$> addr_bytes (St:=I) a;
|}.
End rfc1928_messages.

Section rfc1928_messages_laws.
Context {I : Type} `{!AsyncIO I, !AsyncIOLaws I, !Socks5 I, !Socks5Laws I}.
#[local] Set Default Proof Using "Type*".

Lemma rfc_version_ok rest (i : I) : incoming i = 5 :: rest ->
  exists i', rfc_version i = (Ok tt, i') /\ incoming i' = rest /\ only_read i i'.
Proof.
  intros Hi. destruct (read_u8_sent 5 rest i Hi) as (i' & H & ?). exists i'. unfold rfc_version. by run H.
Qed.

Lemma rfc1928_socks5_messages : @Socks5MessagesLaws I _ _ rfc1928_messages.
Proof.
  constructor; unfold version_read, auth_request_read, command_request_read, select_from, success_bytes;
    cbn [rfc1928_messages].
  - apply rfc_version_ok.
  - intros methods rest i Hl Hi. destruct (read_u8_sent _ _ i Hi) as (i1 & H1 & Hi1 & Ho1).
    destruct (read_exact_app (length methods) methods rest i1 Hi1 eq_refl) as (i2 & H2 & Hi2 & Ho2).
    exists i2. run H1. rewrite Nat2Z.id. split; [exact H2|]. split; [done|by etrans].
  - intros m methods. rewrite filter_cons. by case_decide.
  - intros c a b rest i Ha Hb Hi. unfold rfc_command.
    destruct (rfc_version_ok _ i Hi) as (i1 & H1 & Hi1 & Ho1).
    destruct (read_u8_sent _ _ i1 Hi1) as (i2 & H2 & Hi2 & Ho2).
    destruct (read_u8_sent _ _ i2 Hi2) as (i3 & H3 & Hi3 & Ho3).
    destruct (addr_read_ok a b rest i3 Ha Hb Hi3) as (i4 & H4 & Hi4 & Ho4).
    exists i4. run H1. run H2. run H3. run H4. split; [by destruct c|]. split; [done|].
    by do 2 (etrans; [eassumption|]); etrans.
  - done.
Qed.
End rfc1928_messages_laws.

#[export] Instance duplex_messages : Socks5Messages duplex := rfc1928_messages.
#[export] Instance duplex_messages_laws : Socks5MessagesLaws duplex := rfc1928_socks5_messages.

(** ** The SOCKS5 front end *)

Definition SOCKS5_CONNECT_SUCCEEDED : list Z := [5; 0; 0; 1; 0; 0; 0; 0; 0; 0].
Definition SOCKS5_COMMAND_NOT_SUPPORTED : list Z := [5; 7; 0].
Definition Noauth : Z := 0.

(** [SocketAddr::set_port]. *)
Definition set_port (p : Z) (sa : SocketAddr) : SocketAddr :=
  match sa with V4 ip _ => V4 ip p | V6 ip _ => V6 ip p end.

Inductive socks_error :=
| SocksIo (e : io_error)
| SocksTunnelFailed (e : io_error)
| BindUnsupported.

(** How the connection goes on: a TCP relay for a request, or a UDP relay over a tunnel. *)
Inductive socks_plan (S : Type) :=
| SocksTcp (outbuf : list Z)
| SocksUdp (snowys : S) (header : TrojanLikeRequest).
Arguments SocksTcp {_} _.
Arguments SocksUdp {_} _ _.

Section socks5.
(** [uninit n] is what [vec_uninit(n)] contains, [default_addr] is [Address::default()];
    [local_addr], [bind] and [tunnel] are the outcomes of [inbound.local_addr()],
    [UdpSocket::bind] (with the address bound) and [connector.connect()]. *)
Context {I St : Type} `{!AsyncIO I, !Socks5 I, !Socks5Messages I} (uninit : nat -> list Z)
  (default_addr : Addr).

Definition socks_io {A} (m : prog I io_error A) : prog I socks_error A := prog_map_err SocksIo m.

Definition handle_connection_socks5 (local_addr : res io_error SocketAddr)
    (bind : SocketAddr -> res io_error SocketAddr) (tunnel : res io_error St)
    : prog I socks_error (socks_plan St) :=
  _ ← socks_io version_read;
  methods ← socks_io auth_request_read;
  _ ← socks_io (write_all [5; select_from methods [Noauth]]);
  '(command, address) ← socks_io command_request_read;
  match command with
  | CmdConnect =>
      _ ← socks_io (write_all SOCKS5_CONNECT_SUCCEEDED);
      outbuf ← lift_res (encoded (St:=I) uninit (Request Connect address));
      mret (SocksTcp outbuf)
  | CmdUdpAssociate =>
      bnd_addr ← socks_io (lift_res local_addr);
      bnd_addr ← socks_io (lift_res (bind (set_port 0 bnd_addr)));
      _ ← (match success_bytes (SocketAddress bnd_addr) with
           | Some b => socks_io (write_all b)
           | None => fail (SocksIo (IoErr InvalidInput "address cannot be serialized"))
           end);
      snowys ← lift_res (map_err SocksTunnelFailed tunnel);
      mret (SocksUdp snowys (Request UdpAssociate default_addr))
  | CmdBind =>
      _ ← socks_io (write_all SOCKS5_COMMAND_NOT_SUPPORTED);
      fail BindUnsupported
  end.
End socks5.

(** ** One proxied connection *)

Inductive front_error :=
| PeekFailed (e : io_error)
| SocksFailed (e : socks_error)
| HttpFailed (e : http_error).

(** What [log_relay!] logs (the function itself then returns [Ok(())]), with the tunnel of the
    connection's own at its end and, for UDP, the packets sent to the client. *)
Inductive relayed (S : Type) :=
| RelayedTcp (r : (Z * Z) + relay_error) (tunnel : option S)
| RelayedUdp (r : (Z * Z) + udp_error) (tunnel : S) (sent : list (list Z)).
Arguments RelayedTcp {_} _ _.
Arguments RelayedUdp {_} _ _ _.

(** What one connection meets: the outcome of the peek (the byte, [None] at the end of the stream),
    of the front ends' reads and system calls, of [connector.connect()] in them, and everything the
    relays depend on. *)
Record front_env (St I : Type) := FrontEnv {
  fe_peek : res io_error (option Z);
  fe_http_reads : list (res io_error nat);
  fe_local_addr : res io_error SocketAddr;
  fe_bind : SocketAddr -> res io_error SocketAddr;
  fe_tunnel : res io_error St;
  fe_call : call_env (St:=St);
  fe_endpoint : string;
  fe_use_pool : bool;
  fe_first : option (list Z);
  fe_events : list client_event;
  fe_oneshot : res io_error St;
  fe_first2 : option (res io_error nat);
  fe_copy : copier I St;
  fe_trace : bool;
  fe_not_connected : io_error;
  fe_udp_events : list client_udp_event;
}.
Arguments FrontEnv {_ _} _ _ _ _ _ _ _ _ _ _ _ _ _ _ _ _.
Arguments fe_peek {_ _} _.
Arguments fe_http_reads {_ _} _.
Arguments fe_local_addr {_ _} _.
Arguments fe_bind {_ _} _ _.
Arguments fe_tunnel {_ _} _.
Arguments fe_call {_ _} _.
Arguments fe_endpoint {_ _} _.
Arguments fe_use_pool {_ _} _.
Arguments fe_first {_ _} _.
Arguments fe_events {_ _} _.
Arguments fe_oneshot {_ _} _.
Arguments fe_first2 {_ _} _.
Arguments fe_copy {_ _} _.
Arguments fe_trace {_ _} _.
Arguments fe_not_connected {_ _} _.
Arguments fe_udp_events {_ _} _.

Section front.
Context {St I : Type} `{!AsyncIO St, !Socks5 St, !AsyncIO I, !Socks5 I, !Socks5Messages I}.
Context (config : ReuseConfig) (uninit : nat -> list Z) (default_addr : Addr)
  (http_parse : list Z -> parsed) (addr_from_str : list Z -> option Addr)
  (read_from : list Z -> res io_error Addr).
Abbreviation W := (client_world St I).

Definition on_client {E A} (m : prog I E A) : prog W E A := zoom client set_client m.

(** [log_relay!(relay_tcp_remote(..))]. *)
Definition logged_remote (env : front_env St I) (outbuf : list Z) : prog W front_error (relayed St) :=
  r ← attempt (relay_tcp_remote config (fe_call env) (fe_endpoint env) (fe_use_pool env) (Some outbuf)
                 (fe_first env) (fe_events env) (fe_oneshot env) (fe_first2 env) (fe_copy env));
  match r with
  | inl (counts, tunnel) => mret (RelayedTcp (inl counts) tunnel)
  | inr e => mret (RelayedTcp (inr e) None)
  end.

Definition serve_socks5 (env : front_env St I) : prog W front_error (relayed St) :=
  plan ← prog_map_err SocksFailed (on_client (handle_connection_socks5 (St:=St) uninit default_addr
           (fe_local_addr env) (fe_bind env) (fe_tunnel env)));
  match plan with
  | SocksTcp outbuf => logged_remote env outbuf
  | SocksUdp snowys header => fun w =>
      match relay_udp_with (fe_trace env) (fe_not_connected env) read_from uninit header
              (fe_udp_events env) (snowys, []) with
      | (Ok counts, (s, sent)) => (Ok (RelayedUdp (inl counts) s sent), w)
      | (Err e, (s, sent)) => (Ok (RelayedUdp (inr e) s sent), w)
      | (Panic, _) => (Panic, w)
      | (Pending, _) => (Pending, w)
      end
  end.

Definition handle_connection_http (env : front_env St I) : prog W front_error (relayed St) :=
  plan ← prog_map_err HttpFailed (on_client (http_front uninit http_parse addr_from_str
           (fe_use_pool env) (fe_tunnel env) (fe_http_reads env)));
  match plan with
  | RemoteRelay outbuf => logged_remote env outbuf
  | DirectRelay outbound initlen => fun w =>
      match relay_tcp_with None None (fe_copy env) (client w, outbound) with
      | (Ok (tx, rx), (c, s)) => (Ok (RelayedTcp (inl (tx + initlen, rx)) (Some s)), set_client c w)
      | (Err e, (c, s)) => (Ok (RelayedTcp (inr e) (Some s)), set_client c w)
      | (Panic, (c, _)) => (Panic, set_client c w)
      | (Pending, (c, _)) => (Pending, set_client c w)
      end
  end.

(** [handle_connection]: an untouched [first] is zero. *)
Definition handle_connection (env : front_env St I) : prog W front_error (relayed St) :=
  first ← prog_map_err PeekFailed (lift_res (fe_peek env));
  let b := default 0 first in
  if (b =? 4) || (b =? 5) then serve_socks5 env else handle_connection_http env.
End front.

(** ** Proofs *)

Section proofs.
Context {St I : Type} `{!AsyncIO St, !AsyncIOLaws St, !Socks5 St, !Socks5Laws St,
  !AsyncIO I, !AsyncIOLaws I, !Socks5 I, !Socks5Laws I, !Socks5Messages I, !Socks5MessagesLaws I}.
Context (uninit : nat -> list Z) (default_addr : Addr).
Hypothesis uninit_length : forall n, length (uninit n) = n.
#[local] Set Default Proof Using "All".
Implicit Types i : I.

(** A SOCKS5 client's side of the conversation, written without waiting for answers. *)
Definition socks_hello (methods : list Z) (c : Command) (b : list Z) : list Z :=
  5 :: Z.of_nat (length methods) :: methods ++ [5; command_to_u8 c; 0] ++ b.

Definition chosen (methods : list Z) : Z := if decide (Noauth ∈ methods) then Noauth else 255.

Lemma socks_io_eq {A} (m : prog I io_error A) i r i' : m i = (r, i') -> socks_io m i = (map_err SocksIo r, i').
Proof. intros H. unfold socks_io. by rewrite (prog_map_err_eq _ _ _ _ _ H). Qed.

Lemma socks_write b i : writable i -> exists i', socks_io (write_all b) i = (Ok tt, i')
  /\ outgoing i' = outgoing i ++ b /\ incoming i' = incoming i /\ ends i' = ends i /\ writable i'.
Proof.
  intros Hw. destruct (write_all_writable b i Hw) as (i' & H & ? & ? & ? & ?).
  exists i'. by rewrite (socks_io_eq _ _ _ _ H).
Qed.

(** Everything up to the command. *)
Lemma socks_conversation (local_addr : res io_error SocketAddr) bind (tunnel : res io_error St)
    methods c a b rest i :
  (length methods < 256)%nat -> wf_addr a -> addr_bytes (St:=I) a = Some b ->
  incoming i = socks_hello methods c b ++ rest -> writable i ->
  exists i', incoming i' = rest /\ ends i' = ends i /\ writable i'
  /\ outgoing i' = outgoing i ++ [5; chosen methods]
  /\ handle_connection_socks5 uninit default_addr local_addr bind tunnel i =
    (match c with
     | CmdConnect =>
         _ ← socks_io (write_all SOCKS5_CONNECT_SUCCEEDED);
         outbuf ← lift_res (encoded (St:=I) uninit (Request Connect a));
         mret (SocksTcp outbuf)
     | CmdUdpAssociate =>
         bnd_addr ← socks_io (lift_res local_addr);
         bnd_addr ← socks_io (lift_res (bind (set_port 0 bnd_addr)));
         _ ← (match success_bytes (SocketAddress bnd_addr) with
              | Some b => socks_io (write_all b)
              | None => fail (SocksIo (IoErr InvalidInput "address cannot be serialized"))
              end);
         snowys ← lift_res (map_err SocksTunnelFailed tunnel);
         mret (SocksUdp snowys (Request UdpAssociate default_addr))
     | CmdBind =>
         _ ← socks_io (write_all SOCKS5_COMMAND_NOT_SUPPORTED);
         fail BindUnsupported
     end) i'.
Proof.
  intros Hm Ha Hb Hi Hw. unfold socks_hello in Hi. cbn [app] in Hi. rewrite <- app_assoc in Hi.
  destruct (version_read_ok _ i Hi) as (i1 & H1 & Hi1 & He1 & Ho1 & Hw1).
  destruct (auth_request_ok methods _ i1 Hm Hi1) as (i2 & H2 & Hi2 & He2 & Ho2 & Hw2).
  destruct (socks_write [5; select_from methods [Noauth]] i2) as (i3 & H3 & Ho3 & Hi3 & He3 & Hw3); [auto|].
  rewrite select_from_ok in Ho3. rewrite Hi2 in Hi3.
  destruct (command_request_ok c a b rest i3 Ha Hb Hi3) as (i4 & H4 & Hi4 & He4 & Ho4 & Hw4).
  apply socks_io_eq in H1. apply socks_io_eq in H2. apply socks_io_eq in H4.
  exists i4. split_and!; [done|congruence|auto|by rewrite Ho4, Ho3, Ho2, Ho1|].
  unfold handle_connection_socks5. run H1. run H2. run H3. by run H4.
Qed.

Lemma encoded_ok {E} r b : addr_bytes (St:=I) (dest_addr r) = Some b ->
  encoded (St:=I) uninit r = Ok (request_bytes r b) :> res E _.
Proof.
  intros Hb. unfold encoded, serialized_len. rewrite Hb. cbn [mbind res_bind].
  assert (length (request_bytes r b) = 1 + length b + 2)%nat as Hl by (unfold request_bytes; len).
  rewrite (encode_request_ok r b) by (try done; rewrite uninit_length; lia). cbn [mbind res_bind fst].
  rewrite drop_ge by (rewrite uninit_length; lia). by rewrite app_nil_r.
Qed.
End proofs.

(** A request over a tunnel of its own: the header, then what the client sends, part of it with the
    header; and back to the client what the tunnel delivers. *)
Lemma logged_remote_oneshot {St I} `{!AsyncIO St, !AsyncIOLaws St, !AsyncIO I, !AsyncIOLaws I} config
    (env : front_env St I) outbuf (first : option nat) o (w : client_world St I) :
  fe_use_pool env = false -> fe_oneshot env = Ok o -> writable o -> ends o = true ->
  fe_first2 env = Ok <$> first -> (default 0 first <= length (incoming (client w)))%nat ->
  Z.of_nat (length outbuf) <= MAX_FIRST_PACKET_SIZE ->
  copies (fe_copy env) -> writable (client w) -> ends (client w) = true ->
  exists i o', logged_remote config env outbuf w
      = (Ok (RelayedTcp (inl (Z.of_nat (length (incoming (client w))), Z.of_nat (length (incoming o)))) (Some o')),
         set_client i w)
    /\ outgoing o' = outgoing o ++ outbuf ++ incoming (client w)
    /\ outgoing i = outgoing (client w) ++ incoming o.
Proof.
  intros Hpool Hone Hw He Hfirst Hn Hlen Hcopies Hwc Hec.
  destruct (first_packet_sent outbuf first (client w) o Hlen Hn Hw)
    as (d & i1 & o1 & Hfp & _ & Hd & (Hei1 & Hoi1 & Hwi1) & Ho1 & Hi1 & Heo1 & Hwo1).
  destruct (Hcopies i1 o1) as (i2 & o2 & Hc & Hoi2 & Ho2); [auto|done|congruence..|].
  apply (prog_map_err_eq (ErrIo "")) in Hc. cbn [map_err] in Hc.
  assert (relay_tcp_with (Some outbuf) (Ok <$> first) (fe_copy env) (client w, o)
    = (Ok (Z.of_nat (length (incoming (client w))), Z.of_nat (length (incoming o))), (i2, o2))) as Hrelay.
  { unfold relay_tcp_with. run Hfp. run Hc. cbn [fst snd mret prog_ret]. rewrite Hi1, Hd.
    by rewrite length_app, Nat2Z.inj_add, Z.add_comm. }
  assert (relay_tcp_remote config (fe_call env) (fe_endpoint env) (fe_use_pool env) (Some outbuf)
    (fe_first env) (fe_events env) (fe_oneshot env) (fe_first2 env) (fe_copy env) w
    = (Ok ((Z.of_nat (length (incoming (client w))), Z.of_nat (length (incoming o))), Some o2), set_client i2 w))
    as Hremote.
  { unfold relay_tcp_remote. rewrite Hpool, Hone, Hfirst. cbn [map_err].
    rewrite (bind_ok (mret (inr (CheckoutFailed "no pool"))) _ w w _ eq_refl). cbv beta iota.
    rewrite (bind_ok (mret tt) _ w w tt eq_refl). cbv beta iota. rewrite bind_lift.
    rewrite (bind_ok get _ w w w eq_refl). rewrite Hrelay. by rewrite (bind_ok (modify _) _ _ _ tt eq_refl). }
  exists i2, o2. split; [|by rewrite Ho2, Ho1, Hoi2, Hoi1, Hi1, Hd, <- !app_assoc].
  unfold logged_remote. apply (attempt_eq (E':=front_error)) in Hremote. by run Hremote.
Qed.

(** The header of a request fits into the first packet. *)
Lemma request_fits {St : Type} `{!AsyncIO St, !Socks5 St, !Socks5Laws St} c a b :
  wf_addr a -> addr_bytes (St:=St) a = Some b ->
  Z.of_nat (length (request_bytes (Request c a) b)) <= MAX_FIRST_PACKET_SIZE.
Proof.
  intros Ha Hb. destruct (addr_layout a b Ha Hb) as (atyp & h & hl & port & -> & _ & _ & Hcase).
  assert (length h <= 256)%nat as Hh by (destruct Hcase as [(_ & -> & -> & _)|[(_ & -> & -> & _)|(_ & -> & ? & _)]]; len).
  unfold request_bytes, MAX_FIRST_PACKET_SIZE. len.
Qed.

(** ** Correctness *)

(** The SOCKS5 front end.  The method answered is "no authentication" when the client offers
    it and "no acceptable methods" otherwise, and in both cases the conversation goes on.  CONNECT
    is answered with success before anything is connected and becomes the trojan-like request for
    its address; UDP ASSOCIATE is answered with the address the socket was bound to on the
    control connection's interface; BIND is refused.  Nothing behind the command is consumed. *)
Theorem socks5_outcomes {St I : Type} `{!AsyncIO St, !AsyncIOLaws St, !Socks5 St, !Socks5Laws St,
    !AsyncIO I, !AsyncIOLaws I, !Socks5 I, !Socks5Laws I, !Socks5Messages I, !Socks5MessagesLaws I}
    (uninit : nat -> list Z) (default_addr : Addr) (local_addr : res io_error SocketAddr)
    (bind : SocketAddr -> res io_error SocketAddr) (tunnel : res io_error St)
    (methods : list Z) (c : Command) (a : Addr) (b rest : list Z) (i : I) :
  (forall n, length (uninit n) = n) ->
  (length methods < 256)%nat -> wf_addr a -> addr_bytes (St:=I) a = Some b ->
  incoming i = socks_hello methods c b ++ rest -> writable i ->
  exists r i', handle_connection_socks5 uninit default_addr local_addr bind tunnel i = (r, i')
  /\ match c with
     | CmdConnect => incoming i' = rest /\ r = Ok (SocksTcp (request_bytes (Request Connect a) b))
         /\ outgoing i' = outgoing i ++ [5; chosen methods] ++ SOCKS5_CONNECT_SUCCEEDED
     | CmdBind => incoming i' = rest /\ r = Err BindUnsupported
         /\ outgoing i' = outgoing i ++ [5; chosen methods] ++ SOCKS5_COMMAND_NOT_SUPPORTED
     | CmdUdpAssociate => forall la bound bb s, local_addr = Ok la -> bind (set_port 0 la) = Ok bound ->
         addr_bytes (St:=I) (SocketAddress bound) = Some bb -> tunnel = Ok s ->
         incoming i' = rest /\ r = Ok (SocksUdp s (Request UdpAssociate default_addr))
         /\ outgoing i' = outgoing i ++ [5; chosen methods] ++ [5; 0; 0] ++ bb
     end.
Proof.
  intros Huninit Hm Ha Hb Hi Hw.
  destruct (socks_conversation uninit default_addr Huninit local_addr bind tunnel methods c a b rest i
    Hm Ha Hb Hi Hw) as (i1 & Hi1 & He1 & Hw1 & Ho1 & ->).
  assert (forall x, exists i', socks_io (write_all x) i1 = (Ok tt, i') /\ incoming i' = rest
    /\ outgoing i' = outgoing i ++ [5; chosen methods] ++ x) as Hwrite.
  { intros x. destruct (socks_write (St:=St) uninit default_addr Huninit x i1 Hw1) as (i' & H & Ho & Hi' & _).
    exists i'. by rewrite Hi', Ho, Ho1, <- app_assoc. }
  destruct c.
  - destruct (Hwrite SOCKS5_CONNECT_SUCCEEDED) as (i' & H & Hi' & Ho). do 2 eexists. run H.
    rewrite (encoded_ok (St:=St) uninit default_addr Huninit (Request Connect a) b), bind_lift by done. done.
  - destruct (Hwrite SOCKS5_COMMAND_NOT_SUPPORTED) as (i' & H & Hi' & Ho). do 2 eexists. by run H.
  - match goal with |- exists r i', ?m i1 = (r, i') /\ _ => destruct (m i1) as [r i'] eqn:Hp end.
    exists r, i'. split; [done|]. intros la bound bb s -> Hbound Hbb ->. revert Hp.
    rewrite (bind_ok (socks_io (lift_res (Ok la))) _ i1 i1 la eq_refl).
    assert (socks_io (lift_res (bind (set_port 0 la))) i1 = (Ok bound, i1)) as H2 by (by rewrite Hbound).
    run H2. rewrite success_bytes_ok, Hbb. cbn [fmap option_fmap option_map].
    destruct (Hwrite ([5; 0; 0] ++ bb)) as (i2 & H & Hi2 & Ho). run H. cbn [map_err].
    rewrite bind_lift. intros [= <- <-]. done.
Qed.

(** CONNECT without a pool, up to the server's end of the tunnel: the client gets the answers of the
    SOCKS5 conversation and what the tunnel delivers, the server reads the request for the address
    the SOCKS5 client named, and then exactly the bytes the client sent behind its SOCKS5 messages. *)
Lemma socks_connect_sent {St I V : Type} `{!AsyncIO St, !AsyncIOLaws St, !Socks5 St, !Socks5Laws St,
    !AsyncIO I, !AsyncIOLaws I, !Socks5 I, !Socks5Laws I, !Socks5Messages I, !Socks5MessagesLaws I,
    !AsyncIO V, !AsyncIOLaws V, !Socks5 V, !Socks5Laws V}
    (config : ReuseConfig) (uninit : nat -> list Z) (default_addr : Addr)
    (http_parse : list Z -> parsed) (addr_from_str : list Z -> option Addr)
    (read_from : list Z -> res io_error Addr) (env : front_env St I)
    (methods : list Z) (a : Addr) (b rest : list Z) (first : option nat) (o : St) (w : client_world St I) :
  (forall n, length (uninit n) = n) ->
  fe_peek env = Ok (Some 5) -> fe_use_pool env = false -> fe_oneshot env = Ok o -> writable o ->
  ends o = true -> outgoing o = [] -> fe_first2 env = Ok <$> first -> (default 0 first <= length rest)%nat ->
  copies (fe_copy env) ->
  (length methods < 256)%nat -> wf_addr a -> addr_bytes (St:=I) a = Some b -> addr_bytes (St:=V) a = Some b ->
  incoming (client w) = socks_hello methods CmdConnect b ++ rest -> writable (client w) -> ends (client w) = true ->
  exists o' w', handle_connection config uninit default_addr http_parse addr_from_str read_from env w
      = (Ok (RelayedTcp (inl (Z.of_nat (length rest), Z.of_nat (length (incoming o)))) (Some o')), w')
  /\ outgoing (client w') = outgoing (client w) ++ [5; chosen methods] ++ SOCKS5_CONNECT_SUCCEEDED ++ incoming o
  /\ (forall (v : V), incoming v = outgoing o' ->
     exists v', read_trojan_like_request v = (Ok (Request Connect a), v')
       /\ incoming v' = rest /\ only_read v v').
Proof.
  intros Huninit Hpeek Hpool Hone Hw He Ho Hfirst Hn Hcopy Hm Ha Hb Hbv Hi Hwc Hec.
  destruct (socks_conversation (St:=St) uninit default_addr Huninit (fe_local_addr env) (fe_bind env)
    (fe_tunnel env) methods CmdConnect a b rest (client w) Hm Ha Hb Hi Hwc)
    as (i1 & Hi1 & He1 & Hw1 & Ho1 & Hconv).
  destruct (socks_write (St:=St) uninit default_addr Huninit SOCKS5_CONNECT_SUCCEEDED i1 Hw1)
    as (i2 & H2 & Ho2 & Hi2 & He2 & Hw2).
  revert Hconv. run H2.
  rewrite (encoded_ok (St:=St) uninit default_addr Huninit (Request Connect a) b), bind_lift by done.
  intros Hconv.
  assert (prog_map_err SocksFailed (on_client (handle_connection_socks5 (St:=St) uninit default_addr
    (fe_local_addr env) (fe_bind env) (fe_tunnel env))) w
    = (Ok (SocksTcp (request_bytes (Request Connect a) b)), set_client i2 w)) as Hplan.
  { unfold prog_map_err, on_client, zoom. by rewrite Hconv. }
  destruct (logged_remote_oneshot config env (request_bytes (Request Connect a) b) first o (set_client i2 w)
    Hpool Hone Hw He Hfirst) as (i3 & o' & Hrelay & Ho' & Hoi3); cbn [client set_client];
    [by rewrite Hi2, Hi1|by apply (request_fits (St:=I))|done|done|congruence|].
  cbn [client set_client] in *. rewrite Hi2, Hi1 in *.
  exists o', (set_client i3 w). split; [|split].
  - unfold handle_connection. rewrite Hpeek.
    rewrite (bind_ok (prog_map_err PeekFailed (lift_res (Ok (Some 5)))) _ w w _ eq_refl).
    change ((default 0 (Some 5) =? 4) || (default 0 (Some 5) =? 5)) with true. cbv beta iota zeta.
    unfold serve_socks5. run Hplan. exact Hrelay.
  - cbn [client set_client]. by rewrite Hoi3, Ho2, Ho1, <- !app_assoc.
  - intros v Hv. rewrite Ho', Ho in Hv. cbn [app] in Hv.
    destruct (read_request_sent (Request Connect a) b rest v Ha Hbv Hv) as (v' & Hr & Hiv & Hv').
    by exists v'.
Qed.

(** ** Witnesses *)

Definition demo_socks (c : Command) : list Z := socks_hello [2; 0] c [1; 9; 9; 9; 9; 0; 53].

(** A client that offers no method the proxy knows is served all the same. *)
Lemma socks5_outcomes_witness :
  exists i', handle_connection_socks5 (I:=duplex) (St:=duplex) fresh_zeros unassociated
      (Ok other_sa) (fun _ => Ok demo_sa) (Ok (open_with []))
      (open_with (socks_hello [2] CmdConnect [1; 9; 9; 9; 9; 0; 53] ++ [7]))
    = (Ok (SocksTcp [1; 1; 9; 9; 9; 9; 0; 53; 13; 10]), i')
  /\ incoming i' = [7] /\ outgoing i' = [5; 255; 5; 0; 0; 1; 0; 0; 0; 0; 0; 0].
Proof.
  destruct (socks5_outcomes (St:=duplex) (I:=duplex) fresh_zeros unassociated (Ok other_sa)
    (fun _ => Ok demo_sa) (Ok (open_with [])) [2] CmdConnect demo_dest [1; 9; 9; 9; 9; 0; 53] [7]
    (open_with (socks_hello [2] CmdConnect [1; 9; 9; 9; 9; 0; 53] ++ [7])) fresh_zeros_length)
    as (r & i' & H & Hi & Hr & Ho).
  - by_compute.
  - by_compute.
  - reflexivity.
  - reflexivity.
  - reflexivity.
  - exists i'. split; [rewrite H, Hr; reflexivity|]. split; [exact Hi|exact Ho].
Defined.

(** A client that sends four bytes behind its SOCKS5 messages, two of them in time for the first
    packet, and ends; the server's answer is on its way. *)
Definition demo_front_world : client_world duplex duplex :=
  ClientWorld (pool demo_world) (closed_with (demo_socks CmdConnect ++ [1; 2; 3; 4])) (tracker demo_world).
Definition demo_front_env : front_env duplex duplex := FrontEnv (Ok (Some 5)) [] (Ok other_sa)
  (fun _ => Ok demo_sa) (Ok (open_with [])) demo_env "server" false None [] (Ok (closed_with [8; 9]))
  (Some (Ok 2%nat)) duplex_copy false (IoErr Other "not connected") [].
