(* ===== verification/SessionLoop.v ===== *)
(** * The server's reusable session loop (shuttle/src/server/session_loop.rs)

    [SessionLoop] and [SessionContext]: the handshake, the loop that serves sequential requests,
    the limits on a session and the ways it is closed.  As in [Relay], the branch a [select!] takes
    is an event of a schedule, with the clock and the shutdown flag the code reads in that turn. *)
From S2P Require Import Prelude.
From stdpp Require Import strings pretty.
From S2P Require Import Time Stream Frame Opt Lifecycle Trojan Relay.
Open Scope Z_scope.

Record SessionContext (St : Type) := Ctx {
  stream : St;
  state : SessionState;
  request_count : Z;
  created_at : Instant;
  last_activity : Instant;
}.
Arguments Ctx {_} _ _ _ _ _.
Arguments stream {_} _.
Arguments state {_} _.
Arguments request_count {_} _.
Arguments created_at {_} _.
Arguments last_activity {_} _.

Definition close_reason_code (reason : CloseReason) : Z :=
  match reason with
  | CloseReason.ClientClose => 1
  | CloseReason.ClientInitiated => 1
  | CloseReason.ServerClose => 2
  | CloseReason.ServerError => 2
  | CloseReason.IdleTimeout => 3
  | CloseReason.MaxAgeExceeded => 4
  | CloseReason.MaxRequestsExceeded => 5
  | CloseReason.MaxRequestsReached => 5
  | CloseReason.KeepaliveTimeout => 6
  | CloseReason.ProtocolError => 7
  | CloseReason.VersionMismatch => 8
  | CloseReason.ShutdownDrain => 9
  | CloseReason.CheckoutFailed => 10
  | CloseReason.Poisoned => 11
  end.

(** ** Addresses of open requests *)

Definition cont (b : Z) : bool := (128 <=? b) && (b <=? 191).
Definition between (lo b hi : Z) : bool := (lo <=? b) && (b <=? hi).

(** [String::from_utf8] accepts exactly the well-formed sequences of the Unicode standard's
    table 3-7. *)
Fixpoint utf8_valid (s : list Z) : bool :=
  match s with
  | [] => true
  | a :: s =>
      if a <=? 127 then utf8_valid s else
      match s with
      | b :: s =>
          if between 194 a 223 then cont b && utf8_valid s else
          match s with
          | c :: s =>
              if between 224 a 239 then
                (if a =? 224 then between 160 b 191 else if a =? 237 then between 128 b 159 else cont b)
                && cont c && utf8_valid s
              else
                match s with
                | d :: s =>
                    between 240 a 244
                    && (if a =? 240 then between 144 b 191 else if a =? 244 then between 128 b 143 else cont b)
                    && cont c && cont d && utf8_valid s
                | [] => false
                end
          | [] => false
          end
      | [] => false
      end
  end.

Definition frame_addr_to_trojan_addr (atyp : Z) (addr : list Z) (port : Z) : res relay_error Addr :=
  if atyp =? 1 then
    if decide (length addr = 4%nat) then Ok (SocketAddress (V4 addr port))
    else Err (ErrMsg "invalid ipv4 address length")
  else if atyp =? 4 then
    if decide (length addr = 16%nat) then Ok (SocketAddress (V6 addr port))
    else Err (ErrMsg "invalid ipv6 address length")
  else if atyp =? 3 then
    if utf8_valid addr then Ok (Domain addr port)
    else Err (ErrMsg "invalid domain address encoding")
  else Err (ErrMsg ("unsupported address type: " +:+ pretty atyp)).

(** ** The environment of a run *)

(** What serving one open request meets: the outcome of connecting to each address, the relay's
    schedule, the shutdown flag when the relay starts and when it has ended, and the clock then. *)
Record request_env (T : Type) := RequestEnv {
  req_connect : Addr -> res io_error T;
  req_schedule : list relay_event;
  req_shutdown : bool;
  req_shutdown_after : bool;
  req_now_after : Instant;
}.
Arguments RequestEnv {_} _ _ _ _ _.
Arguments req_connect {_} _ _.
Arguments req_schedule {_} _.
Arguments req_shutdown {_} _.
Arguments req_shutdown_after {_} _.
Arguments req_now_after {_} _.

(** The branch that completes: a frame, the shutdown notification (with the flag's value) or the
    idle timer; the last two drop a [read_frame] that has read [lost] bytes. *)
Inductive event (T : Type) :=
| FrameReady (now : Instant) (req : request_env T)
| ShutdownSignal (lost : nat) (value : bool)
| IdleElapsed (lost : nat).
Arguments FrameReady {_} _ _.
Arguments ShutdownSignal {_} _ _.
Arguments IdleElapsed {_} _.

(** One iteration: the flag and the clock at its head, then the branch. *)
Record turn (T : Type) := Turn {
  turn_shutdown : bool;
  turn_now : Instant;
  turn_event : event T;
}.
Arguments Turn {_} _ _ _.
Arguments turn_shutdown {_} _.
Arguments turn_now {_} _.
Arguments turn_event {_} _.

(** The branch of the handshake's [select!]. *)
Inductive hello_event :=
| HelloFrame
| HelloShutdown (lost : nat) (value : bool).

(** ** Operations *)

Section session_loop.
Context {St T : Type} `{!AsyncIO St, !AsyncIO T} (config : ReuseConfig).
Abbreviation C := (SessionContext St).

Definition set_stream (s : St) (c : C) : C :=
  Ctx s (state c) (request_count c) (created_at c) (last_activity c).
Definition set_state (st : SessionState) (c : C) : C :=
  Ctx (stream c) st (request_count c) (created_at c) (last_activity c).
Definition touch (now : Instant) (c : C) : C :=
  Ctx (stream c) (state c) (request_count c) (created_at c) now.
Definition count_request (c : C) : C :=
  Ctx (stream c) (state c) (request_count c + 1) (created_at c) (last_activity c).

Definition on_stream {A} (m : prog St FrameError A) : prog C relay_error A :=
  prog_map_err ErrFrame (zoom stream set_stream m).
Definition drop_read (lost : nat) : prog C relay_error unit :=
  modify (fun c => set_stream (dropped_read lost (stream c)) c).

Definition elapsed_at_least (now then_ : Instant) (duration : Duration) : bool :=
  match checked_duration_since now then_ with
  | Some elapsed => duration <=? elapsed
  | None => false
  end.

Definition expired_limit (ctx : C) (now : Instant) : option CloseReason :=
  if max_requests config <=? request_count ctx then Some CloseReason.MaxRequestsReached
  else if elapsed_at_least now (created_at ctx) (max_age config) then Some CloseReason.MaxAgeExceeded
  else if elapsed_at_least now (last_activity ctx) (idle_timeout config) then
    Some CloseReason.IdleTimeout
  else None.

Definition close (reason : CloseReason) : prog C relay_error unit :=
  _ ← modify (set_state SessionState.Closing);
  _ ← on_stream (write_frame (Close (close_reason_code reason)));
  modify (set_state SessionState.Closed).

Definition reset (reason : CloseReason) : prog C relay_error unit :=
  _ ← modify (set_state SessionState.Poisoned);
  on_stream (write_frame (Reset (close_reason_code reason))).

Definition protocol_error (error : FrameError) : prog C relay_error unit :=
  reset CloseReason.ProtocolError.

Definition graceful_shutdown : prog C relay_error unit :=
  ctx ← get;
  match state ctx with
  | SessionState.Active =>
      _ ← modify (set_state SessionState.Draining);
      closed ← timeout (close CloseReason.ShutdownDrain);
      match closed with
      | Some _ => mret tt
      | None => reset CloseReason.ShutdownDrain
      end
  | SessionState.Closed | SessionState.Poisoned => mret tt
  | _ => close CloseReason.ShutdownDrain
  end.

(** [relay_open_request], on the session's stream. *)
Definition relay_open_request (cmd atyp : Z) (addr : list Z) (port : Z) (env : request_env T)
    : prog St relay_error (Z * Z) := fun s =>
  if negb (cmd =? cmd_to_u8 Connect) then
    (Err (ErrMsg ("unsupported reusable request command: " +:+ pretty cmd)), s)
  else
    match frame_addr_to_trojan_addr atyp addr port with
    | Ok dest_addr =>
        match req_connect env dest_addr with
        | Ok outbound =>
            let (r, st) := relay_framed_tcp s outbound (req_shutdown env) (req_schedule env) in
            (r, session st)
        | Err e => (Err (ErrIo "failed to connect reusable request target" e), s)
        | Panic => (Panic, s)
        | Pending => (Pending, s)
        end
    | Err e => (Err e, s)
    | Panic => (Panic, s)
    | Pending => (Pending, s)
    end.

(** [handle_frame]; the result says whether the session goes on. *)
Definition handle_frame (frame : Frame) (env : request_env T) : prog C relay_error bool :=
  match frame with
  | OpenRequest cmd atyp addr port =>
      _ ← modify (set_state SessionState.Active);
      _ ← modify count_request;
      relay_result ← attempt (zoom stream set_stream (relay_open_request cmd atyp addr port env));
      match relay_result with
      | inr error =>
          _ ← reset CloseReason.ServerError;
          mret false
      | inl _ =>
          _ ← modify (set_state SessionState.Idle);
          if req_shutdown_after env then
            _ ← close CloseReason.ShutdownDrain; mret false
          else
            ctx ← get;
            match expired_limit ctx (req_now_after env) with
            | Some reason => _ ← close reason; mret false
            | None => mret true
            end
      end
  | Ping token => _ ← on_stream (write_frame (Pong token)); mret true
  | Close reason => _ ← close CloseReason.ClientInitiated; mret false
  | _ => _ ← reset CloseReason.ProtocolError; mret false
  end.

(** One iteration of [serve_loop]'s loop; [false]: [return Ok(())]. *)
Definition loop_turn (t : turn T) : prog C relay_error bool :=
  if turn_shutdown t then _ ← graceful_shutdown; mret false else
  ctx ← get;
  match expired_limit ctx (turn_now t) with
  | Some reason => _ ← close reason; mret false
  | None =>
      match turn_event t with
      | FrameReady now req =>
          frame ← attempt (zoom stream set_stream read_frame);
          match frame with
          | inl frame => _ ← modify (touch now); handle_frame frame req
          | inr error => _ ← protocol_error error; mret false
          end
      | ShutdownSignal lost value =>
          _ ← drop_read lost;
          if value then _ ← graceful_shutdown; mret false else mret true
      | IdleElapsed lost =>
          _ ← drop_read lost;
          _ ← close CloseReason.IdleTimeout; mret false
      end
  end.

Fixpoint serve (turns : list (turn T)) : prog C relay_error unit :=
  match turns with
  | [] => pending
  | t :: turns =>
      go_on ← loop_turn t;
      match go_on with
      | true => serve turns
      | false => mret tt
      end
  end.

Definition serve_loop (turns : list (turn T)) : prog C relay_error unit :=
  ctx ← get;
  match state ctx with
  | SessionState.Closed | SessionState.Poisoned => mret tt
  | _ => serve turns
  end.

Definition negotiate_frame (now : Instant) (frame : res FrameError Frame) : prog C relay_error unit :=
  match frame with
  | Ok (ClientHello version capabilities) =>
      if version =? PROTOCOL_VERSION then
        _ ← modify (set_state SessionState.Idle);
        modify (touch now)
      else close CloseReason.VersionMismatch
  | Ok _ => reset CloseReason.ProtocolError
  | Err error => protocol_error error
  | Panic => panic
  | Pending => pending
  end.

Definition negotiate (now : Instant) (ev : hello_event) : prog C relay_error unit :=
  match ev with
  | HelloFrame =>
      frame ← attempt (zoom stream set_stream read_frame);
      negotiate_frame now (match frame with inl f => Ok f | inr e => Err e end)
  | HelloShutdown lost value =>
      _ ← drop_read lost;
      if value then close CloseReason.ShutdownDrain
      else
        frame ← attempt (zoom stream set_stream read_frame);
        negotiate_frame now (match frame with inl f => Ok f | inr e => Err e end)
  end.

(** [run_with_stream_and_first_frame]: [now] is the clock at the start, [now2] in the handshake. *)
Definition run_with_stream_and_first_frame (s : St) (first_frame : option Frame) (now now2 : Instant)
    (hello : hello_event) (turns : list (turn T)) : res relay_error unit * C :=
  (_ ← match first_frame with
       | Some frame => negotiate_frame now2 (Ok frame)
       | None => negotiate now2 hello
       end;
   serve_loop turns) (Ctx s SessionState.Handshaking 0 now now).
End session_loop.

(** ** Proofs *)

Section proofs.
Context {St T : Type} `{!AsyncIO St, !AsyncIOLaws St, !AsyncIO T} (config : ReuseConfig).
#[local] Set Default Proof Using "Type*".
Implicit Types c : SessionContext St.

Lemma ctx_stream_eq {A} (m : prog St FrameError A) c r s' :
  m (stream c) = (r, s') -> on_stream m c = (map_err ErrFrame r, set_stream s' c).
Proof. intros H. unfold on_stream, prog_map_err, zoom. by rewrite H. Qed.

Lemma close_code_u8 reason : is_u8 (close_reason_code reason).
Proof. by destruct reason. Qed.

Lemma notice_sendable reason :
  sendable (Close (close_reason_code reason)) /\ sendable (Reset (close_reason_code reason)).
Proof. split; (split; [apply close_code_u8|by vm_compute]). Qed.

(** A write of a notice, whatever the stream does. *)
Lemma on_stream_write f c r c' :
  sendable f -> on_stream (write_frame f) c = (r, c') ->
  state c' = state c /\ request_count c' = request_count c
  /\ incoming (stream c') = incoming (stream c)
  /\ (r = Ok tt -> outgoing (stream c') = outgoing (stream c) ++ wire f).
Proof.
  intros Hf. destruct (write_frame f (stream c)) as [x s'] eqn:Hw.
  rewrite (ctx_stream_eq _ _ _ _ Hw). intros [= <- <-].
  destruct (write_frame_any f _ _ _ Hw) as (Hi & _ & _ & Hok).
  split_and!; [done..|]. intros Hx. destruct x as [[]| | |]; try done.
  destruct (Hok eq_refl) as (b & Hb & Ho). rewrite encode_wire in Hb by done. simpl. congruence.
Qed.

(** What the peer is told last, and the state the session is left in. *)
Definition told (f : Frame) (st : SessionState) c c' : Prop :=
  state c' = st /\ request_count c' = request_count c
  /\ incoming (stream c') = incoming (stream c)
  /\ outgoing (stream c') = outgoing (stream c) ++ wire f.

Lemma close_any reason c r c' :
  close reason c = (r, c') ->
  request_count c' = request_count c
  /\ (r = Ok tt -> told (Close (close_reason_code reason)) SessionState.Closed c c').
Proof.
  unfold close. rewrite (bind_ok (modify _) _ c _ tt eq_refl).
  destruct (on_stream (write_frame (Close (close_reason_code reason)))
    (set_state SessionState.Closing c)) as [x c1] eqn:Hw.
  pose proof (on_stream_write _ _ _ _ (proj1 (notice_sendable reason)) Hw) as (Hst & Hn & Hi & Ho).
  destruct x as [[]| | |]; run Hw; intros [= <- <-]; (split; [done|]); [|done..].
  intros _. split_and!; [done..|]. by apply Ho.
Qed.

Lemma reset_any reason c r c' :
  reset reason c = (r, c') ->
  request_count c' = request_count c
  /\ (r = Ok tt -> told (Reset (close_reason_code reason)) SessionState.Poisoned c c').
Proof.
  unfold reset. rewrite (bind_ok (modify _) _ c _ tt eq_refl). intros Hw.
  pose proof (on_stream_write _ _ _ _ (proj2 (notice_sendable reason)) Hw) as (Hst & Hn & Hi & Ho).
  split; [done|]. intros ->. split_and!; [done..|]. by apply Ho.
Qed.

(** On a stream that accepts writes, the notices are delivered. *)
Lemma close_writable reason c :
  writable (stream c) ->
  exists c', close reason c = (Ok tt, c') /\ told (Close (close_reason_code reason)) SessionState.Closed c c'.
Proof.
  intros Hw. destruct (write_frame_wire (Close (close_reason_code reason)) (stream c)) as (s' & Hwr & Ho & Hi & _);
    [apply notice_sendable|done|].
  set (c1 := set_state SessionState.Closing c).
  pose proof (ctx_stream_eq _ c1 _ _ Hwr) as Hw1.
  exists (set_state SessionState.Closed (set_stream s' c1)). split; [|by split_and!].
  unfold close. rewrite (bind_ok (modify _) _ c _ tt eq_refl). fold c1. by run Hw1.
Qed.

Lemma reset_writable reason c :
  writable (stream c) ->
  exists c', reset reason c = (Ok tt, c') /\ told (Reset (close_reason_code reason)) SessionState.Poisoned c c'.
Proof.
  intros Hw. destruct (write_frame_wire (Reset (close_reason_code reason)) (stream c)) as (s' & Hwr & Ho & Hi & _);
    [apply notice_sendable|done|].
  pose proof (ctx_stream_eq _ (set_state SessionState.Poisoned c) _ _ Hwr) as Hw1.
  exists (set_stream s' (set_state SessionState.Poisoned c)). split; [|by split_and!].
  unfold reset. by rewrite (bind_ok (modify _) _ c _ tt eq_refl).
Qed.

Lemma graceful_shutdown_idle {A} (k : unit -> prog (SessionContext St) relay_error A) c :
  state c = SessionState.Idle ->
  (graceful_shutdown ≫= k) c = (close CloseReason.ShutdownDrain ≫= k) c.
Proof.
  intros Hs. assert (graceful_shutdown c = close CloseReason.ShutdownDrain c) as Heq.
  { unfold graceful_shutdown. rewrite (bind_ok get _ c c c eq_refl), Hs. done. }
  unfold mbind, prog_bind. by rewrite Heq.
Qed.

(** A session that has been told it ends. *)
Definition ended c c' : Prop :=
  exists c0 f, told f (state c') c0 c'
    /\ ((state c' = SessionState.Closed /\ exists reason, f = Close (close_reason_code reason))
        \/ (state c' = SessionState.Poisoned /\ exists reason, f = Reset (close_reason_code reason))).

Lemma told_ended f st c0 c c' :
  told f st c0 c' ->
  (st = SessionState.Closed /\ exists reason, f = Close (close_reason_code reason))
  \/ (st = SessionState.Poisoned /\ exists reason, f = Reset (close_reason_code reason)) ->
  ended c c'.
Proof. intros Ht Hf. exists c0, f. assert (state c' = st) as -> by apply Ht. done. Qed.

(** A step that ends with a notice and stops the loop. *)
Lemma close_stops reason c0 c r c' :
  (_ ← close reason; mret false) c0 = (r, c') ->
  request_count c' = request_count c0 /\ r <> Ok true /\ (r = Ok false -> ended c c').
Proof.
  destruct (close reason c0) as [x c1] eqn:Hc. apply close_any in Hc as Hx. destruct Hx as [Hn Ht].
  destruct x as [[]| | |]; run Hc; intros [= <- <-]; split_and!; try done.
  intros _. eapply told_ended; [by apply Ht|]. eauto.
Qed.

Lemma reset_stops reason c0 c r c' :
  (_ ← reset reason; mret false) c0 = (r, c') ->
  request_count c' = request_count c0 /\ r <> Ok true /\ (r = Ok false -> ended c c').
Proof.
  destruct (reset reason c0) as [x c1] eqn:Hc. apply reset_any in Hc as Hx. destruct Hx as [Hn Ht].
  destruct x as [[]| | |]; run Hc; intros [= <- <-]; split_and!; try done.
  intros _. eapply told_ended; [by apply Ht|]. eauto.
Qed.

(** What one handled frame does to the session, from [Idle]. *)
Definition handled c (more : Z) (r : res relay_error bool) c' : Prop :=
  (request_count c' <= request_count c + more)
  /\ (r = Ok true -> state c' = SessionState.Idle)
  /\ (r = Ok false -> ended c c').

Lemma stops_handled c c0 more r c' :
  request_count c0 <= request_count c + more ->
  request_count c' = request_count c0 /\ r <> Ok true /\ (r = Ok false -> ended c c') ->
  handled c more r c'.
Proof. intros ? (? & ? & ?). split_and!; [lia|done..]. Qed.

Lemma handle_frame_any frame env c r c' :
  state c = SessionState.Idle -> handle_frame (T:=T) config frame env c = (r, c') ->
  handled c 1 r c'.
Proof.
  intros Hs. destruct frame; unfold handle_frame.
  all: try (intros H; eapply stops_handled; [|by eapply reset_stops]; lia).
  - rewrite (bind_ok (modify _) _ c _ tt eq_refl), (bind_ok (modify _) _ _ _ tt eq_refl).
    destruct (attempt (E':=relay_error) (zoom stream set_stream (relay_open_request cmd atyp addr port env))
      (count_request (set_state SessionState.Active c))) as [x c1] eqn:Ha.
    assert (request_count c1 = request_count c + 1) as Hn.
    { unfold attempt, zoom in Ha. destruct (relay_open_request _ _ _ _ _ _) as [[]];
        by injection Ha as <- <-. }
    destruct x as [[y|e]|e| |]; run Ha; try (intros [= <- <-]; split_and!; [lia|done..]).
    + rewrite (bind_ok (modify _) _ _ _ tt eq_refl). destruct (req_shutdown_after env).
      { intros H. eapply stops_handled; [|by eapply close_stops]. simpl. lia. }
      rewrite (bind_ok get _ _ _ _ eq_refl).
      destruct (expired_limit config _ _) as [reason|].
      { intros H. eapply stops_handled; [|by eapply close_stops]. simpl. lia. }
      intros [= <- <-]. split_and!; [simpl; lia|done..].
    + intros H. eapply stops_handled; [|by eapply reset_stops]. lia.
  - destruct (on_stream (write_frame (Pong token)) c) as [x c1] eqn:Hw.
    assert (state c1 = state c /\ request_count c1 = request_count c) as [Hs1 Hn].
    { unfold on_stream, prog_map_err, zoom in Hw. destruct (write_frame _ _). by injection Hw as <- <-. }
    destruct x as [[]| | |]; run Hw; intros [= <- <-]; split_and!; try done; try lia. by rewrite Hs1.
  - intros H. eapply stops_handled; [|by eapply close_stops]. lia.
Qed.

Lemma loop_turn_any t c r c' :
  state c = SessionState.Idle -> request_count c <= max_requests config ->
  loop_turn (T:=T) config t c = (r, c') ->
  request_count c' <= max_requests config
  /\ (r = Ok true -> state c' = SessionState.Idle) /\ (r = Ok false -> ended c c').
Proof.
  intros Hs Hle. unfold loop_turn.
  assert (forall reason c0, request_count c0 = request_count c ->
    (_ ← close reason; mret false) c0 = (r, c') ->
    request_count c' <= max_requests config
    /\ (r = Ok true -> state c' = SessionState.Idle) /\ (r = Ok false -> ended c c')) as Hclose.
  { intros reason c0 Hc0 H. destruct (close_stops reason c0 c r c' H) as (? & ? & ?).
    split_and!; [lia|done..]. }
  destruct (turn_shutdown t).
  { rewrite graceful_shutdown_idle by done. by apply Hclose. }
  rewrite (bind_ok get _ c c c eq_refl).
  destruct (expired_limit config c (turn_now t)) as [reason|] eqn:Hlim; [by apply Hclose|].
  assert (request_count c < max_requests config) as Hlt.
  { unfold expired_limit in Hlim. destruct (Z.leb_spec (max_requests config) (request_count c)); done. }
  destruct (turn_event t) as [now req|lost value|lost].
  - destruct (attempt (E':=relay_error) (zoom stream set_stream read_frame) c) as [x c1] eqn:Ha.
    assert (request_count c1 = request_count c /\ state c1 = state c) as [Hn1 Hs1].
    { unfold attempt, zoom in Ha. destruct (read_frame (stream c)) as [[]]; by injection Ha as <- <-. }
    destruct x as [[frame|e]|e| |]; run Ha; try (intros [= <- <-]; split_and!; [lia|done..]).
    + rewrite (bind_ok (modify _) _ _ _ tt eq_refl). intros H.
      apply handle_frame_any in H as (Hn & ? & He); [|by rewrite <- Hs, <- Hs1].
      simpl in Hn. split_and!; [lia|done|]. intros (c0 & f & ? & ?)%He. by exists c0, f.
    + intros H. destruct (reset_stops _ c1 c r c' H) as (? & ? & ?). split_and!; [lia|done..].
  - rewrite (bind_ok (drop_read lost) _ c _ tt eq_refl). destruct value.
    + rewrite graceful_shutdown_idle by done. by apply Hclose.
    + intros [= <- <-]. split_and!; [simpl; lia|done..].
  - rewrite (bind_ok (drop_read lost) _ c _ tt eq_refl). by apply Hclose.
Qed.

Lemma serve_any turns c r c' :
  state c = SessionState.Idle -> request_count c <= max_requests config ->
  serve (T:=T) config turns c = (r, c') ->
  request_count c' <= max_requests config /\ (r = Ok tt -> ended c c').
Proof.
  revert c. induction turns as [|t turns IH]; intros c Hs Hle; simpl.
  { intros [= <- <-]. by split. }
  destruct (loop_turn config t c) as [x c1] eqn:Ht.
  destruct (loop_turn_any t c x c1 Hs Hle Ht) as (Hle1 & Hs1 & He1).
  destruct x as [[]|e| |]; run Ht; try (intros [= <- <-]; split_and!; done).
  - intros H. destruct (IH c1 (Hs1 eq_refl) Hle1 H) as [? He]. split; [done|].
    intros (c0 & f & ? & ?)%He. by exists c0, f.
  - intros [= <- <-]. split; [done|]. intros _. by apply He1.
Qed.
End proofs.

(** ** Correctness *)

Section correctness.
Context {St T : Type} `{!AsyncIO St, !AsyncIOLaws St, !AsyncIO T} (config : ReuseConfig).
#[local] Set Default Proof Using "Type*".
Implicit Types c : SessionContext St.

Lemma negotiate_frame_any now frame c r c' :
  negotiate_frame now frame c = (r, c') ->
  request_count c' = request_count c
  /\ (r = Ok tt -> state c' = SessionState.Idle \/ ended c c').
Proof.
  assert (forall reason, close reason c = (r, c') ->
    request_count c' = request_count c
    /\ (r = Ok tt -> state c' = SessionState.Idle \/ ended c c')) as Hclose.
  { intros reason H. apply close_any in H as [? Ht]. split; [done|]. intros ->. right.
    eapply told_ended; [by apply Ht|]. eauto. }
  assert (forall reason, reset reason c = (r, c') ->
    request_count c' = request_count c
    /\ (r = Ok tt -> state c' = SessionState.Idle \/ ended c c')) as Hreset.
  { intros reason H. apply reset_any in H as [? Ht]. split; [done|]. intros ->. right.
    eapply told_ended; [by apply Ht|]. eauto. }
  unfold negotiate_frame, protocol_error. destruct frame as [frame|e| |]; [|apply Hreset|..];
    [|by intros [= <- <-]..].
  destruct frame; try apply Hreset. destruct (version =? PROTOCOL_VERSION); [|apply Hclose].
  rewrite (bind_ok (modify _) _ c _ tt eq_refl). intros [= <- <-]. split; [done|]. by left.
Qed.

Lemma negotiate_any now ev c r c' :
  negotiate now ev c = (r, c') ->
  request_count c' = request_count c
  /\ (r = Ok tt -> state c' = SessionState.Idle \/ ended c c').
Proof.
  assert (forall c1, request_count c1 = request_count c ->
    (frame ← attempt (zoom stream set_stream read_frame);
     negotiate_frame now (match frame with inl f => Ok f | inr e => Err e end)) c1 = (r, c') ->
    request_count c' = request_count c
    /\ (r = Ok tt -> state c' = SessionState.Idle \/ ended c c')) as Hread.
  { intros c1 Hc1.
    destruct (attempt (E':=relay_error) (zoom stream set_stream read_frame) c1) as [x c2] eqn:Ha.
    assert (request_count c2 = request_count c) as Hn2.
    { unfold attempt, zoom in Ha. destruct (read_frame (stream c1)) as [[]]; by injection Ha as <- <-. }
    destruct x as [f|e| |]; run Ha; try by intros [= <- <-].
    intros H. apply negotiate_frame_any in H as [Hn Ht]. split; [congruence|].
    intros [?|(c0 & g & ? & ?)]%Ht; [by left|right]. by exists c0, g. }
  unfold negotiate. destruct ev as [|lost value]; [by apply Hread|].
  rewrite (bind_ok (drop_read lost) _ c _ tt eq_refl). destruct value; [|by apply Hread].
  intros H. apply close_any in H as [Hn Ht]. split; [done|]. intros ->. right.
  eapply told_ended; [by apply Ht|]. eauto.
Qed.

(** C18: how a session ends.  Whatever the client sends, the clock shows and the connections do,
    a session never serves more than [max_requests] requests; and when the loop returns [Ok], the
    session is [Closed] and the last thing it wrote is a [Close] frame, or it is [Poisoned] and the
    last thing it wrote is a [Reset] frame, with the code of one of the close reasons. *)
Theorem session_ends_with_notice (s : St) (first_frame : option Frame) (now now2 : Instant)
    (hello : hello_event) (turns : list (turn T)) :
  0 <= max_requests config ->
  let (r, c) := run_with_stream_and_first_frame config s first_frame now now2 hello turns in
  request_count c <= max_requests config
  /\ (r = Ok tt -> exists before f reason, outgoing (stream c) = before ++ wire f
       /\ ((state c = SessionState.Closed /\ f = Close (close_reason_code reason))
           \/ (state c = SessionState.Poisoned /\ f = Reset (close_reason_code reason)))).
Proof.
  intros H0. destruct (run_with_stream_and_first_frame _ _ _ _ _ _ _) as [r c] eqn:Hrun.
  assert (forall c0 c, ended c0 c -> exists before f reason, outgoing (stream c) = before ++ wire f
       /\ ((state c = SessionState.Closed /\ f = Close (close_reason_code reason))
           \/ (state c = SessionState.Poisoned /\ f = Reset (close_reason_code reason)))) as Hend.
  { intros c0 c2 (c1 & f & (_ & _ & _ & Ho) & [[Hs [reason Hf]]|[Hs [reason Hf]]]);
      exists (outgoing (stream c1)), f, reason; auto. }
  revert Hrun. unfold run_with_stream_and_first_frame.
  set (c0 := Ctx s SessionState.Handshaking 0 now now).
  set (m := match first_frame with Some frame => negotiate_frame now2 (Ok frame)
                                 | None => negotiate now2 hello end).
  destruct (m c0) as [x c1] eqn:Hm.
  assert (request_count c1 = 0 /\ (x = Ok tt -> state c1 = SessionState.Idle \/ ended c0 c1)) as [Hn Ht].
  { subst m. destruct first_frame; [by apply negotiate_frame_any in Hm|by apply negotiate_any in Hm]. }
  destruct x as [[]|e| |]; run Hm; try (intros [= <- <-]; split; [lia|done]).
  unfold serve_loop. rewrite (bind_ok get _ c1 c1 c1 eq_refl).
  destruct (Ht eq_refl) as [Hi|He].
  - rewrite Hi. intros Hsv. apply serve_any in Hsv as [Hle He]; [|done|lia].
    split; [done|]. intros ->. by eapply Hend, He.
  - pose proof He as (c2 & f & _ & [[Hs _]|[Hs _]]); rewrite Hs; intros [= <- <-]; (split; [lia|]);
      intros _; by eapply Hend.
Qed.

(** C31: the limits are enforced before anything is read.  At the head of the loop, with no
    shutdown pending, a session that has served [max_requests] requests, is older than [max_age]
    or has been idle for [idle_timeout] is closed with the corresponding reason, in this order of
    precedence, without consuming a byte; a session within its limits is not closed by them. *)
Theorem limits_enforced (c : SessionContext St) (now : Instant) (ev : event T) (turns : list (turn T)) :
  state c = SessionState.Idle -> writable (stream c) ->
  let over := max_requests config <= request_count c in
  let old := created_at c <= now /\ max_age config <= now - created_at c in
  let idle := last_activity c <= now /\ idle_timeout config <= now - last_activity c in
  (over \/ old \/ idle ->
   exists reason c', serve_loop config (Turn false now ev :: turns) c = (Ok tt, c')
     /\ told (Close (close_reason_code reason)) SessionState.Closed c c'
     /\ (over -> reason = CloseReason.MaxRequestsReached)
     /\ (~ over -> old -> reason = CloseReason.MaxAgeExceeded)
     /\ (~ over -> ~ old -> reason = CloseReason.IdleTimeout))
  /\ (~ (over \/ old \/ idle) -> expired_limit config c now = None).
Proof.
  intros Hs Hw over old idle.
  assert (forall reason, expired_limit config c now = Some reason ->
    exists c', serve_loop config (Turn false now ev :: turns) c = (Ok tt, c')
      /\ told (Close (close_reason_code reason)) SessionState.Closed c c') as Hclose.
  { intros reason Hlim. unfold serve_loop. rewrite (bind_ok get _ c c c eq_refl), Hs.
    destruct (close_writable reason c Hw) as (c' & Hc & Htold). exists c'. split; [|done].
    cbn [serve]. unfold loop_turn. cbn [turn_shutdown turn_now turn_event].
    unfold mbind, prog_bind, get. by rewrite Hlim, Hc. }
  assert (Hel : forall t d, elapsed_at_least now t d = true <-> t <= now /\ d <= now - t).
  { intros t d. unfold elapsed_at_least, checked_duration_since.
    destruct (Z.leb_spec t now); rewrite ?Z.leb_le; split; intros; try done; lia. }
  assert (Hel' : forall t d, elapsed_at_least now t d = false <-> ~ (t <= now /\ d <= now - t)).
  { intros t d. rewrite <- Hel. by destruct (elapsed_at_least now t d). }
  unfold expired_limit in *. subst over old idle.
  destruct (Z.leb_spec (max_requests config) (request_count c)).
  { split; [|lia]. intros _. destruct (Hclose _ eq_refl) as (c' & ? & ?). do 2 eexists.
    split_and!; [done..| |]; intros; lia. }
  destruct (elapsed_at_least now (created_at c) (max_age config)) eqn:E1.
  { apply Hel in E1. split; [|tauto]. intros _. destruct (Hclose _ eq_refl) as (c' & ? & ?).
    do 2 eexists. split_and!; [done..| | |]; intros; try done; lia. }
  apply Hel' in E1. destruct (elapsed_at_least now (last_activity c) (idle_timeout config)) eqn:E2.
  { apply Hel in E2. split; [|tauto]. intros _. destruct (Hclose _ eq_refl) as (c' & ? & ?).
    do 2 eexists. split_and!; [done..| | |]; intros; try done; lia. }
  apply Hel' in E2. split; [|done]. lia.
Qed.
End correctness.

Section requests.
Context {St T : Type} `{!AsyncIO St, !AsyncIOLaws St, !AsyncIO T, !AsyncIOLaws T} (config : ReuseConfig).
#[local] Set Default Proof Using "Type*".
Implicit Types c : SessionContext St.

Lemma relay_open_request_complete atyp addr port env a outbound evs fs out sent received rest (s : St) :
  frame_addr_to_trojan_addr atyp addr port = Ok a -> req_connect env a = Ok outbound ->
  req_schedule env = evs ->
  runs Complete (req_shutdown env) false false evs (Whole <$> fs) sent received out ->
  writable s -> writable outbound -> incoming s = concat (wire <$> fs) ++ rest ->
  exists s', relay_open_request (T:=T) (cmd_to_u8 Connect) atyp addr port env s
      = (Ok (Z.of_nat (length sent), Z.of_nat (length received)), s')
    /\ outgoing s' = outgoing s ++ concat (wire <$> out) /\ incoming s' = rest /\ writable s'.
Proof.
  intros Ha Hc He Hruns Hs Ho Hi. unfold relay_open_request. rewrite Z.eqb_refl, Ha, Hc, He.
  cbn [negb].
  rewrite <- spell_whole in Hi.
  destruct (relay_framed_tcp_runs _ _ _ _ _ _ rest s outbound (req_shutdown env) Hruns Hs Ho Hi)
    as (r' & -> & _ & _ & Hos & Hi' & Hw'). by exists (session r').
Qed.

(** The session after a served request, when the relay has left [s'] behind. *)
Definition request_done (s' : St) c : SessionContext St :=
  Ctx s' SessionState.Idle (request_count c + 1) (created_at c) (last_activity c).

(** A connect request whose address decodes is connected to exactly that address; when the relay
    completes, the session is idle again with one more request counted and the client has been
    sent the target's data and the end-of-request; then the shutdown flag and the limits decide. *)
Lemma open_request_relayed (atyp port : Z) (addr : list Z) (env : request_env T) (a : Addr)
    (outbound : T) (fs out : list Frame) (sent received rest : list Z) (c : SessionContext St) :
  frame_addr_to_trojan_addr atyp addr port = Ok a -> req_connect env a = Ok outbound ->
  runs Complete (req_shutdown env) false false (req_schedule env) (Whole <$> fs) sent received out ->
  writable (stream c) -> writable outbound -> incoming (stream c) = concat (wire <$> fs) ++ rest ->
  req_shutdown_after env = false ->
  exists s', outgoing s' = outgoing (stream c) ++ concat (wire <$> out)
    /\ incoming s' = rest /\ writable s'
    /\ handle_frame config (OpenRequest (cmd_to_u8 Connect) atyp addr port) env c
       = match expired_limit config (request_done s' c) (req_now_after env) with
         | Some reason => _ ← close reason; mret false
         | None => mret true
         end (request_done s' c).
Proof.
  intros Ha Hc Hruns Hs Ho Hi Hsh.
  destruct (relay_open_request_complete atyp addr port env a outbound _ fs out sent received rest
    (stream c) Ha Hc eq_refl Hruns Hs Ho Hi) as (s' & Hr & Hos & His & Hws).
  exists s'. split_and!; [done..|]. unfold handle_frame.
  rewrite (bind_ok (modify _) _ c _ tt eq_refl), (bind_ok (modify _) _ _ _ tt eq_refl).
  assert (zoom stream set_stream
    (relay_open_request (cmd_to_u8 Connect) atyp addr port env) (count_request (set_state SessionState.Active c))
    = (Ok (Z.of_nat (length sent), Z.of_nat (length received)),
       set_stream s' (count_request (set_state SessionState.Active c)))) as Hz.
  { unfold zoom. change (stream (count_request (set_state SessionState.Active c))) with (stream c).
    by rewrite Hr. }
  apply (attempt_eq (E':=relay_error)) in Hz. run Hz.
  by rewrite (bind_ok (modify _) _ _ _ tt eq_refl), Hsh, (bind_ok get _ _ _ _ eq_refl).
Qed.

(** Requests that are not served.  A command other than connect, an address of the wrong
    length, an unknown address type, a domain that is not UTF-8 or a failed connection poisons the
    session: the client gets [Reset] with the server-error code, the loop stops, and the bytes the
    client has already sent for the request are left unread. *)
Theorem open_request_refused (cmd atyp port : Z) (addr : list Z) (env : request_env T)
    (c : SessionContext St) :
  writable (stream c) ->
  cmd <> cmd_to_u8 Connect
  \/ (forall a, frame_addr_to_trojan_addr atyp addr port <> Ok a)
  \/ (exists a e, frame_addr_to_trojan_addr atyp addr port = Ok a /\ req_connect env a = Err e) ->
  exists c', handle_frame config (OpenRequest cmd atyp addr port) env c = (Ok false, c')
    /\ state c' = SessionState.Poisoned
    /\ outgoing (stream c') = outgoing (stream c) ++ wire (Reset (close_reason_code CloseReason.ServerError))
    /\ incoming (stream c') = incoming (stream c).
Proof.
  intros Hw Hbad.
  assert (exists e, relay_open_request cmd atyp addr port env (stream c) = (Err e, stream c)) as [e He].
  { unfold relay_open_request. destruct (Z.eqb_spec cmd (cmd_to_u8 Connect)) as [->|]; [|by eauto].
    cbn [negb]. destruct Hbad as [|[Hbad|(a & e & -> & ->)]]; [done| |by eauto].
    destruct (frame_addr_to_trojan_addr atyp addr port) as [a|e| |] eqn:Hf; [by edestruct Hbad|by eauto|..].
    all: unfold frame_addr_to_trojan_addr in Hf; repeat case_match; done. }
  set (c1 := count_request (set_state SessionState.Active c)).
  assert (attempt (E':=relay_error) (zoom stream set_stream (relay_open_request cmd atyp addr port env)) c1
    = (Ok (inr e), c1)) as Ha.
  { unfold attempt, zoom. change (stream c1) with (stream c). rewrite He. by destruct c. }
  destruct (reset_writable CloseReason.ServerError c1 Hw) as (c' & Hreset & Hs & _ & Hi & Ho).
  exists c'. split; [|by split_and!].
  unfold handle_frame.
  rewrite (bind_ok (modify _) _ c _ tt eq_refl), (bind_ok (modify _) _ _ c1 tt eq_refl).
  run Ha. by run Hreset.
Qed.

(** The loop leaves the transition table.  While it serves a request, a session that was
    [Idle] is [Active], and when the request is done it is [Idle] again; [can_transition_to]
    allows neither step. *)
Theorem loop_ignores_transition_table (cmd atyp port : Z) (addr : list Z) (outbound : T)
    (c : SessionContext St) :
  let env := RequestEnv (fun _ => Ok outbound) [] false false 0 in
  state c = SessionState.Idle -> cmd = cmd_to_u8 Connect ->
  is_ok (frame_addr_to_trojan_addr atyp addr port) = true ->
  (exists c', handle_frame config (OpenRequest cmd atyp addr port) env c = (Pending, c')
     /\ state c' = SessionState.Active)
  /\ can_transition_to SessionState.Idle SessionState.Active = false
  /\ can_transition_to SessionState.Active SessionState.Idle = false.
Proof.
  intros env Hs -> Ha. split; [|done].
  destruct (frame_addr_to_trojan_addr atyp addr port) as [a|e| |] eqn:Hf; [|done..].
  eexists. split.
  - unfold handle_frame, mbind, prog_bind, modify, attempt, zoom, relay_open_request.
    rewrite Z.eqb_refl, Hf. cbn. reflexivity.
  - done.
Qed.
End requests.

(** ** Witnesses *)

Definition idle_ctx (bytes : list Z) (served : Z) : SessionContext duplex :=
  Ctx (open_with bytes) SessionState.Idle served 0 0.

Lemma session_ends_with_notice_witness :
  let run := run_with_stream_and_first_frame (T:=duplex) default_server_reuse_config
    (open_with (wire (ClientHello 1 1) ++ wire (Close 0))) None 0 0 HelloFrame
    [Turn false 1 (FrameReady 1 (RequestEnv (fun _ => Pending) [] false false 1))] in
  run.1 = Ok tt /\ request_count run.2 <= 100
  /\ exists before f reason, outgoing (stream run.2) = before ++ wire f
       /\ ((state run.2 = SessionState.Closed /\ f = Close (close_reason_code reason))
           \/ (state run.2 = SessionState.Poisoned /\ f = Reset (close_reason_code reason))).
Proof.
  intros run. split; [reflexivity|].
  destruct (session_ends_with_notice (T:=duplex) default_server_reuse_config
    (open_with (wire (ClientHello 1 1) ++ wire (Close 0))) None 0 0 HelloFrame
    [Turn false 1 (FrameReady 1 (RequestEnv (fun _ => Pending) [] false false 1))]
    ltac:(vm_compute; congruence)) as [Hn He].
  split; [exact Hn|exact (He eq_refl)].
Defined.

Lemma limits_enforced_witness :
  exists reason c', serve_loop (T:=duplex) default_server_reuse_config
      [Turn false 5 (IdleElapsed 0)] (idle_ctx [3; 0; 0] 100) = (Ok tt, c')
    /\ told (Close (close_reason_code reason)) SessionState.Closed (idle_ctx [3; 0; 0] 100) c'
    /\ reason = CloseReason.MaxRequestsReached.
Proof.
  destruct (proj1 (limits_enforced (T:=duplex) default_server_reuse_config (idle_ctx [3; 0; 0] 100) 5
    (IdleElapsed 0) [] eq_refl (open_writable _)) ltac:(left; vm_compute; congruence))
    as (reason & c' & H1 & H2 & H3 & _).
  exists reason, c'. split; [exact H1|]. split; [exact H2|]. apply H3. vm_compute. congruence.
Defined.

Lemma open_request_refused_witness :
  let env := RequestEnv (fun _ => Err (IoErr Other "refused")) [] false false 0 in
  exists c', handle_frame (T:=duplex) default_server_reuse_config
      (OpenRequest 1 3 [255; 254] 80) env (idle_ctx [3; 0; 0] 0) = (Ok false, c')
    /\ state c' = SessionState.Poisoned
    /\ outgoing (stream c') = outgoing (stream (idle_ctx [3; 0; 0] 0))
         ++ wire (Reset (close_reason_code CloseReason.ServerError))
    /\ incoming (stream c') = [3; 0; 0].
Proof.
  intros env.
  apply (open_request_refused (T:=duplex) default_server_reuse_config 1 3 80 [255; 254] env
    (idle_ctx [3; 0; 0] 0) (open_writable _)).
  right; left. intros a. vm_compute. discriminate.
Defined.

Lemma loop_ignores_transition_table_witness :
  let env := RequestEnv (fun _ => Ok (open_with [])) [] false false 0 in
  (exists c', handle_frame default_server_reuse_config (OpenRequest 1 1 [10; 0; 0; 1] 80) env (idle_ctx [] 0)
      = (Pending, c') /\ state c' = SessionState.Active)
  /\ can_transition_to SessionState.Idle SessionState.Active = false
  /\ can_transition_to SessionState.Active SessionState.Idle = false.
Proof.
  intros env. apply (loop_ignores_transition_table default_server_reuse_config 1 1 80 [10; 0; 0; 1]
    (open_with []) (idle_ctx [] 0)); reflexivity.
Defined.
