(* ===== verification/Server.v ===== *)
(** * The server's connections (shuttle/src/server.rs) and the two ends together

    The dispatch of an accepted connection between a trojan-like request and a reusable session,
    and the theorems that put the client's components ([Negotiate], [Plain]) and the server's
    ([SessionLoop], this file) on the two ends of one stream. *)
From S2P Require Import Prelude.
From stdpp Require Import strings.
From S2P Require Import Time Stream Frame Opt Lifecycle Negotiate Trojan Relay SessionLoop.
From S2P Require Plain Pool.
Open Scope Z_scope.

(** [handle_connection]'s errors before anything is served. *)
Inductive dispatch_error :=
| HelloUnreadable (e : FrameError)     (** "failed to read reusable session hello" *)
| HeaderUnreadable (e : io_error).     (** "failed to read request header" *)

Inductive served (T St : Type) :=
| ServeRequest (req : TrojanLikeRequest)
| ServeSession (r : res relay_error unit) (ctx : SessionContext St).
Arguments ServeRequest {_ _} _.
Arguments ServeSession {_ _} _ _.

(** [looks_like_reuse_handshake], on the stream's [buffered_plaintext]. *)
Definition looks_like_reuse_handshake (buffered_plaintext : list Z) : bool :=
  match buffered_plaintext with b :: _ => b =? FRAME_CLIENT_HELLO | [] => false end.

(** The first byte cannot tell the two apart: every connect request looks like a hello. *)
Lemma first_byte_ambiguous a b v k rest :
  looks_like_reuse_handshake (wire (ClientHello v k) ++ rest) = true
  /\ looks_like_reuse_handshake (request_bytes (Request Connect a) b ++ rest) = true.
Proof. done. Qed.

Section server.
Context {St T : Type} `{!AsyncIO St, !AsyncIO T, !Socks5 St}.

(** A request, or the first frame of a reusable session when the header is not a request. *)
Definition dispatch : prog St dispatch_error (TrojanLikeRequest + Frame) :=
  req ← attempt read_trojan_like_request;
  match req with
  | inl req => mret (inl req)
  | inr error =>
      if decide (kind error = InvalidData) then
        frame ← prog_map_err HelloUnreadable read_frame;
        mret (inr frame)
      else fail (HeaderUnreadable error)
  end.

(** The accepted branch of [handle_connection]: a request is relayed as it is, a first frame goes
    to a session loop with the built-in configuration. *)
Definition handle_accepted (now now2 : Instant) (hello : hello_event) (turns : list (turn T))
    : prog St dispatch_error (served T St) := fun s =>
  match dispatch s with
  | (Ok (inl req), s) => (Ok (ServeRequest req), s)
  | (Ok (inr frame), s) =>
      let (r, ctx) := run_with_stream_and_first_frame default_server_reuse_config s (Some frame)
                        now now2 hello turns in
      (Ok (ServeSession r ctx), stream ctx)
  | (Err e, s) => (Err e, s)
  | (Panic, s) => (Panic, s)
  | (Pending, s) => (Pending, s)
  end.
End server.

(** ** Proofs *)

Section proofs.
Context {St T : Type} `{!AsyncIO St, !AsyncIOLaws St, !AsyncIO T, !Socks5 St, !Socks5Laws St}.
#[local] Set Default Proof Using "Type*".
Implicit Types s : St.

(** The request reader on the bytes of a hello: the frame type is the connect command, the high
    byte of the length an unknown address type. *)
Lemma read_request_hello v k rest s :
  is_u8 v -> is_u16 k -> incoming s = wire (ClientHello v k) ++ rest ->
  exists e s', read_trojan_like_request s = (Err e, s')
    /\ incoming s' = 3 :: v :: to_be_bytes 2 k ++ rest.
Proof.
  intros Hv Hk Hi.
  assert (incoming s = 1 :: 0 :: 3 :: v :: to_be_bytes 2 k ++ rest) as Hi' by (rewrite Hi; reflexivity).
  destruct (read_u8_sent 1 _ s Hi') as (s1 & H1 & Hi1 & _).
  destruct (addr_read_unknown 0 _ s1 ltac:(lia) ltac:(lia) ltac:(lia) Hi1) as (e & s2 & H2 & _ & Hi2 & _).
  exists e, s2. split; [|done]. unfold read_trojan_like_request. run H1. cbn [cmd_from_u8 Z.eqb Pos.eqb].
  by run H2.
Qed.

Lemma read_frame_data v k0 k1 rest s :
  incoming s = 3 :: v :: k0 :: k1 :: rest ->
  exists r s', read_frame s = (r, s')
    /\ ((exists d, r = Ok (Data d)) \/ (exists e, r = Err e) \/ r = Pending).
Proof.
  intros Hi. destruct (frame_length (incoming s)) as [n|] eqn:Hn.
  - destruct (read_frame_whole s n Hn) as (s1 & H1 & _). do 2 eexists. split; [exact H1|].
    rewrite Hi, decode_cons. destruct (_ <? _)%nat; [by eauto|]. unfold decode_payload. simpl. eauto.
  - destruct (read_frame_partial s Hn) as (r & s1 & H1 & [->|[e ->]] & _); eauto 7.
Qed.

(** A session whose first frame is not a hello is poisoned (or its reset cannot be written). *)
Lemma run_with_data d s now now2 hello (turns : list (turn T)) :
  exists r ctx, run_with_stream_and_first_frame default_server_reuse_config s (Some (Data d))
      now now2 hello turns = (r, ctx)
    /\ state ctx = SessionState.Poisoned /\ request_count ctx = 0.
Proof.
  unfold run_with_stream_and_first_frame, negotiate_frame.
  set (c0 := Ctx s SessionState.Handshaking 0 now now).
  destruct (on_stream (write_frame (Reset (close_reason_code CloseReason.ProtocolError)))
    (SessionLoop.set_state SessionState.Poisoned c0)) as [r c1] eqn:Hw.
  pose proof (on_stream_write _ _ _ _ (proj2 (notice_sendable _)) Hw) as (Hs & Hn & _).
  assert (reset CloseReason.ProtocolError c0 = (r, c1)) as Hr.
  { unfold reset. by rewrite (bind_ok (modify _) _ c0 _ tt eq_refl). }
  destruct r as [[]|e| |]; run Hr; try (by do 2 eexists; split_and!).
  unfold serve_loop. rewrite (bind_ok get _ c1 c1 c1 eq_refl), Hs. by do 2 eexists.
Qed.

(** A reusable client is never recognised.  The first bytes of its [ClientHello] are those of
    a connect request, so the dispatcher starts to parse one and consumes bytes of the hello; it
    then fails, or reads a frame out of alignment.  Whatever follows, the hello is never handed to
    a session loop: the connection fails, waits for bytes, or starts a session that is poisoned at
    once. *)
Theorem hello_never_dispatched (v k : Z) (rest : list Z) (s : St) (now now2 : Instant)
    (hello : hello_event) (turns : list (turn T)) :
  is_u8 v -> is_u16 k -> incoming s = wire (ClientHello v k) ++ rest ->
  match (handle_accepted now now2 hello turns s).1 with
  | Ok (ServeRequest _) | Panic => False
  | Ok (ServeSession r ctx) => state ctx = SessionState.Poisoned /\ request_count ctx = 0
  | Err _ | Pending => True
  end.
Proof.
  intros Hv Hk Hi. destruct (read_request_hello v k rest s Hv Hk Hi) as (e & s1 & H1 & Hi1).
  apply (attempt_eq (E':=dispatch_error)) in H1.
  unfold handle_accepted, dispatch. run H1.
  destruct (decide (kind e = InvalidData)); [|done].
  destruct (to_be_bytes_2 k) as (k0 & k1 & Hk2 & _). rewrite Hk2 in Hi1. cbn [app] in Hi1.
  destruct (read_frame_data v k0 k1 rest s1 Hi1) as (r & s2 & Hr & Hcase).
  apply (prog_map_err_eq HelloUnreadable) in Hr.
  destruct Hcase as [[d ->]|[[e' ->]| ->]]; cbn [map_err] in Hr; run Hr; [|done..].
  cbn [mret prog_ret].
  by destruct (run_with_data d s2 now now2 hello turns) as (r' & ctx & -> & ? & ?).
Qed.
End proofs.

(** ** Both ends *)

Section both_ends.
Context {C St T : Type} `{!AsyncIO C, !AsyncIOLaws C, !AsyncIO St, !AsyncIOLaws St, !AsyncIO T,
  !AsyncIOLaws T}.
#[local] Set Default Proof Using "Type*".

(** C40: reuse never gets negotiated.  The session loop accepts a hello of its version without
    writing anything, while [negotiate_client] waits for an answer: with such a server at the
    other end a fresh pooled session always fails its negotiation, even though the server is
    ready to serve it. *)
Theorem reuse_never_negotiated (s : St) (rest : list Z) (now now2 : Instant)
    (p : Pool.PooledSession C) :
  incoming s = wire (ClientHello PROTOCOL_VERSION CAP_REUSE) ++ rest ->
  writable (Pool.stream p) -> Pool.session_reuse_count p = 0 ->
  (exists ctx, negotiate now2 HelloFrame (Ctx s SessionState.Handshaking 0 now now) = (Ok tt, ctx)
     /\ state ctx = SessionState.Idle /\ outgoing (stream ctx) = outgoing s
     /\ (incoming (Pool.stream p) = drop (length (outgoing s)) (outgoing (stream ctx)) ->
         exists e st, Plain.negotiate_first p = (Err (Plain.NegotiationFailed e), st)
           /\ outgoing st = outgoing (Pool.stream p) ++ wire (ClientHello PROTOCOL_VERSION CAP_REUSE))).
Proof.
  intros Hi Hw Hn.
  assert (sendable (ClientHello PROTOCOL_VERSION CAP_REUSE)) as Hf by by_compute.
  destruct (read_frame_wire _ rest s Hf Hi) as (s' & Hr & Hi' & _ & Ho & _).
  exists (Ctx s' SessionState.Idle 0 now now2). split.
  { unfold negotiate.
    assert (zoom stream set_stream read_frame (Ctx s SessionState.Handshaking 0 now now)
      = (Ok (ClientHello PROTOCOL_VERSION CAP_REUSE), Ctx s' SessionState.Handshaking 0 now now)) as Hz
      by (unfold zoom; cbn [stream]; by rewrite Hr).
    apply (attempt_eq (E':=relay_error)) in Hz. by run Hz. }
  split; [done|]. split; [done|]. cbn [stream]. rewrite Ho, drop_all. intros Hc.
  unfold Plain.negotiate_first. rewrite Hn. cbn [Z.eqb].
  destruct (send_ok from_frame_error _ _ (Pool.stream p) (encode_wire _ Hf) Hw)
    as (c1 & H1 & Ho1 & Hi1 & _).
  destruct (read_with_timeout_partial c1) as (e & c2 & H2 & _ & _ & (_ & Ho2 & _));
    [by rewrite Hi1, Hc|].
  assert (negotiate_client (new CAP_REUSE) (Pool.stream p) = (Err e, c2)) as ->.
  { unfold negotiate_client. cbn [bits new]. run H1. by run H2. }
  exists e, c2. split; [done|]. by rewrite Ho2, Ho1.
Qed.

(** The server connects to the address the client was asked for.  Encode a request, build the
    open request from the encoded header as the client does, and translate the frame as the server
    does: the result is the same address and port, for IPv4, IPv6 and (UTF-8) domain names,
    whatever payload follows the header. *)
Theorem address_end_to_end `{!Socks5 C, !Socks5Laws C} (r : TrojanLikeRequest) (b extra : list Z) :
  wf_addr (dest_addr r) -> addr_bytes (St:=C) (dest_addr r) = Some b ->
  match dest_addr r with Domain host _ => utf8_valid host = true | _ => True end ->
  exists cmd' atyp addr port,
    Plain.open_request_from_trojan_header (Some (request_bytes r b ++ extra))
      = Ok (OpenRequest cmd' atyp addr port)
    /\ cmd_from_u8 cmd' = Some (cmd r)
    /\ frame_addr_to_trojan_addr atyp addr port = Ok (dest_addr r)
    /\ Plain.trojan_header_len (request_bytes r b ++ extra) = Ok (length (request_bytes r b)).
Proof.
  intros Hwf Hb Hutf.
  rewrite (Plain.open_request_encoded r b extra Hwf Hb), (Plain.header_len_encoded r b extra Hwf Hb).
  destruct (dest_addr r) as [[ip port|ip port]|host port]; do 4 eexists; (split; [done|]);
    (split; [apply cmd_from_to|]); (split; [|done]); unfold frame_addr_to_trojan_addr; simpl in *.
  - by rewrite decide_True by tauto.
  - by rewrite decide_True by tauto.
  - by rewrite Hutf.
Qed.

(** A target that closes first poisons the session.  When the target ends, the server sends
    the end-of-request and keeps waiting for the client's; the client's relay stops at that frame
    without sending its own, and returns the session as healthy.  The next request on the session
    reaches a server that is still in the previous relay and fails there as an unexpected frame. *)
Theorem early_target_end (s : St) (t : T) (c : Plain.client_relay C T) (cmd atyp port : Z)
    (addr rest rest' : list Z) :
  writable s -> writable t -> sendable (OpenRequest cmd atyp addr port) ->
  incoming s = wire (OpenRequest cmd atyp addr port) ++ rest ->
  incoming (Plain.session c) = wire (EndRequest END_REQUEST_OK) ++ rest' ->
  (** the server, at the target's end of stream, then at the client's next frame *)
  (exists r1, relay_turn (TargetRead 0 (Ok [])) (relay_start s t false) = (Ok tt, r1)
     /\ outgoing (session r1) = outgoing s ++ wire (EndRequest END_REQUEST_OK)
     /\ client_ended r1 = false)
  /\ (relay_framed_tcp s t false [TargetRead 0 (Ok []); SessionFrame]).1
     = Err (ErrUnexpected "unexpected reusable request frame" (OpenRequest cmd atyp addr port))
  (** the client, on that end-of-request *)
  /\ (exists c1, Plain.relay_tcp_frames None None [Plain.ServerFrame] c = (Ok (0, 0), c1)
     /\ outgoing (Plain.session c1) = outgoing (Plain.session c)).
Proof.
  intros Hw Hwt Hf Hi Hic.
  assert (sendable (EndRequest END_REQUEST_OK)) as He by (by split; [|by vm_compute]).
  assert (exists r1, relay_turn (TargetRead 0 (Ok [])) (relay_start s t false) = (Ok tt, r1)
     /\ outgoing (session r1) = outgoing s ++ wire (EndRequest END_REQUEST_OK)
     /\ client_ended r1 = false /\ incoming (session r1) = incoming s) as (r1 & H1 & Ho1 & Hc1 & Hi1).
  { destruct (turn_target [] 0 [] false false (incoming s) (relay_start s t false))
      as (r1 & H1 & (_ & Hc1 & _) & Hi1 & (_ & Ho1 & _));
      [by split_and!|by split; [apply Forall_nil_2|by vm_compute]|done|done|].
    exists r1. cbn [fmap list_fmap concat] in Ho1. rewrite app_nil_r in Ho1. done. }
  split; [by exists r1|]. split.
  - unfold relay_framed_tcp. rewrite (relay_loop_cons _ _ _ _ H1). unfold relay_continue.
    rewrite Hc1. cbn [andb relay_loop]. rewrite <- Hi1 in Hi.
    destruct (turn_frame _ rest r1 Hc1 Hf Hi) as (s' & _ & _ & Ht).
    unfold mbind, prog_bind. by rewrite Ht.
  - unfold Plain.relay_tcp_frames. rewrite (bind_ok (modify _) _ c _ tt eq_refl).
    rewrite (bind_ok (Plain.send_first None None) _ _ _ tt eq_refl).
    destruct (Plain.client_turn_frame (EndRequest END_REQUEST_OK) rest'
      (Plain.ClientRelay (Plain.session c) (Plain.inbound c) 0 0 false) He Hic)
      as (s' & _ & (_ & Ho & _) & Ht).
    eexists. cbn [Plain.client_loop]. rewrite (bind_ok _ _ _ _ true Ht). by split.
Qed.
End both_ends.

(** The two numberings of close reasons.  The reasons written with [as u8] (the server side of
    the negotiation, the client's end-of-request) and those written by the session loop agree only
    on two of the fourteen reasons; a rejected version, for one, is 10 in one and 8 in the other,
    where 10 means a failed checkout. *)
Theorem reason_codes_disagree (r : CloseReason) :
  (reason_as_u8 r = close_reason_code r <-> r = CloseReason.ClientInitiated \/ r = CloseReason.ServerClose)
  /\ reason_as_u8 CloseReason.VersionMismatch = close_reason_code CloseReason.CheckoutFailed.
Proof.
  split; [|done].
  destruct r; (split; [intros H; first [discriminate H|by auto]|by intros [?|?]]).
Qed.

(** ** Witnesses *)

Lemma hello_never_dispatched_witness :
  match (handle_accepted (T:=duplex) 0 0 HelloFrame []
          (open_with (wire (ClientHello 0 1) ++ [7; 8]))).1 with
  | Ok (ServeRequest _) | Panic => False
  | Ok (ServeSession r ctx) => state ctx = SessionState.Poisoned /\ request_count ctx = 0
  | Err _ | Pending => True
  end.
Proof.
  apply (hello_never_dispatched (T:=duplex) 0 1 [7; 8]); first [by_compute|reflexivity].
Defined.

Lemma reuse_never_negotiated_witness :
  let s := open_with (wire (ClientHello PROTOCOL_VERSION CAP_REUSE)) in
  let p := Pool.Build_PooledSession duplex (open_with []) 1 0 0 0 in
  exists ctx, negotiate 0 HelloFrame (Ctx s SessionState.Handshaking 0 0 0) = (Ok tt, ctx)
    /\ state ctx = SessionState.Idle
    /\ exists e st, Plain.negotiate_first p = (Err (Plain.NegotiationFailed e), st).
Proof.
  intros s p.
  assert (incoming s = wire (ClientHello PROTOCOL_VERSION CAP_REUSE) ++ []) as Hi by reflexivity.
  destruct (reuse_never_negotiated (C:=duplex) (St:=duplex) s [] 0 0 p Hi (open_writable _) eq_refl) as (ctx & Hr & Hs & Ho & Hc).
  exists ctx. split; [exact Hr|]. split; [exact Hs|].
  destruct (Hc ltac:(rewrite Ho; reflexivity)) as (e & st & He & _). exists e, st. exact He.
Defined.

Lemma address_end_to_end_witness :
  exists cmd' atyp addr port,
    Plain.open_request_from_trojan_header (Some (request_bytes
        (Request Connect (Domain [97; 46; 98] 443)) [3; 3; 97; 46; 98; 1; 187] ++ [22]))
      = Ok (OpenRequest cmd' atyp addr port)
    /\ cmd_from_u8 cmd' = Some Connect
    /\ frame_addr_to_trojan_addr atyp addr port = Ok (Domain [97; 46; 98] 443)
    /\ Plain.trojan_header_len (request_bytes
        (Request Connect (Domain [97; 46; 98] 443)) [3; 3; 97; 46; 98; 1; 187] ++ [22])
      = Ok (length (request_bytes (Request Connect (Domain [97; 46; 98] 443)) [3; 3; 97; 46; 98; 1; 187])).
Proof.
  apply (address_end_to_end (C:=duplex) (Request Connect (Domain [97; 46; 98] 443))
    [3; 3; 97; 46; 98; 1; 187] [22]); first [by_compute|reflexivity].
Defined.

Lemma early_target_end_witness :
  let open := OpenRequest 1 1 [10; 0; 0; 1] 80 in
  (relay_framed_tcp (open_with (wire open)) (open_with []) false [TargetRead 0 (Ok []); SessionFrame]).1
    = Err (ErrUnexpected "unexpected reusable request frame" open)
  /\ exists c1, Plain.relay_tcp_frames None None [Plain.ServerFrame]
       (Plain.ClientRelay (open_with (wire (EndRequest END_REQUEST_OK))) (open_with []) 0 0 false)
       = (Ok (0, 0), c1).
Proof.
  intros open.
  assert (incoming (open_with (wire open)) = wire open ++ []) as Hi by reflexivity.
  assert (incoming (open_with (wire (EndRequest END_REQUEST_OK))) = wire (EndRequest END_REQUEST_OK) ++ [])
    as Hic by reflexivity.
  destruct (early_target_end (C:=duplex) (St:=duplex) (T:=duplex) (open_with (wire open)) (open_with [])
    (Plain.ClientRelay (open_with (wire (EndRequest END_REQUEST_OK))) (open_with []) 0 0 false)
    1 1 80 [10; 0; 0; 1] [] [] (open_writable _) (open_writable _) ltac:(by_compute)
    Hi Hic) as (_ & Hs & c1 & Hc & _).
  split; [exact Hs|]. exists c1. exact Hc.
Defined.
