(* ===== verification/Conversation.v ===== *)
(** * Whole sessions (shuttle/src/server/session_loop.rs, shuttle/src/client/plain.rs)

    [SessionLoop], [Relay] and [Plain] put together: sessions of any number of requests and pings
    from the first frame to the closing one, one request on the two ends of a session, and what a
    server may write on a session whatever its client sends. *)
From S2P Require Import Prelude.
From stdpp Require Import strings.
From S2P Require Import Time Stream Frame Opt Lifecycle Trojan Relay SessionLoop.
From S2P Require Plain Pool Negotiate.
Open Scope Z_scope.

(** ** Sessions *)

Section conversation.
Context {T : Type} `{!AsyncIO T} (config : ReuseConfig) (born : Instant).

(** A session with [n] requests counted and its last frame at [active] is within its limits. *)
Definition within (n : Z) (active now : Instant) : Prop :=
  n < max_requests config /\ elapsed_at_least now born (max_age config) = false
  /\ elapsed_at_least now active (idle_timeout config) = false.

(** One request as the server meets it: the client's frames [fs] up to its end-of-request, whatever
    the interleaving with the target's data, and the answers [out]. *)
Definition exchanged (atyp port : Z) (addr : list Z) (env : request_env T) (fs out : list Frame) : Prop :=
  exists a target sent received,
    frame_addr_to_trojan_addr atyp addr port = Ok a
    /\ req_connect env a = Ok target /\ writable target
    /\ runs Complete (req_shutdown env) false false (req_schedule env) (Whole <$> fs) sent received out
    /\ req_shutdown_after env = false.

Definition open_connect (atyp : Z) (addr : list Z) (port : Z) : Frame :=
  OpenRequest (cmd_to_u8 Connect) atyp addr port.
Definition notice (reason : CloseReason) : Frame := Close (close_reason_code reason).

(** [conversation n active turns asked answered n']: with [n] requests served and the last frame at
    [active], the loop's [turns] meet the client's frames [asked], answer with [answered] and end
    the session in an orderly way after [n'] requests in all. *)
Inductive conversation : Z -> Instant -> list (turn T) -> list Frame -> list Frame -> Z -> Prop :=
| conv_ping n active now now' env t turns asked answered n' :
    within n active now -> is_u32 t ->
    conversation n now' turns asked answered n' ->
    conversation n active (Turn false now (FrameReady now' env) :: turns)
      (Ping t :: asked) (Pong t :: answered) n'
| conv_request n active now now' atyp addr port env fs out turns asked answered n' :
    within n active now -> sendable (open_connect atyp addr port) ->
    exchanged atyp port addr env fs out ->
    within (n + 1) now' (req_now_after env) ->
    conversation (n + 1) now' turns asked answered n' ->
    conversation n active (Turn false now (FrameReady now' env) :: turns)
      (open_connect atyp addr port :: fs ++ asked) (out ++ answered) n'
| conv_wake n active now turns asked answered n' :   (** a notification that is no shutdown *)
    within n active now ->
    conversation n active turns asked answered n' ->
    conversation n active (Turn false now (ShutdownSignal 0 false) :: turns) asked answered n'
| conv_closed n active now now' env turns reason :
    within n active now -> is_u8 reason ->
    conversation n active (Turn false now (FrameReady now' env) :: turns)
      [Close reason] [notice CloseReason.ClientInitiated] n
| conv_last n active now now' atyp addr port env fs out turns :
    within n active now -> sendable (open_connect atyp addr port) ->
    exchanged atyp port addr env fs out ->
    max_requests config = n + 1 ->
    conversation n active (Turn false now (FrameReady now' env) :: turns)
      (open_connect atyp addr port :: fs) (out ++ [notice CloseReason.MaxRequestsReached]) (n + 1)
| conv_idle n active now turns :
    within n active now ->
    conversation n active (Turn false now (IdleElapsed 0) :: turns) []
      [notice CloseReason.IdleTimeout] n
| conv_shutdown n active now ev turns :
    conversation n active (Turn true now ev :: turns) [] [notice CloseReason.ShutdownDrain] n.
End conversation.

(** ** Proofs: the turns of a session *)

Section proofs.
Context {St T : Type} `{!AsyncIO St, !AsyncIOLaws St, !AsyncIO T, !AsyncIOLaws T} (config : ReuseConfig).
#[local] Set Default Proof Using "Type*".
Implicit Types c : SessionContext St.

(** A session between two requests. *)
Definition idle_at (n : Z) (born active : Instant) c : Prop :=
  state c = SessionState.Idle /\ request_count c = n /\ created_at c = born
  /\ last_activity c = active /\ writable (stream c).

Lemma idle_limit n born active now c :
  idle_at n born active c -> within config born n active now -> expired_limit config c now = None.
Proof.
  intros (_ & <- & <- & <- & _) (Hn & Ha & Hi). unfold expired_limit.
  by rewrite (proj2 (Z.leb_gt _ _) Hn), Ha, Hi.
Qed.

(** A turn that reads a frame hands it on. *)
Lemma loop_turn_frame f rest n born active now now' env c :
  idle_at n born active c -> within config born n active now ->
  sendable f -> incoming (stream c) = wire f ++ rest ->
  exists c', loop_turn (T:=T) config (Turn false now (FrameReady now' env)) c = handle_frame config f env c'
    /\ idle_at n born now' c' /\ incoming (stream c') = rest
    /\ outgoing (stream c') = outgoing (stream c).
Proof.
  intros Hc Hlim Hf Hi. destruct (read_frame_wire f rest (stream c) Hf Hi) as (s' & Hr & Hi' & _ & Ho & Hw).
  exists (touch now' (set_stream s' c)). split; [|unfold idle_at in *; cbn; destruct_and!; by auto 10].
  unfold loop_turn. cbn [turn_shutdown turn_now turn_event]. rewrite (bind_ok get _ c c c eq_refl).
  rewrite (idle_limit n born active now c Hc Hlim).
  assert (zoom stream set_stream read_frame c = (Ok f, set_stream s' c)) as Hz
    by (unfold zoom; by rewrite Hr).
  apply (attempt_eq (E':=relay_error)) in Hz. run Hz.
  by rewrite (bind_ok (modify _) _ _ _ tt eq_refl).
Qed.

Lemma serve_goes_on (t : turn T) turns c c' :
  loop_turn config t c = (Ok true, c') -> serve config (t :: turns) c = serve config turns c'.
Proof. intros H. cbn [serve]. by run H. Qed.

Lemma serve_stops (t : turn T) turns c c' :
  loop_turn config t c = (Ok false, c') -> serve config (t :: turns) c = (Ok tt, c').
Proof. intros H. cbn [serve]. by run H. Qed.

(** What a conversation leaves behind. *)
Definition completed (answered : list Frame) (rest : list Z) (n : Z) c c' : Prop :=
  state c' = SessionState.Closed /\ request_count c' = n /\ incoming (stream c') = rest
  /\ outgoing (stream c') = outgoing (stream c) ++ concat (wire <$> answered).

Lemma told_completed reason rest n c0 c c' out :
  told (notice reason) SessionState.Closed c0 c' ->
  request_count c0 = n -> incoming (stream c0) = rest ->
  outgoing (stream c0) = outgoing (stream c) ++ concat (wire <$> out) ->
  completed (out ++ [notice reason]) rest n c c'.
Proof.
  intros (Hs & Hn & Hi & Ho) <- <- H. unfold completed.
  rewrite fmap_app, concat_app, app_assoc, <- H. cbn [fmap list_fmap concat]. by rewrite app_nil_r.
Qed.

Lemma completed_after out answered rest n c c1 c' :
  outgoing (stream c1) = outgoing (stream c) ++ concat (wire <$> out) ->
  completed answered rest n c1 c' -> completed (out ++ answered) rest n c c'.
Proof.
  intros H (? & ? & ? & Ho). unfold completed. by rewrite Ho, H, fmap_app, concat_app, app_assoc.
Qed.

(** A served request, up to the decision of the limits. *)
Lemma turn_request n born active now now' atyp addr port env fs out rest c :
  idle_at n born active c -> within config born n active now ->
  sendable (open_connect atyp addr port) -> exchanged (T:=T) atyp port addr env fs out ->
  incoming (stream c) = wire (open_connect atyp addr port) ++ concat (wire <$> fs) ++ rest ->
  exists c', idle_at (n + 1) born now' c' /\ incoming (stream c') = rest
    /\ outgoing (stream c') = outgoing (stream c) ++ concat (wire <$> out)
    /\ loop_turn config (Turn false now (FrameReady now' env)) c
       = match expired_limit config c' (req_now_after env) with
         | Some reason => _ ← close reason; mret false
         | None => mret true
         end c'.
Proof.
  intros Hc Hlim Hf (a & target & sent & received & Ha & Hk & Hw & Hruns & Hsh) Hi.
  destruct (loop_turn_frame _ _ n born active now now' env c Hc Hlim Hf Hi) as (c1 & Ht & Hc1 & Hi1 & Ho1).
  destruct (open_request_relayed config atyp port addr env a target fs out sent received rest c1)
    as (s' & Ho & His & Hws & Hh); [by first [done | apply Hc1]..|].
  exists (request_done s' c1). destruct Hc1 as (Hs & Hn & Hb & Hact & Hw1).
  rewrite Ht, <- Ho1. split_and!; [|done..]. unfold idle_at. cbn. by rewrite Hn, Hb, Hact.
Qed.
End proofs.

Section conversation_proofs.
Context {St T : Type} `{!AsyncIO St, !AsyncIOLaws St, !AsyncIO T, !AsyncIOLaws T} (config : ReuseConfig).
#[local] Set Default Proof Using "Type*".
Implicit Types c : SessionContext St.

(** A turn that ends the session with a notice. *)
Lemma turn_closes reason (t : turn T) turns answered rest n c c1 :
  loop_turn config t c = (_ ← close reason; mret false) c1 ->
  writable (stream c1) -> request_count c1 = n -> incoming (stream c1) = rest ->
  outgoing (stream c1) = outgoing (stream c) ++ concat (wire <$> answered) ->
  exists c', serve config (t :: turns) c = (Ok tt, c')
    /\ completed (answered ++ [notice reason]) rest n c c'.
Proof.
  intros Ht Hw Hn Hi Ho.
  destruct (close_writable reason c1 Hw) as (c' & Hk & Htold).
  rewrite (bind_ok _ _ _ _ _ Hk) in Ht. exists c'. split; [by apply serve_stops|]. by eapply told_completed.
Qed.

Lemma serve_conversation born n active (turns : list (turn T)) asked answered n' c rest :
  conversation config born n active turns asked answered n' -> idle_at n born active c ->
  incoming (stream c) = concat (wire <$> asked) ++ rest ->
  exists c', serve config turns c = (Ok tt, c') /\ completed answered rest n' c c'.
Proof.
  intros Hconv. revert c. induction Hconv as
    [n active now now' env t turns asked answered n' Hlim Hu _ IH
    |n active now now' atyp addr port env fs out turns asked answered n' Hlim Hf Hex Hlim' _ IH
    |n active now turns asked answered n' Hlim _ IH
    |n active now now' env turns reason Hlim Hu
    |n active now now' atyp addr port env fs out turns Hlim Hf Hex Hmax
    |n active now turns Hlim|n active now ev turns]; intros c Hc Hi;
    cbn [fmap list_fmap concat] in Hi; rewrite <- ?app_assoc in Hi.
  - assert (sendable (Ping t) /\ sendable (Pong t)) as [Hp Hq] by (by split; (split; [|by vm_compute])).
    destruct (loop_turn_frame config (Ping t) _ n born active now now' env c Hc Hlim Hp Hi)
      as (c1 & Ht & (Hs & Hn & Hb & Ha & Hw) & Hi1 & Ho1).
    destruct (write_frame_wire (Pong t) (stream c1) Hq Hw) as (s' & Hwr & Ho & His & _ & Hws).
    apply ctx_stream_eq in Hwr. cbn [handle_frame] in Ht. rewrite (bind_ok _ _ _ _ _ Hwr) in Ht.
    destruct (IH (set_stream s' c1)) as (c' & Hsv & Hcomp); [by split_and!|cbn; congruence|].
    exists c'. rewrite (serve_goes_on config _ turns _ _ Ht). split; [done|].
    apply (completed_after [Pong t] _ _ _ _ (set_stream s' c1)); [|done].
    cbn. by rewrite app_nil_r, Ho, Ho1.
  - rewrite fmap_app, concat_app, <- app_assoc in Hi.
    destruct (turn_request config n born active now now' atyp addr port env fs out _ c Hc Hlim Hf Hex Hi)
      as (c1 & Hc1 & Hi1 & Ho1 & Ht).
    rewrite (idle_limit config (n + 1) born now' _ c1 Hc1 Hlim') in Ht.
    destruct (IH c1 Hc1 Hi1) as (c' & Hsv & Hcomp). exists c'.
    rewrite (serve_goes_on config _ turns _ _ Ht). split; [done|]. by eapply completed_after.
  - destruct (dropped_read_0 (stream c)) as (Hi0 & _ & Ho0 & Hw0).
    assert (loop_turn config (Turn (T:=T) false now (ShutdownSignal 0 false)) c
      = (Ok true, set_stream (dropped_read 0 (stream c)) c)) as Ht.
    { unfold loop_turn. cbn [turn_shutdown turn_now turn_event].
      by rewrite (bind_ok get _ c c c eq_refl), (idle_limit config n born active now c Hc Hlim). }
    destruct (IH (set_stream (dropped_read 0 (stream c)) c)) as (c' & Hsv & Hcomp);
      [unfold idle_at in *; cbn; destruct_and!; by auto 10|cbn; congruence|].
    exists c'. rewrite (serve_goes_on config _ turns _ _ Ht). split; [done|].
    eapply (completed_after []); [|exact Hcomp]. cbn. by rewrite Ho0, app_nil_r.
  - destruct (loop_turn_frame config (Close reason) rest n born active now now' env c Hc Hlim)
      as (c1 & Ht & (_ & Hn & _ & _ & Hw) & Hi1 & Ho1); [by split; [|by vm_compute]|done|].
    eapply (turn_closes _ _ _ []); [exact Ht|done..|]. by rewrite Ho1, app_nil_r.
  - destruct (turn_request config n born active now now' atyp addr port env fs out rest c Hc Hlim Hf Hex Hi)
      as (c1 & (_ & Hn & _ & _ & Hw) & Hi1 & Ho1 & Ht).
    unfold expired_limit in Ht. rewrite Hn, (proj2 (Z.leb_le _ _)) in Ht by lia.
    by eapply turn_closes.
  - destruct (dropped_read_0 (stream c)) as (Hi0 & _ & Ho0 & Hw0).
    eapply (turn_closes CloseReason.IdleTimeout _ _ [] _ _ _ (set_stream (dropped_read 0 (stream c)) c));
      [|by apply Hw0, Hc|by apply Hc|by rewrite <- Hi0 in Hi|cbn; by rewrite Ho0, app_nil_r].
    unfold loop_turn. cbn [turn_shutdown turn_now turn_event].
    by rewrite (bind_ok get _ c c c eq_refl), (idle_limit config n born active now c).
  - destruct Hc as (Hs & Hn & Hb & Ha & Hw).
    eapply (turn_closes CloseReason.ShutdownDrain _ _ [] _ _ _ c); [|done..|by rewrite app_nil_r].
    unfold loop_turn. cbn [turn_shutdown]. by apply graceful_shutdown_idle.
Qed.
End conversation_proofs.

(** ** Proofs: one request on the two ends *)

Section request_proofs.
Context {St I T : Type} `{!AsyncIO St, !AsyncIOLaws St, !AsyncIO I, !AsyncIOLaws I, !AsyncIO T, !AsyncIOLaws T,
  !Socks5 St, !Socks5Laws St}.
#[local] Set Default Proof Using "Type*".

(** The open request the client builds for an address, and its translation on the server. *)
Lemma open_request_of (a : Addr) (b payload : list Z) :
  wf_addr a -> addr_bytes (St:=St) a = Some b ->
  match a with Domain host _ => utf8_valid host = true | _ => True end ->
  exists atyp addr port,
    Plain.open_request_from_trojan_header (Some (request_bytes (Request Connect a) b ++ payload))
      = Ok (open_connect atyp addr port)
    /\ sendable (open_connect atyp addr port) /\ frame_addr_to_trojan_addr atyp addr port = Ok a.
Proof.
  intros Hwf Hb Hutf. rewrite (Plain.open_request_encoded (Request Connect a) b payload Hwf Hb).
  assert (forall atyp addr port, is_u8 atyp -> is_bytes addr -> is_u16 port -> (length addr <= 255)%nat ->
    sendable (open_connect atyp addr port)) as Hf.
  { intros. split; [by split_and!|]. unfold open_connect, MAX_FRAME_PAYLOAD. cbn [Frame.payload snd]. len. }
  cbn [dest_addr cmd]. unfold frame_addr_to_trojan_addr.
  destruct a as [[ip port|ip port]|host port]; do 3 eexists; (split; [done|]); cbn in Hwf |- *.
  - destruct Hwf as (? & Hl & ?). rewrite decide_True by done. split; [by apply Hf; try lia|done].
  - destruct Hwf as (? & Hl & ?). rewrite decide_True by done. split; [by apply Hf; try lia|done].
  - destruct Hwf as (? & ?). rewrite Hutf. split; [|done]. apply Hf; try done.
    destruct (Nat.le_gt_cases (length host) 255) as [|Hl]; [done|].
    cbn in Hb. by rewrite addr_bytes_long in Hb.
Qed.

(** With no frame read cut off, what one relay sends is what the other receives. *)
Lemma both_relays e c cevs at_client to_client sent received to_server e' dr ce te evs at_server sent'
    received' data :
  Plain.client_runs e c cevs at_client sent received to_server ->
  runs e' dr ce te evs at_server sent' received' to_client ->
  at_client = Whole <$> to_client -> at_server = Whole <$> Plain.first_frames data ++ to_server ->
  sent' = data ++ sent /\ received = received'
  /\ (Z.of_nat (length sent'), Z.of_nat (length received'))
     = (Z.of_nat (length (data ++ sent)), Z.of_nat (length received)).
Proof.
  intros Hc Hs -> ->. destruct (Plain.client_runs_data_of _ _ _ _ _ _ _ Hc) as [-> ->].
  destruct (runs_data_of _ _ _ _ _ _ _ _ _ Hs) as [-> ->].
  rewrite !frames_of_whole, data_of_app.
  assert (data_of (Plain.first_frames data) = data) as -> by (destruct data; cbn; by rewrite ?app_nil_r).
  done.
Qed.

(** A request over a session that was checked out for it and has been negotiated before. *)
Lemma reusable_served (config : ReuseConfig) (env : Plain.call_env (St:=St)) (ps : Pool.PooledSession St)
    (p1 : Pool.SessionPool St) (w : Plain.client_world St I) (outbuf first : option (list Z))
    (evs : list Plain.client_event) (request : Frame) (st : St) (counts : Z * Z) (c : Plain.client_relay St I) :
  Pool.checkout config (Plain.env_now env) (Plain.env_connect_now env) (Plain.env_connect env)
    (Plain.env_others env) (Plain.env_others2 env) (Plain.pool w) = (Ok ps, p1) ->
  Pool.session_reuse_count ps <> 0 -> 0 <= Pool.checked_out (Pool.inner (Plain.env_others3 env p1)) ->
  Plain.open_request_from_trojan_header outbuf = Ok request ->
  write_frame request (Pool.stream ps) = (Ok tt, st) ->
  Plain.relay_tcp_frames outbuf first evs (Plain.ClientRelay st (Plain.client w) 0 0 false) = (Ok counts, c) ->
  exists w', Plain.relay_tcp_reusable config env outbuf first evs w = (Ok counts, w')
    /\ Plain.client w' = Plain.inbound c.
Proof.
  intros Hk Hrc H0 Hreq Hsend Hrel.
  assert (prog_map_err Plain.CheckoutFailed (Plain.on_pool (Pool.checkout config (Plain.env_now env)
    (Plain.env_connect_now env) (Plain.env_connect env) (Plain.env_others env) (Plain.env_others2 env))) w
    = (Ok ps, Plain.set_pool p1 w)) as Hc.
  { unfold prog_map_err, Plain.on_pool, zoom. by rewrite Hk. }
  unfold Plain.relay_tcp_reusable. run Hc. unfold Plain.negotiate_first.
  rewrite (proj2 (Z.eqb_neq _ _) Hrc), Hreq. cbn [map_err]. rewrite bind_lift, Hsend.
  rewrite (bind_ok get _ _ _ _ eq_refl). cbn [Plain.client Plain.set_pool] in *. rewrite Hrel.
  rewrite (bind_ok (modify _) _ _ _ tt eq_refl).
  set (w1 := Plain.set_client (Plain.inbound c) (Plain.set_pool p1 w)).
  assert (Plain.on_pool (E:=Plain.reuse_error) (modify (Plain.env_others3 env)) w1
    = (Ok tt, Plain.set_pool (Plain.env_others3 env p1) w1)) as Hid by done.
  run Hid.
  destruct (Plain.give_back_eq (E:=Plain.reuse_error) config ps (Plain.session c) true (Plain.env_return_now env)
    (Plain.set_pool (Plain.env_others3 env p1) w1)) as (p' & Hg & _); [done|].
  cbn [is_ok map_err]. run Hg. by eexists.
Qed.
End request_proofs.

(** ** Correctness *)

Section correctness.
Context {St T : Type} `{!AsyncIO St, !AsyncIOLaws St, !AsyncIO T, !AsyncIOLaws T} (config : ReuseConfig).
#[local] Set Default Proof Using "Type*".

(** C13: a session serves its requests.  From the client's hello, handed over by the dispatcher or
    read by the loop, through any number of connect requests and pings between them, to the end of
    the session (the client's close, the request limit, the idle timer or a shutdown between two
    requests): the server answers every request with what its relay produces and every ping with
    its pong, in order, ends with one close frame that says why, has counted exactly the requests,
    and has read nothing beyond the frames it answered. *)
Theorem session_serves_conversation (dispatched : bool) (capabilities : Z) (s : St) (now now2 : Instant)
    (turns : list (turn T)) (asked answered : list Frame) (n : Z) (rest : list Z) :
  let hello := ClientHello PROTOCOL_VERSION capabilities in
  is_u16 capabilities -> writable s ->
  conversation config now 0 now2 turns asked answered n ->
  incoming s = (if dispatched then [] else wire hello) ++ concat (wire <$> asked) ++ rest ->
  exists c, run_with_stream_and_first_frame config s (if dispatched then Some hello else None) now now2
      HelloFrame turns = (Ok tt, c)
    /\ state c = SessionState.Closed /\ request_count c = n
    /\ outgoing (stream c) = outgoing s ++ concat (wire <$> answered) /\ incoming (stream c) = rest.
Proof.
  intros hello Hcap Hw Hconv Hi. unfold run_with_stream_and_first_frame.
  set (c0 := Ctx s SessionState.Handshaking 0 now now).
  assert (exists s1, incoming s1 = concat (wire <$> asked) ++ rest /\ outgoing s1 = outgoing s /\ writable s1
    /\ match (if dispatched then Some hello else None) with
       | Some frame => negotiate_frame now2 (Ok frame)
       | None => negotiate now2 HelloFrame
       end c0 = (Ok tt, Ctx s1 SessionState.Idle 0 now now2)) as (s1 & Hi1 & Ho1 & Hw1 & Hn).
  { destruct dispatched; [by exists s|].
    destruct (read_frame_wire hello (concat (wire <$> asked) ++ rest) s) as (s1 & Hr & Hi1 & _ & Ho & Hw1);
      [split; [by split; [by_compute|]|by vm_compute]|done|].
    exists s1. split_and!; [done..|by auto|].
    assert (zoom stream set_stream read_frame c0 = (Ok hello, set_stream s1 c0)) as Hz
      by (unfold zoom; cbn; by rewrite Hr).
    apply (attempt_eq (E':=relay_error)) in Hz. unfold negotiate. by run Hz. }
  run Hn. set (c1 := Ctx s1 SessionState.Idle 0 now now2).
  destruct (serve_conversation config now 0 now2 turns asked answered n c1 rest Hconv)
    as (c & Hsv & Hs & Hcount & Hic & Hoc); [by split_and!|done|].
  exists c. cbn in Hoc. rewrite Ho1 in Hoc. unfold serve_loop. by rewrite (bind_ok get _ c1 c1 c1 eq_refl).
Qed.
End correctness.

Section end_to_end.
Context {St I T : Type} `{!AsyncIO St, !AsyncIOLaws St, !AsyncIO I, !AsyncIOLaws I, !AsyncIO T, !AsyncIOLaws T,
  !Socks5 St, !Socks5Laws St}.
#[local] Set Default Proof Using "Type*".

(** C6: a pooled request, end to end, whichever side ends first.  A client relays a connection over a
    pooled session negotiated before, up to the server's end-of-request.  What it writes is, for the
    server that reads it, the open request for the very address asked for and then its relay.  The
    server connects there; the proxied client has got the data of the whole frames its relay read,
    the target the data of those the server's relay read, and the end of the stream if the client's
    end-of-request was among them.  As long as neither end has a frame read cut off half-way (else
    see C14 and C26), the target has got the first packet and the rest of the client's bytes, and
    the proxied client the target's bytes, in any interleaving.  If both sides ended, the server
    returns the same byte counts and both streams stand behind the request; if the target ended
    first, the client returns while the server still waits in this request. *)
Theorem pooled_request_end_to_end (config : ReuseConfig) (env : Plain.call_env (St:=St))
    (ps : Pool.PooledSession St) (p1 : Pool.SessionPool St) (w : Plain.client_world St I)
    (a : Addr) (b payload data : list Z) (first : option (list Z)) (cevs : list Plain.client_event)
    (renv : request_env T) (target : T) (e : ending) (to_server to_client : list Frame)
    (at_client at_server : list piece) (sent sent' received received' rest rest' : list Z) :
  let outbuf := request_bytes (Request Connect a) b ++ payload in
  let from_client := Plain.first_frames data ++ to_server in
  wf_addr a -> addr_bytes (St:=St) a = Some b ->
  match a with Domain host _ => utf8_valid host = true | _ => True end ->
  data = payload ++ take (Plain.room (length outbuf)) (default [] first) -> sendable (Data data) ->
  Pool.checkout config (Plain.env_now env) (Plain.env_connect_now env) (Plain.env_connect env)
    (Plain.env_others env) (Plain.env_others2 env) (Plain.pool w) = (Ok ps, p1) ->
  Pool.session_reuse_count ps <> 0 -> 0 <= Pool.checked_out (Pool.inner (Plain.env_others3 env p1)) ->
  Plain.client_runs Complete false cevs at_client sent received to_server ->
  runs e (req_shutdown renv) false false (req_schedule renv) at_server sent' received' to_client ->
  spell at_client = concat (wire <$> to_client) -> spell at_server = concat (wire <$> from_client) ->
  req_connect renv a = Ok target -> writable target -> writable (Pool.stream ps) -> writable (Plain.client w) ->
  incoming (Pool.stream ps) = concat (wire <$> to_client) ++ rest ->
  let counts := (Z.of_nat (length (data ++ sent)), Z.of_nat (length received)) in
  let counts' := (Z.of_nat (length sent'), Z.of_nat (length received')) in
  (at_client = Whole <$> to_client -> at_server = Whole <$> from_client ->
     sent' = data ++ sent /\ received = received' /\ counts' = counts)
  /\ exists w' st c bytes atyp addr port,
    Plain.relay_tcp_reusable config env (Some outbuf) first cevs w = (Ok counts, w')
    /\ outgoing (Plain.client w') = outgoing (Plain.client w) ++ received
    /\ write_frame (open_connect atyp addr port) (Pool.stream ps) = (Ok tt, st)
    /\ Plain.relay_tcp_frames (Some outbuf) first cevs (Plain.ClientRelay st (Plain.client w) 0 0 false)
       = (Ok counts, c)
    /\ incoming (Plain.session c) = rest /\ outgoing (Plain.session c) = outgoing (Pool.stream ps) ++ bytes
    /\ forall s, writable s -> incoming s = bytes ++ rest' ->
       exists s1 r, read_frame s = (Ok (open_connect atyp addr port), s1)
         /\ relay_open_request (cmd_to_u8 Connect) atyp addr port renv s1 = (result e counts', session r)
         /\ relay_framed_tcp s1 target (req_shutdown renv) (req_schedule renv) = (result e counts', r)
         /\ outgoing (Relay.target r) = outgoing target ++ sent'
         /\ fin_sent r = ends_request (frames_of at_server)
         /\ outgoing (session r) = outgoing s ++ concat (wire <$> to_client) /\ incoming (session r) = rest'.
Proof.
  intros outbuf from_client Hwf Hb Hutf Hd Hf Hk Hrc H0 Hcr Hsr Hsc Hss Hconn Hwt Hws Hwi Hi counts counts'.
  split; [by eapply both_relays; eauto|].
  destruct (open_request_of a b payload Hwf Hb Hutf) as (atyp & addr & port & Hreq & Hfr & Hfa).
  destruct (write_frame_wire _ (Pool.stream ps) Hfr Hws) as (st & Hsend & Ho & Hist & _ & Hwst).
  rewrite <- Hist, <- Hsc in Hi.
  destruct (Plain.relay_tcp_frames_runs outbuf data first (length (request_bytes (Request Connect a) b)) Complete cevs
    at_client to_server sent received rest (Plain.ClientRelay st (Plain.client w) 0 0 false))
    as (c & Hrel & Hos & Hoi & Hic); [by apply Plain.header_len_encoded| |done..|].
  { subst outbuf. rewrite Hd, <- app_assoc. by rewrite drop_app_length. }
  destruct (reusable_served config env ps p1 w _ first cevs _ st counts c Hk Hrc H0 Hreq Hsend Hrel)
    as (w' & Hw' & Hcl).
  exists w', st, c, (wire (open_connect atyp addr port) ++ concat (wire <$> from_client)), atyp, addr, port.
  cbn [Plain.session Plain.inbound] in *. rewrite Hcl, Hoi, Hos, Ho, <- app_assoc. split_and!; [done..|].
  intros s Hwsv Hinc. rewrite <- app_assoc in Hinc.
  destruct (read_frame_wire _ _ s Hfr Hinc) as (s1 & Hr & Hi1 & _ & Ho1 & Hw1). rewrite <- Hss in Hi1.
  destruct (relay_framed_tcp_runs _ _ _ _ _ _ rest' s1 target (req_shutdown renv) Hsr (Hw1 Hwsv) Hwt Hi1)
    as (r & Hrun & Hot & Hfin & Hor & Hir & _).
  exists s1, r. rewrite <- Ho1. split_and!; [done| |done..].
  unfold relay_open_request. by rewrite Z.eqb_refl, Hfa, Hconn, Hrun.
Qed.
End end_to_end.

(** ** Witnesses *)

Definition demo_env (now : Instant) : request_env duplex := RequestEnv
  (fun a => if decide (a = SocketAddress (V4 [10; 0; 0; 1] 80)) then Ok (open_with []) else Err (IoErr Other "refused"))
  [SessionFrame; TargetRead 0 (Ok [7]); SessionFrame; TargetRead 0 (Ok []); SessionFrame] false false now.

Lemma demo_runs :
  runs Complete false false false (req_schedule (demo_env 3)) (Whole <$> [Data [1]; Data [2]; EndRequest 0])
    [1; 2] [7] [Data [7]; EndRequest 0].
Proof.
  apply (runs_data [1] _ _ _ _ _ [2]); [by_compute|].
  apply (runs_chunk 0 [] 7 [] _ _ _ _ _ [2] []); [by_compute|reflexivity|].
  apply (runs_data [2] _ _ _ _ _ []); [by_compute|]. apply (runs_eof 0 []); [reflexivity|].
  apply runs_end; [by_compute|]. apply runs_done.
Qed.

Lemma demo_within n active now :
  n < 100 -> 0 <= active <= now -> now <= 4 -> within default_server_reuse_config 0 n active now.
Proof.
  intros Hn Ha Hnow. unfold within, elapsed_at_least, checked_duration_since.
  rewrite !(proj2 (Z.leb_le _ now)) by lia. split; [done|].
  unfold default_server_reuse_config, from_secs, NANOS_PER_SEC. cbn [max_age idle_timeout].
  split; apply Z.leb_gt; lia.
Qed.

Lemma demo_exchanged :
  exchanged 1 80 [10; 0; 0; 1] (demo_env 3) [Data [1]; Data [2]; EndRequest 0] [Data [7]; EndRequest 0].
Proof.
  exists (SocketAddress (V4 [10; 0; 0; 1] 80)), (open_with []), [1; 2], [7].
  split_and!; [done..|exact demo_runs|done].
Qed.

Definition demo_turns : list (turn duplex) :=
  [Turn false 1 (FrameReady 1 (demo_env 3)); Turn false 2 (FrameReady 2 (demo_env 3));
   Turn false 4 (FrameReady 4 (demo_env 3))].
Definition demo_asked : list Frame :=
  [Ping 9; open_connect 1 [10; 0; 0; 1] 80; Data [1]; Data [2]; EndRequest 0; Close 1].
Definition demo_answered : list Frame := [Pong 9; Data [7]; EndRequest 0; notice CloseReason.ClientInitiated].

Lemma demo_conversation :
  conversation default_server_reuse_config 0 0 0 demo_turns demo_asked demo_answered 1.
Proof.
  apply conv_ping; [by apply demo_within|by_compute|].
  apply (conv_request _ _ 0 1 2 2 1 [10; 0; 0; 1] 80 (demo_env 3) [Data [1]; Data [2]; EndRequest 0]
    [Data [7]; EndRequest 0] _ [Close 1]);
    [by apply demo_within|by_compute|exact demo_exchanged|by apply demo_within|].
  apply conv_closed; [by apply demo_within|by_compute].
Qed.

Lemma session_serves_conversation_witness :
  let s := open_with (wire (ClientHello 1 1) ++ concat (wire <$> demo_asked) ++ [255]) in
  exists c, run_with_stream_and_first_frame default_server_reuse_config s None 0 0 HelloFrame demo_turns = (Ok tt, c)
    /\ state c = SessionState.Closed /\ request_count c = 1
    /\ outgoing (stream c) = outgoing s ++ concat (wire <$> demo_answered) /\ incoming (stream c) = [255].
Proof.
  intros s.
  exact (session_serves_conversation default_server_reuse_config false 1 s 0 0 demo_turns demo_asked demo_answered
    1 [255] ltac:(by_compute) (open_writable _) demo_conversation eq_refl).
Defined.

(** A pool that holds one idle session, negotiated before, and the answer to the next request. *)
Definition demo_pooled : Pool.PooledSession duplex := {|
  Pool.stream := open_with (concat (wire <$> [Data [7]; EndRequest 0]));
  Pool.use_count := 1; Pool.created_at := 0; Pool.last_used := 0; Pool.session_reuse_count := 0;
|}.
Definition demo_pool : Plain.client_world duplex duplex := Plain.ClientWorld
  {| Pool.inner := {| Pool.idle := [demo_pooled]; Pool.checked_out := 0; Pool.closed := false;
                      Pool.checkout_count := 1; Pool.reuse_count := 0 |};
     Pool.shutdown := false; Pool.log := []; Pool.notified := 0 |}
  (open_with []) Negotiate.tracker_new.

(** The target ends first: the client stops at its end-of-request, the server waits. *)
Definition early_env : request_env duplex := RequestEnv (req_connect (demo_env 3))
  [SessionFrame; TargetRead 0 (Ok [7]); TargetRead 0 (Ok []); SessionFrame] false false 3.

Lemma early_runs :
  runs Waiting false false false (req_schedule early_env) (Whole <$> [Data [1]; Data [2]])
    [1; 2] [7] [Data [7]; EndRequest 0].
Proof.
  apply (runs_data [1] _ _ _ _ _ [2]); [by_compute|].
  apply (runs_chunk 0 [] 7 [] _ _ _ _ _ [2] []); [by_compute|reflexivity|].
  apply (runs_eof 0 []); [reflexivity|].
  apply (runs_data [2] _ _ _ _ _ []); [by_compute|]. by apply runs_wait.
Qed.

(** The client's turns, up to its own end of stream or only to the server's end-of-request. *)
Definition demo_events (closes : bool) : list Plain.client_event :=
  Plain.InboundRead 0 (Ok [2]) :: Plain.ServerFrame :: (if closes then [Plain.InboundRead 0 (Ok [])] else [])
  ++ [Plain.ServerFrame].

Lemma demo_client_runs closes :
  Plain.client_runs Complete false (demo_events closes) (Whole <$> [Data [7]; EndRequest 0]) [2] [7]
    (Data [2] :: if closes then [EndRequest 0] else []).
Proof.
  apply (Plain.cr_chunk [] 2 [] _ _ _ []); [by_compute|]. apply (Plain.cr_data _ _ [7] _ _ _ []); [by_compute|].
  destruct closes; [apply (Plain.cr_eof [])|]; apply Plain.cr_end; by_compute.
Qed.

(** Both ends of one request: what the client call returns and has given its client, what the
    server's relay returns, has given its target and whether it has ended the target's stream. *)
Definition demo_request (closes : bool) (r : res relay_error (Z * Z)) : Prop :=
  let outbuf := request_bytes (Request Connect (SocketAddress (V4 [10; 0; 0; 1] 80))) [1; 10; 0; 0; 1; 0; 80] ++ [] in
  exists w' s1 r',
    Plain.relay_tcp_reusable default_server_reuse_config Plain.demo_env (Some outbuf) (Some [1])
      (demo_events closes) demo_pool = (Ok (2, 1), w')
    /\ outgoing (Plain.client w') = [7]
    /\ relay_framed_tcp s1 (open_with []) false (req_schedule (if closes then demo_env 3 else early_env)) = (r, r')
    /\ outgoing (Relay.target r') = [1; 2] /\ fin_sent r' = closes.

Lemma pooled_request_end_to_end_witness : demo_request true (Ok (2, 1)) /\ demo_request false Pending.
Proof.
  split.
  - destruct (pooled_request_end_to_end (T:=duplex) default_server_reuse_config Plain.demo_env _ _ demo_pool
      (SocketAddress (V4 [10; 0; 0; 1] 80))
      [1; 10; 0; 0; 1; 0; 80] [] [1] (Some [1]) (demo_events true) (demo_env 3) (open_with []) Complete
      [Data [2]; EndRequest 0] [Data [7]; EndRequest 0] _ (Whole <$> [Data [1]; Data [2]; EndRequest 0])
      [2] [1; 2] [7] [7] [] [] ltac:(by_compute) ltac:(reflexivity) I ltac:(reflexivity)
      ltac:(by_compute) ltac:(reflexivity) ltac:(discriminate) ltac:(vm_compute; discriminate)
      (demo_client_runs true) demo_runs ltac:(reflexivity) ltac:(reflexivity) ltac:(reflexivity)
      (open_writable _) ltac:(reflexivity) (open_writable _) ltac:(reflexivity))
      as (_ & w' & _ & _ & bytes & atyp & addr & port & Hr & Ho & _ & _ & _ & _ & Hsrv).
    destruct (Hsrv (open_with bytes) (open_writable _) (eq_sym (app_nil_r bytes)))
      as (s1 & r & _ & _ & Hrun & Hot & Hfin & _).
    exists w', s1, r. split_and!; [exact Hr|exact Ho|exact Hrun|exact Hot|exact Hfin].
  - destruct (pooled_request_end_to_end (T:=duplex) default_server_reuse_config Plain.demo_env _ _ demo_pool
      (SocketAddress (V4 [10; 0; 0; 1] 80))
      [1; 10; 0; 0; 1; 0; 80] [] [1] (Some [1]) (demo_events false) early_env (open_with []) Waiting
      [Data [2]] [Data [7]; EndRequest 0] _ (Whole <$> [Data [1]; Data [2]])
      [2] [1; 2] [7] [7] [] [] ltac:(by_compute) ltac:(reflexivity) I ltac:(reflexivity)
      ltac:(by_compute) ltac:(reflexivity) ltac:(discriminate) ltac:(vm_compute; discriminate)
      (demo_client_runs false) early_runs ltac:(reflexivity) ltac:(reflexivity) ltac:(reflexivity)
      (open_writable _) ltac:(reflexivity) (open_writable _) ltac:(reflexivity))
      as (_ & w' & _ & _ & bytes & atyp & addr & port & Hr & Ho & _ & _ & _ & _ & Hsrv).
    destruct (Hsrv (open_with bytes) (open_writable _) (eq_sym (app_nil_r bytes)))
      as (s1 & r & _ & _ & Hrun & Hot & Hfin & _).
    exists w', s1, r. split_and!; [exact Hr|exact Ho|exact Hrun|exact Hot|exact Hfin].
Defined.
