(* ===== verification/Output.v ===== *)
(** * What a server may write on a session (shuttle/src/server/session_loop.rs)

    Whatever a client sends, whenever it stops sending, and whatever the targets, the clock and the
    shutdown do, the bytes the session loop writes are whole frames of the kinds the protocol has
    for a server. *)
From S2P Require Import Prelude.
From stdpp Require Import strings pretty.
From S2P Require Import Time Stream Frame Opt Lifecycle Trojan Relay SessionLoop.
Open Scope Z_scope.

(** ** Proofs: what a server writes *)

(** The answers of a session that goes on. *)
Definition is_answer (f : Frame) : bool :=
  match f with Data _ | Pong _ => true | EndRequest reason => reason =? END_REQUEST_OK | _ => false end.
Definition is_end (f : Frame) : bool := match f with EndRequest _ => true | _ => false end.
Definition answer (f : Frame) : Prop := sendable f /\ is_answer f = true.

Section output_proofs.
Context {St T : Type} `{!AsyncIO St, !AsyncIOLaws St, !AsyncIO T, !AsyncIOLaws T} (config : ReuseConfig).
#[local] Set Default Proof Using "Type*".
Implicit Types (s : St) (c : SessionContext St) (r : relay St T).

(** From [s] to [s'], whole answers were written, [k] ends of requests among them. *)
Definition wrote (k : nat) s s' : Prop :=
  exists fs, outgoing s' = outgoing s ++ concat (wire <$> fs) /\ Forall answer fs
    /\ length (filter is_end fs) = k /\ (writable s -> writable s').

Lemma wrote_read s s' : only_read s s' -> wrote 0 s s'.
Proof. intros (_ & Ho & Hw). exists []. cbn. by rewrite app_nil_r. Qed.

Lemma wrote_trans j k s1 s2 s3 : wrote j s1 s2 -> wrote k s2 s3 -> wrote (j + k) s1 s3.
Proof.
  intros (fs & Ho & Hf & <- & Hw) (gs & Ho' & Hg & <- & Hw'). exists (fs ++ gs).
  rewrite Ho', Ho, fmap_app, concat_app, app_assoc, filter_app, length_app, Forall_app. split_and!; auto.
Qed.

Lemma read_exact_only n s : only_read s (read_exact n s).2.
Proof.
  destruct (decide (n <= length (incoming s))%nat) as [Hn|Hn].
  - destruct (read_exact_enough n s Hn) as (s' & -> & _ & ? & ? & ?). by split_and!.
  - destruct (read_exact_short n s ltac:(lia)) as (x & s' & -> & _ & _ & _ & ? & ? & ?). by split_and!.
Qed.

Lemma read_frame_only s x s' : read_frame s = (x, s') -> only_read s s'.
Proof.
  intros Hr. destruct (frame_length (incoming s)) as [n|] eqn:Hn.
  - destruct (read_frame_whole s n Hn) as (s1 & H1 & _ & ?). congruence.
  - destruct (read_frame_partial s Hn) as (y & s1 & H1 & _ & _ & ?). congruence.
Qed.

(** A pong is written whole whatever its token: only its low 32 bits are. *)
Lemma write_pong token s x s' :
  writable s -> write_frame (Pong token) s = (x, s') -> x = Ok tt /\ wrote 0 s s'.
Proof.
  intros Hw Hwr. set (t := token mod 2 ^ 32).
  assert (sendable (Pong t)) as Hf.
  { split; [unfold wf_frame, in_u; subst t; apply Z.mod_pos_bound; lia|by vm_compute]. }
  assert (wire (Pong token) = wire (Pong t)) as Heq.
  { unfold wire. cbn [payload fst snd]. rewrite !length_to_be_bytes. do 2 f_equal.
    rewrite (Z.div_mod token (2 ^ 32)) at 1 by lia. rewrite (Z.mul_comm (2 ^ 32)).
    apply (to_be_bytes_add_high 4). }
  assert (encode (Pong token) [] = Ok (wire (Pong t)) :> res FrameError _) as He.
  { rewrite encode_ok by (by vm_compute). by rewrite <- Heq. }
  destruct (write_frame_ok _ s _ He Hw) as (s1 & H1 & Ho & _ & _ & Hw1).
  rewrite H1 in Hwr. injection Hwr as <- <-. split; [done|]. exists [Pong t].
  cbn [fmap list_fmap concat]. rewrite app_nil_r. split_and!; [done|by apply Forall_singleton|done..].
Qed.

Lemma write_answer f s x s' :
  answer f -> writable s -> write_frame f s = (x, s') -> x = Ok tt /\ wrote (if is_end f then 1 else 0) s s'.
Proof.
  intros [Hf Ha] Hw Hwr. destruct (write_frame_wire f s Hf Hw) as (s1 & H1 & Ho & _ & _ & Hw1).
  rewrite H1 in Hwr. injection Hwr as <- <-. split; [done|]. exists [f].
  cbn [fmap list_fmap concat]. rewrite app_nil_r. split_and!; [done|by apply Forall_singleton| |done].
  by destruct f.
Qed.

(** *** The relay of one request *)

(** A read of at most a frame's payload, as from the relay's buffer. *)
Definition read_ok (data : res io_error (list Z)) : Prop :=
  match data with Ok d => sendable (Data d) | Err _ => True | Panic | Pending => True end.
Definition event_ok (ev : relay_event) : Prop :=
  match ev with TargetRead _ data => read_ok data | _ => True end.

Definition ended_count (te : bool) : nat := if te then 1 else 0.

(** A step of the relay that writes [k] ends of requests, which end the target's direction. *)
Definition relayed r r' : Prop :=
  exists k, wrote k (session r) (session r')
    /\ (k + ended_count (target_ended r) = ended_count (target_ended r'))%nat.

Lemma relayed_same r r' : session r' = session r -> target_ended r' = target_ended r -> relayed r r'.
Proof. intros Hs Ht. exists 0%nat. rewrite Hs, Ht. split; [by apply wrote_read|done]. Qed.

Lemma relayed_trans r1 r2 r3 : relayed r1 r2 -> relayed r2 r3 -> relayed r1 r3.
Proof.
  intros (j & Hj & Hje) (k & Hk & Hke). exists (k + j)%nat. split; [|lia].
  rewrite Nat.add_comm. by eapply wrote_trans.
Qed.

Lemma relayed_wrote r r' s' : wrote 0 (session r) s' -> session r' = s' -> target_ended r' = target_ended r ->
  relayed r r'.
Proof. intros Hw <- Ht. exists 0%nat. by rewrite Ht. Qed.

Lemma relayed_writable r r' : relayed r r' -> writable (session r) -> writable (session r').
Proof. intros (k & (fs & _ & _ & _ & Hw) & _). exact Hw. Qed.

Lemma drop_relayed lost r r' x : Relay.drop_read lost r = (x, r') -> x = Ok tt /\ relayed r r' 
  /\ target_ended r' = target_ended r.
Proof.
  rewrite drop_read_eq. intros [= <- <-]. split; [done|]. destruct (client_ended r); [split; [by apply relayed_same|done]|].
  split; [|done]. eapply relayed_wrote; [|done..]. apply wrote_read, read_exact_only.
Qed.

Lemma on_session_relayed f r x r' :
  is_answer f = true -> is_end f = false -> (sendable f \/ exists token, f = Pong token) -> writable (session r) ->
  on_session (write_frame f) r = (x, r') -> relayed r r'.
Proof.
  intros Ha He Hf Hw. destruct (write_frame f (session r)) as [y s'] eqn:Hwr.
  rewrite (on_session_eq _ _ _ _ Hwr). intros [= <- <-]. eapply relayed_wrote; [|done..].
  destruct Hf as [Hf|[token ->]].
  - pose proof (write_answer f _ _ _ (conj Hf Ha) Hw Hwr) as [_ H]. by rewrite He in H.
  - by eapply write_pong.
Qed.

Lemma relay_turn_relayed ev r x r' :
  event_ok ev -> writable (session r) -> relay_turn ev r = (x, r') -> relayed r r'.
Proof.
  intros Hev Hw. unfold relay_turn. rewrite (bind_ok get _ r r r eq_refl).
  destruct ev as [|lost data|lost value|lost].
  - destruct (client_ended r); [intros [= <- <-]; by apply relayed_same|].
    destruct (read_frame (session r)) as [y s1] eqn:Hr. apply read_frame_only in Hr as Hor.
    apply on_session_eq in Hr.
    assert (relayed r (set_session s1 r)) as H1 by (eapply relayed_wrote; [by apply wrote_read|done..]).
    assert (writable (session (set_session s1 r))) as Hw1 by by apply Hor.
    destruct y as [f|e| |]; run Hr; try (by intros [= <- <-]).
    destruct f; try (by intros [= <- <-]).
    + rewrite (bind_ok (modify _) _ _ _ tt eq_refl).
      destruct (write_all data (target (add_tx (length data) (set_session s1 r)))) as [z t'] eqn:Hwt.
      rewrite (on_target_eq _ _ _ _ _ Hwt). intros [= <- <-].
      eapply relayed_trans; [exact H1|]. by apply relayed_same.
    + intros H. eapply relayed_trans; [exact H1|].
      eapply on_session_relayed; [..|exact H]; [done|done|by right; eexists|done].
  - destruct (target_ended r) eqn:Hte; [intros [= <- <-]; by apply relayed_same|].
    destruct (Relay.drop_read lost r) as [y r1] eqn:Hd. apply drop_relayed in Hd as Hx. destruct Hx as (-> & H1 & Hte1).
    run Hd. pose proof (relayed_writable _ _ H1 Hw) as Hw1.
    destruct data as [d|e| |]; [|by intros [= <- <-]..].
    rewrite (bind_ok (prog_map_err _ (lift_res (Ok d))) _ r1 r1 d eq_refl).
    destruct d as [|b d]; rewrite (bind_ok (modify _) _ _ _ tt eq_refl).
    + destruct (write_frame (EndRequest END_REQUEST_OK) (session (end_target r1))) as [y s'] eqn:Hwr.
      rewrite (on_session_eq _ _ _ _ Hwr). intros [= <- <-].
      eapply relayed_trans; [exact H1|]. exists 1%nat. rewrite Hte1, Hte. split; [|done].
      eapply (write_answer (EndRequest END_REQUEST_OK)); [|exact Hw1|exact Hwr].
      split; [by split; [|by vm_compute]|done].
    + intros H. eapply relayed_trans; [exact H1|].
      assert (relayed r1 (add_rx (length (b :: d)) r1)) as H2 by by apply relayed_same.
      eapply relayed_trans; [exact H2|]. eapply on_session_relayed; [..|exact H]; auto.
  - destruct (draining r); [intros [= <- <-]; by apply relayed_same|].
    destruct (Relay.drop_read lost r) as [y r1] eqn:Hd. apply drop_relayed in Hd as Hx. destruct Hx as (-> & H1 & _).
    run Hd. destruct value; intros [= <- <-]; [|done].
    eapply relayed_trans; [exact H1|]. by apply relayed_same.
  - destruct (draining r); intros [= <- <-]; by apply relayed_same.
Qed.

Lemma relay_loop_relayed evs r x r' :
  Forall event_ok evs -> writable (session r) -> relay_loop evs r = (x, r') -> relayed r r'.
Proof.
  intros Hevs. revert r. induction Hevs as [|ev evs Hev _ IH]; intros r Hw; cbn [relay_loop].
  { intros [= <- <-]. by apply relayed_same. }
  destruct (relay_turn ev r) as [y r1] eqn:Ht.
  pose proof (relay_turn_relayed ev r y r1 Hev Hw Ht) as H1.
  destruct y as [[]|e| |]; run Ht; try (by intros [= <- <-]).
  rewrite (bind_ok get _ _ _ _ eq_refl). destruct (client_ended r1 && target_ended r1).
  { by intros [= <- <-]. }
  intros H. eapply relayed_trans; [exact H1|]. eapply IH, H. by eapply relayed_writable.
Qed.
End output_proofs.

(** *** The session loop *)

Section session_proofs.
Context {St T : Type} `{!AsyncIO St, !AsyncIOLaws St, !AsyncIO T, !AsyncIOLaws T} (config : ReuseConfig).
#[local] Set Default Proof Using "Type*".
Implicit Types c : SessionContext St.

Definition turn_ok (t : turn T) : Prop :=
  match turn_event t with FrameReady _ env => Forall event_ok (req_schedule env) | _ => True end.

(** The session goes on: answers were written, no more ends of requests than requests counted. *)
Definition progressed c c' : Prop :=
  exists k, wrote k (stream c) (stream c') /\ request_count c + Z.of_nat k <= request_count c'
    /\ state c' <> SessionState.Closed /\ state c' <> SessionState.Poisoned.

(** It has been told that it ends. *)
Definition last_words (f : Frame) (st : SessionState) : Prop :=
  (st = SessionState.Closed /\ exists reason, f = Close (close_reason_code reason))
  \/ (st = SessionState.Poisoned /\ exists reason, f = Reset (close_reason_code reason)).
Definition parted c c' : Prop :=
  exists c0 f, progressed c c0 /\ told f (state c') c0 c' /\ last_words f (state c').

(** What a step that may stop the loop has done when it returns [r]. *)
Definition outcome c (r : res relay_error bool) c' : Prop :=
  (r <> Ok false /\ progressed c c') \/ (r = Ok false /\ parted c c').

Lemma progressed_trans c1 c2 c3 : progressed c1 c2 -> progressed c2 c3 -> progressed c1 c3.
Proof.
  intros (j & Hj & Hn & _) (k & Hk & Hn' & Hs). exists (j + k)%nat.
  split; [by eapply wrote_trans|]. split; [lia|done].
Qed.

Lemma progressed_writable c c' : progressed c c' -> writable (stream c) -> writable (stream c').
Proof. intros (k & (fs & _ & _ & _ & Hw) & _). exact Hw. Qed.

Lemma progressed_only_read c c' :
  only_read (stream c) (stream c') -> request_count c <= request_count c' ->
  state c' <> SessionState.Closed -> state c' <> SessionState.Poisoned -> progressed c c'.
Proof. intros Hr Hn Hs Hs'. exists 0%nat. split; [by apply wrote_read|]. split; [lia|done]. Qed.

Lemma close_outcome reason c c0 r c' :
  progressed c c0 -> writable (stream c) -> (_ ← close reason; mret false) c0 = (r, c') -> outcome c r c'.
Proof.
  intros Hp Hw. destruct (close_writable reason c0) as (c1 & Hc & Ht); [by eapply progressed_writable|].
  run Hc. intros [= <- <-]. right. split; [done|]. pose proof Ht as (Hs & _).
  exists c0, (Close (close_reason_code reason)). rewrite Hs. split_and!; [done..|]. left. eauto.
Qed.

Lemma reset_outcome reason c c0 r c' :
  progressed c c0 -> writable (stream c) -> (_ ← reset reason; mret false) c0 = (r, c') -> outcome c r c'.
Proof.
  intros Hp Hw. destruct (reset_writable reason c0) as (c1 & Hc & Ht); [by eapply progressed_writable|].
  run Hc. intros [= <- <-]. right. split; [done|]. pose proof Ht as (Hs & _).
  exists c0, (Reset (close_reason_code reason)). rewrite Hs. split_and!; [done..|]. right. eauto.
Qed.

Lemma open_request_wrote cmd atyp addr port env (s s' : St) x :
  Forall event_ok (req_schedule env) -> writable s ->
  relay_open_request (T:=T) cmd atyp addr port env s = (x, s') -> exists k, (k <= 1)%nat /\ wrote k s s'.
Proof.
  assert (exists k, (k <= 1)%nat /\ wrote k s s) as H0 by (exists 0%nat; split; [lia|by apply wrote_read]).
  intros Hev Hw. unfold relay_open_request. destruct (negb _); [by intros [= <- <-]|].
  destruct (frame_addr_to_trojan_addr atyp addr port) as [a| | |]; try by intros [= <- <-].
  destruct (req_connect env a) as [target| | |]; try by intros [= <- <-].
  unfold relay_framed_tcp. destruct (relay_loop _ _) as [y r] eqn:Hl. intros [= <- <-].
  apply relay_loop_relayed in Hl as (k & Hk & He); [|done..]. exists k. split; [|done].
  revert He. cbn. destruct (target_ended r); cbn; lia.
Qed.

Lemma handle_frame_outcome frame env c r c' :
  Forall event_ok (req_schedule env) -> writable (stream c) ->
  state c <> SessionState.Closed -> state c <> SessionState.Poisoned ->
  handle_frame (T:=T) config frame env c = (r, c') -> outcome c r c'.
Proof.
  intros Hev Hw Hs1 Hs2.
  assert (progressed c c) as H0 by (by apply progressed_only_read).
  destruct frame; unfold handle_frame; try (by apply reset_outcome).
  - rewrite (bind_ok (modify _) _ c _ tt eq_refl), (bind_ok (modify _) _ _ _ tt eq_refl).
    set (c1 := count_request (set_state SessionState.Active c)).
    destruct (relay_open_request cmd atyp addr port env (stream c)) as [x s'] eqn:Hr.
    destruct (open_request_wrote _ _ _ _ _ _ _ _ Hev Hw Hr) as (k & Hk & Hwr).
    assert (zoom stream set_stream (relay_open_request cmd atyp addr port env) c1 = (x, set_stream s' c1)) as Hz
      by (unfold zoom; change (stream c1) with (stream c); by rewrite Hr).
    assert (forall st, st <> SessionState.Closed -> st <> SessionState.Poisoned ->
      progressed c (set_state st (set_stream s' c1))) as Hp.
    { intros. exists k. split; [done|]. split; [cbn; lia|done]. }
    apply (attempt_eq (E':=relay_error)) in Hz.
    destruct x as [y|e| |]; run Hz; try (intros [= <- <-]; left; split; [done|by apply (Hp SessionState.Active)]).
    + rewrite (bind_ok (modify _) _ _ _ tt eq_refl). specialize (Hp SessionState.Idle ltac:(done) ltac:(done)).
      destruct (req_shutdown_after env); [by apply close_outcome|].
      rewrite (bind_ok get _ _ _ _ eq_refl). destruct (expired_limit config _ _); [by apply close_outcome|].
      intros [= <- <-]. by left.
    + apply reset_outcome; [by apply (Hp SessionState.Active)|done].
  - destruct (write_frame (Pong token) (stream c)) as [x s'] eqn:Hwr.
    destruct (write_pong _ _ _ _ Hw Hwr) as [-> Hp].
    apply ctx_stream_eq in Hwr. run Hwr. intros [= <- <-]. left. split; [done|].
    exists 0%nat. split; [done|]. split; [cbn; lia|done].
  - by apply close_outcome.
Qed.

Lemma loop_turn_outcome t c r c' :
  turn_ok t -> writable (stream c) -> state c = SessionState.Idle ->
  loop_turn (T:=T) config t c = (r, c') -> outcome c r c'.
Proof.
  intros Hok Hw Hs. unfold loop_turn. assert (progressed c c) as H0 by (apply progressed_only_read; by rewrite ?Hs).
  destruct (turn_shutdown t).
  { rewrite graceful_shutdown_idle by done. by apply close_outcome. }
  rewrite (bind_ok get _ c c c eq_refl).
  destruct (expired_limit config c (turn_now t)) as [reason|]; [by apply close_outcome|].
  unfold turn_ok in Hok. destruct (turn_event t) as [now env|lost value|lost].
  - destruct (read_frame (stream c)) as [x s1] eqn:Hr. apply read_frame_only in Hr as Hor.
    assert (zoom stream set_stream read_frame c = (x, set_stream s1 c)) as Hz by (unfold zoom; by rewrite Hr).
    assert (forall now, progressed c (touch now (set_stream s1 c))) as H1
      by (intros; apply progressed_only_read; cbn; by rewrite ?Hs).
    apply (attempt_eq (E':=relay_error)) in Hz.
    destruct x as [f|e| |]; run Hz; try (intros [= <- <-]; left; split; [done|by apply (H1 (last_activity c))]).
    + rewrite (bind_ok (modify _) _ _ _ tt eq_refl). intros Hh.
      apply handle_frame_outcome in Hh; [|done|by apply Hor|cbn; by rewrite Hs..].
      specialize (H1 now). destruct Hh as [[Hr' Hp]|(Hr' & c0 & f0 & Hp & Hlast)]; [left|right]; (split; [done|]);
        [by eapply progressed_trans|]. exists c0, f0. split; [by eapply progressed_trans|done].
    + apply reset_outcome; [by apply (H1 (last_activity c))|done].
  - rewrite (bind_ok (drop_read lost) _ c _ tt eq_refl).
    assert (progressed c (set_stream (dropped_read lost (stream c)) c)) as H1
      by (apply progressed_only_read; [apply read_exact_only|cbn; by rewrite ?Hs..]).
    destruct value; [|intros [= <- <-]; by left].
    rewrite graceful_shutdown_idle by done. by apply close_outcome.
  - rewrite (bind_ok (drop_read lost) _ c _ tt eq_refl). apply close_outcome; [|done].
    apply progressed_only_read; [apply read_exact_only|cbn; by rewrite ?Hs..].
Qed.

(** What has happened when the loop returns, or never does. *)
Definition finished c c' : Prop := progressed c c' \/ parted c c'.

Lemma finished_after c c1 c' : progressed c c1 -> finished c1 c' -> finished c c'.
Proof.
  intros H1 [H|(c0 & f & H & Hlast)]; [left; by eapply progressed_trans|].
  right. exists c0, f. split; [by eapply progressed_trans|done].
Qed.

Lemma serve_finished turns c r c' :
  Forall turn_ok turns -> writable (stream c) -> state c = SessionState.Idle ->
  request_count c <= max_requests config ->
  serve (T:=T) config turns c = (r, c') -> finished c c'.
Proof.
  intros Hok. revert c. induction Hok as [|t turns Ht _ IH]; intros c Hw Hs Hle; cbn [serve].
  { intros [= <- <-]. left. apply progressed_only_read; by rewrite ?Hs. }
  destruct (loop_turn config t c) as [x c1] eqn:Hl.
  destruct (loop_turn_any config t c x c1 Hs Hle Hl) as (Hle1 & Hs1 & _).
  apply loop_turn_outcome in Hl as Ho; [|done..].
  destruct x as [[]|e| |]; run Hl;
    destruct Ho as [[Hne Hp]|[Hne Hp]]; try done; try (intros [= <- <-]; by (left + right)).
  intros H. eapply finished_after; [exact Hp|]. eapply IH, H; [by eapply progressed_writable|by apply Hs1|done].
Qed.

(** After the handshake a session is idle, or over. *)
Definition negotiated c (r : res relay_error unit) c' : Prop :=
  (progressed c c' /\ (r = Ok tt -> state c' = SessionState.Idle)) \/ (r = Ok tt /\ parted c c').

Lemma close_negotiated reason c c0 r c' :
  progressed c c0 -> writable (stream c) -> close reason c0 = (r, c') -> negotiated c r c'.
Proof.
  intros Hp Hw Hc. destruct (close_outcome reason c c0 (Ok false) c' Hp Hw) as [[? _]|[_ H]]; [|done|].
  all: destruct (close_writable reason c0) as (c1 & Hc1 & _); [by eapply progressed_writable|];
    rewrite Hc1 in Hc; injection Hc as <- <-. { by run Hc1. } by right.
Qed.

Lemma reset_negotiated reason c c0 r c' :
  progressed c c0 -> writable (stream c) -> reset reason c0 = (r, c') -> negotiated c r c'.
Proof.
  intros Hp Hw Hc. destruct (reset_outcome reason c c0 (Ok false) c' Hp Hw) as [[? _]|[_ H]]; [|done|].
  all: destruct (reset_writable reason c0) as (c1 & Hc1 & _); [by eapply progressed_writable|];
    rewrite Hc1 in Hc; injection Hc as <- <-. { by run Hc1. } by right.
Qed.

Lemma negotiate_frame_negotiated now frame c c0 r c' :
  progressed c c0 -> writable (stream c) -> negotiate_frame now frame c0 = (r, c') -> negotiated c r c'.
Proof.
  intros Hp Hw. unfold negotiate_frame, protocol_error. destruct frame as [frame|e| |].
  3-4: intros [= <- <-]; by left.
  2: by apply reset_negotiated.
  destruct frame; try (by apply reset_negotiated). destruct (version =? PROTOCOL_VERSION); [|by apply close_negotiated].
  rewrite (bind_ok (modify _) _ c0 _ tt eq_refl). intros [= <- <-]. left. split; [|done].
  destruct Hp as (k & ? & ? & _). by exists k.
Qed.

Lemma negotiate_negotiated now ev c r c' :
  writable (stream c) -> state c = SessionState.Handshaking ->
  negotiate now ev c = (r, c') -> negotiated c r c'.
Proof.
  intros Hw Hs.
  assert (forall c0, progressed c c0 -> state c0 = SessionState.Handshaking ->
    (frame ← attempt (zoom stream set_stream read_frame);
     negotiate_frame now (match frame with inl f => Ok f | inr e => Err e end)) c0 = (r, c') ->
    negotiated c r c') as Hread.
  { intros c0 Hp Hs0. destruct (read_frame (stream c0)) as [x s1] eqn:Hr. apply read_frame_only in Hr as Hor.
    assert (zoom stream set_stream read_frame c0 = (x, set_stream s1 c0)) as Hz by (unfold zoom; by rewrite Hr).
    assert (progressed c (set_stream s1 c0)) as H1.
    { eapply progressed_trans; [exact Hp|]. apply progressed_only_read; cbn; by rewrite ?Hs0. }
    apply (attempt_eq (E':=relay_error)) in Hz.
    destruct x as [f|e| |]; run Hz; try (intros [= <- <-]; by left); by apply negotiate_frame_negotiated. }
  unfold negotiate. destruct ev as [|lost value].
  { apply Hread; [|done]. apply progressed_only_read; by rewrite ?Hs. }
  rewrite (bind_ok (drop_read lost) _ c _ tt eq_refl).
  assert (progressed c (set_stream (dropped_read lost (stream c)) c)) as H1
    by (apply progressed_only_read; [apply read_exact_only|cbn; by rewrite ?Hs..]).
  destruct value; [by apply close_negotiated|by apply Hread].
Qed.
End session_proofs.

(** ** Correctness *)

(** C19: a session speaks whole frames.  On a stream that accepts writes, whatever the client sends
    and wherever its bytes stop, whatever the targets answer (in reads of at most a frame's payload)
    and however the loop's branches, the clock and the shutdown fall: the bytes a server has written
    on a session are whole, decodable frames; all but the last are data, pongs and successful ends of
    requests, no more ends than requests counted; and a close or a reset, with the code of a close
    reason, comes last and exactly when the session is closed or poisoned. *)
Theorem session_output_framed {St T : Type} `{!AsyncIO St, !AsyncIOLaws St, !AsyncIO T, !AsyncIOLaws T}
    (config : ReuseConfig) (s : St) (first_frame : option Frame) (now now2 : Instant)
    (hello : hello_event) (turns : list (turn T)) :
  0 <= max_requests config -> writable s -> Forall turn_ok turns ->
  let c := (run_with_stream_and_first_frame config s first_frame now now2 hello turns).2 in
  exists answers last,
    outgoing (stream c) = outgoing s ++ concat (wire <$> answers ++ last)
    /\ Forall sendable (answers ++ last) /\ Forall (fun f => is_answer f = true) answers
    /\ Z.of_nat (length (filter is_end answers)) <= request_count c
    /\ match last with
       | [] => state c <> SessionState.Closed /\ state c <> SessionState.Poisoned
       | [f] => last_words f (state c)
       | _ => False
       end.
Proof.
  intros H0 Hw Hok c. set (c0 := Ctx s SessionState.Handshaking 0 now now).
  assert (finished c0 c) as Hf.
  { subst c. unfold run_with_stream_and_first_frame. fold c0.
    set (m := match first_frame with Some frame => negotiate_frame now2 (Ok frame)
                                   | None => negotiate now2 hello end).
    destruct (m c0) as [x c1] eqn:Hm.
    assert (request_count c1 = 0) as Hn.
    { subst m. destruct first_frame; [by apply negotiate_frame_any in Hm as [? _]|by apply negotiate_any in Hm as [? _]]. }
    assert (negotiated c0 x c1) as Hneg.
    { subst m. destruct first_frame; [|by apply negotiate_negotiated in Hm].
      eapply negotiate_frame_negotiated; [|done|exact Hm]. by apply progressed_only_read. }
    destruct Hneg as [[Hp Hi]|[-> Hp]].
    - destruct x as [[]|e| |]; run Hm; try by left. unfold serve_loop.
      rewrite (bind_ok get _ c1 c1 c1 eq_refl), (Hi eq_refl).
      destruct (serve config turns c1) as [y c2] eqn:Hsv. eapply finished_after; [exact Hp|].
      eapply serve_finished, Hsv; [done|by eapply progressed_writable|by apply Hi|lia].
    - run Hm. unfold serve_loop. rewrite (bind_ok get _ c1 c1 c1 eq_refl).
      pose proof Hp as (_ & f & _ & _ & [[-> _]|[-> _]]); by right. }
  destruct Hf as [(k & (fs & Ho & Ha & Hk & _) & Hn & Hs)|(c1 & f & (k & (fs & Ho & Ha & Hk & _) & Hn & _) & Ht & Hl)].
  - exists fs, []. rewrite app_nil_r. cbn in Hn. destruct Hs. split_and!; [done| | |lia|done..]; by apply (Forall_impl _ _ _ Ha); intros ? [].
  - exists fs, [f]. destruct Ht as (_ & Hc & _ & Hof). rewrite Hof, Ho. cbn in Hn.
    rewrite fmap_app, concat_app. cbn [fmap list_fmap concat]. rewrite app_nil_r, app_assoc.
    split_and!; [done| | |lia|done].
    + apply Forall_app. split; [by apply (Forall_impl _ _ _ Ha); intros ? []|]. apply Forall_singleton.
      destruct Hl as [[_ [reason ->]]|[_ [reason ->]]]; apply notice_sendable.
    + by apply (Forall_impl _ _ _ Ha); intros ? [].
Qed.

Lemma session_output_framed_witness :
  let env := RequestEnv (fun _ => Ok (open_with [])) [TargetRead 1 (Ok [7; 8]); SessionFrame] false false 2 in
  let run := run_with_stream_and_first_frame default_server_reuse_config
    (closed_with (wire (Ping 5) ++ wire (OpenRequest 1 1 [10; 0; 0; 1] 80) ++ wire (Reset 1) ++ [255; 255; 255; 255]))
    (Some (ClientHello 1 1)) 0 0 HelloFrame [Turn false 1 (FrameReady 1 env); Turn false 1 (FrameReady 1 env)] in
  outgoing (stream run.2) = concat (wire <$> [Pong 5; Data [7; 8]; Reset 2])
  /\ exists answers last, outgoing (stream run.2) = concat (wire <$> answers ++ last)
       /\ Forall sendable (answers ++ last).
Proof.
  intros env run. split; [reflexivity|].
  destruct (session_output_framed default_server_reuse_config
    (closed_with (wire (Ping 5) ++ wire (OpenRequest 1 1 [10; 0; 0; 1] 80) ++ wire (Reset 1) ++ [255; 255; 255; 255]))
    (Some (ClientHello 1 1)) 0 0 HelloFrame [Turn false 1 (FrameReady 1 env); Turn false 1 (FrameReady 1 env)]
    ltac:(vm_compute; discriminate) (closed_writable _)
    ltac:(repeat constructor; cbn; by_compute)) as (answers & last & Ho & Hf & _).
  exists answers, last. split; [exact Ho|exact Hf].
Defined.
