(* ===== verification/Totp.v ===== *)
(** * Time-based tokens (tunnel/src/totp.rs) and the keyed hash (tunnel/src/utils.rs)

    The time signatures that authenticate a client.  BLAKE2s (the [blake2] crate) is a parameter of the model: a
    function from bytes to 32 bytes.  Integers are [u64] and [u8] with the overflow behaviour of
    the build profile. *)
From S2P Require Import Prelude.
Open Scope Z_scope.

Section totp.
Context (blake2s : list Z -> list Z) (p : profile).

(** [possibly_insecure_hash_with_key]: the hash of the hashed key followed by the message. *)
Definition possibly_insecure_hash_with_key (key msg : list Z) : list Z :=
  blake2s (blake2s key ++ msg).

Record Totp := { key : list Z; step : Z; skew : Z }.

Definition totp_new (context k : list Z) (step_in_secs skew : Z) : Totp :=
  {| key := possibly_insecure_hash_with_key context k; step := step_in_secs; skew := skew |}.

(** [time / self.step] panics on a zero step. *)
Definition div_u64 {E} (a b : Z) : res E Z := if b =? 0 then Panic else Ok (a / b).

(** [&hash[..N]] and [try_from(..).unwrap()]. *)
Definition truncate {E} (n : nat) (h : list Z) : res E (list Z) := slice h 0 n.

Definition generate {E} (n : nat) (self : Totp) (time : Z) : res E (list Z) :=
  t ← div_u64 time (step self);
  truncate n (possibly_insecure_hash_with_key (key self) (to_be_bytes 8 t)).

Definition sign {E} (n : nat) (self : Totp) (time : Z) (nonce : list Z) : res E (list Z) :=
  token ← generate n self time;
  truncate n (possibly_insecure_hash_with_key token nonce).

(** The loop of [check] and [verify]: [for i in 0..=last] with [candidate] the token of a step
    time. *)
Fixpoint try_steps {E} (self : Totp) (basestep : Z) (candidate : Z -> res E (list Z))
    (token : list Z) (i : Z) (fuel : nat) : res E bool :=
  match fuel with
  | O => Ok false
  | S fuel =>
      s ← arith p 64 (basestep + i);
      step_time ← arith p 64 (s * step self);
      c ← candidate step_time;
      if decide (c = token) then Ok true
      else try_steps self basestep candidate token (i + 1) fuel
  end.

(** [basestep] and the inclusive upper bound [self.skew * 2] (a [u8] product). *)
Definition window {E} (self : Totp) (time : Z) : res E (Z * nat) :=
  t ← div_u64 time (step self);
  basestep ← arith p 64 (t - skew self);
  last ← arith p 8 (skew self * 2);
  Ok (basestep, S (Z.to_nat last)).

Definition check {E} (n : nat) (self : Totp) (token : list Z) (time : Z) : res E bool :=
  '(basestep, count) ← window self time;
  try_steps self basestep (generate n self) token 0 count.

Definition verify {E} (n : nat) (self : Totp) (nonce sig : list Z) (time : Z) : res E bool :=
  '(basestep, count) ← window self time;
  try_steps self basestep (fun step_time => sign n self step_time nonce) sig 0 count.
End totp.

Definition wf_totp (t : Totp) : Prop := 0 < step t /\ is_u64 (step t) /\ is_u8 (skew t).

(** ** Proofs *)

Section proofs.
Context (blake2s : list Z -> list Z) (p : profile).
Hypothesis digest_length : forall m, length (blake2s m) = 32%nat.
#[local] Set Default Proof Using "Type*".
Implicit Types t : Totp.

Abbreviation generate := (generate blake2s).
Abbreviation sign := (sign blake2s).

(** The token of a time step. *)
Definition token_at (n : nat) t (k : Z) : list Z :=
  take n (possibly_insecure_hash_with_key blake2s (key t) (to_be_bytes 8 k)).
Definition signature_at (n : nat) t (nonce : list Z) (k : Z) : list Z :=
  take n (possibly_insecure_hash_with_key blake2s (token_at n t k) nonce).

Lemma generate_eq {E} n t time :
  wf_totp t -> (n <= 32)%nat -> generate n t time = Ok (token_at n t (time / step t)) :> res E _.
Proof.
  intros (Hs & _) Hn. unfold generate, div_u64, truncate, token_at.
  destruct (Z.eqb_spec (step t) 0); [lia|]. cbn [mbind res_bind].
  unfold possibly_insecure_hash_with_key. rewrite slice_ok by (rewrite ?digest_length; lia).
  by rewrite Nat.sub_0_r, drop_0.
Qed.

Lemma sign_eq {E} n t nonce time :
  wf_totp t -> (n <= 32)%nat ->
  sign n t time nonce = Ok (signature_at n t nonce (time / step t)) :> res E _.
Proof.
  intros Hwf Hn. unfold sign. rewrite generate_eq by done. cbn [mbind res_bind].
  unfold truncate, signature_at, possibly_insecure_hash_with_key.
  rewrite slice_ok by (rewrite ?digest_length; lia). by rewrite Nat.sub_0_r, drop_0.
Qed.

(** The loop looks for the token among the steps [base + i .. base + i + fuel - 1]. *)
Lemma try_steps_spec {E} t base candidate token_of token i fuel :
  wf_totp t -> 0 <= base + i -> (base + i + Z.of_nat fuel) * step t <= 2 ^ 64 ->
  (forall time, candidate time = Ok (token_of (time / step t)) :> res E _) ->
  exists b, try_steps p t base candidate token i fuel = Ok b :> res E _
    /\ (b = true <-> exists j, i <= j < i + Z.of_nat fuel /\ token_of (base + j) = token).
Proof.
  intros (Hs & Hu & _) Hb Hmax Hc. revert i Hb Hmax.
  induction fuel as [|fuel IH]; intros i Hb Hmax; cbn [try_steps].
  { exists false. split; [done|]. split; [done|]. intros (j & ? & _). lia. }
  assert (base + i + 1 <= 2 ^ 64) by (unfold in_u in Hu; nia).
  rewrite arith_ok by (unfold in_u; lia). cbn [mbind res_bind].
  rewrite arith_ok by (unfold in_u; nia). cbn [mbind res_bind]. rewrite Hc. cbn [mbind res_bind].
  rewrite Z.div_mul by lia. case_decide as Heq.
  { exists true. split; [done|]. split; [|done]. intros _. exists i. split; [lia|done]. }
  destruct (IH (i + 1)) as (b & Hr & Hiff); [lia|lia|]. exists b. split; [done|].
  rewrite Hiff. split; intros (j & Hj & Htok); exists j; (split; [|done]); [lia|].
  assert (j <> i) by congruence. lia.
Qed.

Lemma window_ok {E} t time :
  wf_totp t -> skew t <= 127 -> skew t <= time / step t -> is_u64 time ->
  window p t time = Ok (time / step t - skew t, S (Z.to_nat (skew t * 2))) :> res E _.
Proof.
  intros (Hs & _ & Hk) Hsk Hle Ht. unfold window, div_u64.
  destruct (Z.eqb_spec (step t) 0); [lia|]. cbn [mbind res_bind].
  assert (time / step t <= time) by (apply Z.div_le_upper_bound; unfold in_u in *; nia).
  rewrite arith_ok by (unfold in_u in *; lia). cbn [mbind res_bind].
  by rewrite arith_ok by (unfold in_u in *; lia).
Qed.

(** The steps [verify] and [check] accept. *)
Lemma window_search {E} t time candidate token_of token :
  wf_totp t -> skew t <= 127 -> skew t <= time / step t -> is_u64 time ->
  (time / step t + skew t + 1) * step t <= 2 ^ 64 ->
  (forall time, candidate time = Ok (token_of (time / step t)) :> res E _) ->
  exists b, ('(basestep, count) ← window p t time;
             try_steps p t basestep candidate token 0 count) = Ok b :> res E _
    /\ (b = true <-> exists k, Z.abs (k - time / step t) <= skew t /\ token_of k = token).
Proof.
  intros Hwf Hsk Hle Ht Hmax Hc. rewrite window_ok by done. cbn [mbind res_bind].
  assert (0 <= skew t) by (by destruct Hwf as (_ & _ & [? _])).
  destruct (try_steps_spec t (time / step t - skew t) candidate token_of token 0
    (S (Z.to_nat (skew t * 2))) Hwf) as (b & Hb & Hiff); [lia| |done|].
  { rewrite Nat2Z.inj_succ, Z2Nat.id by lia. nia. }
  exists b. split; [done|]. rewrite Hiff, Nat2Z.inj_succ, Z2Nat.id by lia.
  split; [intros (j & ? & ?); exists (time / step t - skew t + j)|
          intros (k & ? & ?); exists (k - (time / step t - skew t))].
  - split; [lia|done].
  - split; [lia|]. by replace (time / step t - skew t + (k - (time / step t - skew t))) with k by lia.
Qed.

Lemma verify_spec {E} n t nonce sig time :
  wf_totp t -> (n <= 32)%nat -> skew t <= 127 -> skew t <= time / step t -> is_u64 time ->
  (time / step t + skew t + 1) * step t <= 2 ^ 64 ->
  exists b, verify blake2s p n t nonce sig time = Ok b :> res E _
    /\ (b = true <-> exists k, Z.abs (k - time / step t) <= skew t /\ signature_at n t nonce k = sig).
Proof.
  intros. apply (window_search (E:=E) t time (fun s => sign n t s nonce) (signature_at n t nonce) sig);
    [done..|by intros; apply sign_eq].
Qed.

(** C29: the acceptance window.  Away from the ends of the clock, [verify] and [check] never panic
    and accept exactly the signatures and tokens of the steps at most [skew] away from the current
    one; so a signature is accepted as long as it is at most [skew] steps old or early, and one
    whose step is further away is accepted only if it collides with one inside the window. *)
Theorem totp_window {E} (n : nat) (t : Totp) (nonce sig token : list Z) (time signed_at : Z) :
  wf_totp t -> (n <= 32)%nat -> skew t <= 127 -> skew t <= time / step t -> is_u64 time ->
  (time / step t + skew t + 1) * step t <= 2 ^ 64 ->
  exists ok1 ok2,
    verify blake2s p n t nonce sig time = Ok ok1 :> res E _
    /\ (ok1 = true <-> exists k, Z.abs (k - time / step t) <= skew t /\ signature_at n t nonce k = sig)
    /\ check blake2s p n t token time = Ok ok2 :> res E _
    /\ (ok2 = true <-> exists k, Z.abs (k - time / step t) <= skew t /\ token_at n t k = token)
    /\ (sign n t signed_at nonce = Ok sig :> res E _ ->
        Z.abs (signed_at - time) <= skew t * step t -> ok1 = true).
Proof.
  intros Hwf Hn Hsk Hle Ht Hmax.
  destruct (verify_spec (E:=E) n t nonce sig time) as (ok1 & H1 & Hiff1); [done..|].
  destruct (window_search (E:=E) t time (fun s => generate n t s) (token_at n t) token)
    as (ok2 & H2 & Hiff2); [done..|by intros; apply generate_eq|].
  exists ok1, ok2. split_and!; [done..|].
  rewrite sign_eq by done. intros [= Hsig] Hclose. apply Hiff1. exists (signed_at / step t).
  split; [|done]. destruct Hwf as (Hs & _). revert Hclose. clear -Hs. intros Hclose.
  assert (signed_at / step t <= (time + skew t * step t) / step t) by (apply Z.div_le_mono; lia).
  assert ((time - skew t * step t) / step t <= signed_at / step t) by (apply Z.div_le_mono; lia).
  rewrite Z.div_add in * by lia.
  replace (time - skew t * step t) with (time + (- skew t) * step t) in * by ring.
  rewrite Z.div_add in * by lia. lia.
Qed.
End proofs.

(** A concrete 32-byte digest, for the witness. *)
Definition demo_digest (m : list Z) : list Z := take 32 (m ++ replicate 32 0).

(** The tunnel's parameters, 60-second steps and a skew of 2: a signature 119 seconds old is
    accepted. *)
Lemma totp_window_witness :
  let t := totp_new demo_digest [1] [2; 3] 60 2 in
  exists sig, sign demo_digest 16 t 1001 [9] = Ok sig :> res unit _
    /\ verify demo_digest Debug 16 t [9] sig 1120 = Ok true :> res unit _.
Proof.
  intros t. eexists. split; [reflexivity|].
  match goal with |- verify _ _ _ _ _ ?sig _ = _ =>
    destruct (totp_window demo_digest Debug
      (fun m => ltac:(unfold demo_digest; rewrite length_take, length_app, length_replicate; lia))
      (E:=unit) 16 t [9] sig [] 1120 1001) as (ok1 & ok2 & Hv & _ & _ & _ & Hok)
  end.
  1-6: by_compute.
  rewrite Hv. f_equal. apply Hok; [reflexivity|]. by_compute.
Defined.
