(* ===== verification/Tls.v ===== *)
(** * TLS records (read_tls_message in tunnel/src/utils.rs,
      copy_until_tls12_handshake_finished in tunnel/src/server.rs)

    Reading one record into a buffer and forwarding a TLS 1.2 handshake record by record.  The
    enumerations of content types and protocol versions belong to [rustls]: which codes it knows
    are parameters. *)
From S2P Require Import Prelude.
From stdpp Require Import strings.
From S2P Require Import Stream.
Open Scope Z_scope.

Definition TLS_RECORD_HEADER_LENGTH : nat := 5.
Definition MAXIMUM_CIPHERTEXT_LENGTH : Z := 2 ^ 14.
Definition AEAD_TAG_LENGTH : Z := 16.
Definition MAXIMUM_PLAINTEXT_LENGTH : Z := MAXIMUM_CIPHERTEXT_LENGTH - AEAD_TAG_LENGTH.

Definition HANDSHAKE : Z := 22.
Definition CHANGE_CIPHER_SPEC : Z := 20.
Definition APPLICATION_DATA : Z := 23.

(** [rustls]'s [MessageError], the variants the code builds. *)
Inductive MessageError :=
| InvalidContentType
| UnknownProtocolVersion
| InvalidEmptyPayload
| MessageTooLarge.

(** [u16_from_be_slice] panics on a slice that is not two bytes long. *)
Definition u16_from_be_slice {E} (s : list Z) : res E Z :=
  if decide (length s = 2%nat) then Ok (from_be_bytes s) else Panic.

Section read_message.
Context {St : Type} `{!AsyncIO St}.
(** The content types and versions [rustls] has a variant for. *)
Context (known_type known_version : Z -> bool).
(** What [set_len] exposes and an interrupted [read_exact] leaves: [n] bytes. *)
Context (stale : nat -> list Z).

(** The checks on a header, in the order of the code; the length of the record's payload. *)
Definition check_header {E} (header : list Z) : res E (nat + MessageError) :=
  typ ← index header 0;
  if negb (known_type typ) then Ok (inr InvalidContentType) else
  v ← slice header 1 3;
  version ← u16_from_be_slice v;
  if negb (known_version version) && negb (Z.land version 65280 =? 768) then
    Ok (inr UnknownProtocolVersion)
  else
    l ← slice header 3 5;
    len ← u16_from_be_slice l;
    if negb (typ =? APPLICATION_DATA) && (len =? 0) then Ok (inr InvalidEmptyPayload)
    else if MAXIMUM_CIPHERTEXT_LENGTH <=? len then Ok (inr MessageTooLarge)
    else Ok (inl (Z.to_nat len)).

(** [read_tls_message]: the state is the stream and the caller's buffer.  The outer error is
    [io::Error], the inner one [MessageError]. *)
Definition read_tls_message : prog (St * list Z) io_error (unit + MessageError) :=
  let on_stream {A} (m : prog St io_error A) : prog (St * list Z) io_error A :=
    zoom fst (fun s w => (s, w.2)) m in
  let set_buf (b : list Z) : prog (St * list Z) io_error unit := modify (fun w => (w.1, b)) in
  header ← on_stream (read_exact TLS_RECORD_HEADER_LENGTH);
  verdict ← lift_res (check_header header);
  match verdict with
  | inr e => mret (inr e)
  | inl len =>
      _ ← set_buf (header ++ stale len);
      payload ← on_stream (read_exact len);
      _ ← set_buf (header ++ payload);
      mret (inl tt)
  end.
End read_message.

(** [RustlsError], as far as the code builds one itself. *)
Inductive RustlsError (E : Type) := General (message : string) | OtherError (e : E).
Arguments General {_} _.
Arguments OtherError {_} _.

(** [parse_tls_plain_message]: [read], [into_plain] and [try_from] are [OpaqueMessage::read],
    [into_plain_message] and [Message::try_from] of [rustls]. *)
Definition parse_tls_plain_message {O P M E} (read : list Z -> option O) (into_plain : O -> P)
    (try_from : P -> res (RustlsError E) M) (buf : list Z) : res (RustlsError E) M :=
  match read buf with
  | Some om => try_from (into_plain om)
  | None => Err (General "Invalid opaque message")
  end.

(** ** Forwarding a TLS 1.2 handshake *)

Section copy.
Context {R W : Type} `{!AsyncIO R, !AsyncIO W}.

Definition on_read {A} (m : prog R io_error A) : prog (R * W) io_error A :=
  zoom fst (fun r w => (r, w.2)) m.
Definition on_write {A} (m : prog W io_error A) : prog (R * W) io_error A :=
  zoom snd (fun o w => (w.1, o)) m.

(** One record: read, written, and whether the loop ends ([inl tt]) or goes on with the new value
    of [has_seen_change_cipher_spec]. *)
Definition copy_record (has_seen : bool) : prog (R * W) io_error (unit + bool) :=
  header ← on_read (read_exact 5);
  l ← lift_res (slice header 3 5);
  data_size ← lift_res (u16_from_be_slice l);
  _ ← on_write (write_all header);
  data ← on_read (read_exact (Z.to_nat data_size));
  _ ← on_write (write_all data);
  typ ← lift_res (index header 0);
  if negb (typ =? HANDSHAKE) then
    if negb (typ =? CHANGE_CIPHER_SPEC) then fail (IoErr InvalidData "Invalid TLS state")
    else if negb has_seen then mret (inr true)
    else mret (inl tt)
  else if has_seen then mret (inl tt) else mret (inr has_seen).

(** The loop; every turn reads at least five bytes, so it never takes more turns than there are
    bytes to read, and [copy_loop_scan] shows this fuel is enough. *)
Fixpoint copy_loop (fuel : nat) (has_seen : bool) : prog (R * W) io_error unit :=
  match fuel with
  | O => pending
  | S fuel =>
      next ← copy_record has_seen;
      match next with
      | inl _ => mret tt
      | inr has_seen => copy_loop fuel has_seen
      end
  end.

Definition copy_until_tls12_handshake_finished : prog (R * W) io_error unit := fun w =>
  copy_loop (S (length (incoming w.1))) false w.
End copy.

(** ** Proofs: reading one record *)

Lemma high_byte a b :
  is_u8 a -> is_u8 b -> Z.land (a * 256 + b) 65280 = a * 256.
Proof.
  intros Ha Hb. unfold in_u in *. change 65280 with (Z.shiftl (Z.ones 8) 8).
  change (a * 256) with (a * 2 ^ 8) at 2. rewrite <- Z.shiftl_mul_pow2 by lia.
  apply Z.bits_inj'. intros k Hk. rewrite Z.land_spec, !Z.shiftl_spec by lia.
  destruct (Z.ltb_spec k 8).
  - rewrite !(Z.testbit_neg_r _ (k - 8)) by lia. by rewrite andb_false_r.
  - replace (Z.testbit (a * 256 + b) k) with (Z.testbit a (k - 8)).
    + rewrite <- Z.land_spec, Z.land_ones, Z.mod_small by lia. done.
    + replace a with (Z.shiftr (a * 256 + b) 8) at 1
        by (rewrite Z.shiftr_div_pow2, (Z.div_add_l a (2 ^ 8)), Z.div_small by lia; lia).
      rewrite Z.shiftr_spec by lia. f_equal. lia.
Qed.

Section header.
Context (known_type known_version : Z -> bool).

(** The headers a record is read for. *)
Definition acceptable (t v1 v0 l1 l0 : Z) : Prop :=
  known_type t = true
  /\ (known_version (from_be_bytes [v1; v0]) = true \/ v1 = 3)
  /\ (t = APPLICATION_DATA \/ from_be_bytes [l1; l0] <> 0)
  /\ from_be_bytes [l1; l0] < MAXIMUM_CIPHERTEXT_LENGTH.

Lemma from_be_bytes_pair a b : from_be_bytes [a; b] = a * 256 + b.
Proof. unfold from_be_bytes. cbn [foldl]. lia. Qed.

Lemma check_header_spec {E} t v1 v0 l1 l0 :
  is_bytes [t; v1; v0; l1; l0] ->
  match check_header known_type known_version [t; v1; v0; l1; l0] : res E _ with
  | Ok (inl n) => acceptable t v1 v0 l1 l0 /\ n = Z.to_nat (from_be_bytes [l1; l0])
  | Ok (inr e) => ~ acceptable t v1 v0 l1 l0
  | _ => False
  end.
Proof.
  unfold is_bytes. rewrite !Forall_cons. intros (Ht & Hv1 & Hv0 & Hl1 & Hl0 & _).
  unfold check_header, acceptable. cbn [index lookup list_lookup mbind res_bind].
  unfold index. cbn [lookup list_lookup mbind res_bind].
  destruct (known_type t); cbn [negb]; [|by intros [? _]].
  rewrite !slice_ok by (simpl; lia). cbn [mbind res_bind take drop Nat.sub].
  unfold u16_from_be_slice. cbn [length]. rewrite !decide_True by done. cbn [mbind res_bind].
  assert ((Z.land (from_be_bytes [v1; v0]) 65280 =? 768) = bool_decide (v1 = 3)) as ->.
  { rewrite from_be_bytes_pair, high_byte by done. case_bool_decide; [subst; done|].
    apply Z.eqb_neq. lia. }
  destruct (known_version (from_be_bytes [v1; v0])) eqn:Hk; cbn [negb andb].
  2: destruct (bool_decide_reflect (v1 = 3)) as [->|]; cbn [negb andb];
     [|intros (_ & [?|?] & _); congruence].
  all: unfold APPLICATION_DATA; destruct (Z.eqb_spec t 23) as [->|Htn]; cbn [negb andb];
    destruct (Z.eqb_spec (from_be_bytes [l1; l0]) 0) as [Hz|Hz]; cbn [andb];
    try (intros (_ & _ & [?|?] & _); done);
    destruct (Z.leb_spec MAXIMUM_CIPHERTEXT_LENGTH (from_be_bytes [l1; l0]));
    try (intros (_ & _ & _ & ?); lia); split; auto.
Qed.
End header.

Section read_proofs.
Context {St : Type} `{!AsyncIO St, !AsyncIOLaws St} (known_type known_version : Z -> bool)
  (stale : nat -> list Z).
#[local] Set Default Proof Using "Type*".
Implicit Types s : St.

(** A whole record with a header the reader accepts. *)
Definition tls_record_ok (b : list Z) : Prop := exists t v1 v0 l1 l0 body,
  b = [t; v1; v0; l1; l0] ++ body /\ is_bytes [t; v1; v0; l1; l0]
  /\ acceptable known_type known_version t v1 v0 l1 l0
  /\ length body = Z.to_nat (from_be_bytes [l1; l0]).

(** Such a record is read whole, and nothing after it. *)
Lemma read_tls_record (s : St) (buf b rest : list Z) :
  tls_record_ok b -> incoming s = b ++ rest ->
  exists s', read_tls_message known_type known_version stale (s, buf) = (Ok (inl tt), (s', b))
    /\ incoming s' = rest /\ only_read s s'.
Proof.
  intros (t & v1 & v0 & l1 & l0 & body & -> & Hb & Hacc & Hn) Hi. rewrite <- app_assoc in Hi.
  destruct (read_exact_app 5 _ _ s Hi eq_refl) as (s1 & H1 & Hi1 & Ho1).
  destruct (read_exact_app (length body) body rest s1 Hi1 eq_refl) as (s2 & H2 & Hi2 & Ho2).
  pose proof (check_header_spec (E:=io_error) known_type known_version t v1 v0 l1 l0 Hb) as Hc.
  exists s2. split; [|split; [done|by transitivity s1]].
  unfold read_tls_message, TLS_RECORD_HEADER_LENGTH, zoom, mbind, prog_bind. cbn [fst]. rewrite H1.
  unfold lift_res.
  destruct (check_header known_type known_version [t; v1; v0; l1; l0]) as [[m|e]|e| |];
    try done.
  destruct Hc as [_ ->]. rewrite <- Hn. unfold modify. cbn [fst snd]. by rewrite H2.
Qed.

(** Another header is consumed and leaves the buffer alone. *)
Lemma read_tls_rejected (s : St) (buf : list Z) (t v1 v0 l1 l0 : Z) (rest : list Z) :
  is_bytes [t; v1; v0; l1; l0] -> incoming s = [t; v1; v0; l1; l0] ++ rest ->
  ~ acceptable known_type known_version t v1 v0 l1 l0 ->
  exists e s', read_tls_message known_type known_version stale (s, buf) = (Ok (inr e), (s', buf))
    /\ incoming s' = rest /\ only_read s s'.
Proof.
  intros Hb Hi Hrej. destruct (read_exact_app 5 _ rest s Hi eq_refl) as (s1 & H1 & Hi1 & Ho1).
  pose proof (check_header_spec (E:=io_error) known_type known_version t v1 v0 l1 l0 Hb) as Hc.
  unfold read_tls_message, TLS_RECORD_HEADER_LENGTH, zoom, mbind, prog_bind. cbn [fst]. rewrite H1.
  unfold lift_res.
  destruct (check_header known_type known_version [t; v1; v0; l1; l0]) as [[m|e]|e| |]; try done.
  - by destruct Hc.
  - eauto.
Qed.

(** Reading a TLS record.  An acceptable header (known content type, version 03xx or a version
    rustls knows, non-empty unless application data, shorter than 2^14) is followed by exactly its
    payload: the buffer is the record byte for byte and nothing after it is consumed, so forwarding
    the buffer forwards the stream.  Any other header is rejected after its five bytes have been
    consumed, and the buffer still holds whatever it held before, not those bytes: a caller that
    forwards the buffer on rejection drops the header, or replays the previous record. *)
Theorem read_tls_message_outcome (s : St) (buf : list Z) (t v1 v0 l1 l0 : Z) (rest : list Z) :
  is_bytes [t; v1; v0; l1; l0] -> incoming s = [t; v1; v0; l1; l0] ++ rest ->
  let n := Z.to_nat (from_be_bytes [l1; l0]) in
  exists r s' buf', read_tls_message known_type known_version stale (s, buf) = (r, (s', buf'))
    /\ (acceptable known_type known_version t v1 v0 l1 l0 -> (n <= length rest)%nat ->
        r = Ok (inl tt) /\ incoming s = buf' ++ incoming s' /\ length buf' = (5 + n)%nat)
    /\ (acceptable known_type known_version t v1 v0 l1 l0 -> (length rest < n)%nat ->
        is_ok r = false)
    /\ (~ acceptable known_type known_version t v1 v0 l1 l0 ->
        (exists e, r = Ok (inr e)) /\ buf' = buf /\ incoming s' = rest).
Proof.
  intros Hb Hi n. destruct (read_exact_app 5 _ rest s Hi eq_refl) as (s1 & H1 & Hi1 & _).
  pose proof (check_header_spec (E:=io_error) known_type known_version t v1 v0 l1 l0 Hb) as Hc.
  unfold read_tls_message, TLS_RECORD_HEADER_LENGTH, zoom, mbind, prog_bind. cbn [fst]. rewrite H1. unfold lift_res.
  destruct (check_header known_type known_version [t; v1; v0; l1; l0]) as [[m|e]|e| |]; [|..|done|done|done].
  - destruct Hc as [Hacc ->]. fold n. unfold modify. cbn [fst snd].
    destruct (Nat.le_gt_cases n (length rest)) as [Hle|Hgt].
    + destruct (read_exact_enough n s1) as (s2 & H2 & Hi2 & _); [by rewrite Hi1|].
      rewrite H2. exists (Ok (inl tt)), s2, ([t; v1; v0; l1; l0] ++ take n (incoming s1)).
      split; [done|]. split_and!; [|lia|done].
      intros _ _. split; [done|]. rewrite Hi2, Hi1, Hi. split; [|len].
      by rewrite <- app_assoc, take_drop.
    + destruct (read_exact_short n s1) as (r & s2 & H2 & _ & Hok & _); [by rewrite Hi1|].
      rewrite H2. destruct r as [b|e| |]; [by destruct (Hok b)|..];
        do 3 eexists; (split; [done|]); split_and!; done || lia.
  - do 3 eexists. split; [done|]. split_and!; [done..|]. intros _. eauto.
Qed.
End read_proofs.

(** ** Proofs: forwarding a handshake *)

(** A TLS record as the copier sees it. *)
Record record := Rec { rtype : Z; rver : Z * Z; rbody : list Z }.

Definition record_bytes (r : record) : list Z :=
  [rtype r; (rver r).1; (rver r).2] ++ to_be_bytes 2 (Z.of_nat (length (rbody r))) ++ rbody r.
Definition wf_record (r : record) : Prop := is_u16 (Z.of_nat (length (rbody r))).

(** How far a sequence of records belongs to the handshake: up to the first handshake record after
    a change-cipher-spec, or the second change-cipher-spec; any other record type is invalid. *)
Inductive scan_end := Finished | Invalid | More.

Fixpoint scan (has_seen : bool) (rs : list record) : nat * scan_end :=
  match rs with
  | [] => (0%nat, More)
  | r :: rs =>
      if rtype r =? HANDSHAKE then
        if has_seen then (1%nat, Finished) else let (n, e) := scan has_seen rs in (S n, e)
      else if rtype r =? CHANGE_CIPHER_SPEC then
        if has_seen then (1%nat, Finished) else let (n, e) := scan true rs in (S n, e)
      else (1%nat, Invalid)
  end.

Section copy_proofs.
Context {R W : Type} `{!AsyncIO R, !AsyncIOLaws R, !AsyncIO W, !AsyncIOLaws W}.
#[local] Set Default Proof Using "Type*".
Implicit Types (r : R) (w : W).

Lemma on_read_eq {A} (m : prog R io_error A) r w x r' :
  m r = (x, r') -> on_read m (r, w) = (x, (r', w)).
Proof. intros H. unfold on_read, zoom. cbn [fst snd]. by rewrite H. Qed.

Lemma on_write_eq {A} (m : prog W io_error A) r w x w' :
  m w = (x, w') -> on_write m (r, w) = (x, (r, w')).
Proof. intros H. unfold on_write, zoom. cbn [fst snd]. by rewrite H. Qed.

Lemma copy_record_whole has_seen rec rest r w :
  wf_record rec -> writable w -> incoming r = record_bytes rec ++ rest ->
  exists r' w', incoming r' = rest /\ outgoing w' = outgoing w ++ record_bytes rec /\ writable w'
    /\ only_read r r' /\ incoming w' = incoming w
    /\ copy_record has_seen (r, w) =
       (if rtype rec =? HANDSHAKE then
          if has_seen then Ok (inl tt) else Ok (inr has_seen)
        else if rtype rec =? CHANGE_CIPHER_SPEC then
          if has_seen then Ok (inl tt) else Ok (inr true)
        else Err (IoErr InvalidData "Invalid TLS state"), (r', w')).
Proof.
  intros Hwf Hw Hi. unfold record_bytes in *.
  destruct (to_be_bytes_2 (Z.of_nat (length (rbody rec)))) as (l1 & l0 & Hl & _ & _ & Hz).
  rewrite Hl in *. specialize (Hz Hwf). cbn [app] in *.
  destruct (read_exact_app 5 [rtype rec; (rver rec).1; (rver rec).2; l1; l0] (rbody rec ++ rest) r)
    as (r1 & H1 & Hi1 & Hr1); [by rewrite Hi|done|].
  destruct (write_all_writable [rtype rec; (rver rec).1; (rver rec).2; l1; l0] w Hw)
    as (w1 & H2 & Ho1 & Hwi1 & _ & Hw1).
  destruct (read_exact_app (length (rbody rec)) (rbody rec) rest r1 Hi1 eq_refl) as (r2 & H3 & Hi2 & Hr2).
  destruct (write_all_writable (rbody rec) w1 Hw1) as (w2 & H4 & Ho2 & Hwi2 & _ & Hw2).
  exists r2, w2. split; [done|]. split; [by rewrite Ho2, Ho1, <- app_assoc|]. split; [done|].
  split; [by transitivity r1|]. split; [by rewrite Hwi2|].
  apply (on_read_eq _ _ w) in H1. apply (on_write_eq _ r1) in H2.
  apply (on_read_eq _ _ w1) in H3. apply (on_write_eq _ r2) in H4.
  unfold copy_record. run H1. rewrite slice_ok by (simpl; lia). rewrite bind_lift.
  unfold u16_from_be_slice. cbn [take drop Nat.sub length]. rewrite decide_True, bind_lift by done.
  run H2. rewrite Hz, Nat2Z.id. run H3. run H4. unfold index. cbn [lookup list_lookup].
  rewrite bind_lift. destruct (rtype rec =? HANDSHAKE); cbn [negb]; [by destruct has_seen|].
  destruct (rtype rec =? CHANGE_CIPHER_SPEC); [by destruct has_seen|done].
Qed.

(** The records the copier forwards, and how it ends. *)
Definition copied (rs : list record) (n : nat) (rest : list Z) r w (r' : R) (w' : W) : Prop :=
  outgoing w' = outgoing w ++ concat (record_bytes <$> take n rs) /\ writable w'
  /\ incoming r' = concat (record_bytes <$> drop n rs) ++ rest
  /\ only_read r r' /\ incoming w' = incoming w.

Lemma copied_cons rec rs n rest r r1 w w1 r' w' :
  outgoing w1 = outgoing w ++ record_bytes rec -> only_read r r1 -> incoming w1 = incoming w ->
  copied rs n rest r1 w1 r' w' -> copied (rec :: rs) (S n) rest r w r' w'.
Proof.
  intros Ho Hr Hw (Ho' & ? & ? & ? & Hi). split; [|split; [done|split; [done|split]]].
  - rewrite Ho', Ho. cbn [take fmap list_fmap concat]. by rewrite <- app_assoc.
  - by transitivity r1.
  - by rewrite Hi.
Qed.

Lemma copy_loop_scan rs rest r w has_seen fuel :
  Forall wf_record rs -> writable w -> incoming r = concat (record_bytes <$> rs) ++ rest ->
  (length rs <= fuel)%nat ->
  let (n, e) := scan has_seen rs in
  exists r' w', copied rs n rest r w r' w'
    /\ match e with
       | Finished => copy_loop fuel has_seen (r, w) = (Ok tt, (r', w'))
       | Invalid => copy_loop fuel has_seen (r, w) = (Err (IoErr InvalidData "Invalid TLS state"), (r', w'))
       | More => n = length rs /\ exists seen',
           copy_loop fuel has_seen (r, w) = copy_loop (fuel - length rs) seen' (r', w')
       end.
Proof.
  intros Hwf. revert r w has_seen fuel.
  induction Hwf as [|rec rs Hrec _ IH]; intros r w has_seen fuel Hw Hi Hfuel; cbn [scan].
  { exists r, w. split; [split; [by rewrite app_nil_r|done]|].
    split; [done|]. exists has_seen. by rewrite Nat.sub_0_r. }
  destruct fuel as [|fuel]; [simpl in Hfuel; lia|]. simpl in Hfuel.
  cbn [fmap list_fmap concat] in Hi. rewrite <- app_assoc in Hi.
  destruct (copy_record_whole has_seen rec _ r w Hrec Hw Hi) as (r1 & w1 & Hi1 & Ho1 & Hw1 & Hr1 & Hwi1 & Hstep).
  assert (copied (rec :: rs) 1 rest r w r1 w1) as Hone.
  { eapply copied_cons; [exact Ho1|exact Hr1|exact Hwi1|]. split; [by rewrite app_nil_r|done]. }
  assert (forall seen', copy_record has_seen (r, w) = (Ok (inr seen'), (r1, w1)) ->
    let (n, e) := scan seen' rs in
    exists r' w', copied (rec :: rs) (S n) rest r w r' w'
    /\ match e with
       | Finished => copy_loop (S fuel) has_seen (r, w) = (Ok tt, (r', w'))
       | Invalid => copy_loop (S fuel) has_seen (r, w)
                    = (Err (IoErr InvalidData "Invalid TLS state"), (r', w'))
       | More => S n = length (rec :: rs) /\ exists seen',
           copy_loop (S fuel) has_seen (r, w) = copy_loop (S fuel - length (rec :: rs)) seen' (r', w')
       end) as Hgo.
  { intros seen' Hs. specialize (IH r1 w1 seen' fuel Hw1 Hi1 ltac:(lia)).
    destruct (scan seen' rs) as [n e]. destruct IH as (r' & w' & Hc & Hm).
    exists r', w'. split; [by eapply copied_cons|]. cbn [copy_loop]. run Hs.
    destruct e; [done..|]. destruct Hm as [-> [seen'' Hm]]. split; [done|]. exists seen''. exact Hm. }
  destruct (rtype rec =? HANDSHAKE), (rtype rec =? CHANGE_CIPHER_SPEC), has_seen;
    try (exists r1, w1; split; [exact Hone|]; cbn [copy_loop]; by run Hstep);
    specialize (Hgo _ Hstep); destruct (scan _ rs); exact Hgo.
Qed.

(** What is left of a stream behind its last whole record, and how much of it the copier has written
    when it finds out: nothing, or the header of a record whose payload is cut short. *)
Inductive incomplete : list Z -> list Z -> Prop :=
| no_header rest : (length rest < 5)%nat -> incomplete rest []
| no_payload t v1 v0 l1 l0 body : (length body < Z.to_nat (from_be_bytes [l1; l0]))%nat ->
    incomplete ([t; v1; v0; l1; l0] ++ body) [t; v1; v0; l1; l0].

Lemma copy_record_cut has_seen r w cut :
  incomplete (incoming r) cut -> writable w ->
  exists x r' w', copy_record has_seen (r, w) = (x, (r', w')) /\ is_ok x = false
    /\ outgoing w' = outgoing w ++ cut
    /\ (ends r = true -> exists m, x = Err (IoErr UnexpectedEof m)).
Proof.
  intros Hinc Hw. remember (incoming r) as i eqn:Hi. symmetry in Hi.
  destruct Hinc as [rest Hlen|t v1 v0 l1 l0 body Hlen].
  - destruct (read_exact_short 5 r) as (x & r' & H & Hp & Hok & He & _); [by rewrite Hi|].
    apply (on_read_eq _ _ w) in H. unfold copy_record. rewrite app_nil_r.
    destruct x as [b|e| |]; [by destruct (Hok b)|..]; run H; do 3 eexists; split_and!;
      try done; intros Hends; destruct (He Hends) as [m Hm]; exists m; congruence.
  - destruct (read_exact_app 5 [t; v1; v0; l1; l0] body r Hi eq_refl) as (r1 & H1 & Hi1 & He1 & _).
    destruct (write_all_writable [t; v1; v0; l1; l0] w Hw) as (w1 & H2 & Ho1 & _).
    destruct (read_exact_short (Z.to_nat (from_be_bytes [l1; l0])) r1) as (x & r2 & H3 & Hp & Hok & He & _);
      [by rewrite Hi1|].
    apply (on_read_eq _ _ w) in H1. apply (on_write_eq _ r1) in H2. apply (on_read_eq _ _ w1) in H3.
    unfold copy_record. run H1. rewrite slice_ok by (simpl; lia). rewrite bind_lift.
    unfold u16_from_be_slice. cbn [take drop Nat.sub length]. rewrite decide_True, bind_lift by done.
    run H2. rewrite He1 in He.
    destruct x as [b|e| |]; [by destruct (Hok b)|..]; run H3; do 3 eexists; split_and!;
      try done; intros Hends; destruct (He Hends) as [m Hm]; exists m; congruence.
Qed.

(** Every stream of bytes is whole records and such a rest. *)
Lemma stream_records b : is_bytes b ->
  exists rs rest cut, b = concat (record_bytes <$> rs) ++ rest /\ Forall wf_record rs /\ incomplete rest cut.
Proof using.
  remember (length b) as n eqn:Hn. revert b Hn. induction n as [n IH] using lt_wf_ind. intros b -> Hb.
  destruct (decide (length b < 5)%nat) as [Hlen|Hlen].
  { exists [], b, []. split; [done|]. split; [done|]. by constructor. }
  destruct b as [|t [|v1 [|v0 [|l1 [|l0 body]]]]]; try (cbn in Hlen; lia).
  assert (is_bytes [l1; l0] /\ is_bytes body) as [Hl Hbody].
  { apply (Forall_app _ [t; v1; v0] ([l1; l0] ++ body)) in Hb as [_ Hb]. by apply Forall_app in Hb. }
  set (size := Z.to_nat (from_be_bytes [l1; l0])).
  destruct (decide (length body < size)%nat) as [Hs|Hs].
  { exists [], ([t; v1; v0; l1; l0] ++ body), [t; v1; v0; l1; l0]. split; [done|]. split; [done|]. by constructor. }
  destruct (IH (length (drop size body)) ltac:(rewrite length_drop; cbn; lia) (drop size body) eq_refl)
    as (rs & rest & cut & Hrest & Hwf & Hcut); [by apply Forall_drop|].
  pose proof (from_be_bytes_bound [l1; l0] Hl) as Hrange. cbn [length] in Hrange.
  assert (Z.of_nat (length (take size body)) = from_be_bytes [l1; l0]) as Hsize.
  { rewrite length_take, Nat.min_l by lia. unfold size. lia. }
  exists (Rec t (v1, v0) (take size body) :: rs), rest, cut. split; [|split; [|done]].
  - cbn [fmap list_fmap concat]. unfold record_bytes at 1. cbn [rtype rver rbody fst snd].
    rewrite Hsize, (to_from_be_bytes [l1; l0] Hl : to_be_bytes 2 _ = _), <- !app_assoc, <- Hrest.
    cbn [app]. by rewrite take_drop.
  - constructor; [|done]. unfold wf_record. cbn [rbody]. rewrite Hsize. unfold in_u. lia.
Qed.

Lemma length_records rs rest r :
  incoming r = concat (record_bytes <$> rs) ++ rest -> (length rs <= length (incoming r))%nat.
Proof.
  intros ->. rewrite length_app. clear -rs. induction rs as [|rec rs IH]; [simpl; lia|].
  cbn [fmap list_fmap concat length]. rewrite length_app. unfold record_bytes at 1. simpl. lia.
Qed.

(** A copy that reaches the end of the handshake. *)
Lemma copy_finished rs rest n r w :
  Forall wf_record rs -> writable w -> incoming r = concat (record_bytes <$> rs) ++ rest ->
  scan false rs = (n, Finished) ->
  exists r' w', copied rs n rest r w r' w'
    /\ copy_until_tls12_handshake_finished (r, w) = (Ok tt, (r', w')).
Proof.
  intros Hwf Hw Hi Hs. pose proof (length_records rs rest r Hi) as Hlen.
  pose proof (copy_loop_scan rs rest r w false (S (length (incoming r))) Hwf Hw Hi ltac:(lia)) as H.
  by rewrite Hs in H.
Qed.

(** C30: the handshake is forwarded exactly.  Every stream is whole records followed by a rest that
    holds none.  The copier stops after the record that ends the TLS 1.2 handshake (the first
    handshake record after a change-cipher-spec, or the second change-cipher-spec): the bytes
    written are the bytes of the records up to and including that one, and the first byte of the
    next record is still unread.  A record of another type ends it with an error, after being
    forwarded.  If the input runs out before, all its whole records are written, and of the rest
    the five bytes of the header if the payload is cut short, nothing if the header is; the call
    then fails at the end of the stream and never succeeds. *)
Theorem copy_handshake_exact (r : R) (w : W) :
  writable w ->
  (is_bytes (incoming r) -> exists rs rest cut,
     incoming r = concat (record_bytes <$> rs) ++ rest /\ Forall wf_record rs /\ incomplete rest cut)
  /\ forall rs rest cut, Forall wf_record rs -> incoming r = concat (record_bytes <$> rs) ++ rest ->
    let (n, e) := scan false rs in
    (e = More -> incomplete rest cut) ->
    exists x r' w', copy_until_tls12_handshake_finished (r, w) = (x, (r', w'))
      /\ outgoing w' = outgoing w ++ concat (record_bytes <$> take n rs) ++ (if e is More then cut else [])
      /\ match e with
         | Finished => x = Ok tt /\ incoming r' = concat (record_bytes <$> drop n rs) ++ rest
         | Invalid => x = Err (IoErr InvalidData "Invalid TLS state")
         | More => n = length rs /\ is_ok x = false
             /\ (ends r = true -> exists m, x = Err (IoErr UnexpectedEof m))
         end.
Proof.
  intros Hw. split; [apply stream_records|]. intros rs rest cut Hwf Hi. pose proof (length_records rs rest r Hi) as Hlen.
  pose proof (copy_loop_scan rs rest r w false (S (length (incoming r))) Hwf Hw Hi ltac:(lia)) as H.
  destruct (scan false rs) as [n e]. intros Hmore.
  destruct H as (r' & w' & (Ho & Hw' & Hi' & (He & _) & _) & Hm). unfold copy_until_tls12_handshake_finished. cbn [fst].
  destruct e.
  - rewrite Hm, app_nil_r. by exists (Ok tt), r', w'.
  - rewrite Hm, app_nil_r. by do 3 eexists.
  - destruct Hm as [-> [seen' ->]]. rewrite drop_all in Hi'. cbn [fmap list_fmap concat app] in Hi'.
    destruct (S (length (incoming r)) - length rs)%nat as [|fuel] eqn:Hf; [lia|].
    destruct (copy_record_cut seen' r' w' cut) as (x & r2 & w2 & Hx & Hok & Ho2 & Hend);
      [rewrite Hi'; by apply Hmore|done|]. rewrite He in Hend. rewrite Ho, <- app_assoc in Ho2.
    cbn [copy_loop]. destruct x as [a|e| |]; [done|..]; run Hx; do 3 eexists; (split; [done|]);
      (split; [exact Ho2|]); (split; [done|]); (split; [done|]);
      intros Hends; destruct (Hend Hends) as [m [=]]; subst; by exists m.
Qed.
End copy_proofs.

Lemma read_tls_message_outcome_witness :
  (exists s' buf', read_tls_message (fun t => (20 <=? t) && (t <=? 24)) (fun _ => false)
      (fun n => replicate n 0) (open_with [22; 3; 1; 0; 2; 1; 0; 9], []) = (Ok (inl tt), (s', buf'))
    /\ [22; 3; 1; 0; 2; 1; 0; 9] = buf' ++ incoming s')
  /\ exists e s', read_tls_message (fun t => (20 <=? t) && (t <=? 24)) (fun _ => false)
      (fun n => replicate n 0) (open_with [71; 69; 84; 32; 47; 13; 10], []) = (Ok (inr e), (s', []))
    /\ incoming s' = [13; 10].
Proof.
  split.
  - destruct (read_tls_message_outcome (fun t => (20 <=? t) && (t <=? 24)) (fun _ => false)
      (fun n => replicate n 0) (open_with [22; 3; 1; 0; 2; 1; 0; 9]) [] 22 3 1 0 2 [1; 0; 9]
      ltac:(by_compute) ltac:(reflexivity)) as (r & s' & buf' & Hr & Hok & _).
    destruct Hok as (-> & Hbytes & _).
    { split; [reflexivity|]. split; [right; reflexivity|]. split; [right; discriminate|reflexivity]. }
    { by_compute. }
    exists s', buf'. split; [exact Hr|exact Hbytes].
  - destruct (read_tls_message_outcome (fun t => (20 <=? t) && (t <=? 24)) (fun _ => false)
      (fun n => replicate n 0) (open_with [71; 69; 84; 32; 47; 13; 10]) [] 71 69 84 32 47 [13; 10]
      ltac:(by_compute) ltac:(reflexivity)) as (r & s' & buf' & Hr & _ & _ & Hbad).
    destruct Hbad as ((e & ->) & -> & Hi). { intros [? _]. discriminate. }
    exists e, s'. split; [exact Hr|exact Hi].
Defined.

Definition demo_records : list record :=
  [Rec 22 (3, 3) [1]; Rec 20 (3, 3) [1]; Rec 22 (3, 3) [7; 8]; Rec 23 (3, 3) [9]].

(** A whole handshake, and one whose last record is cut off behind the header. *)
Lemma copy_handshake_exact_witness :
  (exists x r' w', copy_until_tls12_handshake_finished
      (open_with (concat (record_bytes <$> demo_records)), open_with []) = (x, (r', w'))
    /\ outgoing w' = concat (record_bytes <$> take 3 demo_records) /\ x = Ok tt
    /\ incoming r' = record_bytes (Rec 23 (3, 3) [9]))
  /\ exists m r' w', copy_until_tls12_handshake_finished
      (closed_with (record_bytes (Rec 20 (3, 3) [1]) ++ [22; 3; 3; 0; 2; 7]), open_with [])
      = (Err (IoErr UnexpectedEof m), (r', w'))
    /\ outgoing w' = record_bytes (Rec 20 (3, 3) [1]) ++ [22; 3; 3; 0; 2].
Proof.
  split.
  - destruct (copy_handshake_exact (open_with (concat (record_bytes <$> demo_records))) (open_with [])
      (open_writable _)) as [_ H].
    destruct (H demo_records [] [] ltac:(by_compute) ltac:(reflexivity) ltac:(discriminate))
      as (x & r' & w' & Hr & Ho & -> & Hi).
    exists (Ok tt), r', w'. split; [exact Hr|]. split; [exact Ho|]. split; [reflexivity|exact Hi].
  - destruct (copy_handshake_exact (closed_with (record_bytes (Rec 20 (3, 3) [1]) ++ [22; 3; 3; 0; 2; 7]))
      (open_with []) (open_writable _)) as [_ H].
    destruct (H [Rec 20 (3, 3) [1]] [22; 3; 3; 0; 2; 7] [22; 3; 3; 0; 2] ltac:(by_compute) ltac:(reflexivity))
      as (x & r' & w' & Hr & Ho & _ & _ & Hend).
    + intros _. apply (no_payload 22 3 3 0 2 [7]). by_compute.
    + destruct (Hend eq_refl) as [m ->]. exists m, r', w'. split; [exact Hr|exact Ho].
Defined.
