(* ===== verification/Snowy.v ===== *)
(** * The encrypted stream (tunnel/src/common.rs)

    [SnowyStream]: bytes in TLS application-data records, encrypted by Noise, over a TCP socket.
    The [AsyncRead] and [AsyncWrite] implementations are poll functions on an explicit state.
    Noise ([snow]) and the record parser ([rustls]) are parameters; the socket is a script of the
    results its polls return. *)
From S2P Require Import Prelude.
From stdpp Require Import strings.
From S2P Require Import Stream Tls.
Open Scope Z_scope.

(** [Poll]. *)
Inductive poll (A : Type) := Ready (a : A) | NotReady.
Arguments Ready {_} _.
Arguments NotReady {_}.

(** ** Half-closed states *)

Inductive SnowyState := Streaming | ReadShutdown | WriteShutdown | FullyShutdown.

Definition shutdown_read (s : SnowyState) : SnowyState :=
  match s with WriteShutdown | FullyShutdown => FullyShutdown | _ => ReadShutdown end.
Definition shutdown_write (s : SnowyState) : SnowyState :=
  match s with ReadShutdown | FullyShutdown => FullyShutdown | _ => WriteShutdown end.
Definition writeable (s : SnowyState) : bool :=
  match s with WriteShutdown | FullyShutdown => false | _ => true end.
Definition readable (s : SnowyState) : bool :=
  match s with ReadShutdown | FullyShutdown => false | _ => true end.

(** ** The socket *)

(** What one [poll_read] and one [poll_write] of the socket return; a chunk is cut to the room the
    caller offers, the empty chunk is the end of the stream, which every later read meets again. *)
Inductive read_result := Chunk (b : list Z) | ReadError (e : io_error) | ReadPending.
Inductive write_result := Accept (n : nat) | WriteError (e : io_error) | WritePending.

Record socket := Socket {
  reads : list read_result;
  writes : list write_result;
  (** what the socket takes at a time when [writes] is used up; 0: it is not ready *)
  afterwards : nat;
  sent : list Z;
}.

(** What [poll_write] of the socket takes from the [b] it is offered. *)
Definition socket_poll_write (b : list Z) (s : socket) : poll (res io_error nat) * socket :=
  match writes s with
  | [] =>
      match afterwards s with
      | O => (NotReady, s)
      | n => (Ready (Ok (Nat.min n (length b))), Socket (reads s) [] n (sent s ++ take n b))
      end
  | Accept n :: tl =>
      (Ready (Ok (Nat.min n (length b))), Socket (reads s) tl (afterwards s) (sent s ++ take n b))
  | WriteError e :: tl => (Ready (Err e), Socket (reads s) tl (afterwards s) (sent s))
  | WritePending :: tl => (NotReady, Socket (reads s) tl (afterwards s) (sent s))
  end.

Definition set_reads (l : list read_result) (s : socket) : socket :=
  Socket l (writes s) (afterwards s) (sent s).

Definition socket_poll_read (room : nat) (s : socket) : poll (res io_error (list Z)) * socket :=
  match reads s with
  | [] => (NotReady, s)
  | Chunk [] :: _ => (Ready (Ok []), s)
  | Chunk b :: tl =>
      if (length b <=? room)%nat then (Ready (Ok b), set_reads tl s)
      else (Ready (Ok (take room b)), set_reads (Chunk (drop room b) :: tl) s)
  | ReadError e :: tl => (Ready (Err e), set_reads tl s)
  | ReadPending :: tl => (NotReady, set_reads tl s)
  end.

(** ** The records *)

(** [OpaqueMessage::read] with [Reader::used]. *)
Inductive parsed := Parsed (payload : list Z) (used : nat) | TooShort | BadRecord.

Section snowy.
Context {N : Type} (noise_read : N -> list Z -> option (list Z) * N)
  (noise_write : N -> list Z -> option (list Z * N))
  (opaque_read : list Z -> parsed) (MAX_WIRE_SIZE : nat)
  (** the content of [read_buffer] after [set_len], before anything is decrypted into it *)
  (dirty : list Z).

Record SnowyStream := Snowy {
  sock : socket;
  noise : N;
  state : SnowyState;
  pending : list Z;        (** [pending_read_buffer[..pending_read_filled]] *)
  read_buffer : list Z;
  read_offset : nat;
  write_buffer : list Z;
  write_offset : nat;
}.

Definition snowy_new (io : socket) (n : N) : SnowyStream := Snowy io n Streaming [] [] 0 [] 0.

Definition buffered_plaintext (t : SnowyStream) : list Z := drop (read_offset t) (read_buffer t).

Definition set_sock (s : socket) (t : SnowyStream) : SnowyStream :=
  Snowy s (noise t) (state t) (pending t) (read_buffer t) (read_offset t) (write_buffer t) (write_offset t).
Definition set_state (s : SnowyState) (t : SnowyStream) : SnowyStream :=
  Snowy (sock t) (noise t) s (pending t) (read_buffer t) (read_offset t) (write_buffer t) (write_offset t).
Definition set_pending (b : list Z) (t : SnowyStream) : SnowyStream :=
  Snowy (sock t) (noise t) (state t) b (read_buffer t) (read_offset t) (write_buffer t) (write_offset t).
Definition set_read (n : N) (b : list Z) (o : nat) (t : SnowyStream) : SnowyStream :=
  Snowy (sock t) n (state t) (pending t) b o (write_buffer t) (write_offset t).
Definition set_write (n : N) (b : list Z) (o : nat) (t : SnowyStream) : SnowyStream :=
  Snowy (sock t) n (state t) (pending t) (read_buffer t) (read_offset t) b o.

(** *** Reading *)

(** How the ['read_ready] loop is left: to the socket, with the caller's buffer full, with an error,
    or (never, see [read_ready_delivers]) out of fuel. *)
Inductive ready_exit := ToSocket | Full | Fail (e : io_error) | Starved.

(** Hand out what is decrypted already; [out] is what has been put into the caller's buffer so
    far. True when the caller's buffer is full before it is all out. *)
Definition take_ready (this : SnowyStream) (room : nat) (out : list Z) : bool * SnowyStream * list Z :=
  if (read_offset this <? length (read_buffer this))%nat then
    let len := Nat.min (length (read_buffer this) - read_offset this) (room - length out) in
    let out := out ++ take len (drop (read_offset this) (read_buffer this)) in
    let offset := (read_offset this + len)%nat in
    if (offset <? length (read_buffer this))%nat then
      (true, set_read (noise this) (read_buffer this) offset this, out)
    else (false, set_read (noise this) [] 0 this, out)
  else (false, this, out).

(** The ['read_ready] loop. *)
Fixpoint read_ready (fuel : nat) (this : SnowyStream) (room : nat) (out : list Z)
    : ready_exit * SnowyStream * list Z :=
  match fuel with
  | O => (Starved, this, out)
  | S fuel =>
      match take_ready this room out with
      | (true, this, out) => (Full, this, out)
      | (false, this, out) =>
        match opaque_read (pending this) with
        | Parsed payload n =>
            let this := set_pending (drop n (pending this)) this in
            match payload with
            | [] => read_ready fuel this room out
            | _ =>
                match noise_read (noise this) payload with
                | (Some plain, noise') => read_ready fuel (set_read noise' plain 0 this) room out
                | (None, noise') =>
                    (Fail (IoErr InvalidData "Noise failed to read message"),
                     set_read noise' dirty 0 this, out)
                end
            end
        | TooShort => (ToSocket, this, out)
        | BadRecord =>
            (Fail (IoErr InvalidData "Invalid TLS frame"), set_state (shutdown_read (state this)) this, out)
        end
      end
  end.

(** The ['read_more] loop, by recursion on the number of socket reads left. *)
Fixpoint read_more (turns : nat) (this : SnowyStream) (room : nat) (out : list Z)
    : poll (res io_error unit) * SnowyStream * list Z :=
  match read_ready (S (S (length (pending this)))) this room out with
  | (Full, this, out) => (Ready (Ok tt), this, out)
  | (Fail e, this, out) => (Ready (Err e), this, out)
  | (Starved, this, out) => (NotReady, this, out)
  | (ToSocket, this, out) =>
      match out with
      | _ :: _ => (Ready (Ok tt), this, out)
      | [] =>
          let (r, s) := socket_poll_read (MAX_WIRE_SIZE - length (pending this)) (sock this) in
          let this := set_sock s this in
          match r with
          | Ready (Ok []) =>
              match pending this with
              | _ :: _ => (Ready (Err (IoErr UnexpectedEof
                  "Underlaying socket reaches EoF when a TLS frame half-read")), this, out)
              | [] => (Ready (Ok tt), this, out)
              end
          | Ready (Ok b) =>
              let this := set_pending (pending this ++ b) this in
              match turns with
              | O => (NotReady, this, out)
              | S turns => read_more turns this room out
              end
          | Ready (Err e) =>
              let this := match kind e with
                          | ConnectionAborted | UnexpectedEof => set_state (shutdown_read (state this)) this
                          | _ => this
                          end in
              (Ready (Err e), this, out)
          | _ => (NotReady, this, out)
          end
      end
  end.

(** The bytes the socket still has to deliver bound the number of its reads. *)
Definition read_turns (s : socket) : nat :=
  length (concat (omap (fun r => match r with Chunk b => Some b | _ => None end) (reads s))).

(** [poll_read] into a buffer with [room] bytes left: the result and the bytes put into it. *)
Definition poll_read (this : SnowyStream) (room : nat) : poll (res io_error unit) * SnowyStream * list Z :=
  if negb (readable (state this)) then (Ready (Ok tt), this, [])
  else read_more (read_turns (sock this)) this room [].

(** *** Writing *)

(** How the inner loop of [poll_write] is left: the record is out, or not. *)
Inductive push_exit := Pushed | PushFail (e : io_error) | PushPending | PushStarved.

(** The [while] loop of [poll_write]: every turn uses up one of the socket's results, or some bytes
    of the record. *)
Fixpoint push (fuel : nat) (this : SnowyStream) : push_exit * SnowyStream :=
  if (write_offset this <? length (write_buffer this))%nat then
    match fuel with
    | O => (PushStarved, this)
    | S fuel =>
        let (r, s) := socket_poll_write (drop (write_offset this) (write_buffer this)) (sock this) in
        let this := set_sock s this in
        match r with
        | Ready (Ok n) =>
            let this := set_write (noise this) (write_buffer this) (write_offset this + n)%nat this in
            if (n =? 0)%nat then
              (PushFail (IoErr WriteZero
                 "Write zero byte to underlying socket when a TLS frame is half-written"),
               set_state (shutdown_write (state this)) this)
            else push fuel this
        | Ready (Err e) => (PushFail e, this)
        | _ => (PushPending, this)
        end
    end
  else (Pushed, this).

Definition push_fuel (this : SnowyStream) : nat :=
  S (length (writes (sock this)) + length (drop (write_offset this) (write_buffer this))).

(** One application-data record around a ciphertext; the length field is [n as u16]. *)
Definition tls_record (cipher : list Z) : list Z :=
  [23; 3; 3] ++ to_be_bytes 2 (Z.of_nat (length cipher)) ++ cipher.

(** The outer loop of [poll_write]; [offset] bytes of [buf] are in records already. *)
Fixpoint write_loop (fuel : nat) (buf : list Z) (offset : nat) (this : SnowyStream)
    : poll (res io_error nat) * SnowyStream :=
  match push (push_fuel this) this with
  | (PushFail e, this) => (Ready (Err e), this)
  | (PushPending, this) | (PushStarved, this) =>
      (if (offset =? 0)%nat then NotReady else Ready (Ok offset), this)
  | (Pushed, this) =>
      let this := set_write (noise this) [] 0 this in
      if (offset =? length buf)%nat then (Ready (Ok offset), this)
      else
        let len := Nat.min (length buf - offset) (Z.to_nat MAXIMUM_PLAINTEXT_LENGTH) in
        match noise_write (noise this) (take len (drop offset buf)) with
        | None => (Ready Panic, this)
        | Some (cipher, noise') =>
            let this := set_write noise' (tls_record cipher) 0 this in
            match fuel with
            | O => (NotReady, this)
            | S fuel => write_loop fuel buf (offset + len)%nat this
            end
        end
  end.

Definition poll_write (this : SnowyStream) (buf : list Z) : poll (res io_error nat) * SnowyStream :=
  if negb (writeable (state this)) then (Ready (Ok 0%nat), this)
  else write_loop (length buf) buf 0 this.

(** The loop of [poll_flush]: a socket that takes nothing is asked again. *)
Fixpoint flush (fuel : nat) (this : SnowyStream) : poll (res io_error unit) * SnowyStream :=
  if (write_offset this <? length (write_buffer this))%nat then
    match fuel with
    | O => (NotReady, this)
    | S fuel =>
        let (r, s) := socket_poll_write (drop (write_offset this) (write_buffer this)) (sock this) in
        let this := set_sock s this in
        match r with
        | Ready (Ok n) => flush fuel (set_write (noise this) (write_buffer this) (write_offset this + n)%nat this)
        | Ready (Err e) => (Ready (Err e), this)
        | _ => (NotReady, this)
        end
    end
  else (Ready (Ok tt), set_write (noise this) [] 0 this).

(** The socket's own [poll_flush] does nothing. *)
Definition poll_flush (this : SnowyStream) : poll (res io_error unit) * SnowyStream :=
  flush (push_fuel this) this.

(** [socket_shutdown] is what the socket's [poll_shutdown] returns. *)
Definition poll_shutdown (socket_shutdown : poll (res io_error unit)) (this : SnowyStream)
    : poll (res io_error unit) * SnowyStream :=
  let this := if writeable (state this) then set_state (shutdown_write (state this)) this else this in
  match poll_flush this with
  | (Ready (Ok tt), this) => (socket_shutdown, this)
  | other => other
  end.

(** ** Specification *)

(** Everything the stream has committed to send: sent, or waiting in [write_buffer]. *)
Definition committed (t : SnowyStream) : list Z :=
  sent (sock t) ++ drop (write_offset t) (write_buffer t).

(** [records n p b n']: encrypting [p] from noise state [n], in chunks, gives the records [b]. *)
Inductive records : N -> list Z -> list Z -> N -> Prop :=
| records_nil n : records n [] [] n
| records_cons n chunk cipher n' p b n'' :
    chunk <> [] -> (length chunk <= Z.to_nat MAXIMUM_PLAINTEXT_LENGTH)%nat ->
    noise_write n chunk = Some (cipher, n') -> records n' p b n'' ->
    records n (chunk ++ p) (tls_record cipher ++ b) n''.

(** [b] is one whole record for the parser, wherever the input is cut. *)
Definition is_record (b payload : list Z) : Prop :=
  (0 < length b <= MAX_WIRE_SIZE)%nat
  /\ (forall rest, opaque_read (b ++ rest) = Parsed payload (length b))
  /\ (forall k, (k < length b)%nat -> opaque_read (take k b) = TooShort).

(** [carries n b p]: the bytes [b] are records that decrypt, from noise state [n], to [p]. *)
Inductive carries : N -> list Z -> list Z -> Prop :=
| carries_nil n : opaque_read [] = TooShort -> carries n [] []
| carries_empty n r b p : is_record r [] -> carries n b p -> carries n (r ++ b) p
| carries_data n r payload q n' b p :
    is_record r payload -> payload <> [] -> noise_read n payload = (Some q, n') ->
    carries n' b p -> carries n (r ++ b) (q ++ p).

(** The bytes the socket has yet to deliver. *)
Definition wire (s : socket) : list Z :=
  concat (omap (fun r => match r with Chunk b => Some b | _ => None end) (reads s)).

(** ** Writing *)

Lemma take_drop_accept (k : nat) (b l : list Z) o :
  b = drop o l -> take k b ++ drop (o + Nat.min k (length b)) l = b.
Proof using.
  intros ->. rewrite <- drop_drop. set (b := drop o l). clearbody b.
  destruct (decide (k <= length b)%nat).
  - by rewrite Nat.min_l, take_drop.
  - rewrite Nat.min_r, take_ge, drop_all, app_nil_r by lia. done.
Qed.

(** What one turn at the socket does to a stream that has something to write. *)
Lemma socket_write_commits t r s :
  socket_poll_write (drop (write_offset t) (write_buffer t)) (sock t) = (r, s) ->
  reads s = reads (sock t)
  /\ match r with
     | Ready (Ok k) => sent s ++ drop (write_offset t + k) (write_buffer t) = committed t
         /\ (write_offset t < length (write_buffer t) ->
             length (writes s) + length (drop (write_offset t + k) (write_buffer t))
             < length (writes (sock t)) + length (drop (write_offset t) (write_buffer t)))%nat
     | _ => sent s = sent (sock t)
     end.
Proof using.
  unfold socket_poll_write, committed. destruct (writes (sock t)) as [|[k|e|] tl] eqn:E;
    [destruct (afterwards (sock t)) as [|k0]; [|remember (S k0) as k eqn:Hk]|..];
    intros Hs; injection Hs as <- <-; cbn [reads writes sent] in *; rewrite ?E; try done.
  all: split_and!; [done| |intros; len].
  all: by rewrite <- app_assoc, (take_drop_accept _ _ (write_buffer t)).
Qed.

Lemma push_spec fuel t x t' :
  (length (writes (sock t)) + length (drop (write_offset t) (write_buffer t)) < fuel)%nat -> push fuel t = (x, t') ->
  committed t' = committed t /\ noise t' = noise t
  /\ match x with
     | Pushed => drop (write_offset t') (write_buffer t') = []
     | PushStarved => False
     | _ => True
     end.
Proof using.
  revert t. induction fuel as [|fuel IH]; intros t Hf; [lia|]. cbn [push].
  destruct (Nat.ltb_spec (write_offset t) (length (write_buffer t))).
  2: { intros; simplify_eq. split_and!; [done..|]. by apply drop_ge. }
  destruct (socket_poll_write _ _) as [r s] eqn:E. apply socket_write_commits in E as [_ E].
  assert (forall d, sent s = sent (sock t) -> committed (set_sock s d) = sent (sock t) ++
    drop (write_offset d) (write_buffer d)) as Hsame.
  { intros d Hs. unfold committed. cbn. by rewrite Hs. }
  destruct r as [[k|e| |]|].
  2-5: intros; simplify_eq; rewrite Hsame by done; done.
  destruct E as [E Hw]. destruct (Nat.eqb_spec k 0).
  - intros; simplify_eq. done.
  - intros (Hc & Hn & Hx)%IH; [|cbn; specialize (Hw ltac:(done)); lia]. by rewrite Hc, Hn.
Qed.

(** What a call to [write_loop] has accepted, by its result. *)
Definition accepted (buf : list Z) (offset k : nat) (r : poll (res io_error nat)) (n : N) : Prop :=
  match r with
  | Ready (Ok m) => m = (offset + k)%nat /\ (m = 0%nat -> buf = [])
  | NotReady => offset = 0%nat /\ k = 0%nat
  | Ready (Err _) => True
  | Ready Panic => exists chunk, noise_write n chunk = None /\ chunk <> []
      /\ (length chunk <= Z.to_nat MAXIMUM_PLAINTEXT_LENGTH)%nat
  | Ready Pending => False
  end.

Lemma committed_set_write n b t : committed (set_write n b 0 t) = sent (sock t) ++ b.
Proof using. done. Qed.

(** The call ends here with nothing more accepted. *)
Lemma accepted_nothing buf offset t t' r :
  committed t' = committed t -> noise t' = noise t -> accepted buf offset 0 r (noise t') ->
  exists k bytes, (k <= length buf - offset)%nat
    /\ records (noise t) (take k (drop offset buf)) bytes (noise t')
    /\ committed t' = committed t ++ bytes /\ accepted buf offset k r (noise t').
Proof using.
  intros Hc Hn Ha. exists 0%nat, []. split_and!; [lia| | |done].
  - rewrite Hn. constructor.
  - by rewrite Hc, app_nil_r.
Qed.

Lemma write_loop_spec fuel buf offset t r t' :
  (offset <= length buf)%nat -> (length buf - offset <= fuel)%nat ->
  write_loop fuel buf offset t = (r, t') ->
  exists k bytes, (k <= length buf - offset)%nat
    /\ records (noise t) (take k (drop offset buf)) bytes (noise t')
    /\ committed t' = committed t ++ bytes /\ accepted buf offset k r (noise t').
Proof using.
  revert offset t. induction fuel as [|fuel IH]; intros offset t Ho Hf; cbn [write_loop];
    (destruct (push _ t) as [x t1] eqn:E; apply push_spec in E as (Hc & Hn & Hx);
      [|unfold push_fuel; lia]);
    destruct x as [|e| |]; try done;
    try (intros; simplify_eq; by apply accepted_nothing);
    try (intros; simplify_eq; apply accepted_nothing; try done;
         destruct (Nat.eqb_spec offset 0); cbn; [done|split; lia]).
  all: assert (committed (set_write (noise t1) [] 0 t1) = committed t) as Hc'
    by (by rewrite <- Hc, committed_set_write; unfold committed; rewrite Hx).
  all: destruct (Nat.eqb_spec offset (length buf)) as [->|];
    [intros; simplify_eq; apply accepted_nothing; [done..|]; cbn; split; [lia|intros ?%nil_length_inv; done]|].
  { lia. }
  cbn [noise set_write]. set (len := Nat.min _ _).
  assert (1 <= len)%nat as Hlen by (subst len; unfold MAXIMUM_PLAINTEXT_LENGTH, MAXIMUM_CIPHERTEXT_LENGTH,
    AEAD_TAG_LENGTH in *; lia).
  destruct (noise_write _ _) as [[cipher n']|] eqn:Hw.
  2: { intros; simplify_eq. apply accepted_nothing; [done..|]. eexists. split; [done|]. split; [|len].
    intros ?%(f_equal length). len. }
  intros (k & bytes & Hk & Hr & Hc2 & Ha)%IH; [|lia..].
  exists (len + k)%nat, (tls_record cipher ++ bytes). split_and!.
  - lia.
  - replace (take (len + k) (drop offset buf))
      with (take len (drop offset buf) ++ take k (drop (offset + len) buf))
      by (by rewrite <- drop_drop, take_take_drop).
    econstructor; [| |by rewrite <- Hn|done]; [|len].
    intros ?%(f_equal length). len.
  - by rewrite Hc2, <- Hc', !committed_set_write, app_nil_r, app_assoc.
  - destruct r as [[m|e| |]|]; cbn in *; try done; [|lia]. destruct Ha as [-> ?]. split; [lia|done].
Qed.

Lemma poll_write_accepts t buf r t' :
  poll_write t buf = (r, t') ->
  exists k bytes, (k <= length buf)%nat
    /\ records (noise t) (take k buf) bytes (noise t') /\ committed t' = committed t ++ bytes
    /\ if writeable (state t) then accepted buf 0 k r (noise t') else r = Ready (Ok 0%nat) /\ k = 0%nat.
Proof using.
  unfold poll_write. destruct (writeable (state t)); cbn [negb].
  - intros (k & bytes & Hk & Hr & Hc & Ha)%write_loop_spec; [|lia..].
    exists k, bytes. rewrite drop_0 in Hr. split_and!; [lia|done..].
  - intros; simplify_eq. exists 0%nat, []. rewrite app_nil_r.
    split; [lia|]. split; [constructor|done].
Qed.

(** C16: [poll_write] accepts a prefix of its buffer, exactly as long as it reports, turns it into
    records encrypted in order, and adds these to what was committed before; nothing is lost, sent
    twice or reordered, whether the socket takes all, some or none of it. It reports 0 for a
    non-empty buffer only after a shutdown, asks to be polled again only if it accepted nothing,
    and panics only if Noise refuses a chunk of at most [MAXIMUM_PLAINTEXT_LENGTH] bytes. *)
Theorem poll_write_commits t buf r t' :
  poll_write t buf = (r, t') ->
  exists k bytes, (k <= length buf)%nat
    /\ records (noise t) (take k buf) bytes (noise t')
    /\ committed t' = committed t ++ bytes
    /\ match r with
       | Ready (Ok m) => m = k /\ (m = 0%nat -> buf = [] \/ writeable (state t) = false)
       | NotReady => k = 0%nat
       | Ready (Err _) => True
       | Ready Panic => exists chunk, noise_write (noise t') chunk = None /\ chunk <> []
           /\ (length chunk <= Z.to_nat MAXIMUM_PLAINTEXT_LENGTH)%nat
       | Ready Pending => False
       end.
Proof using.
  intros (k & bytes & ? & ? & ? & Ha)%poll_write_accepts. exists k, bytes. split_and!; [done..|].
  destruct (writeable (state t)).
  - destruct r as [[m|e| |]|]; cbn in *; [|done..|apply Ha]. destruct Ha. auto.
  - destruct Ha as [-> ->]. auto.
Qed.

(** *** Flushing *)

Lemma flush_spec fuel t r t' :
  (length (writes (sock t)) + length (drop (write_offset t) (write_buffer t)) < fuel)%nat -> flush fuel t = (r, t') ->
  committed t' = committed t
  /\ match r with
     | Ready (Ok _) => drop (write_offset t') (write_buffer t') = []
     | Ready (Err _) | NotReady => True
     | _ => False
     end.
Proof using.
  revert t. induction fuel as [|fuel IH]; intros t Hf; [lia|]. cbn [flush].
  destruct (Nat.ltb_spec (write_offset t) (length (write_buffer t))).
  2: { intros; simplify_eq. rewrite committed_set_write. unfold committed. rewrite drop_ge by done. done. }
  destruct (socket_poll_write _ _) as [r0 s] eqn:E.
  assert (match r0 with Ready Panic | Ready Pending => False | _ => True end) as Hr0.
  { revert E. unfold socket_poll_write.
    by destruct (writes (sock t)) as [|[] ?]; [destruct (afterwards (sock t))|..]; intros; simplify_eq. }
  apply socket_write_commits in E as [_ E].
  destruct r0 as [[k|e| |]|]; try done.
  2-3: intros; simplify_eq; unfold committed; cbn; by rewrite E.
  destruct E as [E Hw]. intros [Hc Hx]%IH; [|cbn; specialize (Hw ltac:(done)); lia]. by rewrite Hc.
Qed.

Lemma flush_state fuel t r t' : flush fuel t = (r, t') -> state t' = state t.
Proof using.
  revert t. induction fuel as [|fuel IH]; intros t; cbn [flush]; destruct (_ <? _)%nat;
    try (intros; by simplify_eq).
  destruct (socket_poll_write _ _) as [[[]|] ?]; [|intros; by simplify_eq..].
  intros H%IH. done.
Qed.

(** [poll_shutdown] closes the writing half, changes nothing of what was committed, and
    reaches the socket's shutdown only when every committed byte has been sent; the call is asked
    again otherwise, also after the writing half is closed. *)
Theorem poll_shutdown_flushes socket_shutdown t r t' :
  poll_shutdown socket_shutdown t = (r, t') ->
  writeable (state t') = false /\ committed t' = committed t
  /\ (sent (sock t') = committed t /\ r = socket_shutdown
      \/ r = NotReady \/ exists e, r = Ready (Err e)).
Proof using.
  unfold poll_shutdown. set (t0 := if writeable (state t) then _ else t).
  assert (writeable (state t0) = false) as Hs.
  { subst t0. destruct (state t) eqn:E; cbn; by rewrite ?E. }
  assert (committed t0 = committed t) as Hc0 by (subst t0; by destruct (writeable (state t))).
  clearbody t0. unfold poll_flush. destruct (flush _ t0) as [r0 t1] eqn:E.
  pose proof (flush_state _ _ _ _ E) as Hst.
  apply flush_spec in E as [Hc Hr]; [|unfold push_fuel; lia].
  destruct r0 as [[[]|e| |]|]; try done; intros; simplify_eq; rewrite Hst, Hc, Hc0; split_and!; try done.
  - left. split; [|done]. rewrite <- Hc0, <- Hc. unfold committed. by rewrite Hr, app_nil_r.
  - eauto.
  - auto.
Qed.

(** When the socket takes nothing, [poll_write] gives up at once, with [WriteZero] and the
    writing half closed; [poll_flush] asks again for as long as the socket goes on so. *)
Theorem zero_writes k t buf :
  (write_offset t < length (write_buffer t))%nat -> writeable (state t) = true ->
  writes (sock t) = replicate (S k) (Accept 0) -> afterwards (sock t) = 0%nat ->
  (exists m t', poll_write t buf = (Ready (Err (IoErr WriteZero m)), t')
     /\ writeable (state t') = false /\ writes (sock t') = replicate k (Accept 0))
  /\ exists t', poll_flush t = (NotReady, t') /\ state t' = state t /\ writes (sock t') = [].
Proof using.
  intros Ho Hw Hs Ha. split.
  - do 2 eexists. unfold poll_write. rewrite Hw. cbn [negb].
    assert (forall fuel, write_loop fuel buf 0 t = match push (push_fuel t) t with
      | (PushFail e, t') => (Ready (Err e), t') | _ => write_loop fuel buf 0 t end) as ->
      by (intros []; cbn [write_loop]; by destruct (push _ _) as [[] ?]).
    unfold push_fuel. cbn [push]. rewrite (proj2 (Nat.ltb_lt _ _)) by done.
    unfold socket_poll_write. rewrite Hs. cbn. split_and!; [done| |done].
    destruct (state t); done.
  - unfold poll_flush, push_fuel. rewrite Hs, length_replicate.
    assert (forall j fuel t, (write_offset t < length (write_buffer t))%nat -> (j < fuel)%nat ->
      writes (sock t) = replicate j (Accept 0) -> afterwards (sock t) = 0%nat ->
      exists t', flush fuel t = (NotReady, t') /\ state t' = state t /\ writes (sock t') = []) as Hflush;
      [|apply (Hflush (S k)); [done|lia|done..]].
    clear. intros j fuel. revert j.
    induction fuel as [|fuel IH]; intros j t Ho Hj Hs Ha; [lia|]; cbn [flush];
      rewrite (proj2 (Nat.ltb_lt _ _)) by done; unfold socket_poll_write; rewrite Hs.
    destruct j as [|j]; cbn.
    + rewrite Ha. eexists. split_and!; [done..|exact Hs].
    + destruct (IH j (set_write (noise t) (write_buffer t) (write_offset t + 0)
        (set_sock (Socket (reads (sock t)) (replicate j (Accept 0)) (afterwards (sock t)) (sent (sock t) ++ [])) t)))
        as (t' & H & ? & ?); [cbn; lia|lia|done..|]. by exists t'.
Qed.

(** ** Reading *)

(** The next step of the parser on what is pending of a well-formed stream. *)
Lemma carries_parse n pend more p :
  carries n (pend ++ more) p ->
  opaque_read pend = TooShort /\ (pend = [] \/ (length pend < MAX_WIRE_SIZE)%nat)
  \/ exists r payload pend', pend = r ++ pend' /\ (0 < length r)%nat
      /\ opaque_read pend = Parsed payload (length r)
      /\ (payload = [] /\ carries n (pend' ++ more) p
          \/ payload <> [] /\ exists q n' p', noise_read n payload = (Some q, n')
             /\ p = q ++ p' /\ carries n' (pend' ++ more) p').
Proof using.
  assert (forall r b, pend ++ more = r ++ b ->
    (pend = take (length pend) r /\ (length pend < length r)%nat)
    \/ exists pend', pend = r ++ pend' /\ b = pend' ++ more) as Hcut.
  { intros r b Heq. destruct (decide (length pend < length r)%nat) as [Hlt|Hge].
    - left. split; [|done]. apply (f_equal (take (length pend))) in Heq.
      by rewrite take_app_length, take_app_le in Heq by lia.
    - right. exists (drop (length r) pend). pose proof Heq as Heq2.
      apply (f_equal (take (length r))) in Heq. rewrite take_app_length, take_app_le in Heq by lia.
      apply (f_equal (drop (length r))) in Heq2. rewrite drop_app_length, drop_app_le in Heq2 by lia.
      split; [|done]. rewrite <- Heq at 1. by rewrite take_drop. }
  intros H. inversion H as [? Hnil Hn Hb Hp|? r b ? Hrec Hb Hn Heq Hp
    |? r payload q n' b p' Hrec Hne Hdec Hb Hn Heq Hp]; subst.
  - left. symmetry in Hb. apply app_nil in Hb as [-> ->]. auto.
  - destruct Hrec as (Hlen & Hwhole & Hpart).
    destruct (Hcut r b) as [[Hp Hlt]|(pend' & -> & ->)]; [done| |].
    + left. rewrite Hp at 1. split; [by apply Hpart|lia].
    + right. exists r, [], pend'. rewrite Hwhole. split_and!; [done|lia|done|by left].
  - destruct Hrec as (Hlen & Hwhole & Hpart).
    destruct (Hcut r b) as [[Hp Hlt]|(pend' & -> & ->)]; [done| |].
    + left. rewrite Hp at 1. split; [by apply Hpart|lia].
    + right. exists r, payload, pend'. rewrite Hwhole. split_and!; [done|lia|done|]. right. eauto 10.
Qed.

(** One step of reading: [out] grows by what left the stream, and the rest is still to come. *)
Definition delivered (more p : list Z) (t t' : SnowyStream) (out out' : list Z) : Prop :=
  exists got p', out' = out ++ got
    /\ buffered_plaintext t ++ p = got ++ buffered_plaintext t' ++ p'
    /\ carries (noise t') (pending t' ++ more) p'.

Lemma take_ready_spec t room out full t' out' :
  (length out <= room)%nat -> take_ready t room out = (full, t', out') ->
  exists got, out' = out ++ got /\ buffered_plaintext t = got ++ buffered_plaintext t'
    /\ (noise t', pending t', sock t', state t') = (noise t, pending t, sock t, state t)
    /\ (length out' <= room)%nat
    /\ if full then length out' = room else buffered_plaintext t' = [].
Proof using.
  intros Ho. unfold take_ready, buffered_plaintext.
  destruct (Nat.ltb_spec (read_offset t) (length (read_buffer t))) as [Hb|Hb].
  - destruct (Nat.ltb_spec (read_offset t + Nat.min (length (read_buffer t) - read_offset t)
      (room - length out)) (length (read_buffer t))) as [Hfull|Hall]; intros; simplify_eq.
    + eexists. split_and!; [done| |done|len..]. cbn [read_offset read_buffer set_read].
      by rewrite <- drop_drop, take_drop.
    + rewrite take_ge by len. eexists. split_and!; [done| |done|len|done].
      cbn [read_offset read_buffer set_read]. by rewrite app_nil_r.
  - intros; simplify_eq. exists []. rewrite app_nil_r, !drop_ge by done. done.
Qed.

Lemma read_ready_delivers fuel t room out more p x t' out' :
  carries (noise t) (pending t ++ more) p ->
  (length (pending t) < fuel)%nat -> (length out <= room)%nat ->
  read_ready fuel t room out = (x, t', out') ->
  delivered more p t t' out out' /\ (length out' <= room)%nat
  /\ sock t' = sock t /\ state t' = state t
  /\ match x with
     | ToSocket => buffered_plaintext t' = [] /\ opaque_read (pending t') = TooShort
         /\ (pending t' = [] \/ (length (pending t') < MAX_WIRE_SIZE)%nat)
     | Full => length out' = room
     | _ => False
     end.
Proof using.
  revert t out p. induction fuel as [|fuel IH]; intros t out p Hc Hf Ho; [lia|]. cbn [read_ready].
  destruct (take_ready t room out) as [[full t1] out1] eqn:E.
  apply take_ready_spec in E as (got & -> & Hbuf & [= Hn Hp Hsk Hst] & Hroom & Hfull); [|done].
  assert (forall t2 t3 p0 out3, p = buffered_plaintext t2 ++ p0 ->
    delivered more p0 t2 t3 (out ++ got) out3 -> buffered_plaintext t1 = [] ->
    delivered more p t t3 out out3) as Hnext.
  { intros t2 t3 p0 out3 Hsp (got2 & p2 & -> & Hb2 & Hc2) Ht1. exists (got ++ got2), p2.
    rewrite Hbuf, Ht1, app_nil_r, Hsp, <- !app_assoc, Hb2. done. }
  destruct full.
  { intros; simplify_eq. split_and!; try congruence; [|done..]. exists got, p.
    by rewrite Hbuf, Hn, Hp, <- app_assoc. }
  rewrite <- Hn, <- Hp in Hc.
  destruct (carries_parse _ _ _ _ Hc) as [[Hts Hsize]|(r & payload & pend' & Heq & Hr & -> & Hcase)].
  { rewrite Hts. intros; simplify_eq. split_and!; try congruence; try done. exists got, p.
    by rewrite Hbuf, <- app_assoc. }
  assert (drop (length r) (pending t1) = pend') as -> by (rewrite Heq; apply drop_app_length).
  assert (length pend' < fuel)%nat as Hfuel by (rewrite <- Hp, Heq in Hf; len).
  destruct Hcase as [[-> Hc2]|(Hne & q & n' & p' & Hdec & -> & Hc2)].
  - intros (Hd & ? & Hs & Hs' & ?)%(IH _ _ p); [|done..].
    rewrite Hs, Hs'. split_and!; try done; try congruence.
    eapply Hnext; [|exact Hd|done]. unfold buffered_plaintext in *. cbn. by rewrite Hfull.
  - destruct payload; [done|]. cbn [noise set_pending]. rewrite Hdec.
    intros (Hd & ? & Hs & Hs' & ?)%(IH _ _ p'); [|done..].
    rewrite Hs, Hs'. split_and!; try done; try congruence.
    eapply Hnext; [|exact Hd|done]. done.
Qed.

Definition is_pending (r : poll (res io_error unit)) : bool :=
  match r with NotReady => true | _ => false end.

(** The socket's script got to [x], and [rest] is left of it. *)
Definition script_at (script : list read_result) (x : read_result) (rest : list read_result) : Prop :=
  exists l, script = l ++ x :: rest.

(** How a read ends, given what the socket's script had to say: with data; at the end of the stream;
    with an error, the socket's or of a stream that ends inside a record; or not ready. *)
Definition read_end (script : list read_result) (r : poll (res io_error unit)) (t' : SnowyStream)
    (room : nat) (out : list Z) : Prop :=
  match r with
  | Ready (Ok tt) => out <> [] \/ room = 0%nat
      \/ head (reads (sock t')) = Some (Chunk []) /\ pending t' = [] /\ buffered_plaintext t' = []
  | Ready (Err e) => out = [] /\ buffered_plaintext t' = [] /\ opaque_read (pending t') = TooShort
      /\ (script_at script (ReadError e) (reads (sock t'))
          \/ head (reads (sock t')) = Some (Chunk []) /\ pending t' <> [] /\ kind e = UnexpectedEof)
  | NotReady => out = [] /\ buffered_plaintext t' = [] /\ opaque_read (pending t') = TooShort
      /\ (script_at script ReadPending (reads (sock t')) \/ reads (sock t') = [])
  | _ => False
  end.

Lemma read_end_weaken s1 s2 r t' room out :
  (forall x rest, (forall b, x <> Chunk b) -> script_at s1 x rest -> script_at s2 x rest) ->
  read_end s1 r t' room out -> read_end s2 r t' room out.
Proof using.
  intros H. destruct r as [[[]|e| |]|]; cbn; try done.
  - intros (?&?&?&[?|?]); auto 6.
  - intros (?&?&?&[?|?]); auto 6.
Qed.

(** One read of the socket: what it returns comes off the wire. *)
Lemma socket_read_spec room s r s' :
  socket_poll_read room s = (r, s') ->
  match r with
  | Ready (Ok b) => wire s = b ++ wire s'
      /\ (forall x rest, (forall b, x <> Chunk b) -> script_at (reads s') x rest -> script_at (reads s) x rest)
      /\ (b = [] -> (0 < room)%nat -> s' = s /\ head (reads s) = Some (Chunk []))
  | Ready (Err e) => wire s = wire s' /\ script_at (reads s) (ReadError e) (reads s')
  | NotReady => wire s = wire s' /\ (script_at (reads s) ReadPending (reads s') \/ reads s' = [])
  | _ => False
  end.
Proof using.
  unfold socket_poll_read, wire. destruct (reads s) as [|[[|b0 b]|e|] tl] eqn:E.
  - intros; simplify_eq. rewrite E. auto.
  - intros; simplify_eq. rewrite E. auto.
  - set (c := b0 :: b). destruct (Nat.leb_spec (length c) room) as [Hle|Hlt]; intros; simplify_eq/=.
    + split_and!; [done| |done]. intros x rest _ (l & ->). by exists (Chunk c :: l).
    + split_and!; [by rewrite app_assoc, take_drop| |].
      * intros x rest Hx ([|y l] & Hl); simplify_eq/=; [by destruct (Hx (drop room c))|].
        by exists (Chunk c :: l).
      * intros Ht ?. apply (f_equal length) in Ht. len.
  - intros; simplify_eq/=. split; [done|]. by exists [].
  - intros; simplify_eq/=. split; [done|]. left. by exists [].
Qed.

Lemma read_more_delivers turns t room future p r t' out :
  (0 < MAX_WIRE_SIZE)%nat -> (length (wire (sock t)) <= turns)%nat ->
  carries (noise t) (pending t ++ wire (sock t) ++ future) p ->
  read_more turns t room [] = (r, t', out) ->
  exists p', buffered_plaintext t ++ p = out ++ buffered_plaintext t' ++ p'
    /\ carries (noise t') (pending t' ++ wire (sock t') ++ future) p'
    /\ (length out <= room)%nat /\ read_end (reads (sock t)) r t' room out.
Proof using.
  intros Hmax. revert t p. induction turns as [|turns IH]; intros t p Hw Hc; cbn [read_more];
    destruct (read_ready _ t room []) as [[x t1] o] eqn:E;
    (apply (read_ready_delivers _ _ _ _ (wire (sock t) ++ future) p) in E
       as ((got & p1 & Hgot & Hb & Hc1) & Ho & Hsk & Hst & Hx); [|done|lia|cbn; lia]);
    cbn in Hgot; subst got; rewrite <- Hsk in Hc1, Hw |- *;
    destruct x; try done;
    try (intros; simplify_eq; exists p1; split_and!; try done; cbn; destruct out; [right; left; cbn in *; lia|by left]).
  all: destruct Hx as (Hbuf & Hts & Hsize).
  all: destruct o as [|o0 o];
    [|intros; simplify_eq; exists p1; split_and!; try done; cbn; left; done].
  all: destruct (socket_poll_read _ (sock t1)) as [r0 s] eqn:Er;
    apply socket_read_spec in Er as Hr.
  all: assert (0 < MAX_WIRE_SIZE - length (pending t1))%nat as Hspace by (destruct Hsize as [->|]; cbn; lia).
  all: destruct r0 as [[b|e| |]|]; try done.
  (* the socket fails *)
  all: try (destruct Hr as [Hwire Hr]; intros; simplify_eq; exists p1;
    rewrite Hwire in Hc1; destruct (kind e); split_and!; try done; cbn; auto 10; fail).
  (* the socket is not ready *)
  all: try (destruct Hr as [Hwire Hr]; intros; simplify_eq; exists p1;
    rewrite Hwire in Hc1; split_and!; try done; cbn; auto 10; fail).
  all: destruct Hr as (Hwire & Hin & Heof); rewrite Hwire in Hc1, Hw; destruct b as [|b0 b].
  (* the end of the stream *)
  1, 3: destruct (Heof eq_refl Hspace) as [-> Hend]; cbn in Hc1;
    cbn [pending set_sock]; destruct (pending t1) as [|z pend] eqn:Hp; intros; simplify_eq; exists p1;
    cbn [pending set_sock]; rewrite Hp; (split_and!; [done..|cbn; rewrite ?Hp; auto 10]).
  - cbn in Hw. lia.
  - intros (p' & Hb' & Hc' & Hl & He)%(IH _ p1); [|cbn [sock set_sock set_pending]; len
      |cbn [pending noise sock set_sock set_pending]; by rewrite <- !app_assoc in Hc1 |- *].
    exists p'. split_and!; [by rewrite Hb|done|done|].
    eapply read_end_weaken; [exact Hin|exact He].
Qed.

(** C15: [poll_read] hands out the plaintext of the peer's records, in order, with nothing lost,
    repeated or kept back: whatever the chunks the socket delivers, what was buffered and what the
    records still hold is what is put into the caller's buffer followed by what is buffered
    afterwards and what the records hold then.  It fails only with the socket's errors or when the
    stream ends inside a record, then with an empty buffer; it returns nothing only at the end of
    the stream; it waits only when no whole record has arrived. *)
Theorem poll_read_delivers t room future p r t' out :
  (0 < MAX_WIRE_SIZE)%nat -> readable (state t) = true ->
  carries (noise t) (pending t ++ wire (sock t) ++ future) p ->
  poll_read t room = (r, t', out) ->
  exists p', buffered_plaintext t ++ p = out ++ buffered_plaintext t' ++ p'
    /\ carries (noise t') (pending t' ++ wire (sock t') ++ future) p'
    /\ (length out <= room)%nat /\ read_end (reads (sock t)) r t' room out.
Proof using.
  intros Hmax Hread Hc. unfold poll_read. rewrite Hread. cbn [negb].
  apply read_more_delivers; done.
Qed.

(** A record Noise rejects is reported once, and leaves the whole decryption buffer in place
    as if it were plaintext: the next [poll_read] hands its stale bytes to the caller. *)
Theorem rejected_record_delivers_stale_bytes t payload used n' room :
  readable (state t) = true -> buffered_plaintext t = [] ->
  opaque_read (pending t) = Parsed payload used -> payload <> [] ->
  noise_read (noise t) payload = (None, n') ->
  (0 < room < length dirty)%nat ->
  exists t1 t2,
    poll_read t room
      = (Ready (Err (IoErr InvalidData "Noise failed to read message")), t1, [])
    /\ poll_read t1 room
      = (Ready (Ok tt), t2, take room dirty).
Proof using.
  intros Hread Hbuf Hparse Hne Hdec Hroom.
  set (t0 := set_pending (drop used (pending t)) t).
  exists (set_read n' dirty 0 t0), (set_read n' dirty room (set_read n' dirty 0 t0)).
  assert (take_ready t room [] = (false, t, [])) as Htake.
  { unfold take_ready. destruct (Nat.ltb_spec (read_offset t) (length (read_buffer t))); [|done].
    apply (f_equal length) in Hbuf. unfold buffered_plaintext in Hbuf. len. }
  split; unfold poll_read.
  - rewrite Hread. cbn [negb]. destruct (read_turns (sock t)); cbn [read_more read_ready];
      rewrite Htake, Hparse; destruct payload; try done; cbn [noise set_pending]; by rewrite Hdec.
  - cbn [state set_read set_pending t0]. rewrite Hread. cbn [negb].
    assert (take_ready (set_read n' dirty 0 t0) room []
      = (true, set_read n' dirty room (set_read n' dirty 0 t0), take room dirty)) as Htake2.
    { unfold take_ready. cbn [read_offset read_buffer set_read length]. cases_cmp.
      rewrite !Nat.sub_0_r, Nat.min_r, drop_0 by lia. done. }
    destruct (read_turns _); cbn [read_more]; cbn [read_ready]; by rewrite Htake2.
Qed.
End snowy.

(** ** End to end *)

(** What the two ends rely on: Noise ([sync w r]: the reader's state is the writer's peer) opens
    what it sealed, in order, and the record parser parses what [tls_record] builds. *)
Class SnowyLaws {N} (noise_read : N -> list Z -> option (list Z) * N)
    (noise_write : N -> list Z -> option (list Z * N)) (opaque_read : list Z -> parsed)
    (MAX_WIRE_SIZE : nat) (sync : N -> N -> Prop) : Prop := {
  seal_open w r chunk : sync w r -> chunk <> [] ->
    (length chunk <= Z.to_nat MAXIMUM_PLAINTEXT_LENGTH)%nat ->
    exists c w' r', noise_write w chunk = Some (c, w') /\ noise_read r c = (Some chunk, r')
      /\ sync w' r' /\ length c = (length chunk + Z.to_nat AEAD_TAG_LENGTH)%nat;
  parses_record c : (length c <= Z.to_nat MAXIMUM_CIPHERTEXT_LENGTH)%nat ->
    is_record opaque_read MAX_WIRE_SIZE (tls_record c) c;
  parses_nothing : opaque_read [] = TooShort;
}.

Section end_to_end.
Context {N : Type} {noise_read : N -> list Z -> option (list Z) * N}
  {noise_write : N -> list Z -> option (list Z * N)} {opaque_read : list Z -> parsed}
  {MAX_WIRE_SIZE : nat} {sync : N -> N -> Prop}
  {Hlaws : SnowyLaws noise_read noise_write opaque_read MAX_WIRE_SIZE sync} (dirty : list Z).
#[local] Set Default Proof Using "Type*".

Lemma records_carried w p b w' r :
  records noise_write w p b w' -> sync w r -> carries noise_read opaque_read MAX_WIRE_SIZE r b p.
Proof.
  intros H. revert r. induction H as [w|w chunk cipher w1 p b w' Hne Hl Hw _ IH]; intros r Hs.
  - apply carries_nil, parses_nothing.
  - destruct (seal_open _ _ _ Hs Hne Hl) as (c & w2 & r' & Hw2 & Hr & Hs' & Hc).
    rewrite Hw in Hw2. simplify_eq. eapply carries_data; [|  |exact Hr|by apply IH].
    + apply parses_record. revert Hl Hc.
      unfold MAXIMUM_PLAINTEXT_LENGTH, MAXIMUM_CIPHERTEXT_LENGTH, AEAD_TAG_LENGTH. lia.
    + intros ->. revert Hc. unfold AEAD_TAG_LENGTH. cbn. lia.
Qed.

Lemma records_sync w p b w' r :
  records noise_write w p b w' -> sync w r -> exists r', sync w' r'.
Proof.
  intros H. revert r. induction H as [w|w chunk cipher w1 p b w' Hne Hl Hw _ IH]; intros r Hs; [eauto|].
  destruct (seal_open _ _ _ Hs Hne Hl) as (c & w2 & r' & Hw2 & Hr & Hs' & Hc).
  rewrite Hw in Hw2. simplify_eq. eauto.
Qed.

(** Between synchronised ends, what one [poll_write] reports as written is what [poll_read]
    calls at the other end hand out, in order: when [b], the bytes the write added, is what the
    reader's socket has delivered or will deliver, the first read gives a prefix of the accepted
    plaintext and leaves the stream carrying exactly the rest.  The write cannot panic. *)
Theorem tunnel_end_to_end w buf res w' r room future res2 r' out :
  (0 < MAX_WIRE_SIZE)%nat -> sync (noise w) (noise r) ->
  poll_write noise_write w buf = (res, w') ->
  readable (state r) = true -> pending r = [] -> buffered_plaintext r = [] ->
  committed w' = committed w ++ wire (sock r) ++ future ->
  poll_read noise_read opaque_read MAX_WIRE_SIZE dirty r room = (res2, r', out) ->
  exists k rest, (k <= length buf)%nat /\ take k buf = out ++ rest
    /\ (forall m, res = Ready (Ok m) -> m = k) /\ res <> Ready Panic
    /\ exists undecrypted, rest = buffered_plaintext r' ++ undecrypted
       /\ carries noise_read opaque_read MAX_WIRE_SIZE (noise r')
            (pending r' ++ wire (sock r') ++ future) undecrypted.
Proof.
  intros Hmax Hs Hw Hread Hp Hb Hwire Hr.
  destruct (poll_write_accepts _ _ _ _ _ Hw) as (k & bytes & Hk & Hrec & Hc & Ha).
  rewrite Hwire in Hc. apply app_inv_head in Hc as <-.
  destruct (records_sync _ _ _ _ _ Hrec Hs) as [r0 Hs'].
  apply (records_carried _ _ _ _ _ Hrec) in Hs.
  unfold poll_read in Hr. rewrite Hread in Hr. cbn [negb] in Hr.
  eapply read_more_delivers in Hr as (p' & Hout & Hrest & Hlen & _); [|done|done|by rewrite Hp].
  exists k, (buffered_plaintext r' ++ p'). split_and!; [done| | | |eauto].
  - by rewrite Hb in Hout.
  - intros m ->. destruct (writeable (state w)); destruct Ha as [Ha Hk0]; [exact Ha|].
    rewrite Hk0. by injection Ha.
  - intros ->. destruct (writeable (state w)); [|by destruct Ha].
    destruct Ha as (chunk & Hnone & Hne & Hl).
    destruct (seal_open _ _ _ Hs' Hne Hl) as (c & w2 & r2 & Hsome & _). congruence.
Qed.
End end_to_end.

(** ** A concrete pair of ends *)

(** A stand-in for Noise: the message, fifteen zeros and the number of the message. *)
Definition toy_write (n : nat) (p : list Z) : option (list Z * nat) :=
  Some (p ++ replicate 15 0 ++ [Z.of_nat n], S n).
Definition toy_read (n : nat) (c : list Z) : option (list Z) * nat :=
  if decide ((16 <= length c)%nat /\ drop (length c - 16) c = replicate 15 0 ++ [Z.of_nat n])
  then (Some (take (length c - 16) c), S n) else (None, n).

(** A record parser with the interface of [OpaqueMessage::read]. *)
Definition toy_parse (b : list Z) : parsed :=
  match b with
  | t :: _ :: _ :: h :: l :: rest =>
      let n := Z.to_nat (from_be_bytes [h; l]) in
      if negb (t =? 23) then BadRecord
      else if (n <=? length rest)%nat then Parsed (take n rest) (5 + n) else TooShort
  | _ => TooShort
  end.

#[export] Instance toy_laws : SnowyLaws toy_read toy_write toy_parse (Z.to_nat 18437) eq.
Proof.
  constructor; [| |done].
  - intros w r chunk <- Hne Hl. do 3 eexists. split; [done|]. unfold toy_read.
    assert (length (chunk ++ replicate 15 0 ++ [Z.of_nat w]) = (length chunk + 16)%nat) as Hlen by len.
    rewrite Hlen, Nat.add_sub, drop_app_length, take_app_length, decide_True by (split; [lia|done]).
    split_and!; done.
  - intros c Hc. unfold MAXIMUM_CIPHERTEXT_LENGTH in Hc.
    destruct (to_be_bytes_2 (Z.of_nat (length c))) as (h & l & Hhl & _ & _ & Hback).
    assert (is_u16 (Z.of_nat (length c))) as Hu by (unfold in_u; lia).
    unfold tls_record. rewrite Hhl. apply Hback in Hu. split_and!.
    + cbn. lia.
    + cbn. lia.
    + intros rest. cbn. rewrite Hu, Nat2Z.id, take_app_length. cases_cmp; done.
    + intros k Hk. cbn in Hk. do 5 (destruct k as [|k]; [done|]). cbn.
      rewrite Hu, Nat2Z.id. cases_cmp; done.
Qed.

(** Witnesses: a writer whose socket takes 3 bytes, then nothing for a while. *)
Definition slow_writer : SnowyStream (N:=nat) :=
  snowy_new (Socket [] [Accept 3; WritePending] 0 []) 0%nat.
(** A reader to whom the record of [1; 2; 3] arrives in two chunks. *)
Definition hello_record : list Z := tls_record ([1; 2; 3] ++ replicate 15 0 ++ [0]).
Definition split_reader : SnowyStream (N:=nat) :=
  snowy_new (Socket [Chunk (take 7 hello_record); Chunk (drop 7 hello_record)] [] 0 []) 0%nat.

Lemma hello_carried : carries toy_read toy_parse (Z.to_nat 18437) 0%nat hello_record [1; 2; 3].
Proof.
  apply (records_carried (noise_write:=toy_write) (sync:=eq) 0%nat [1; 2; 3] _ 1%nat); [|done].
  rewrite <- (app_nil_r hello_record).
  eapply (records_cons _ _ [1; 2; 3] _ 1%nat []); [done|by_compute|done|constructor].
Qed.

Lemma poll_write_commits_witness : exists k bytes t',
  poll_write toy_write slow_writer [1; 2; 3] = (Ready (Ok 3%nat), t')
  /\ records toy_write 0%nat (take k [1; 2; 3]) bytes (noise t')
  /\ committed t' = bytes.
Proof.
  destruct (poll_write toy_write slow_writer [1; 2; 3]) as [r t'] eqn:E.
  destruct (poll_write_commits toy_write _ _ _ _ E) as (k & bytes & _ & Hr & Hc & _).
  exists k, bytes, t'. split; [|split; [exact Hr|exact Hc]].
  revert E. vm_compute. intros E. injection E as <- <-. reflexivity.
Defined.

Lemma poll_shutdown_flushes_witness : exists t',
  poll_shutdown (Ready (Ok tt)) (Snowy (Socket [] [Accept 9] 0 []) 0%nat Streaming [] [] 0 [7; 8] 0)
    = (Ready (Ok tt), t') /\ committed t' = [7; 8].
Proof.
  eexists. split; [vm_compute; reflexivity|].
  apply (poll_shutdown_flushes (N:=nat) (Ready (Ok tt))
    (Snowy (Socket [] [Accept 9] 0 []) 0%nat Streaming [] [] 0 [7; 8] 0) (Ready (Ok tt))).
  vm_compute. reflexivity.
Defined.

Lemma zero_writes_witness : exists t',
  poll_flush (Snowy (Socket [] [Accept 0; Accept 0] 0 []) 0%nat Streaming [] [] 0 [7; 8] 0) = (NotReady, t')
  /\ state t' = Streaming.
Proof.
  destruct (zero_writes toy_write 1 (Snowy (Socket [] [Accept 0; Accept 0] 0 []) 0%nat Streaming [] [] 0 [7; 8] 0) [])
    as [_ (t' & H & Hs & _)]; [vm_compute; lia|reflexivity..|].
  exists t'. split; [exact H|exact Hs].
Defined.

Lemma poll_read_delivers_witness : exists t' p',
  poll_read toy_read toy_parse (Z.to_nat 18437) [] split_reader 2 = (Ready (Ok tt), t', [1; 2])
  /\ [1; 2; 3] = [1; 2] ++ buffered_plaintext t' ++ p'.
Proof.
  destruct (poll_read toy_read toy_parse (Z.to_nat 18437) [] split_reader 2) as [[r t'] out] eqn:E.
  destruct (poll_read_delivers toy_read toy_parse (Z.to_nat 18437) [] split_reader 2 [] [1; 2; 3] r t' out)
    as (p' & Hp & _).
  - vm_compute. lia.
  - reflexivity.
  - exact hello_carried.
  - exact E.
  - exists t', p'. revert E Hp. vm_compute. intros E. injection E as <- <- <-. intros Hp.
    split; [reflexivity|exact Hp].
Defined.

Lemma rejected_record_delivers_stale_bytes_witness : exists t1 t2,
  poll_read toy_read toy_parse (Z.to_nat 18437) [9; 9; 9] (Snowy (Socket [] [] 0 []) 1%nat Streaming hello_record [] 0 [] 0) 2
    = (Ready (Err (IoErr InvalidData "Noise failed to read message")), t1, [])
  /\ poll_read toy_read toy_parse (Z.to_nat 18437) [9; 9; 9] t1 2 = (Ready (Ok tt), t2, [9; 9]).
Proof.
  apply (rejected_record_delivers_stale_bytes toy_read toy_parse (Z.to_nat 18437) [9; 9; 9]
    (Snowy (Socket [] [] 0 []) 1%nat Streaming hello_record [] 0 [] 0) ([1; 2; 3] ++ replicate 15 0 ++ [0]) 24 1%nat 2).
  - reflexivity.
  - reflexivity.
  - vm_compute. reflexivity.
  - discriminate.
  - vm_compute. reflexivity.
  - cbn. lia.
Defined.

Lemma tunnel_end_to_end_witness : exists k rest, (k <= 3)%nat /\ take k [1; 2; 3] = [1; 2] ++ rest.
Proof.
  destruct (poll_write toy_write slow_writer [1; 2; 3]) as [r w'] eqn:E.
  destruct (poll_read toy_read toy_parse (Z.to_nat 18437) [] split_reader 2) as [[res2 r'] out] eqn:E2.
  destruct (tunnel_end_to_end (sync:=eq) [] slow_writer [1; 2; 3] r w' split_reader 2 [] res2 r' out)
    as (k & rest & Hk & Ht & _).
  - vm_compute. lia.
  - reflexivity.
  - exact E.
  - reflexivity.
  - reflexivity.
  - reflexivity.
  - revert E. vm_compute. intros E. injection E as <- <-. reflexivity.
  - exact E2.
  - exists k, rest. split; [exact Hk|]. rewrite Ht.
    revert E2. vm_compute. intros E2. injection E2 as <- <- <-. reflexivity.
Defined.
