(* ===== verification/Tunnel.v ===== *)
(** * A tunnel as a byte stream (tunnel/src/common.rs, as shuttle/src uses it)

    The components of [shuttle] are verified against the interface [AsyncIO].  Here the encrypted
    stream implements it: the exact reads and whole writes that Tokio builds from the poll functions
    of [Snowy], on a socket that delivers in any chunks, is ready whenever it likes, and stalls, ends
    or fails in the end.  What a tunnel has written is what its peer can decrypt, which need not
    have been sent: a caller that does not flush leaves bytes behind. *)
From S2P Require Import Prelude.
From stdpp Require Import strings.
From S2P Require Import Stream Frame Tls Snowy.
Open Scope Z_scope.

(** Noise's transport state is a pair of cipher states, one for each direction. *)
Record transport (N : Type) := Transport { sending : N; receiving : N }.
Arguments Transport {_} _ _.
Arguments sending {_} _.
Arguments receiving {_} _.

Section tunnel.
Context {N : Type} (cipher_read : N -> list Z -> option (list Z) * N)
  (cipher_write : N -> list Z -> option (list Z * N))
  (opaque_read : list Z -> parsed) (MAX_WIRE_SIZE : nat) (dirty : list Z).

Definition transport_read (n : transport N) (c : list Z) : option (list Z) * transport N :=
  let (p, r) := cipher_read (receiving n) c in (p, Transport (sending n) r).
Definition transport_write (n : transport N) (p : list Z) : option (list Z * transport N) :=
  match cipher_write (sending n) p with
  | Some (c, w) => Some (c, Transport w (receiving n))
  | None => None
  end.

Definition stream_t : Type := SnowyStream (N:=transport N).
Definition snowy_poll_read (t : stream_t) (room : nat) : poll (res io_error unit) * stream_t * list Z :=
  poll_read transport_read opaque_read MAX_WIRE_SIZE dirty t room.
Definition snowy_poll_write (t : stream_t) (buf : list Z) : poll (res io_error nat) * stream_t :=
  poll_write transport_write t buf.

(** ** Awaiting *)

(** [read_exact(&mut buf).await]: polls into what is left of the buffer until it is full; a read of
    nothing is the end of the stream.  A poll that is not ready is repeated when the socket has
    something new; when it has nothing any more the call waits for ever. *)
Fixpoint await_read_exact (fuel n : nat) (t : stream_t) (got : list Z) : res io_error (list Z) * stream_t :=
  if (length got =? n)%nat then (Ok got, t) else
  match fuel with
  | O => (Pending, t)
  | S fuel =>
      match snowy_poll_read t (n - length got) with
      | (Ready (Ok _), t, []) => (Err (IoErr UnexpectedEof "early eof"), t)
      | (Ready (Ok _), t, b) => await_read_exact fuel n t (got ++ b)
      | (Ready (Err e), t, _) => (Err e, t)
      | (Ready Panic, t, _) => (Panic, t)
      | (Ready Pending, t, _) => (Pending, t)
      | (NotReady, t, _) =>
          match reads (sock t) with [] => (Pending, t) | _ => await_read_exact fuel n t got end
      end
  end.

(** [write_all(&buf).await]. *)
Fixpoint await_write_all (fuel : nat) (buf : list Z) (t : stream_t) : res io_error unit * stream_t :=
  match buf with
  | [] => (Ok tt, t)
  | _ =>
      match fuel with
      | O => (Pending, t)
      | S fuel =>
          match snowy_poll_write t buf with
          | (Ready (Ok O), t) => (Err (IoErr WriteZero "failed to write whole buffer"), t)
          | (Ready (Ok n), t) => await_write_all fuel (drop n buf) t
          | (Ready (Err e), t) => (Err e, t)
          | (Ready Panic, t) => (Panic, t)
          | (Ready Pending, t) => (Pending, t)
          | (NotReady, t) =>
              match writes (sock t), afterwards (sock t) with
              | [], O => (Pending, t)
              | _, _ => await_write_all fuel buf t
              end
          end
      end
  end.

(** A turn yields a byte or uses up a result of the socket. *)
Definition snowy_read_exact (n : nat) (t : stream_t) : res io_error (list Z) * stream_t :=
  await_read_exact (n + length (reads (sock t))) n t [].
Definition snowy_write_all (buf : list Z) (t : stream_t) : res io_error unit * stream_t :=
  await_write_all (length buf + length (writes (sock t))) buf t.

(** ** What a stream holds *)

(** What a receiver in cipher state [n] makes of the bytes [b]. *)
Fixpoint decrypt (fuel : nat) (n : N) (b : list Z) : list Z :=
  match fuel with
  | O => []
  | S fuel =>
      match opaque_read b with
      | Parsed [] k => decrypt fuel n (drop k b)
      | Parsed payload k =>
          match cipher_read n payload with
          | (Some q, n) => q ++ decrypt fuel n (drop k b)
          | (None, _) => []
          end
      | _ => []
      end
  end.
Definition plaintext (n : N) (b : list Z) : list Z := decrypt (S (length b)) n b.

(** What is still to be read. *)
Definition to_come (t : stream_t) : list Z :=
  if readable (state t)
  then buffered_plaintext t ++ plaintext (receiving (noise t)) (pending t ++ wire (sock t)) else [].

(** A socket that delivers, with pauses, and then stalls, ends or fails. *)
Fixpoint steady (l : list read_result) : Prop :=
  match l with
  | [] => True
  | Chunk [] :: l | ReadError _ :: l => l = []
  | Chunk _ :: l | ReadPending :: l => steady l
  end.
Definition script_ends (l : list read_result) : bool :=
  match last l with Some (Chunk []) => true | _ => false end.

(** A socket that takes bytes, with pauses, and goes on doing so. *)
Definition takes (r : write_result) : Prop :=
  match r with Accept n => (0 < n)%nat | WritePending => True | WriteError _ => False end.
Definition accepting (t : stream_t) : Prop :=
  writeable (state t) = true /\ Forall takes (writes (sock t)) /\ (0 < afterwards (sock t))%nat.

End tunnel.

(** ** Proofs: reading *)

Section reading.
Context {N : Type} (cipher_read : N -> list Z -> option (list Z) * N)
  (opaque_read : list Z -> parsed) (MAX_WIRE_SIZE : nat) (dirty : list Z).
Implicit Types (t : stream_t (N:=N)) (l : list read_result).

Lemma transport_carries n b p :
  carries cipher_read opaque_read MAX_WIRE_SIZE (receiving n) b p -> carries (transport_read cipher_read) opaque_read MAX_WIRE_SIZE n b p.
Proof using.
  destruct n as [w r]. cbn. induction 1 as [r|r rec b p Hr _ IH|r rec payload q r' b p Hr Hne Hd _ IH].
  - by apply carries_nil.
  - by apply carries_empty.
  - apply (carries_data _ _ _ _ rec payload q (Transport w r')); [done..| |done].
    unfold transport_read. cbn. by rewrite Hd.
Qed.

Lemma carries_transport n b p :
  carries (transport_read cipher_read) opaque_read MAX_WIRE_SIZE n b p -> carries cipher_read opaque_read MAX_WIRE_SIZE (receiving n) b p.
Proof using.
  induction 1 as [n|n rec b p Hr _ IH|n rec payload q n' b p Hr Hne Hd _ IH].
  - by apply carries_nil.
  - by apply carries_empty.
  - revert Hd. unfold transport_read. destruct (cipher_read (receiving n) payload) as [o r'] eqn:E.
    intros [= -> <-]. by eapply carries_data.
Qed.

Lemma decrypt_carries_short n b p rest fuel :
  carries cipher_read opaque_read MAX_WIRE_SIZE n b p -> opaque_read rest = TooShort ->
  (length (b ++ rest) < fuel)%nat -> decrypt cipher_read opaque_read fuel n (b ++ rest) = p.
Proof using.
  intros H Hs. revert fuel. induction H as [n Hn|n rec b p (Hl & Hw & _) _ IH|n rec payload q n' b p (Hl & Hw & _) Hne Hd _ IH];
    intros [|fuel] Hf; (try lia); cbn [decrypt].
  - cbn. by rewrite Hs.
  - rewrite <- app_assoc, Hw, drop_app_length. apply IH. len.
  - rewrite <- app_assoc, Hw, drop_app_length. destruct payload; [done|]. rewrite Hd. f_equal. apply IH. len.
Qed.

Lemma carries_parser n b p : carries cipher_read opaque_read MAX_WIRE_SIZE n b p -> opaque_read [] = TooShort.
Proof using. by induction 1. Qed.

Lemma decrypt_carries n b p fuel :
  carries cipher_read opaque_read MAX_WIRE_SIZE n b p -> (length b < fuel)%nat ->
  decrypt cipher_read opaque_read fuel n b = p.
Proof using.
  intros H Hf. rewrite <- (app_nil_r b). eapply decrypt_carries_short; [done|by eapply carries_parser|len].
Qed.

Lemma plaintext_carries n b p : carries cipher_read opaque_read MAX_WIRE_SIZE n b p -> plaintext cipher_read opaque_read n b = p.
Proof using. intros H. by apply decrypt_carries; [|lia]. Qed.

(** Where no record is whole, nothing is carried. *)
Lemma carries_short n b p : carries cipher_read opaque_read MAX_WIRE_SIZE n b p -> opaque_read b = TooShort -> b = [] /\ p = [].
Proof using. intros [] Hs; [done|destruct H as (_ & Hw & _); by rewrite Hw in Hs..]. Qed.

Lemma carries_none n p : carries cipher_read opaque_read MAX_WIRE_SIZE n [] p -> p = [].
Proof using.
  intros H. remember [] as b eqn:Hb. destruct H as [|n rec b p (Hl & _) _|n rec payload q n' b p (Hl & _)]; [done|..];
    apply app_nil in Hb as [-> _]; cbn in Hl; lia.
Qed.

(** *** What a read leaves alone *)

Record read_step t t' : Prop := {
  step_writes : writes (sock t') = writes (sock t);
  step_afterwards : afterwards (sock t') = afterwards (sock t);
  step_sent : sent (sock t') = sent (sock t);
  step_buffer : write_buffer t' = write_buffer t;
  step_offset : write_offset t' = write_offset t;
  step_sending : sending (noise t') = sending (noise t);
  step_writeable : writeable (state t') = writeable (state t);
  step_script : steady (reads (sock t)) -> steady (reads (sock t'))
    /\ script_ends (reads (sock t')) = script_ends (reads (sock t))
    /\ (length (reads (sock t')) <= length (reads (sock t)))%nat;
}.

#[export] Instance read_step_preorder : PreOrder read_step.
Proof using.
  split; [by intros t|]. intros t1 t2 t3 [] [].
  split; try congruence. intros (H & ? & ?)%step_script0. apply step_script1 in H as (? & ? & ?).
  split_and!; [done|congruence|lia].
Qed.

Lemma shutdown_read_writeable s : writeable (shutdown_read s) = writeable s.
Proof using. by destruct s. Qed.

Lemma take_ready_step t room out full t' out' :
  take_ready t room out = (full, t', out') -> read_step t t' /\ state t' = state t.
Proof using.
  unfold take_ready. destruct (_ <? _)%nat; [destruct (_ <? _)%nat|]; intros [= _ <- _]; done.
Qed.

Lemma read_ready_step fuel t room out x t' out' :
  read_ready (transport_read cipher_read) opaque_read dirty fuel t room out = (x, t', out') ->
  read_step t t' /\ ((forall e, x <> Fail e) -> state t' = state t).
Proof using.
  revert t out. induction fuel as [|fuel IH]; intros t out; cbn [read_ready]; [by intros [= <- <- _]|].
  destruct (take_ready t room out) as [[full t1] out1] eqn:E. apply take_ready_step in E as [H1 Hs1].
  assert (forall t2 out2, read_step t1 t2 /\ state t2 = state t1 ->
    read_ready (transport_read cipher_read) opaque_read dirty fuel t2 room out2 = (x, t', out') ->
    read_step t t' /\ ((forall e, x <> Fail e) -> state t' = state t)) as Hgo.
  { intros t2 out2 [H2 Hs2] [H3 Hs3]%IH. split; [by etrans; [|etrans]|]. intros Hx. rewrite Hs3 by done. congruence. }
  destruct full; [by intros [= <- <- _]|].
  destruct (opaque_read (pending t1)) as [payload k| |].
  - destruct payload as [|z payload]; [by apply Hgo|]. unfold transport_read at 1.
    destruct (cipher_read _ _) as [[q|] r]; [by apply Hgo|].
    intros [= <- <- _]. split; [by etrans; [exact H1|]|]. intros Hx. by destruct (Hx (IoErr InvalidData "Noise failed to read message")).
  - by intros [= <- <- _].
  - intros [= <- <- _]. split; [etrans; [exact H1|]; split; cbn; rewrite ?shutdown_read_writeable; done|].
    intros Hx. by destruct (Hx (IoErr InvalidData "Invalid TLS frame")).
Qed.

Lemma socket_read_script room s r s' : socket_poll_read room s = (r, s') ->
  writes s' = writes s /\ afterwards s' = afterwards s /\ sent s' = sent s
  /\ (steady (reads s) -> steady (reads s') /\ script_ends (reads s') = script_ends (reads s)
      /\ (length (reads s') <= length (reads s))%nat).
Proof using.
  unfold socket_poll_read. destruct (reads s) as [|[[|b0 b]|e|] tl] eqn:E.
  - intros [= <- <-]. by rewrite E.
  - intros [= <- <-]. by rewrite E.
  - set (c := b0 :: b). destruct (Nat.leb_spec (length c) room) as [Hle|Hlt]; intros [= <- <-];
      (split_and!; [done..|]); cbn [reads set_reads]; intros Hs.
    + split_and!; [done| |cbn; lia]. unfold script_ends. by destruct tl.
    + assert (drop room c <> []) as Hne by (intros H%(f_equal length); len).
      split_and!; [by destruct (drop room c)| |done]. unfold script_ends. destruct tl; [|done]. cbn.
      by destruct (drop room c).
  - intros [= <- <-]. split_and!; [done..|]. cbn. intros ->. split_and!; [done..|cbn; lia].
  - intros [= <- <-]. split_and!; [done..|]. cbn. intros Hs. split_and!; [done| |lia].
    unfold script_ends. by destruct tl.
Qed.

Lemma socket_step t room r s : socket_poll_read room (sock t) = (r, s) -> read_step t (set_sock s t).
Proof using. intros (? & ? & ? & ?)%socket_read_script. by split. Qed.

Lemma read_more_step turns t room out r t' out' :
  read_more (transport_read cipher_read) opaque_read MAX_WIRE_SIZE dirty turns t room out = (r, t', out') ->
  read_step t t' /\ ((forall e, r <> Ready (Err e)) -> state t' = state t).
Proof using.
  revert t out. induction turns as [|turns IH]; intros t out; cbn [read_more];
    destruct (read_ready _ _ _ _ t room out) as [[x t1] o] eqn:E; apply read_ready_step in E as [H1 Hs1];
    (destruct x as [| |e|]; [|intros [= <- <- _]; split; [done|intros Hx; try (apply Hs1; done); by destruct (Hx e)]..]);
    (destruct o as [|o0 o]; [|intros [= <- <- _]; split; [done|intros _; by apply Hs1]]);
    (destruct (socket_poll_read _ (sock t1)) as [r0 s] eqn:Er);
    specialize (Hs1 ltac:(done)); pose proof (socket_step _ _ _ _ Er) as H2;
    (assert (read_step t (set_sock s t1)) as H12 by by etrans);
    destruct r0 as [[[|b0 b]|e| |]|]; try (intros [= <- <- _]; by split).
  all: try (destruct (pending (set_sock s t1)); intros [= <- <- _]; split; try done; by intros; cbn).
  all: try (intros [= <- <- _]; split; [|by intros Hx; destruct (Hx e)]; etrans; [exact H12|];
    destruct (kind e); split; cbn; rewrite ?shutdown_read_writeable; done).
  all: assert (forall b, read_step t (set_pending b (set_sock s t1))) as Hp by (intros; destruct H12; by split).
  - intros [= <- <- _]. split; [apply Hp|done].
  - intros [H3 Hs3]%IH. split; [etrans; [apply Hp|exact H3]|]. intros Hx. rewrite Hs3 by done. exact Hs1.
Qed.

(** *** One turn *)

(** The stream is readable and brings [p] after what is decrypted already. *)
Definition holds t (p : list Z) : Prop :=
  readable (state t) = true
  /\ carries cipher_read opaque_read MAX_WIRE_SIZE (receiving (noise t)) (pending t ++ wire (sock t)) p
  /\ steady (reads (sock t)).

Lemma holds_to_come t p : holds t p -> to_come cipher_read opaque_read t = buffered_plaintext t ++ p.
Proof using. intros (Hr & Hc & _). unfold to_come. by rewrite Hr, (plaintext_carries _ _ _ Hc). Qed.

(** A stream whose socket is at its end or silent and has no whole record has nothing. *)
Lemma holds_short t p : wire (sock t) = [] -> opaque_read (pending t) = TooShort ->
  carries cipher_read opaque_read MAX_WIRE_SIZE (receiving (noise t)) (pending t ++ wire (sock t)) p ->
  pending t = [] /\ p = [].
Proof using. intros -> Hs Hc. rewrite app_nil_r in Hc. by eapply carries_short. Qed.

Lemma steady_last l l' x : steady (l ++ x :: l') ->
  match x with ReadError _ => l' = [] /\ script_ends (l ++ x :: l') = false | Chunk [] => l' = [] | _ => True end.
Proof using.
  unfold script_ends. induction l as [|y l IH]; cbn [app steady].
  - destruct x as [[]|e|]; try done. intros ->. done.
  - destruct y as [[|]|e|]; try (intros H; by destruct l). all: intros H; specialize (IH H).
    all: destruct x as [[|]|e|]; try done. all: by destruct l.
Qed.

Lemma wire_at_end s : steady (reads s) -> head (reads s) = Some (Chunk []) ->
  reads s = [Chunk []] /\ wire s = [].
Proof using.
  unfold wire. destruct (reads s) as [|x l]; [done|]. intros Hs [= ->]. cbn in Hs. by subst l.
Qed.

Lemma read_turn t room r t' out p :
  (0 < MAX_WIRE_SIZE)%nat -> (0 < room)%nat -> holds t p ->
  snowy_poll_read cipher_read opaque_read MAX_WIRE_SIZE dirty t room = (r, t', out) ->
  read_step t t' /\ (length out <= room)%nat
  /\ exists p', buffered_plaintext t ++ p = out ++ buffered_plaintext t' ++ p'
    /\ (readable (state t') = true -> holds t' p')
    /\ match r with
       | Ready (Ok _) => holds t' p' /\ (out <> [] \/ out = [] /\ buffered_plaintext t' ++ p' = []
           /\ script_ends (reads (sock t)) = true)
       | Ready (Err _) => out = [] /\ buffered_plaintext t' ++ p' = [] /\ script_ends (reads (sock t)) = false
       | NotReady => holds t' p' /\ out = [] /\ ((length (reads (sock t')) < length (reads (sock t)))%nat
           \/ reads (sock t') = []) /\ (reads (sock t') = [] -> buffered_plaintext t' ++ p' = []
             /\ script_ends (reads (sock t)) = false)
       | _ => False
       end.
Proof using.
  intros Hmax Hroom (Hread & Hc & Hst). unfold snowy_poll_read, poll_read. rewrite Hread. cbn [negb]. intros Hrun.
  destruct (read_more_step _ _ _ _ _ _ _ Hrun) as [Hstep Hstate].
  apply (read_more_delivers _ _ _ _ _ _ _ [] p) in Hrun
    as (p' & Heq & Hc' & Hlen & Hend); [|done|done|rewrite app_nil_r; by apply transport_carries].
  rewrite app_nil_r in Hc'. apply carries_transport in Hc'.
  destruct (step_script _ _ Hstep Hst) as (Hst' & Hends & Hle).
  split; [done|]. split; [done|]. exists p'. split; [done|]. split; [by intros Hr|].
  destruct r as [[[]|e| |]|]; cbn in Hend; try done.
  - assert (holds t' p') as Hh by (split_and!; [by rewrite Hstate|done..]). split; [done|].
    destruct Hend as [|[|(Hh' & Hp & Hb)]]; [by left|lia|].
    destruct (wire_at_end _ Hst' Hh') as [Hrd Hw]. rewrite Hp, Hw in Hc'.
    rewrite (carries_none _ _ Hc') in *.
    destruct out; [|by left]. right. by rewrite Hb, <- Hends, Hrd.
  - destruct Hend as (-> & Hb & Hshort & [(l & Hl)|(Hh' & Hp & _)]).
    + rewrite Hl in Hst. apply steady_last in Hst as [Hnil Hse].
      assert (wire (sock t') = []) as Hw by (unfold wire; by rewrite Hnil).
      destruct (holds_short t' p') as [_ ->]; [done..|]. by rewrite Hb, Hl.
    + destruct (wire_at_end _ Hst' Hh') as [_ Hw]. by destruct (holds_short t' p').
  - destruct Hend as (-> & Hb & Hshort & Hat).
    assert (holds t' p') as Hh by (split_and!; [by rewrite Hstate|done..]). split_and!; [done|done| |].
    + destruct Hat as [(l & Hl)|]; [left|by right]. rewrite Hl. len.
    + intros Hnil. assert (wire (sock t') = []) as Hw by (unfold wire; by rewrite Hnil).
      destruct (holds_short t' p') as [_ ->]; [done..|]. by rewrite Hb, <- Hends, Hnil.
Qed.

(** *** Exact reads *)

(** What reading [n] more bytes of [all] gives, after [got]. *)
Definition read_outcome (n : nat) (got all : list Z) (eof : bool) (r : res io_error (list Z)) t' p' : Prop :=
  if decide (n <= length all)%nat
  then r = Ok (got ++ take n all) /\ holds t' p' /\ buffered_plaintext t' ++ p' = drop n all
  else r <> Panic /\ (forall b, r <> Ok b) /\ (eof = true -> exists m, r = Err (IoErr UnexpectedEof m)).

Lemma read_outcome_cons n got out all eof r t' p' :
  (length out <= n)%nat -> read_outcome (n - length out) (got ++ out) all eof r t' p' ->
  read_outcome n got (out ++ all) eof r t' p'.
Proof using.
  intros Hl. unfold read_outcome. rewrite take_app_ge, drop_app_ge, app_assoc by lia.
  destruct (decide _), (decide _); try done; len.
Qed.

Lemma read_outcome_short n got eof r t' p' : (0 < n)%nat -> r <> Panic -> (forall b, r <> Ok b) ->
  (eof = true -> exists m, r = Err (IoErr UnexpectedEof m)) -> read_outcome n got [] eof r t' p'.
Proof using. intros. unfold read_outcome. by rewrite decide_False by (cbn; lia). Qed.

Lemma await_read_spec fuel n t got r t' p :
  (0 < MAX_WIRE_SIZE)%nat -> holds t p -> (length got <= n)%nat ->
  (n - length got + length (reads (sock t)) <= fuel)%nat ->
  await_read_exact cipher_read opaque_read MAX_WIRE_SIZE dirty fuel n t got = (r, t') ->
  read_step t t' /\ exists p', (readable (state t') = true -> holds t' p')
    /\ read_outcome (n - length got) got (buffered_plaintext t ++ p) (script_ends (reads (sock t))) r t' p'.
Proof using.
  intros Hmax. revert t got p. induction fuel as [|fuel IH]; intros t got p Hh Hn Hf; cbn [await_read_exact];
    (destruct (Nat.eqb_spec (length got) n) as [He|He];
      [intros [= <- <-]; split; [done|]; exists p; split; [done|]; unfold read_outcome;
       rewrite decide_True, He, Nat.sub_diag, take_0, drop_0, app_nil_r by (rewrite ?He; lia); done|]); [lia|].
  destruct (snowy_poll_read _ _ _ _ t _) as [[x t1] out] eqn:E.
  apply (read_turn t _ x t1 out p) in E as (Hstep & Hl & p1 & Heq & Hr1 & Hx); [|done|lia|done].
  destruct (step_script _ _ Hstep (proj2 (proj2 Hh))) as (_ & Hends & Hle).
  assert (forall t2 got2, read_step t t2 -> read_step t2 t' /\ (exists p', (readable (state t') = true -> holds t' p')
    /\ read_outcome (n - length got2) got2 (buffered_plaintext t1 ++ p1) (script_ends (reads (sock t1))) r t' p') ->
    got2 = got ++ out ->
    read_step t t' /\ (exists p', (readable (state t') = true -> holds t' p')
    /\ read_outcome (n - length got) got (buffered_plaintext t ++ p) (script_ends (reads (sock t))) r t' p')) as Hnext.
  { intros t2 got2 H2 [H3 (p' & Hr' & Ho)] ->. split; [by etrans|]. exists p'. split; [done|]. rewrite Heq.
    apply read_outcome_cons; [lia|]. rewrite <- Hends. by rewrite length_app, Nat.sub_add_distr in Ho. }
  destruct x as [[[]|e| |]|]; try done.
  - destruct Hx as [Hh1 Hx]. destruct out as [|o0 out].
    + destruct Hx as [|(_ & Hnil & Heof)]; [done|]. intros [= <- <-]. split; [done|]. exists p1. split; [done|].
      rewrite Heq, Hnil. apply read_outcome_short; [lia|done..|]. by eexists.
    + intros Hrun. apply (IH t1 (got ++ o0 :: out) p1) in Hrun; [|done|len|len].
      by apply (Hnext t1 (got ++ o0 :: out)).
  - destruct Hx as (-> & Hnil & Heof). intros [= <- <-]. split; [done|]. exists p1. split; [done|].
    rewrite Heq, Hnil. apply read_outcome_short; [lia|done..|]. by rewrite Heof.
  - destruct Hx as (Hh1 & -> & Hpr & Hnil). destruct (reads (sock t1)) as [|rd rds] eqn:Hrd.
    + destruct (Hnil eq_refl) as [Hb Heof]. intros [= <- <-]. split; [done|]. exists p1. split; [done|].
      rewrite Heq, Hb. apply read_outcome_short; [lia|done..|]. by rewrite Heof.
    + intros Hrun. destruct Hpr as [Hpr|]; [|done]. apply (IH t1 got p1) in Hrun; [|done|lia|rewrite Hrd; lia].
      apply (Hnext t1 got); [done| |by rewrite app_nil_r]. by rewrite Hrd in Hrun.
Qed.
End reading.

(** ** Proofs: writing *)

Section writing.
Context {N : Type} (cipher_write : N -> list Z -> option (list Z * N)).
Implicit Types (t : stream_t (N:=N)).

Lemma records_transport n p b n' :
  records (transport_write cipher_write) n p b n' -> records cipher_write (sending n) p b (sending n').
Proof using.
  induction 1 as [n|n chunk cipher n1 p b n' Hne Hl Hw _ IH]; [constructor|].
  revert Hw. unfold transport_write. destruct (cipher_write (sending n) chunk) as [[c w]|] eqn:E; [|done].
  intros [= <- <-]. by eapply records_cons.
Qed.

Lemma records_app n p b n1 p2 b2 n2 :
  records cipher_write n p b n1 -> records cipher_write n1 p2 b2 n2 ->
  records cipher_write n (p ++ p2) (b ++ b2) n2.
Proof using.
  induction 1 as [|n chunk cipher n' p b n1 Hne Hl Hw _ IH]; [done|].
  intros H%IH. rewrite <- !app_assoc. by eapply records_cons.
Qed.

(** What a write leaves alone. *)
Record write_step t t' : Prop := {
  kept_reads : reads (sock t') = reads (sock t);
  kept_afterwards : afterwards (sock t') = afterwards (sock t);
  kept_pending : pending t' = pending t;
  kept_buffer : read_buffer t' = read_buffer t;
  kept_offset : read_offset t' = read_offset t;
  kept_receiving : receiving (noise t') = receiving (noise t);
  kept_readable : readable (state t') = readable (state t);
  fewer_writes : (length (writes (sock t')) <= length (writes (sock t)))%nat;
  kept_accepting : accepting t -> accepting t';
}.

#[export] Instance write_step_preorder : PreOrder write_step.
Proof using.
  split; [by intros t|]. intros t1 t2 t3 [] []. split; try congruence; [lia|auto].
Qed.

(** The socket was not ready: that is one of its results, or how it stays. *)
Definition held_up t t' : Prop :=
  (length (writes (sock t')) < length (writes (sock t)))%nat
  \/ writes (sock t') = [] /\ afterwards (sock t') = 0%nat.

Lemma held_up_trans t1 t2 t3 : write_step t1 t2 -> held_up t2 t3 -> held_up t1 t3.
Proof using. intros H [?|?]; [left|by right]. pose proof (fewer_writes _ _ H). lia. Qed.

Lemma set_write_step n b o t : receiving n = receiving (noise t) -> write_step t (set_write n b o t).
Proof using. by split. Qed.

Lemma shutdown_write_readable s : readable (shutdown_write s) = readable s.
Proof using. by destruct s. Qed.

Lemma socket_write_step t b r s :
  b <> [] -> socket_poll_write b (sock t) = (r, s) ->
  write_step t (set_sock s t)
  /\ match r with
     | Ready (Ok n) => accepting t -> n <> 0%nat
     | Ready (Err _) => ~ accepting t
     | NotReady => held_up t (set_sock s t)
     | _ => False
     end.
Proof using.
  intros Hb. assert (0 < length b)%nat as Hl by (destruct b; [done|cbn; lia]).
  unfold socket_poll_write. destruct (writes (sock t)) as [|w ws] eqn:E.
  - destruct (afterwards (sock t)) as [|n] eqn:Ea; intros [= <- <-].
    + split; [|right; cbn; by rewrite E, Ea]. split; cbn; rewrite ?E, ?Ea; done.
    + split; [|intros _; destruct (length b); [lia|done]].
      split; cbn; rewrite ?E; try done. intros (? & _ & _). split_and!; [done|constructor|cbn; lia].
  - assert (forall x, write_step t (set_sock (Socket (reads (sock t)) ws (afterwards (sock t)) x) t)) as Hk.
    { intros x. split; cbn; try done; [rewrite E; cbn; lia|]. intros (? & Hws & ?). rewrite E in Hws.
      apply Forall_cons in Hws as [_ ?]. by split_and!. }
    destruct w as [n|e|]; intros [= <- <-]; (split; [apply Hk|]).
    + intros (_ & Hws & _). rewrite E in Hws. apply Forall_cons in Hws as [Hn _]. cbn in Hn. lia.
    + intros (_ & Hws & _). rewrite E in Hws. by apply Forall_cons in Hws as [? _].
    + left. rewrite E. cbn. lia.
Qed.

Lemma push_step fuel t x t' : push fuel t = (x, t') ->
  write_step t t' /\ (x = PushPending -> held_up t t') /\ (accepting t -> forall e, x <> PushFail e).
Proof using.
  revert t. induction fuel as [|fuel IH]; intros t; cbn [push];
    (destruct (Nat.ltb_spec (write_offset t) (length (write_buffer t))); [|by intros [= <- <-]]);
    [by intros [= <- <-]|].
  destruct (socket_poll_write _ _) as [r s] eqn:E.
  apply socket_write_step in E as [H1 Hr]; [|intros Hd%(f_equal length); len].
  destruct r as [[n|e| |]|]; try done.
  - assert (write_step t (set_write (noise (set_sock s t)) (write_buffer (set_sock s t))
      (write_offset (set_sock s t) + n) (set_sock s t))) as H2 by (etrans; [exact H1|by apply set_write_step]).
    destruct (Nat.eqb_spec n 0) as [->|Hn].
    + intros [= <- <-]. split_and!; [|done|intros Ha; by destruct (Hr Ha)].
      destruct H2. split; cbn in *; try done; [by rewrite shutdown_write_readable|].
      intros Ha. by destruct (Hr Ha).
    + intros (H3 & Hx & Hf)%IH. split_and!; [by etrans|intros ?; eapply held_up_trans; eauto|].
      intros Ha. apply Hf. by apply H2.
  - intros [= <- <-]. by split_and!.
  - intros [= <- <-]. by split_and!.
Qed.

Lemma write_loop_step fuel buf offset t r t' :
  (offset <= length buf)%nat -> (length buf - offset <= fuel)%nat ->
  write_loop (transport_write cipher_write) fuel buf offset t = (r, t') ->
  write_step t t' /\ (r = NotReady -> held_up t t') /\ (accepting t -> forall e, r <> Ready (Err e)).
Proof using.
  revert offset t. induction fuel as [|fuel IH]; intros offset t Ho Hf; cbn [write_loop];
    destruct (push _ t) as [x t1] eqn:E;
    (destruct (push_spec (push_fuel t) t x t1) as (_ & _ & Hns); [unfold push_fuel; lia|done|]);
    apply push_step in E as (H1 & Hp & Ha);
    (destruct x as [|e| |]; [|intros [= <- <-]; (split_and!; [done|done|]); intros Hacc; by destruct (Ha Hacc e)| |done]).
  all: try (destruct (Nat.eqb_spec offset 0); intros [= <- <-]; split_and!; try done; by intros _; apply Hp).
  all: (destruct (Nat.eqb_spec offset (length buf)) as [|Hne];
    [intros [= <- <-]; split_and!; [etrans; [exact H1|by apply set_write_step]|done..]|]).
  1: lia.
  set (n := Nat.min _ _).
  assert (1 <= n)%nat as Hn by (subst n; unfold MAXIMUM_PLAINTEXT_LENGTH, MAXIMUM_CIPHERTEXT_LENGTH, AEAD_TAG_LENGTH; lia).
  unfold transport_write at 1. cbn [noise set_write].
  destruct (cipher_write _ _) as [[c w]|] eqn:Hc.
  - assert (forall b, write_step t (set_write (Transport w (receiving (noise t1))) b 0 (set_write (noise t1) [] 0 t1))) as H2
      by (intros b; destruct H1; by split).
    intros (H3 & Hnr & Hne2)%IH; [|lia..]. split_and!; [etrans; [apply H2|exact H3]| |].
    + intros ->. eapply held_up_trans; [apply H2|by apply Hnr].
    + intros Hacc. apply Hne2. by apply H2.
  - intros [= <- <-]. split_and!; [etrans; [exact H1|by apply set_write_step]|done..].
Qed.

Lemma write_turn t buf r t' :
  buf <> [] -> snowy_poll_write cipher_write t buf = (r, t') ->
  write_step t t'
  /\ exists k bytes, (k <= length buf)%nat
    /\ records cipher_write (sending (noise t)) (take k buf) bytes (sending (noise t'))
    /\ committed t' = committed t ++ bytes
    /\ match r with
       | Ready (Ok m) => m = k /\ (accepting t -> m <> 0%nat)
       | Ready (Err _) => ~ accepting t
       | NotReady => k = 0%nat /\ held_up t t'
       | Ready Panic => exists chunk, cipher_write (sending (noise t')) chunk = None /\ chunk <> []
           /\ (length chunk <= Z.to_nat MAXIMUM_PLAINTEXT_LENGTH)%nat
       | Ready Pending => False
       end.
Proof using.
  intros Hbuf Hrun. pose proof (poll_write_accepts _ _ _ _ _ Hrun) as (k & bytes & Hk & Hrec & Hc & Ha).
  apply records_transport in Hrec. unfold snowy_poll_write, poll_write in Hrun.
  destruct (writeable (state t)) eqn:Hw; cbn [negb] in Hrun.
  - apply write_loop_step in Hrun as (H1 & Hp & Hacc); [|lia..]. split; [done|].
    exists k, bytes. split_and!; [done..|]. destruct r as [[m|e| |]|]; cbn in Ha.
    + destruct Ha as [-> Hm]. split; [done|]. intros _ Hk0. by destruct (Hbuf (Hm Hk0)).
    + intros ?. by destruct (Hacc ltac:(done) e).
    + revert Ha. unfold transport_write. intros (chunk & Hn & ? & ?). exists chunk.
      destruct (cipher_write _ chunk) as [[? ?]|]; [done|by split_and!].
    + done.
    + split; [apply Ha|by apply Hp].
  - injection Hrun as <- <-. split; [done|]. destruct Ha as [_ ->]. exists 0%nat, bytes. split_and!; [done..|].
    intros (Hacc & _). congruence.
Qed.

(** *** Whole writes *)

Lemma await_write_spec fuel buf t r t' :
  (length buf + length (writes (sock t)) <= fuel)%nat ->
  await_write_all cipher_write fuel buf t = (r, t') ->
  write_step t t'
  /\ exists k bytes, (k <= length buf)%nat
    /\ records cipher_write (sending (noise t)) (take k buf) bytes (sending (noise t'))
    /\ committed t' = committed t ++ bytes
    /\ match r with
       | Ok _ => k = length buf
       | Err _ | Pending => ~ accepting t
       | Panic => exists chunk, cipher_write (sending (noise t')) chunk = None /\ chunk <> []
           /\ (length chunk <= Z.to_nat MAXIMUM_PLAINTEXT_LENGTH)%nat
       end.
Proof using.
  revert buf t. induction fuel as [|fuel IH]; intros buf t Hf; cbn [await_write_all];
    (destruct buf as [|b0 buf0] eqn:Hbuf;
      [intros [= <- <-]; split; [done|]; exists 0%nat, []; rewrite app_nil_r; split_and!; try done; constructor|]);
    [cbn in Hf; lia|].
  rewrite <- Hbuf in *. assert (0 < length buf)%nat as Hpos by (rewrite Hbuf; cbn; lia).
  destruct (snowy_poll_write _ t buf) as [x t1] eqn:E.
  apply write_turn in E as (H1 & k & bytes & Hk & Hrec & Hc & Hx); [|by rewrite Hbuf].
  pose proof (fewer_writes _ _ H1) as Hle.
  assert (await_write_all cipher_write fuel (drop k buf) t1 = (r, t') ->
    (length (drop k buf) + length (writes (sock t1)) <= fuel)%nat ->
    write_step t t' /\ (exists j bytes2, (j <= length buf)%nat
      /\ records cipher_write (sending (noise t)) (take j buf) bytes2 (sending (noise t'))
      /\ committed t' = committed t ++ bytes2
      /\ match r with
         | Ok _ => j = length buf
         | Err _ | Pending => ~ accepting t
         | Panic => exists chunk, cipher_write (sending (noise t')) chunk = None /\ chunk <> []
             /\ (length chunk <= Z.to_nat MAXIMUM_PLAINTEXT_LENGTH)%nat
         end)) as Hnext.
  { intros Hrun Hf2. destruct (IH _ _ Hf2 Hrun) as (H2 & j & bytes2 & Hj & Hrec2 & Hc2 & Hr2).
    split; [by etrans|]. exists (k + j)%nat, (bytes ++ bytes2). rewrite length_drop in Hj, Hr2. split_and!.
    - lia.
    - rewrite <- take_take_drop. by eapply records_app.
    - by rewrite Hc2, Hc, app_assoc.
    - destruct r; [lia| |done|]; intros Hacc; apply Hr2; by apply H1. }
  destruct x as [[[|m]|e| |]|]; try done.
  - intros [= <- <-]. split; [done|]. exists k, bytes. split_and!; [done..|]. destruct Hx as [_ Hx].
    intros Hacc. by destruct (Hx Hacc).
  - destruct Hx as [Hm _]. rewrite Hm. intros Hrun. apply Hnext; [done|rewrite length_drop; lia].
  - intros [= <- <-]. split; [done|]. by exists k, bytes.
  - intros [= <- <-]. split; [done|]. by exists k, bytes.
  - destruct Hx as [-> Hh]. rewrite drop_0 in Hnext.
    assert (writes (sock t1) = [] /\ afterwards (sock t1) = 0%nat \/ (length (writes (sock t1)) < length (writes (sock t)))%nat
      ) as [[Hw Ha]|Hlt] by (destruct Hh; auto).
    + rewrite Hw, Ha. intros [= <- <-]. split; [done|]. exists 0%nat, bytes. split_and!; [done..|].
      intros Hacc%(kept_accepting _ _ H1). destruct Hacc as (_ & _ & ?). lia.
    + destruct (writes (sock t1)) as [|w ws] eqn:Hw; [destruct (afterwards (sock t1)) eqn:Ha|].
      * intros [= <- <-]. split; [done|]. exists 0%nat, bytes. split_and!; [done..|].
        intros Hacc%(kept_accepting _ _ H1). destruct Hacc as (_ & _ & ?). lia.
      * intros Hrun. apply Hnext; [done|]. cbn. lia.
      * intros Hrun. apply Hnext; [done|]. lia.
Qed.
End writing.

(** ** The stream interface *)

Section interface.
Context {N : Type} (cipher_read : N -> list Z -> option (list Z) * N)
  (cipher_write : N -> list Z -> option (list Z * N))
  (opaque_read : list Z -> parsed) (MAX_WIRE_SIZE : nat) (sync : N -> N -> Prop).
Implicit Types (t : stream_t (N:=N)).

(** A tunnel in use.  What its socket brings are whole records for it, and what it has committed,
    after the bytes [before] of the handshake, are records for a peer whose receiving cipher was at
    [peer] then. *)
Record sound t (before : list Z) (peer : N) : Prop := {
  sound_script : steady (reads (sock t));
  sound_reads : readable (state t) = true -> exists p, holds cipher_read opaque_read MAX_WIRE_SIZE t p;
  sound_writes : exists w p bytes, sync w peer
    /\ records cipher_write w p bytes (sending (noise t)) /\ committed t = before ++ bytes;
}.

Record tunnel := Tunnel {
  stream : stream_t (N:=N);
  (** the content of new buffers *)
  uninit : list Z;
  before : list Z;
  peer : N;
  tunnel_sound : sound stream before peer;
}.

(** What the peer makes of what was written. *)
Definition delivered_text (s : tunnel) : list Z :=
  plaintext cipher_read opaque_read (peer s) (drop (length (before s)) (committed (stream s))).

Context {Hlaws : SnowyLaws cipher_read cipher_write opaque_read MAX_WIRE_SIZE sync}.
#[local] Set Default Proof Using "Type*".

Lemma max_wire_positive : (0 < MAX_WIRE_SIZE)%nat.
Proof.
  destruct (parses_record (SnowyLaws:=Hlaws) []) as ((? & ?) & _); [|lia].
  unfold MAXIMUM_CIPHERTEXT_LENGTH. cbn. lia.
Qed.

Lemma records_plaintext w p bytes w' r : sync w r -> records cipher_write w p bytes w' ->
  plaintext cipher_read opaque_read r bytes = p.
Proof.
  intros Hs Hr. eapply (plaintext_carries _ _ MAX_WIRE_SIZE). by eapply records_carried.
Qed.

(** *** Reading *)

Lemma snowy_read_exact_spec dirty n t b k r t' :
  sound t b k -> snowy_read_exact cipher_read opaque_read MAX_WIRE_SIZE dirty n t = (r, t') ->
  read_step t t' /\ (readable (state t') = true -> exists p, holds cipher_read opaque_read MAX_WIRE_SIZE t' p)
  /\ if decide (n <= length (to_come cipher_read opaque_read t))%nat
     then r = Ok (take n (to_come cipher_read opaque_read t))
       /\ to_come cipher_read opaque_read t' = drop n (to_come cipher_read opaque_read t)
     else r <> Panic /\ (forall b, r <> Ok b)
       /\ (script_ends (reads (sock t)) = true -> exists m, r = Err (IoErr UnexpectedEof m)).
Proof.
  intros Hs. unfold snowy_read_exact. destruct (readable (state t)) eqn:Hr.
  - destruct (sound_reads _ _ _ Hs Hr) as (p & Hh). intros Hrun.
    eapply await_read_spec in Hrun as (Hstep & p' & Hr' & Ho);
      [|by apply max_wire_positive|exact Hh|cbn; lia|cbn; lia].
    split; [done|]. split; [intros H; by eexists; apply Hr'|].
    rewrite (holds_to_come _ _ _ _ _ Hh). revert Ho. unfold read_outcome. cbn [length]. rewrite Nat.sub_0_r.
    destruct (decide _); [|done]. intros (-> & Hh' & Heq). split; [done|]. by rewrite (holds_to_come _ _ _ _ _ Hh').
  - assert (to_come cipher_read opaque_read t = []) as Hnil by (unfold to_come; by rewrite Hr).
    rewrite Hnil. destruct n as [|n]; cbn [Nat.add await_read_exact].
    + intros Hrun. assert ((r, t') = (Ok [], t)) as [= -> ->]
        by (rewrite <- Hrun; by destruct (length (reads (sock t)))).
      split; [done|]. split; [by rewrite Hr|]. rewrite decide_True by (cbn; lia). by rewrite Hnil.
    + unfold snowy_poll_read, poll_read. rewrite Hr. cbn. intros [= <- <-]. split; [done|].
      split; [by rewrite Hr|]. split_and!; [done..|]. by eexists.
Qed.

Lemma read_step_committed t t' : read_step t t' -> committed t' = committed t.
Proof using. intros []. unfold committed. congruence. Qed.

Lemma sound_read dirty n t b k : sound t b k ->
  sound (snowy_read_exact cipher_read opaque_read MAX_WIRE_SIZE dirty n t).2 b k.
Proof.
  intros Hs. destruct (snowy_read_exact _ _ _ _ n t) as [r t'] eqn:E.
  destruct (snowy_read_exact_spec _ _ _ _ _ _ _ Hs E) as (Hstep & Hr & _).
  destruct Hs as [Hst _ (w & p & bytes & ? & Hrec & Hc)]. split; cbn.
  - by apply (step_script _ _ Hstep).
  - exact Hr.
  - exists w, p, bytes. rewrite (step_sending _ _ Hstep), (read_step_committed _ _ Hstep). done.
Qed.

(** *** Writing *)

Lemma write_step_holds t t' p : write_step t t' ->
  holds cipher_read opaque_read MAX_WIRE_SIZE t p -> holds cipher_read opaque_read MAX_WIRE_SIZE t' p.
Proof using.
  intros [] (Hr & Hc & Hs). split_and!; [congruence| |congruence].
  unfold wire in *. by rewrite kept_receiving0, kept_pending0, kept_reads0.
Qed.

Lemma write_step_to_come t t' : write_step t t' ->
  to_come cipher_read opaque_read t' = to_come cipher_read opaque_read t.
Proof using.
  intros []. unfold to_come, buffered_plaintext, wire.
  by rewrite kept_readable0, kept_buffer0, kept_offset0, kept_receiving0, kept_pending0, kept_reads0.
Qed.

Lemma snowy_write_all_spec buf t b k r t' :
  sound t b k -> snowy_write_all cipher_write buf t = (r, t') ->
  write_step t t' /\ r <> Panic
  /\ (exists w p bytes j more, sync w k /\ records cipher_write w p bytes (sending (noise t))
       /\ committed t = b ++ bytes /\ committed t' = b ++ bytes ++ more
       /\ records cipher_write w (p ++ take j buf) (bytes ++ more) (sending (noise t'))
       /\ (j <= length buf)%nat /\ (r = Ok tt -> j = length buf))
  /\ (accepting t -> r = Ok tt).
Proof.
  intros [_ _ (w & p & bytes & Hs & Hrec & Hc)] Hrun.
  apply await_write_spec in Hrun as (H1 & j & more & Hj & Hmore & Hc' & Hr); [|lia].
  pose proof (records_app _ _ _ _ _ _ _ _ Hrec Hmore) as Hall. split; [done|]. split; [|split].
  - intros ->. destruct Hr as (chunk & Hn & Hne & Hl).
    destruct (records_sync _ _ _ _ _ Hall Hs) as (k' & Hs').
    destruct (seal_open _ _ _ Hs' Hne Hl) as (c & w2 & r2 & Hsome & _). congruence.
  - exists w, p, bytes, j, more. rewrite Hc', Hc, <- app_assoc. split_and!; try done. by intros ->.
  - intros Hacc. destruct r as [[]|e| |]; [done|by destruct (Hr Hacc)| |by destruct (Hr Hacc)].
    destruct Hr as (chunk & Hn & Hne & Hl). destruct (records_sync _ _ _ _ _ Hall Hs) as (k' & Hs').
    destruct (seal_open _ _ _ Hs' Hne Hl) as (c & w2 & r2 & Hsome & _). congruence.
Qed.

Lemma sound_write buf t b k : sound t b k -> sound (snowy_write_all cipher_write buf t).2 b k.
Proof.
  intros Hs. destruct (snowy_write_all _ buf t) as [r t'] eqn:E.
  destruct (snowy_write_all_spec _ _ _ _ _ _ Hs E) as (H1 & _ & (w & p & bytes & j & more & ? & _ & _ & Hc & Hrec & _) & _).
  destruct Hs as [Hst Hr _]. split; cbn.
  - by rewrite (kept_reads _ _ H1).
  - rewrite (kept_readable _ _ H1). intros (q & Hq)%Hr. exists q. by eapply write_step_holds.
  - by exists w, (p ++ take j buf), (bytes ++ more).
Qed.

(** *** The instance *)

#[export] Instance tunnel_io : AsyncIO tunnel := {|
  read_exact n s :=
    let run := snowy_read_exact cipher_read opaque_read MAX_WIRE_SIZE (uninit s) n (stream s) in
    (run.1, Tunnel run.2 (uninit s) (before s) (peer s) (sound_read _ _ _ _ _ (tunnel_sound s)));
  write_all b s :=
    let run := snowy_write_all cipher_write b (stream s) in
    (run.1, Tunnel run.2 (uninit s) (before s) (peer s) (sound_write _ _ _ _ (tunnel_sound s)));
  incoming s := to_come cipher_read opaque_read (stream s);
  ends s := script_ends (reads (sock (stream s)));
  outgoing := delivered_text;
  writable s := accepting (stream s);
|}.

Lemma step_accepting t t' : read_step t t' -> accepting t -> accepting t'.
Proof using. intros [] (? & ? & ?). split_and!; congruence. Qed.

Lemma delivered_records s w p bytes : sync w (peer s) ->
  records cipher_write w p bytes (sending (noise (stream s))) -> committed (stream s) = before s ++ bytes ->
  delivered_text s = p.
Proof.
  intros Hs Hr Hc. unfold delivered_text. rewrite Hc, drop_app_length. by eapply records_plaintext.
Qed.

Lemma tunnel_read n s r s' : read_exact n s = (r, s') ->
  snowy_read_exact cipher_read opaque_read MAX_WIRE_SIZE (uninit s) n (stream s) = (r, stream s')
  /\ before s' = before s /\ peer s' = peer s.
Proof. intros H. injection H as <- <-. cbn. by destruct (snowy_read_exact _ _ _ _ _ _). Qed.

Lemma tunnel_write b s r s' : write_all b s = (r, s') ->
  snowy_write_all cipher_write b (stream s) = (r, stream s') /\ before s' = before s /\ peer s' = peer s.
Proof. intros H. injection H as <- <-. cbn. by destruct (snowy_write_all _ _ _). Qed.

Lemma tunnel_read_spec n s r s' : read_exact n s = (r, s') ->
  read_step (stream s) (stream s') /\ only_read s s'
  /\ if decide (n <= length (incoming s))%nat
     then r = Ok (take n (incoming s)) /\ incoming s' = drop n (incoming s)
     else r <> Panic /\ (forall b, r <> Ok b) /\ (ends s = true -> exists m, r = Err (IoErr UnexpectedEof m)).
Proof.
  intros (E & Hb & Hp)%tunnel_read.
  destruct (snowy_read_exact_spec _ _ _ _ _ _ _ (tunnel_sound s) E) as (Hstep & _ & Ho).
  split; [done|]. split; [|exact Ho]. split_and!.
  - by apply (step_script _ _ Hstep), tunnel_sound.
  - change (delivered_text s' = delivered_text s). unfold delivered_text. by rewrite Hb, Hp, (read_step_committed _ _ Hstep).
  - by apply step_accepting.
Qed.

Lemma tunnel_write_spec b s r s' : write_all b s = (r, s') ->
  r <> Panic /\ incoming s' = incoming s /\ ends s' = ends s /\ (writable s -> r = Ok tt /\ writable s')
  /\ exists j, (j <= length b)%nat /\ outgoing s' = outgoing s ++ take j b /\ (r = Ok tt -> j = length b).
Proof.
  intros (E & Hb & Hp)%tunnel_write.
  destruct (snowy_write_all_spec _ _ _ _ _ _ (tunnel_sound s) E)
    as (H1 & Hnp & (w & p & bytes & j & more & Hs & Hrec & Hc & Hc' & Hrec' & Hjl & Hj) & Hok).
  split_and!; [done|by apply write_step_to_come|cbn; by rewrite (kept_reads _ _ H1)| |].
  - intros Hw. split; [by apply Hok|by apply H1].
  - exists j. split_and!; [done| |done]. change (delivered_text s' = delivered_text s ++ take j b).
    rewrite (delivered_records s w p bytes), (delivered_records s' w (p ++ take j b) (bytes ++ more));
      rewrite ?Hb, ?Hp; done.
Qed.

#[export] Instance tunnel_laws : AsyncIOLaws tunnel.
Proof.
  constructor.
  - intros n s Hn. destruct (read_exact n s) as [r s'] eqn:E.
    apply tunnel_read_spec in E as (_ & (? & ? & ?) & Ho). rewrite decide_True in Ho by done.
    destruct Ho as [-> ?]. by exists s'.
  - intros n s Hn. destruct (read_exact n s) as [r s'] eqn:E.
    apply tunnel_read_spec in E as (_ & (? & ? & ?) & Ho). rewrite decide_False in Ho by lia.
    destruct Ho as (? & ? & ?). by exists r, s'.
  - intros b s Hw. destruct (write_all b s) as [r s'] eqn:E.
    apply tunnel_write_spec in E as (_ & ? & ? & Hok & j & _ & Ho & Hj).
    destruct (Hok Hw) as [-> ?]. rewrite (Hj eq_refl), firstn_all in Ho. by exists s'.
  - intros b s r s' (? & ? & ? & _ & j & Hjl & Ho & Hj)%tunnel_write_spec. split_and!; [done..| |].
    + intros Hr. by rewrite Ho, (Hj Hr), firstn_all.
    + exists (take j b). split; [by apply prefix_take|done].
Qed.

(** *** The two ends *)

(** A write adds records for the data it accepted. *)
Definition sealed (s s' : tunnel) : Prop := exists p bytes,
  records cipher_write (sending (noise (stream s))) p bytes (sending (noise (stream s')))
  /\ committed (stream s') = committed (stream s) ++ bytes /\ outgoing s' = outgoing s ++ p.

#[export] Instance sealed_preorder : PreOrder sealed.
Proof.
  split.
  - intros s. exists [], []. rewrite !app_nil_r. split_and!; [constructor|done..].
  - intros s1 s2 s3 (p & b & Hr & Hc & Ho) (p' & b' & Hr' & Hc' & Ho'). exists (p ++ p'), (b ++ b').
    rewrite Hc', Hc, Ho', Ho, !app_assoc. split_and!; [by eapply records_app|done..].
Qed.

Lemma keeps_sealed b : keeps sealed (write_all b).
Proof.
  intros s. destruct (write_all b s) as [r s'] eqn:E. apply tunnel_write in E as (E & Hb & Hp).
  cbn [snd]. unfold snowy_write_all in E. apply await_write_spec in E as (_ & k & bytes & _ & Hrec & Hc & _); [|lia].
  exists (take k b), bytes. split_and!; [done..|].
  destruct (sound_writes _ _ _ (tunnel_sound s)) as (w & p & b0 & Hs & Hr0 & Hc0).
  change (delivered_text s' = delivered_text s ++ take k b).
  rewrite (delivered_records s w p b0) by done.
  apply (delivered_records s' w (p ++ take k b) (b0 ++ bytes)).
  - by rewrite Hp.
  - by eapply records_app.
  - by rewrite Hb, Hc, Hc0, app_assoc.
Qed.

Lemma carried_to_come t p : readable (state t) = true -> buffered_plaintext t = [] -> pending t = [] ->
  carries cipher_read opaque_read MAX_WIRE_SIZE (receiving (noise t)) (wire (sock t)) p ->
  to_come cipher_read opaque_read t = p.
Proof using.
  intros Hr Hb Hp Hc. unfold to_come. rewrite Hr, Hb, Hp. cbn. by eapply plaintext_carries.
Qed.

(** C17: frames over a tunnel.  Frames written at one end, over a socket that takes bytes as slowly
    as it likes, are read back at the other end as the same frames when the records in which the
    writer put them arrive there, in whatever chunks: framing, sealing and the two poll loops
    compose to the identity, and nothing is left over. *)
Theorem frames_over_tunnel (fs : list Frame) (w r : tunnel) :
  Forall sendable fs -> accepting (stream w) ->
  readable (state (stream r)) = true -> buffered_plaintext (stream r) = [] -> pending (stream r) = [] ->
  sync (sending (noise (stream w))) (receiving (noise (stream r))) ->
  exists w', write_frames fs w = (Ok tt, w')
    /\ (committed (stream w') = committed (stream w) ++ wire (sock (stream r)) ->
        exists r', read_frames (length fs) r = (Ok fs, r') /\ incoming r' = []).
Proof.
  intros Hfs Hw Hread Hb Hp Hs.
  assert (writable w) as Hwr by exact Hw.
  destruct (write_frames_ok fs w Hfs Hwr) as (w' & bs & Hrun & Ho & _ & _ & Hback). exists w'. split; [done|].
  destruct (keeps_run _ _ _ _ _ (keeps_write_frames sealed fs keeps_sealed) Hrun) as (p & bytes & Hrec & Hc & Ho').
  rewrite Ho in Ho'. apply app_inv_head in Ho' as <-. rewrite Hc. intros Hwire%app_inv_head.
  apply Hback. rewrite app_nil_r. apply carried_to_come; [done..|]. rewrite <- Hwire. by eapply records_carried.
Qed.

(** *** Without a flush *)

(** What the peer can read by now. *)
Definition received (s : tunnel) : list Z :=
  plaintext cipher_read opaque_read (peer s) (drop (length (before s)) (sent (sock (stream s)))).

Definition reads_only (s s' : tunnel) : Prop :=
  read_step (stream s) (stream s') /\ before s' = before s /\ peer s' = peer s.

#[export] Instance reads_only_preorder : PreOrder reads_only.
Proof using. split; [done|]. intros s1 s2 s3 (? & ? & ?) (? & ? & ?). split_and!; [by etrans|congruence..]. Qed.

Lemma keeps_reads_only n : keeps reads_only (read_exact n).
Proof.
  intros s. destruct (read_exact n s) as [r s'] eqn:E. apply tunnel_read in E as (E & ? & ?).
  by destruct (snowy_read_exact_spec _ _ _ _ _ _ _ (tunnel_sound s) E).
Qed.

Lemma reads_only_received s s' : reads_only s s' ->
  received s' = received s /\ writes (sock (stream s')) = writes (sock (stream s)).
Proof using. intros (Hr & Hb & Hp). unfold received. rewrite Hb, Hp, (step_sent _ _ Hr). split; [done|apply Hr]. Qed.

(** The socket takes [k] bytes of a record and no more: the write reports all of it as done. *)
Lemma write_stuck t chunk cipher w k tl :
  chunk <> [] -> (length chunk <= Z.to_nat MAXIMUM_PLAINTEXT_LENGTH)%nat ->
  cipher_write (sending (noise t)) chunk = Some (cipher, w) ->
  (0 < k < length (tls_record cipher))%nat ->
  writeable (state t) = true -> drop (write_offset t) (write_buffer t) = [] ->
  writes (sock t) = Accept k :: WritePending :: tl ->
  exists t', snowy_write_all cipher_write chunk t = (Ok tt, t')
    /\ sent (sock t') = sent (sock t) ++ take k (tls_record cipher) /\ writes (sock t') = tl.
Proof using.
  intros Hne Hl Hc Hk Hw Hd Hs. unfold snowy_write_all. remember (tls_record cipher) as rec eqn:Hrec.
  assert (0 < length chunk)%nat as Hpos by (destruct chunk; [done|cbn; lia]).
  assert (length chunk + length (writes (sock t)) = S (length chunk + S (length tl)))%nat as -> by (rewrite Hs; cbn; lia).
  set (fuel := (length chunk + S (length tl))%nat). destruct chunk as [|z chunk']; [done|].
  cbn [await_write_all]. set (chunk := z :: chunk') in *.
  assert (exists t', snowy_poll_write cipher_write t chunk = (Ready (Ok (length chunk)), t')
    /\ sent (sock t') = sent (sock t) ++ take k rec /\ writes (sock t') = tl) as (t' & -> & Ht).
  { unfold snowy_poll_write, poll_write. rewrite Hw. cbn [negb].
    apply (f_equal length) in Hd. rewrite length_drop in Hd. cbn [length] in Hd.
    assert (forall f, push f t = (Pushed, t)) as Hpush
      by (intros f; destruct f; cbn [push]; by rewrite (proj2 (Nat.ltb_ge _ _)) by lia).
    destruct (length chunk) as [|m] eqn:Hm; [lia|]. cbn [write_loop]. rewrite Hpush.
    rewrite (proj2 (Nat.eqb_neq 0 (length chunk))) by lia. rewrite Nat.sub_0_r, drop_0, (Nat.min_l (length chunk)), firstn_all by lia.
    unfold transport_write at 1. cbn [noise set_write]. rewrite Hc, <- Hrec.
    set (t1 := set_write _ rec 0 _).
    assert (exists t', (forall f, (2 <= f)%nat -> push f t1 = (PushPending, t'))
      /\ sent (sock t') = sent (sock t) ++ take k rec /\ writes (sock t') = tl) as (t' & Hp1 & Ht').
    { eexists. split.
      - intros [|[|f]] Hf; [lia..|]. cbn [push]. subst t1.
        cbn [write_offset write_buffer set_write sock]. rewrite (proj2 (Nat.ltb_lt _ _)) by lia.
        unfold socket_poll_write. cbn [sock set_write]. rewrite Hs, drop_0. cbn.
        rewrite Nat.min_l by lia. rewrite (proj2 (Nat.eqb_neq k 0)) by lia. cbn.
        destruct (length rec); [lia|]. by rewrite (proj2 (Nat.leb_le _ _)) by lia.
      - cbn. by rewrite ?drop_0. }
    destruct m as [|m]; cbn [write_loop];
      rewrite (Hp1 (push_fuel t1)) by (unfold push_fuel; subst t1; cbn [sock set_write writes]; rewrite Hs; cbn; lia);
      exists t'; rewrite Hm; cbn; done. }
  rewrite drop_ge by done. exists t'. split; [|done]. by destruct fuel.
Qed.

(** C34: no flush, no frame.  [write_frame] returns as soon as its bytes are in a record of the
    tunnel, and nothing in the session protocol flushes.  When the socket takes only a part of that
    record and is not ready then, the frame counts as written while the peer has nothing of it; and
    however many frames are read afterwards, the rest of the record stays where it is, though the
    socket would take it: only the next write, which may never come, sends it. *)
Theorem unflushed_frame_withheld (f : Frame) (k n : nat) (tl : list write_result) (s : tunnel) :
  sendable f -> (length (Frame.wire f) <= Z.to_nat MAXIMUM_PLAINTEXT_LENGTH)%nat ->
  (0 < k < length (Frame.wire f) + 21)%nat ->
  writeable (state (stream s)) = true -> drop (write_offset (stream s)) (write_buffer (stream s)) = [] ->
  writes (sock (stream s)) = Accept k :: WritePending :: tl ->
  exists s', write_frame f s = (Ok tt, s') /\ outgoing s' = outgoing s ++ Frame.wire f
    /\ received s' = outgoing s
    /\ forall r s'', read_frames n s' = (r, s'') ->
       received s'' = outgoing s /\ writes (sock (stream s'')) = tl.
Proof.
  intros Hf Hl Hk Hw Hd Hs.
  destruct (sound_writes _ _ _ (tunnel_sound s)) as (w & p & bytes & Hsync & Hrec & Hc).
  destruct (records_sync _ _ _ _ _ Hrec Hsync) as (k' & Hs').
  assert (Frame.wire f <> []) as Hne by done.
  destruct (seal_open _ _ _ Hs' Hne Hl) as (cipher & w' & r' & Hsome & _ & _ & Hcl).
  assert (length (tls_record cipher) = length (Frame.wire f) + 21)%nat as Hrl.
  { unfold tls_record. rewrite !length_app, length_to_be_bytes, Hcl. unfold AEAD_TAG_LENGTH. cbn. lia. }
  destruct (write_stuck (stream s) (Frame.wire f) cipher w' k tl) as (t' & Hrun & Hsent & Hwr); [done..|lia|done|done|done|].
  assert (exists s', write_all (Frame.wire f) s = (Ok tt, s')) as (s' & Hall).
  { destruct (write_all (Frame.wire f) s) as [x s'] eqn:E. exists s'. f_equal.
    apply tunnel_write in E as (E & _). rewrite Hrun in E. by injection E. }
  pose proof (tunnel_write _ _ _ _ Hall) as (E & Hb & Hp). rewrite Hrun in E. injection E as Ht'.
  destruct (tunnel_write_spec _ _ _ _ Hall) as (_ & _ & _ & _ & j & _ & Hout & Hj).
  rewrite (Hj eq_refl), firstn_all in Hout.
  assert (outgoing s = p) as Hop by (by eapply delivered_records).
  assert (received s' = p) as Hrecv.
  { unfold received. rewrite Hp, Hb, <- Ht', Hsent.
    assert (sent (sock (stream s)) = before s ++ bytes) as -> by (rewrite <- Hc; unfold committed; by rewrite Hd, app_nil_r).
    rewrite <- app_assoc, drop_app_length.
    eapply (decrypt_carries_short _ _ MAX_WIRE_SIZE); [by eapply records_carried| |lia].
    apply (parses_record (SnowyLaws:=Hlaws)); [|lia]. rewrite Hcl. revert Hl.
    unfold MAXIMUM_PLAINTEXT_LENGTH, MAXIMUM_CIPHERTEXT_LENGTH, AEAD_TAG_LENGTH. lia. }
  exists s'. split_and!; [|done|congruence|].
  - unfold write_frame. rewrite (encode_wire f Hf), bind_lift. unfold prog_map_err. by rewrite Hall.
  - intros r s'' Hread. apply (keeps_run _ _ _ _ _ (keeps_read_frames reads_only n keeps_reads_only)) in Hread.
    apply reads_only_received in Hread as [-> ->]. rewrite <- Ht', Hwr. split; [congruence|done].
Qed.
End interface.

(** ** Witnesses *)

Definition toy_tunnel : Type := tunnel (N:=nat) toy_read toy_write toy_parse (Z.to_nat 18437) eq.

(** A writer whose socket takes three bytes, pauses, and goes on with two bytes at a time. *)
Definition slow_socket (script : list write_result) : socket := Socket [] script 2 [].
Definition writer_stream (script : list write_result) : stream_t (N:=nat) :=
  snowy_new (slow_socket script) (Transport 0%nat 7%nat).

Lemma writer_sound script : sound toy_read toy_write toy_parse (Z.to_nat 18437) eq (writer_stream script) [] 0%nat.
Proof.
  split; [done| |].
  - intros _. exists []. split_and!; [done|by apply carries_nil|done].
  - exists 0%nat, [], []. split_and!; [done|constructor|done].
Qed.
Definition writer (script : list write_result) : toy_tunnel := Tunnel _ _ _ _ _ _ [] _ _ (writer_sound script).

(** A reader to whom the two records arrive in three chunks with a pause. *)
Definition two_records : list Z :=
  tls_record ([6; 0; 4; 0; 0; 0; 42] ++ replicate 15 0 ++ [0])
  ++ tls_record ([3; 0; 2; 1; 2] ++ replicate 15 0 ++ [1]).
Definition reader_stream : stream_t (N:=nat) :=
  snowy_new (Socket [Chunk (take 2 two_records); ReadPending; Chunk (take 30 (drop 2 two_records));
    Chunk (drop 32 two_records); Chunk []] [] 0 []) (Transport 7%nat 0%nat).

Lemma reader_sound : sound toy_read toy_write toy_parse (Z.to_nat 18437) eq reader_stream [] 7%nat.
Proof.
  split; [by vm_compute| |].
  - intros _. exists ([6; 0; 4; 0; 0; 0; 42] ++ [3; 0; 2; 1; 2] ++ []). split_and!; [done| |by vm_compute].
    change (pending reader_stream ++ wire (sock reader_stream)) with (two_records ++ []).
    unfold two_records. rewrite <- app_assoc.
    apply (records_carried (noise_write:=toy_write) (sync:=eq) 0%nat _ _ 2%nat); [|done].
    eapply (records_cons _ _ _ _ 1%nat); [done|by_compute|done|].
    eapply (records_cons _ _ _ _ 2%nat); [done|by_compute|done|constructor].
  - exists 7%nat, [], []. split_and!; [done|constructor|done].
Qed.
Definition reader : toy_tunnel := Tunnel _ _ _ _ _ _ [] _ _ reader_sound.

Lemma frames_over_tunnel_witness : exists w' r',
  write_frames [Ping 42; Data [1; 2]] (writer [Accept 3; WritePending]) = (Ok tt, w')
  /\ read_frames 2 reader = (Ok [Ping 42; Data [1; 2]], r') /\ incoming r' = [].
Proof.
  destruct (frames_over_tunnel _ _ _ _ eq [Ping 42; Data [1; 2]] (writer [Accept 3; WritePending]) reader)
    as (w' & Hw & Hr).
  - by_compute.
  - split_and!; [done|repeat constructor|by_compute].
  - done.
  - done.
  - done.
  - done.
  - destruct Hr as (r' & Hr & Hi).
    + pose proof (f_equal snd Hw) as Hw'. cbn [snd] in Hw'. rewrite <- Hw'. vm_compute. reflexivity.
    + exists w', r'. by split_and!.
Defined.

Lemma unflushed_frame_withheld_witness : exists s',
  write_frame (Pong 7) (writer [Accept 9; WritePending; Accept 100]) = (Ok tt, s')
  /\ received _ _ _ _ _ s' = []
  /\ forall r s'', read_frames 3 s' = (r, s'') -> received _ _ _ _ _ s'' = [].
Proof.
  destruct (unflushed_frame_withheld _ _ _ _ eq (Pong 7) 9 3 [Accept 100] (writer [Accept 9; WritePending; Accept 100]))
    as (s' & Hw & _ & Hr & Hall).
  - by_compute.
  - by_compute.
  - by_compute.
  - done.
  - done.
  - done.
  - exists s'. split_and!; [exact Hw|exact Hr|]. intros r s'' H. exact (proj1 (Hall r s'' H)).
Defined.
