(* ===== verification/Handshake.v ===== *)
(** * Establishing a tunnel (tunnel/src/server.rs, tunnel/src/client.rs)

    [Server::accept] and [Client::connect].  The Noise handshake ([snow]), the TLS library
    ([rustls]) and the replay filter's map ([Lru]) are interfaces; the clock, the random bytes and
    the outcome of the connection to the camouflage server are arguments. *)
From S2P Require Import Prelude.
From stdpp Require Import strings.
From S2P Require Import Stream Totp Tls Lru.
Open Scope Z_scope.

(** ** Third-party interfaces *)

(** [snow]'s [HandshakeState] and [TransportState] for the NNpsk0 pattern, with empty payloads;
    [rng] stands for the ephemeral key's randomness. *)
Class Noise (H N : Type) := {
  build_initiator : forall (psk rng : list Z), H;
  build_responder : forall (psk rng : list Z), H;
  write_message : H -> option (list Z * H);
  read_message : H -> list Z -> option H;
  into_transport_mode : H -> option N;
}.

(** The parsed messages the code looks at ([rustls::Message]). *)
Inductive server_extension := SupportedVersions (v : Z) | OtherExtension.
Record client_hello := ClientHelloPayload { ch_random : list Z; ch_session_id : nat * list Z }.
Inductive tls_message :=
| ClientHelloMsg (chp : client_hello)
| ServerHelloMsg (extensions : list server_extension)
| OtherMsg.

(** [rustls::ClientConnection]. *)
Class RustlsConnection (C : Type) := {
  wants_read : C -> bool;
  wants_write : C -> bool;
  write_tls : C -> list Z * C;
  read_tls : list Z -> C -> res io_error nat * C;
  process_new_packets : C -> option string * C;
}.

(** ** Definitions shared by both ends *)

Definition TLSv1_3 : Z := 772.
Definition PSKLEN : nat := 32.

Definition TOTP_CONTEXT : list Z := byte_string "TOTP for the secure tunnel under snow".
Definition PSK_CONTEXT : list Z := byte_string "the secure tunnel under snow".

Definition derive_psk (blake2s : list Z -> list Z) (key : list Z) : list Z :=
  possibly_insecure_hash_with_key blake2s PSK_CONTEXT key.

(** The first [SupportedVersions] extension. *)
Definition get_server_tls_version (extensions : list server_extension) : option Z :=
  head (omap (fun ext => match ext with SupportedVersions v => Some v | OtherExtension => None end) extensions).

Definition as_client_hello (m : tls_message) : option client_hello :=
  match m with ClientHelloMsg chp => Some chp | _ => None end.
Definition as_server_hello (m : tls_message) : option (list server_extension) :=
  match m with ServerHelloMsg exts => Some exts | _ => None end.

(** A server and a client made from one key. *)
Record Server := { server_key : list Z; server_totp : Totp }.
Definition server_new (blake2s : list Z -> list Z) (key : list Z) : Server :=
  {| server_key := derive_psk blake2s key; server_totp := totp_new blake2s TOTP_CONTEXT key 60 2 |}.
Record Client := { client_key : list Z; client_totp : Totp }.
Definition client_new (blake2s : list Z -> list Z) (key : list Z) : Client :=
  {| client_key := derive_psk blake2s key; client_totp := totp_new blake2s TOTP_CONTEXT key 60 2 |}.

(** [std::sync::Mutex]. *)
Record mutex (F : Type) := Mutex { poisoned : bool; guarded : F }.
Arguments Mutex {_} _ _.
Arguments poisoned {_} _.
Arguments guarded {_} _.

Inductive AcceptError (St T A : Type) :=
| IoError (e : io_error)
| Unauthenticated (buf : list Z) (io : St)
| ReplayDetected (buf : list Z) (io : St) (nonce : list Z) (first_from : A)
| ClientHelloInvalid (buf : list Z) (io : St)
| ServerHelloInvalid (buf : list Z) (inbound : St) (outbound : T).
Arguments IoError {_ _ _} _.
Arguments Unauthenticated {_ _ _} _ _.
Arguments ReplayDetected {_ _ _} _ _ _ _.
Arguments ClientHelloInvalid {_ _ _} _ _.
Arguments ServerHelloInvalid {_ _ _} _ _ _.

Section handshake.
Context (blake2s : list Z -> list Z) (p : profile) (known_type known_version : Z -> bool)
  (stale : nat -> list Z).
(** [parse_tls_plain_message], a call to the parser of [rustls]. *)
Context (parse_message : list Z -> option tls_message).
Context {H N : Type} `{!Noise H N}.

(** A message of the wanted kind from a stream: [read_tls_message(..).await?.ok().and_then(parse)
    .filter(..).and_then(..)]; the state is the stream and the buffer. *)
Definition read_hello {S A} `{!AsyncIO S} (pick : tls_message -> option A)
    : prog (S * list Z) io_error (option A) :=
  read ← read_tls_message known_type known_version stale;
  match read with
  | inl _ => w ← get; mret (parse_message w.2 ≫= pick)
  | inr _ => mret None
  end.

(** ** The server *)

Section server.
Context {St T A F : Type} `{!AsyncIO St, !AsyncIO T, !Lru (list Z) A F}.
Abbreviation Error := (AcceptError St T A).

(** Two copies run together by [join!]: both to their end, then their errors in this order. *)
Definition relay_until_tls12_handshake_finished (w : St * T) : res io_error unit * (St * T) :=
  let '(a, (inbound, outbound)) := copy_until_tls12_handshake_finished w in
  let '(b, (outbound, inbound)) := copy_until_tls12_handshake_finished (outbound, inbound) in
  (match a, b with
   | Panic, _ | _, Panic => Panic
   | Pending, _ | _, Pending => Pending
   | Err e, _ => Err e
   | Ok _, b => b
   end, (inbound, outbound)).

(** The nonce and the signature a hello carries, and the Noise message in it. *)
Definition psk_e_of (chp : client_hello) : list Z :=
  take 32 (ch_random chp) ++ take 16 (ch_session_id chp).2.
Definition timesig_of (chp : client_hello) : list Z := take 16 (drop 16 (ch_session_id chp).2).

(** Authentication: the time signature, then the Noise message. *)
Definition authenticate (self : Server) (now : Z) (rng : list Z) (chp : client_hello)
    : res Error (option H) :=
  let psk_e := psk_e_of chp in
  verified ← verify blake2s p 16 (server_totp self) (take 32 psk_e) (timesig_of chp) now;
  Ok (if negb verified then None else read_message (build_responder (server_key self) rng) psk_e).

(** The answer: a record header, the Noise message and [pad_len] random bytes, from a buffer of
    [5 + 48 + 24]; a longer Noise message does not fit ([expect]). *)
Definition pong_record (noise_message padding : list Z) : res Error (list Z) :=
  let pad_len := length padding in
  let pong := [23; 3; 3; 0; wrap 8 (48 + Z.of_nat pad_len)]
    ++ replicate 48 0 ++ padding ++ replicate (24 - pad_len) 0 in
  pong ← write_slice pong 5 noise_message;
  _ ← (if decide (length noise_message = 48%nat) then Ok tt
       else match p with Debug => Panic | Release => Ok tt end);
  slice pong 0 (5 + 48 + pad_len).

(** [Mutex<LruCache>]: a panic of a task that holds the lock poisons it, and [lock().unwrap()]
    then panics. *)
Definition with_filter {B} (f : F -> res Error B * F) : prog (mutex F) Error B := fun m =>
  if poisoned m then (Panic, m)
  else
    let (r, rf) := f (guarded m) in
    (r, Mutex (match r with Panic => true | _ => false end) rf).

(** The critical section: a nonce seen before is reported, another is entered together with
    [inbound.peer_addr().unwrap()]. *)
Definition filter_nonce (e : list Z) (peer_addr : option A) : F -> res Error (option A) * F := fun rf =>
  match lru_get e rf with
  | (Some client_id, rf) => (Ok (Some client_id), rf)
  | (None, rf) =>
      match peer_addr with
      | Some peer => (Ok None, lru_put e peer rf)
      | None => (Panic, rf)
      end
  end.

(** [accept] from the connection to the camouflage server on.  The result is the tunnel's stream
    and cipher state, and the camouflage connection as it is when it is dropped. *)
Definition answer (connect : res io_error T) (padding buf : list Z) (inbound : St) (responder : H)
    : res Error (St * N * T) :=
  outbound ← map_err IoError connect;
  let (r, outbound) := write_all buf outbound in
  _ ← map_err IoError r;
  let '(hello, (outbound, buf)) := read_hello as_server_hello (outbound, buf) in
  hello ← map_err IoError hello;
  match hello with
  | None => Err (ServerHelloInvalid buf inbound outbound)
  | Some shp =>
      let (r, inbound) := write_all buf inbound in
      _ ← map_err IoError r;
      let '(r, (inbound, outbound)) :=
        if decide (get_server_tls_version shp = Some TLSv1_3) then (Ok tt, (inbound, outbound))
        else relay_until_tls12_handshake_finished (inbound, outbound) in
      _ ← map_err IoError r;
      match write_message responder with
      | None => Panic
      | Some (message, responder) =>
          pong ← pong_record message padding;
          let (r, inbound) := write_all pong inbound in
          _ ← map_err IoError r;
          match into_transport_mode responder with
          | None => Panic
          | Some noise => Ok (inbound, noise, outbound)
          end
      end
  end.

(** The state is the replay filter. *)
Definition accept (self : Server) (now : Z) (rng padding : list Z) (peer_addr : option A)
    (connect : res io_error T) (inbound : St) : prog (mutex F) Error (St * N * T) :=
  let '(hello, (inbound, buf)) := read_hello as_client_hello (inbound, []) in
  hello ← lift_res (map_err IoError hello);
  match hello with
  | None => fail (ClientHelloInvalid buf inbound)
  | Some chp =>
      let e := take 32 (psk_e_of chp) in
      responder ← lift_res (authenticate self now rng chp);
      match responder with
      | None => fail (Unauthenticated buf inbound)
      | Some responder =>
          found ← with_filter (filter_nonce e peer_addr);
          match found with
          | Some client_id => fail (ReplayDetected buf inbound e client_id)
          | None => lift_res (answer connect padding buf inbound responder)
          end
      end
  end.
End server.

(** ** The client *)

Section client.
Context {St C : Type} `{!AsyncIO St, !RustlsConnection C}.
(** [ClientConnection::new_with]: the hello carries the given random and session id. *)
Context (new_with : forall random session_id : list Z, C).

(** [writen::<48>] and its [expect]. *)
Definition writen {S E} (n : nat) (h : H) : prog S E (list Z * H) :=
  match write_message h with
  | Some (b, h) => if decide (length b = n) then mret (b, h) else panic
  | None => panic
  end.

(** A record for [rustls], which may take it in several steps, none of them failing ([unwrap]) or
    empty ([assert!]). *)
Fixpoint feed (fuel : nat) (b : list Z) (conn : C) : res io_error C :=
  match b with
  | [] => Ok conn
  | _ =>
      match fuel with
      | O => Panic
      | S fuel =>
          match read_tls b conn with
          | (Ok n, conn) => if (n =? 0)%nat then Panic else feed fuel (drop n b) conn
          | _ => Panic
          end
      end
  end.

Definition on_tls_stream {A} (m : prog St io_error A) : prog (C * St) io_error A :=
  zoom snd (fun s w => (w.1, s)) m.

(** One turn of [tls12_handshake]; [None]: the handshake is over. *)
Definition tls12_turn (stop_after_server_ccs seen_ccs : bool) : prog (C * St) io_error (option bool) :=
  w ← get;
  if wants_write w.1 then
    let (b, conn) := write_tls w.1 in
    _ ← modify (fun w => (conn, w.2));
    _ ← on_tls_stream (write_all b);
    mret (Some seen_ccs)
  else if wants_read w.1 then
    header ← on_tls_stream (read_exact 5);
    l ← lift_res (slice header 3 5);
    len ← lift_res (u16_from_be_slice l);
    if MAXIMUM_CIPHERTEXT_LENGTH <? len then panic else
    payload ← on_tls_stream (read_exact (Z.to_nat len));
    w ← get;
    conn ← lift_res (feed (5 + Z.to_nat len) (header ++ payload) w.1);
    let (error, conn) := process_new_packets conn in
    _ ← modify (fun w => (conn, w.2));
    match error with
    | Some e => fail (IoErr InvalidData ("TLS handshake state: " +:+ e))
    | None =>
        typ ← lift_res (index header 0);
        if typ =? CHANGE_CIPHER_SPEC then
          mret (if stop_after_server_ccs then None else Some true)
        else
          _ ← lift_res (if typ =? HANDSHAKE then Ok tt
                        else match p with Debug => Panic | Release => Ok tt end);
          mret (if seen_ccs then None else Some seen_ccs)
    end
  else mret None.

Fixpoint tls12_handshake (fuel : nat) (stop_after_server_ccs seen_ccs : bool)
    : prog (C * St) io_error unit :=
  match fuel with
  | O => pending
  | S fuel =>
      next ← tls12_turn stop_after_server_ccs seen_ccs;
      match next with
      | None => mret tt
      | Some seen_ccs => tls12_handshake fuel stop_after_server_ccs seen_ccs
      end
  end.

(** After the server's hello [buf]: nothing more with TLS 1.3, the whole handshake otherwise. *)
Definition finish_tls (shp : list server_extension) (buf : list Z) (tlsconn : C) (fuel : nat)
    : prog St io_error unit :=
  if decide (get_server_tls_version shp = Some TLSv1_3) then mret tt
  else fun s =>
    match read_tls buf tlsconn with
    | (Ok _, tlsconn) => let '(r, (_, s)) := tls12_handshake fuel false false (tlsconn, s) in (r, s)
    | (Err e, _) => (Err e, s)
    | (Panic, _) => (Panic, s)
    | (Pending, _) => (Pending, s)
    end.

(** [connect]; [fuel] bounds the turns of the TLS 1.2 handshake. *)
Definition connect (self : Client) (now : Z) (rng : list Z) (fuel : nat) : prog St io_error N :=
  let initiator := build_initiator (client_key self) rng in
  ping ← writen 48 initiator;
  let (psk_e, initiator) := (ping : list Z * H) in
  let random := take 32 psk_e in
  timesig ← lift_res (sign blake2s 16 (client_totp self) now random);
  let session_id := take 16 (drop 32 psk_e) ++ timesig in
  let (buf, tlsconn) := write_tls (new_with random session_id) in
  _ ← lift_res (if negb (wants_write tlsconn) && wants_read tlsconn then Ok tt
                else match p with Debug => Panic | Release => Ok tt end);
  _ ← write_all buf;
  hello ← (fun s => let '(r, (s, buf)) := read_hello as_server_hello (s, buf) in
                    (match r with Ok o => Ok (o, buf) | Err e => Err e | Panic => Panic
                     | Pending => Pending end, s));
  let (hello, buf) := (hello : option (list server_extension) * list Z) in
  match hello with
  | None => fail (IoErr InvalidData "Not or invalid Server Hello")
  | Some shp =>
      _ ← finish_tls shp buf tlsconn fuel;
      pong ← (fun s => let '(r, (s, pong)) := read_tls_message known_type known_version stale (s, []) in
                       (match r with Ok o => Ok (o, pong) | Err e => Err e | Panic => Panic
                        | Pending => Pending end, s));
      let (read, pong) := (pong : (unit + MessageError) * list Z) in
      match read with
      | inr _ => fail (IoErr InvalidData "First data frame not noise")
      | inl _ =>
          if (length pong <? 5 + 48)%nat then
            fail (IoErr InvalidData "Noise handshake failed due to message length shorter than expected")
          else
            match read_message initiator (take 48 (drop 5 pong)) with
            | None => fail (IoErr InvalidData "")
            | Some initiator =>
                match into_transport_mode initiator with
                | None => panic
                | Some noise => mret noise
                end
            end
      end
  end.
End client.
End handshake.

(** ** Specification *)

Section server_proofs.
Context (blake2s : list Z -> list Z) (p : profile) (known_type known_version : Z -> bool)
  (stale : nat -> list Z) (parse_message : list Z -> option tls_message).
Context {H N : Type} `{!Noise H N}.
Context {St T A F : Type} `{!AsyncIO St, !AsyncIOLaws St, !AsyncIO T, !AsyncIOLaws T,
  !Lru (list Z) A F, !LruLaws (list Z) A F}.
#[local] Set Default Proof Using "Type*".
Abbreviation Error := (AcceptError St T A).
Abbreviation accept := (accept blake2s p known_type known_version stale parse_message (St:=St) (T:=T)).
Abbreviation answer := (answer p known_type known_version stale parse_message (St:=St) (T:=T) (A:=A)).
Abbreviation authenticate := (authenticate blake2s p (St:=St) (T:=T) (A:=A)).
Abbreviation record_ok := (tls_record_ok known_type known_version).

(** A hello that arrives whole: the record [b], then [rest]. *)
Definition hello_arrives (s : St) (b rest : list Z) (chp : client_hello) : Prop :=
  incoming s = b ++ rest /\ record_ok b /\ (parse_message b ≫= as_client_hello) = Some chp.

Lemma read_hello_record {S B} `{!AsyncIO S, !AsyncIOLaws S} (pick : tls_message -> option B)
    (s : S) buf b rest :
  record_ok b -> incoming s = b ++ rest ->
  exists s', read_hello known_type known_version stale parse_message pick (s, buf)
      = (Ok (parse_message b ≫= pick), (s', b))
    /\ incoming s' = rest /\ only_read s s'.
Proof.
  intros Hb Hi. destruct (read_tls_record known_type known_version stale s buf b rest Hb Hi)
    as (s' & Hr & ?). exists s'. split; [|done]. unfold read_hello. by run Hr.
Qed.

(** [accept] on a hello that arrives whole. *)
Lemma accept_hello self now rng padding peer_addr connect s b rest chp (m : mutex F) :
  hello_arrives s b rest chp ->
  exists s', incoming s' = rest /\ only_read s s'
    /\ accept self now rng padding peer_addr connect s m =
      (responder ← lift_res (authenticate self now rng chp);
       match responder with
       | None => fail (Unauthenticated b s')
       | Some responder =>
           found ← with_filter (filter_nonce (take 32 (psk_e_of chp)) peer_addr);
           match found with
           | Some client_id => fail (ReplayDetected b s' (take 32 (psk_e_of chp)) client_id)
           | None => lift_res (answer connect padding b s' responder)
           end
       end) m.
Proof.
  intros (Hi & Hb & Hp). destruct (read_hello_record as_client_hello s [] b rest Hb Hi) as (s' & Hr & ? & ?).
  exists s'. split; [done|]. split; [done|]. unfold Handshake.accept. rewrite Hr, Hp. done.
Qed.

(** *** The replay filter *)

Lemma accept_filter self now rng padding peer_addr connect s (m : mutex F) :
  (accept self now rng padding peer_addr connect s m).2 = m
  \/ exists e, (accept self now rng padding peer_addr connect s m).2
               = (with_filter (St:=St) (T:=T) (filter_nonce e peer_addr) m).2.
Proof.
  unfold Handshake.accept. destruct (read_hello _ _ _ _ _ _) as [[[chp|]|e| |] [s' b]]; [|left; reflexivity..].
  unfold mbind, prog_bind, lift_res. cbn [map_err].
  destruct (authenticate self now rng chp) as [[h|]|e| |]; [|left; reflexivity..].
  right. exists (take 32 (psk_e_of chp)).
  by destruct (with_filter _ m) as [[[?|]|?| |] ?].
Qed.

Lemma filter_nonce_remembers e v i k peer_addr (m : mutex F) :
  remembered e v i (entries (guarded m)) -> (S i < capacity (guarded m))%nat ->
  let m' := (with_filter (St:=St) (T:=T) (filter_nonce k peer_addr) m).2 in
  remembered e v (S i) (entries (guarded m')) /\ capacity (guarded m') = capacity (guarded m).
Proof.
  intros Hr Hi. unfold with_filter. destruct (poisoned m); cbn [snd].
  { split; [|done]. by apply (remembered_weaken e v i); [lia|]. }
  unfold filter_nonce. destruct (assoc k (entries (guarded m))) as [w|] eqn:Ek.
  - destruct (lru_get_hit k w (guarded m) Ek) as (f' & -> & Hc & He). cbn [snd guarded].
    split; [|done]. rewrite He. destruct (decide (k = e)) as [->|Hk]; [|by apply remembered_behind].
    rewrite (remembered_assoc _ _ _ _ Hr) in Ek. simplify_eq.
    apply (remembered_weaken e w 0); [lia|apply remembered_first].
  - destruct (lru_get_miss k (guarded m) Ek) as (f' & -> & Hc & He).
    destruct peer_addr as [peer|]; cbn [snd guarded]; [|by rewrite He; split; [apply (remembered_weaken e v i); [lia|]|]].
    destruct (lru_put_spec k peer f') as [Hp Hcap]. rewrite Hp, Hcap, Hc, He. split; [|done].
    apply remembered_take; [|done]. apply remembered_behind; [done|].
    intros ->. by rewrite (remembered_assoc _ _ _ _ Hr) in Ek.
Qed.

(** *** Sequences of connections *)

(** What one call to [accept] is given. *)
Record connection := Conn {
  c_now : Z;
  c_rng : list Z;
  c_padding : list Z;
  c_peer : option A;
  c_connect : res io_error T;
  c_inbound : St;
}.

(** The replay filter after a sequence of calls, whatever they return. *)
Definition after_all (self : Server) (cs : list connection) (m : mutex F) : mutex F :=
  foldl (fun m c => (accept self (c_now c) (c_rng c) (c_padding c) (c_peer c) (c_connect c) (c_inbound c) m).2)
    m cs.

Lemma after_all_remembers self cs e v i (m : mutex F) :
  remembered e v i (entries (guarded m)) -> (i + length cs < capacity (guarded m))%nat ->
  remembered e v (i + length cs) (entries (guarded (after_all self cs m)))
  /\ capacity (guarded (after_all self cs m)) = capacity (guarded m).
Proof.
  revert i m. induction cs as [|c cs IH]; intros i m Hr Hi; cbn [after_all foldl length] in *.
  { by rewrite Nat.add_0_r. }
  match goal with |- context [foldl _ ?m1 cs] => set (m' := m1) end.
  assert (remembered e v (S i) (entries (guarded m')) /\ capacity (guarded m') = capacity (guarded m))
    as [Hr' Hc].
  { destruct (accept_filter self (c_now c) (c_rng c) (c_padding c) (c_peer c) (c_connect c) (c_inbound c) m)
      as [Heq|[k Heq]]; unfold m'; rewrite Heq.
    - split; [|done]. apply (remembered_weaken e v i); [lia|done].
    - apply filter_nonce_remembers; [done|lia]. }
  destruct (IH (S i) m') as [Hr2 Hc2]; [done|lia|].
  rewrite <- Nat.add_succ_comm. split; [exact Hr2|]. by rewrite <- Hc.
Qed.

Lemma after_all_poisoned self cs (m : mutex F) :
  poisoned m = true -> poisoned (after_all self cs m) = true.
Proof.
  revert m. induction cs as [|c cs IH]; intros m Hm; [done|]. apply IH.
  destruct (accept_filter self (c_now c) (c_rng c) (c_padding c) (c_peer c) (c_connect c) (c_inbound c) m)
    as [->|[k ->]]; [done|]. unfold with_filter. by rewrite Hm.
Qed.

(** [accept] on an authentic hello. *)
Lemma accept_authentic self now rng padding peer_addr connect s b rest chp h (m : mutex F) :
  hello_arrives s b rest chp -> authenticate self now rng chp = Ok (Some h) ->
  exists s', b ++ incoming s' = incoming s /\ only_read s s'
    /\ accept self now rng padding peer_addr connect s m =
      (found ← with_filter (filter_nonce (take 32 (psk_e_of chp)) peer_addr);
       match found with
       | Some client_id => fail (ReplayDetected b s' (take 32 (psk_e_of chp)) client_id)
       | None => lift_res (answer connect padding b s' h)
       end) m.
Proof.
  intros Harr Hauth.
  destruct (accept_hello self now rng padding peer_addr connect s b rest chp m Harr) as (s' & Hi & Ho & ->).
  exists s'. destruct Harr as (-> & _ & _). rewrite Hi. split; [done|]. split; [done|]. by rewrite Hauth.
Qed.

Lemma filter_nonce_fresh e peer (m : mutex F) :
  poisoned m = false -> assoc e (entries (guarded m)) = None -> (0 < capacity (guarded m))%nat ->
  exists f, with_filter (St:=St) (T:=T) (filter_nonce e (Some peer)) m = (Ok None, Mutex false f)
    /\ remembered e peer 0 (entries f) /\ capacity f = capacity (guarded m).
Proof.
  intros Hp Hm Hc. unfold with_filter, filter_nonce. rewrite Hp.
  destruct (lru_get_miss e (guarded m) Hm) as (f & -> & Hcap & He).
  destruct (lru_put_spec e peer f) as [Hput Hcap2]. eexists. split; [done|]. rewrite Hput, Hcap2, Hcap.
  split; [|done]. destruct (capacity (guarded m)); [lia|]. apply remembered_first.
Qed.

(** C4: a hello is accepted once.  After a fresh authentic hello, whatever became of its connection
    and of fewer others than the filter has room for, a hello with the same nonce, authentic again,
    is reported as a replay of the first peer; nothing is sent to its sender, and its bytes are all
    there for the fallback relay.  (If a task has panicked with the lock held, the call panics.) *)
Theorem replay_refused self now rng padding peer connect s b rest chp h (m : mutex F)
    others now2 rng2 padding2 peer2 connect2 s2 b2 rest2 chp2 h2 :
  hello_arrives s b rest chp -> authenticate self now rng chp = Ok (Some h) ->
  poisoned m = false -> assoc (take 32 (psk_e_of chp)) (entries (guarded m)) = None ->
  (length others < capacity (guarded m))%nat ->
  hello_arrives s2 b2 rest2 chp2 -> authenticate self now2 rng2 chp2 = Ok (Some h2) ->
  take 32 (psk_e_of chp2) = take 32 (psk_e_of chp) ->
  let m2 := after_all self others (accept self now rng padding (Some peer) connect s m).2 in
  let r := (accept self now2 rng2 padding2 peer2 connect2 s2 m2).1 in
  if poisoned m2 then r = Panic
  else exists s2', r = Err (ReplayDetected b2 s2' (take 32 (psk_e_of chp)) peer)
    /\ b2 ++ incoming s2' = incoming s2 /\ outgoing s2' = outgoing s2.
Proof.
  intros Harr Hauth Hp Hfresh Hcap Harr2 Hauth2 He m2 r.
  destruct (accept_authentic self now rng padding (Some peer) connect s b rest chp h m Harr Hauth)
    as (s1 & _ & _ & Hacc).
  destruct (filter_nonce_fresh (take 32 (psk_e_of chp)) peer m Hp Hfresh) as (f & Hwf & Hrem & Hcapf); [lia|].
  destruct (after_all_remembers self others (take 32 (psk_e_of chp)) peer 0 (Mutex false f))
    as [Hrem2 _]; [done|cbn [guarded]; lia|].
  assert (m2 = after_all self others (Mutex false f)) as Hm2 by (unfold m2; rewrite Hacc; by run Hwf).
  clearbody m2. rewrite <- Hm2 in Hrem2. subst r.
  destruct (accept_authentic self now2 rng2 padding2 peer2 connect2 s2 b2 rest2 chp2 h2 m2 Harr2 Hauth2)
    as (s2' & Hi & (_ & Ho & _) & ->).
  rewrite He. unfold mbind, prog_bind, with_filter. destruct (poisoned m2); [done|].
  unfold filter_nonce. destruct (lru_get_hit _ _ _ (remembered_assoc _ _ _ _ Hrem2)) as (f' & -> & _).
  by exists s2'.
Qed.

(** One reset connection can stop the server.  The peer's address is asked for while the filter
    is locked; if the peer is gone by then the [unwrap] panics, the lock is poisoned, and whatever
    happens next every authentic hello, from any client, panics too. *)
Theorem reset_poisons_server self now rng padding connect s b rest chp h (m : mutex F)
    others now2 rng2 padding2 peer2 connect2 s2 b2 rest2 chp2 h2 :
  hello_arrives s b rest chp -> authenticate self now rng chp = Ok (Some h) ->
  poisoned m = false -> assoc (take 32 (psk_e_of chp)) (entries (guarded m)) = None ->
  hello_arrives s2 b2 rest2 chp2 -> authenticate self now2 rng2 chp2 = Ok (Some h2) ->
  (accept self now rng padding None connect s m).1 = Panic
  /\ (accept self now2 rng2 padding2 peer2 connect2 s2
        (after_all self others (accept self now rng padding None connect s m).2)).1 = Panic.
Proof.
  intros Harr Hauth Hp Hfresh Harr2 Hauth2.
  destruct (accept_authentic self now rng padding None connect s b rest chp h m Harr Hauth)
    as (s1 & _ & _ & Hacc).
  assert (exists f, with_filter (St:=St) (T:=T) (filter_nonce (take 32 (psk_e_of chp)) None) m
    = (Panic, Mutex true f)) as [f Hwf].
  { unfold with_filter, filter_nonce. rewrite Hp.
    destruct (lru_get_miss _ _ Hfresh) as (f & -> & _). eauto. }
  assert (accept self now rng padding None connect s m = (Panic, Mutex true f)) as ->
    by (rewrite Hacc; by run Hwf).
  split; [done|]. cbn [snd].
  pose proof (after_all_poisoned self others (Mutex true f) eq_refl) as Hpois.
  destruct (accept_authentic self now2 rng2 padding2 peer2 connect2 s2 b2 rest2 chp2 h2
    (after_all self others (Mutex true f)) Harr2 Hauth2) as (s2' & _ & _ & ->).
  unfold mbind, prog_bind, with_filter. by rewrite Hpois.
Qed.

(** *** Authentication *)

(** A clock away from both ends of [u64]. *)
Definition timely (now : Z) : Prop := 120 <= now /\ now + 240 <= 2 ^ 64.

(** The time signature is one of the window's. *)
Definition in_window (t : Totp) (now : Z) (chp : client_hello) : Prop :=
  exists k, Z.abs (k - now / 60) <= 2 /\ signature_at blake2s 16 t (take 32 (psk_e_of chp)) k = timesig_of chp.

Lemma authenticate_spec (digest_length : forall m, length (blake2s m) = 32%nat) key now rng chp :
  timely now ->
  let self := server_new blake2s key in
  exists verified, authenticate self now rng chp
      = Ok (if verified : bool then read_message (build_responder (server_key self) rng) (psk_e_of chp) else None)
    /\ (verified = true <-> in_window (server_totp self) now chp).
Proof.
  intros [Hlow Hhigh] self. unfold in_window.
  assert (2 <= now / 60) by (apply Z.div_le_lower_bound; lia).
  pose proof (Z.mul_div_le now 60). pose proof (Z.div_pos now 60).
  destruct (verify_spec blake2s p digest_length (E:=Error) 16 (server_totp self)
    (take 32 (psk_e_of chp)) (timesig_of chp) now) as (ok & Hok & Hiff); try (cbn; unfold in_u; lia).
  { split; [cbn; lia|]. cbn. unfold in_u. lia. }
  exists ok. split; [|exact Hiff]. unfold Handshake.authenticate. rewrite Hok. by destruct ok.
Qed.

(** C2: probes get no answer.  A hello that does not authenticate (no time signature of the five
    steps around now, or a Noise message that does not decrypt), and any record that is not a
    ClientHello, is turned away with nothing sent, the replay filter as it was, and a buffer that
    with what is still unread makes up the stream; only a header that is no TLS record loses its
    five bytes. *)
Theorem probes_unanswered (digest_length : forall m, length (blake2s m) = 32%nat)
    key now rng padding peer_addr connect s (m : mutex F) :
  timely now ->
  let self := server_new blake2s key in
  (forall b rest chp, hello_arrives s b rest chp ->
     ~ in_window (server_totp self) now chp
     \/ read_message (build_responder (server_key self) rng) (psk_e_of chp) = None ->
     exists s', accept self now rng padding peer_addr connect s m = (Err (Unauthenticated b s'), m)
       /\ b ++ incoming s' = incoming s /\ outgoing s' = outgoing s)
  /\ (forall b rest, incoming s = b ++ rest -> record_ok b -> (parse_message b ≫= as_client_hello) = None ->
     exists s', accept self now rng padding peer_addr connect s m = (Err (ClientHelloInvalid b s'), m)
       /\ b ++ incoming s' = incoming s /\ outgoing s' = outgoing s)
  /\ (forall t v1 v0 l1 l0 rest, is_bytes [t; v1; v0; l1; l0] -> incoming s = [t; v1; v0; l1; l0] ++ rest ->
     ~ acceptable known_type known_version t v1 v0 l1 l0 ->
     exists s', accept self now rng padding peer_addr connect s m = (Err (ClientHelloInvalid [] s'), m)
       /\ incoming s' = rest /\ outgoing s' = outgoing s).
Proof.
  intros Htime self. subst self. split; [|split].
  - intros b rest chp Harr Hbad.
    destruct (accept_hello (server_new blake2s key) now rng padding peer_addr connect s b rest chp m Harr)
      as (s' & Hi & (_ & Ho & _) & ->).
    destruct (authenticate_spec digest_length key now rng chp Htime) as (ok & -> & Hiff).
    exists s'. destruct Harr as (-> & _ & _). rewrite Hi. split; [|done].
    destruct ok; [|done]. destruct Hbad as [Hbad|Hbad]; [by destruct Hbad; apply Hiff|].
    by rewrite Hbad.
  - intros b rest Hi Hb Hparse.
    destruct (read_hello_record as_client_hello s [] b rest Hb Hi) as (s' & Hr & Hi' & (_ & Ho & _)).
    exists s'. rewrite Hi', Hi. split; [|done]. unfold Handshake.accept. by rewrite Hr, Hparse.
  - intros t v1 v0 l1 l0 rest Hb Hi Hrej.
    destruct (read_tls_rejected known_type known_version stale s [] t v1 v0 l1 l0 rest Hb Hi Hrej)
      as (e & s' & Hr & Hi' & (_ & Ho & _)).
    exists s'. split; [|done]. unfold Handshake.accept, read_hello. by rewrite (bind_ok _ _ _ _ _ Hr).
Qed.

(** *** The answer *)

(** The server's Noise message in a record of random length. *)
Definition pong_bytes (noise_message padding : list Z) : list Z :=
  [23; 3; 3; 0; 48 + Z.of_nat (length padding)] ++ noise_message ++ padding.

Lemma pong_record_ok (noise_message padding : list Z) :
  length noise_message = 48%nat -> (length padding <= 24)%nat ->
  pong_record p (St:=St) (T:=T) (A:=A) noise_message padding = Ok (pong_bytes noise_message padding).
Proof.
  intros Hm Hpad. unfold pong_record, pong_bytes.
  rewrite wrap_small by (unfold in_u; lia).
  rewrite (write_slice_app _ (replicate 48 0)) by (rewrite ?length_replicate; done). cbn [mbind res_bind].
  rewrite decide_True by done. cbn [mbind res_bind].
  rewrite slice_ok by len. rewrite drop_0, Nat.sub_0_r.
  rewrite !app_assoc, take_app_length'; [by rewrite <- !app_assoc|]. len.
Qed.

(** The rest of the TLS handshake: nothing with TLS 1.3; otherwise each side's records up to the
    one that ends it. *)
Definition flights (exts : list server_extension) (cs ss : list record) : Prop :=
  if decide (get_server_tls_version exts = Some TLSv1_3) then cs = [] /\ ss = []
  else Forall wf_record cs /\ Forall wf_record ss
    /\ scan false cs = (length cs, Finished) /\ scan false ss = (length ss, Finished).

Lemma relay_flights cs ss rest rest2 (inbound : St) (outbound : T) :
  Forall wf_record cs -> Forall wf_record ss ->
  scan false cs = (length cs, Finished) -> scan false ss = (length ss, Finished) ->
  writable inbound -> writable outbound ->
  incoming inbound = concat (record_bytes <$> cs) ++ rest ->
  incoming outbound = concat (record_bytes <$> ss) ++ rest2 ->
  exists inbound' outbound',
    relay_until_tls12_handshake_finished (inbound, outbound) = (Ok tt, (inbound', outbound'))
    /\ incoming inbound' = rest /\ incoming outbound' = rest2 /\ writable inbound' /\ writable outbound'
    /\ outgoing inbound' = outgoing inbound ++ concat (record_bytes <$> ss)
    /\ outgoing outbound' = outgoing outbound ++ concat (record_bytes <$> cs).
Proof.
  intros Hwc Hws Hsc Hss Hw1 Hw2 Hi1 Hi2.
  destruct (copy_finished cs rest (length cs) inbound outbound Hwc Hw2 Hi1 Hsc)
    as (in1 & out1 & (Ho1 & Hwo1 & Hii1 & (_ & Hoi1 & Hwi1) & Hio1) & H1).
  rewrite drop_all in Hii1. rewrite firstn_all in Ho1. rewrite <- Hio1 in Hi2.
  destruct (copy_finished ss rest2 (length ss) out1 in1 Hws (Hwi1 Hw1) Hi2 Hss)
    as (out2 & in2 & (Ho2 & Hwo2 & Hii2 & (_ & Hoi2 & Hwi2) & Hio2) & H2).
  rewrite drop_all in Hii2. rewrite firstn_all in Ho2.
  exists in2, out2. unfold relay_until_tls12_handshake_finished. rewrite H1, H2.
  split_and!; [done|by rewrite Hio2|done|done|by apply Hwi2| |].
  - by rewrite Ho2, Hoi1.
  - by rewrite Hoi2, Ho1.
Qed.

Lemma answer_ok (inbound : St) (outbound : T) buf padding sh exts cs ss rest rest2 h h' message n :
  writable inbound -> writable outbound -> record_ok sh ->
  (parse_message sh ≫= as_server_hello) = Some exts -> flights exts cs ss ->
  incoming inbound = concat (record_bytes <$> cs) ++ rest ->
  incoming outbound = sh ++ concat (record_bytes <$> ss) ++ rest2 ->
  write_message h = Some (message, h') -> length message = 48%nat -> (length padding <= 24)%nat ->
  into_transport_mode h' = Some n ->
  exists inbound' outbound', answer (Ok outbound) padding buf inbound h = Ok (inbound', n, outbound')
    /\ outgoing inbound' = outgoing inbound ++ sh ++ concat (record_bytes <$> ss) ++ pong_bytes message padding
    /\ incoming inbound' = rest
    /\ outgoing outbound' = outgoing outbound ++ buf ++ concat (record_bytes <$> cs)
    /\ incoming outbound' = rest2.
Proof.
  intros Hw1 Hw2 Hsh Hparse Hfl Hi1 Hi2 Hmsg Hlen Hpad Hn.
  destruct (write_all_writable buf outbound Hw2) as (out1 & Hb & Ho1 & Hii1 & _ & Hwo1).
  rewrite <- Hii1 in Hi2.
  destruct (read_hello_record as_server_hello out1 buf sh _ Hsh Hi2) as (out2 & Hr & Hii2 & (_ & Ho2 & Hwo2)).
  destruct (write_all_writable sh inbound Hw1) as (in1 & Hs & Hoi1 & Hiin1 & _ & Hwi1).
  assert (exists in2 out3,
    (if decide (get_server_tls_version exts = Some TLSv1_3) then (Ok tt, (in1, out2))
     else relay_until_tls12_handshake_finished (in1, out2)) = (Ok tt, (in2, out3))
    /\ incoming in2 = rest /\ incoming out3 = rest2 /\ writable in2 /\ writable out3
    /\ outgoing in2 = outgoing in1 ++ concat (record_bytes <$> ss)
    /\ outgoing out3 = outgoing out2 ++ concat (record_bytes <$> cs)) as
    (in2 & out3 & Hrel & Hri & Hro & Hrw & _ & Hroi & Hroo).
  { unfold flights in Hfl. case_decide.
    - destruct Hfl as [-> ->]. cbn in *. rewrite !app_nil_r. exists in1, out2.
      split_and!; try done; [by rewrite Hiin1|auto].
    - destruct Hfl as (? & ? & ? & ?). apply relay_flights; try done; [by apply Hwo2|by rewrite Hiin1]. }
  destruct (write_all_writable (pong_bytes message padding) in2 Hrw) as (in3 & Hp & Hpo & Hpi & _ & _).
  exists in3, out3. split.
  - unfold Handshake.answer. cbn [map_err mbind res_bind]. rewrite Hb. cbn [map_err mbind res_bind].
    rewrite Hr, Hparse. cbn [map_err mbind res_bind]. rewrite Hs. cbn [map_err mbind res_bind].
    rewrite Hrel. cbn [map_err mbind res_bind]. rewrite Hmsg, pong_record_ok by done.
    cbn [mbind res_bind]. rewrite Hp. cbn [map_err mbind res_bind]. by rewrite Hn.
  - rewrite Hpo, Hpi, Hroi, Hoi1, Hroo, Ho2, Ho1, <- !app_assoc. done.
Qed.

(** An authentic hello is answered.  The server forwards the hello to the camouflage server as
    it came, gives the client the camouflage server's hello and, below TLS 1.3, both sides the rest
    of the handshake, exactly; it then drops the camouflage connection, sends its Noise message in
    one application-data record of 48 to 72 bytes, and hands over a stream positioned right after
    the handshake.  The nonce is in the filter. *)
Lemma accept_genuine self now rng padding peer s b chp h h' message n (m : mutex F)
    (outbound : T) sh exts cs ss rest rest2 :
  hello_arrives s b (concat (record_bytes <$> cs) ++ rest) chp ->
  authenticate self now rng chp = Ok (Some h) ->
  poisoned m = false -> assoc (take 32 (psk_e_of chp)) (entries (guarded m)) = None ->
  (0 < capacity (guarded m))%nat ->
  writable s -> writable outbound -> record_ok sh ->
  (parse_message sh ≫= as_server_hello) = Some exts -> flights exts cs ss ->
  incoming outbound = sh ++ concat (record_bytes <$> ss) ++ rest2 ->
  write_message h = Some (message, h') -> length message = 48%nat -> (length padding <= 24)%nat ->
  into_transport_mode h' = Some n ->
  exists s' outbound' m', accept self now rng padding (Some peer) (Ok outbound) s m = (Ok (s', n, outbound'), m')
    /\ outgoing s' = outgoing s ++ sh ++ concat (record_bytes <$> ss) ++ pong_bytes message padding
    /\ incoming s' = rest
    /\ outgoing outbound' = outgoing outbound ++ b ++ concat (record_bytes <$> cs)
    /\ incoming outbound' = rest2
    /\ poisoned m' = false /\ assoc (take 32 (psk_e_of chp)) (entries (guarded m')) = Some peer.
Proof.
  intros Harr Hauth Hp Hfresh Hcap Hw Hwo Hsh Hparse Hfl Hio Hmsg Hlen Hpad Hn.
  destruct (accept_authentic self now rng padding (Some peer) (Ok outbound) s b _ chp h m Harr Hauth)
    as (s1 & Hi & (_ & Ho & Hws) & ->).
  destruct (filter_nonce_fresh (take 32 (psk_e_of chp)) peer m Hp Hfresh Hcap) as (f & Hwf & Hrem & _).
  destruct Harr as (Hin & _ & _). rewrite Hin in Hi. apply app_inv_head in Hi.
  destruct (answer_ok s1 outbound b padding sh exts cs ss rest rest2 h h' message n)
    as (s' & out' & Hans & H1 & H2 & H3 & H4); try done; [by apply Hws|].
  exists s', out', (Mutex false f). split; [run Hwf; unfold lift_res; by rewrite Hans|].
  rewrite <- Ho. split_and!; try done. by apply (remembered_assoc _ _ 0).
Qed.
End server_proofs.

(** ** The client's TLS 1.2 handshake *)

Section client_proofs.
Context (p : profile).
Context {St C : Type} `{!AsyncIO St, !AsyncIOLaws St, !RustlsConnection C}.
#[local] Set Default Proof Using "Type*".
Abbreviation handshake := (tls12_handshake p (St:=St) (C:=C)).

(** [rustls] takes a record whole, finds no error and goes on from [c']. *)
Definition takes (c : C) (r : record) (c' : C) : Prop :=
  wants_write c = false /\ wants_read c = true
  /\ Z.of_nat (length (rbody r)) <= MAXIMUM_CIPHERTEXT_LENGTH
  /\ exists c1, feed (5 + length (rbody r)) (record_bytes r) c = Ok c1
     /\ process_new_packets c1 = (None, c').

(** [tls_run seen c rs out]: the handshake of a connection that never errs and wants to go on until
    it has read the server's records [rs], the last one being the first after a change of cipher;
    it writes [out]. *)
Inductive tls_run : bool -> C -> list record -> list Z -> Prop :=
| run_write seen c b c' rs out :
    wants_write c = true -> write_tls c = (b, c') -> tls_run seen c' rs out -> tls_run seen c rs (b ++ out)
| run_handshake c r c' rs out :
    takes c r c' -> rtype r = HANDSHAKE -> tls_run false c' rs out -> tls_run false c (r :: rs) out
| run_change_cipher c r c' rs out :
    takes c r c' -> rtype r = CHANGE_CIPHER_SPEC -> tls_run true c' rs out -> tls_run false c (r :: rs) out
| run_finished c r c' :
    takes c r c' -> rtype r = HANDSHAKE -> tls_run true c [r] [].

(** The server's copier stops after the same record. *)
Lemma tls_run_scan seen c rs out : tls_run seen c rs out -> scan seen rs = (length rs, Finished).
Proof using. induction 1; cbn [scan length]; [done|rewrite H0..]; cbn; [by rewrite IHtls_run..|done]. Qed.

Lemma tls_run_wf seen c rs out : tls_run seen c rs out -> Forall wf_record rs.
Proof using.
  assert (forall c r c', takes c r c' -> wf_record r) as Hwf.
  { intros c0 r c' (_ & _ & Hl & _). unfold wf_record, in_u. unfold MAXIMUM_CIPHERTEXT_LENGTH in Hl. lia. }
  induction 1; [done|constructor; eauto..].
Qed.

Lemma on_tls_stream_eq {A} (m : prog St io_error A) c s x s' :
  m s = (x, s') -> on_tls_stream m (c, s) = (x, ((c : C), s')).
Proof. intros H. unfold on_tls_stream, zoom. cbn [fst snd]. by rewrite H. Qed.

(** A turn that reads a record. *)
Lemma turn_reads seen c r c' s rest :
  takes c r c' -> incoming s = record_bytes r ++ rest ->
  (rtype r = HANDSHAKE \/ rtype r = CHANGE_CIPHER_SPEC) ->
  exists s', incoming s' = rest /\ only_read s s'
    /\ tls12_turn p false seen (c, s)
       = (Ok (if rtype r =? CHANGE_CIPHER_SPEC then Some true else if seen then None else Some seen), (c', s')).
Proof.
  intros (Hww & Hwr & Hlen & c1 & Hfeed & Hproc) Hi Htype. unfold record_bytes in *.
  destruct (to_be_bytes_2 (Z.of_nat (length (rbody r)))) as (l1 & l0 & Hl & _ & _ & Hz).
  unfold MAXIMUM_CIPHERTEXT_LENGTH in *.
  rewrite Hl in *. specialize (Hz ltac:(unfold in_u; lia)). cbn [app] in *.
  destruct (read_exact_app 5 [rtype r; (rver r).1; (rver r).2; l1; l0] (rbody r ++ rest) s)
    as (s1 & H1 & Hi1 & Hr1); [by rewrite Hi|done|].
  destruct (read_exact_app (length (rbody r)) (rbody r) rest s1 Hi1 eq_refl) as (s2 & H2 & Hi2 & Hr2).
  exists s2. split; [done|]. split; [by transitivity s1|].
  apply (on_tls_stream_eq _ c) in H1, H2. unfold tls12_turn.
  rewrite (bind_ok _ _ (c, s) (c, s) (c, s)) by done. cbn [fst]. rewrite Hww, Hwr. run H1.
  rewrite slice_ok by (simpl; lia). rewrite bind_lift.
  unfold u16_from_be_slice. cbn [take drop Nat.sub length]. rewrite decide_True, bind_lift by done.
  rewrite Hz, Nat2Z.id. unfold MAXIMUM_CIPHERTEXT_LENGTH. destruct (Z.ltb_spec (2 ^ 14) (Z.of_nat (length (rbody r)))); [lia|].
  run H2. rewrite (bind_ok _ _ (c, s2) (c, s2) (c, s2)) by done. cbn [fst app].
  rewrite Hfeed, bind_lift, Hproc. rewrite (bind_ok (modify _) _ (c, s2) (c', s2) tt eq_refl).
  unfold index. cbn [lookup list_lookup]. rewrite bind_lift.
  destruct Htype as [-> | ->]; cbn [Z.eqb HANDSHAKE CHANGE_CIPHER_SPEC Pos.eqb]; [|done].
  rewrite bind_lift. done.
Qed.

Lemma tls12_run seen c rs out :
  tls_run seen c rs out ->
  exists turns, forall fuel s rest, (turns <= fuel)%nat ->
    writable s -> incoming s = concat (record_bytes <$> rs) ++ rest ->
    exists c' s', handshake fuel false seen (c, s) = (Ok tt, (c', s'))
      /\ incoming s' = rest /\ outgoing s' = outgoing s ++ out /\ writable s'.
Proof.
  induction 1 as [seen c b c' rs out Hww Hwt _ [n IH]|c r c' rs out Ht Hty _ [n IH]
    |c r c' rs out Ht Hty _ [n IH]|c r c' Ht Hty]; [exists (S n)..|exists 1%nat].
  all: intros [|fuel] s rest Hfuel Hw Hi; [lia|]; cbn [tls12_handshake].
  - destruct (write_all_writable b s Hw) as (s1 & H1 & Ho1 & Hi1 & _ & Hw1).
    assert (tls12_turn p false seen (c, s) = (Ok (Some seen), (c', s1))) as Hturn.
    { unfold tls12_turn. rewrite (bind_ok _ _ (c, s) (c, s) (c, s)) by done. cbn [fst]. rewrite Hww, Hwt.
      rewrite (bind_ok (modify _) _ (c, s) (c', s) tt eq_refl).
      apply (on_tls_stream_eq _ c') in H1. by run H1. }
    run Hturn. destruct (IH fuel s1 rest) as (c2 & s2 & H2 & ? & Ho2 & ?); [lia|done|by rewrite Hi1|].
    exists c2, s2. rewrite Ho2, Ho1, <- app_assoc. done.
  - cbn [fmap list_fmap concat] in Hi. rewrite <- app_assoc in Hi.
    destruct (turn_reads false c r c' s _ Ht Hi (or_introl Hty)) as (s1 & Hi1 & (_ & Ho1 & Hw1) & Hturn).
    rewrite Hty in Hturn. cbn in Hturn. run Hturn.
    destruct (IH fuel s1 rest) as (c2 & s2 & H2 & ? & Ho2 & ?); [lia|auto|done|].
    exists c2, s2. by rewrite Ho2, Ho1.
  - cbn [fmap list_fmap concat] in Hi. rewrite <- app_assoc in Hi.
    destruct (turn_reads false c r c' s _ Ht Hi (or_intror Hty)) as (s1 & Hi1 & (_ & Ho1 & Hw1) & Hturn).
    rewrite Hty in Hturn. cbn in Hturn. run Hturn.
    destruct (IH fuel s1 rest) as (c2 & s2 & H2 & ? & Ho2 & ?); [lia|auto|done|].
    exists c2, s2. by rewrite Ho2, Ho1.
  - cbn [fmap list_fmap concat] in Hi. rewrite app_nil_r in Hi.
    destruct (turn_reads true c r c' s _ Ht Hi (or_introl Hty)) as (s1 & Hi1 & (_ & Ho1 & Hw1) & Hturn).
    rewrite Hty in Hturn. cbn in Hturn. run Hturn.
    exists c', s1. rewrite app_nil_r. auto.
Qed.
End client_proofs.

(** ** Both ends *)

(** Documented behaviour of [snow]: two ends with one pre-shared key complete the two-message
    handshake and get cipher states that belong together ([sync]). *)
Class NoiseLaws (H N : Type) `{!Noise H N} (sync : N -> N -> Prop) : Prop := {
  noise_handshake psk rng_i rng_r : exists m1 i1 h1 m2 h2 i2 ni nr,
    write_message (build_initiator psk rng_i) = Some (m1, i1) /\ length m1 = 48%nat
    /\ read_message (build_responder psk rng_r) m1 = Some h1
    /\ write_message h1 = Some (m2, h2) /\ length m2 = 48%nat /\ is_bytes m2
    /\ read_message i1 m2 = Some i2
    /\ into_transport_mode h2 = Some nr /\ into_transport_mode i2 = Some ni
    /\ sync ni nr /\ sync nr ni;
}.

(** Documented behaviour of [rustls]: a new connection writes one record, a ClientHello with the
    random and the session id it was given, and then waits for the answer. *)
Class RustlsLaws (C : Type) `{!RustlsConnection C} (known_type known_version : Z -> bool)
    (parse_message : list Z -> option tls_message)
    (new_with : forall random session_id : list Z, C) : Prop := {
  new_hello random session_id : length random = 32%nat -> length session_id = 32%nat ->
    exists b conn, write_tls (new_with random session_id) = (b, conn)
      /\ wants_write conn = false /\ wants_read conn = true
      /\ tls_record_ok known_type known_version b
      /\ (parse_message b ≫= as_client_hello) = Some (ClientHelloPayload random (32%nat, session_id));
}.

Section both_ends.
Context (blake2s : list Z -> list Z) (p : profile) (known_type known_version : Z -> bool)
  (stale : nat -> list Z) (parse_message : list Z -> option tls_message).
Context {H N : Type} `{!Noise H N} {sync : N -> N -> Prop} `{!NoiseLaws H N sync}.
Context {Ss Sc T A F C : Type} `{!AsyncIO Ss, !AsyncIOLaws Ss, !AsyncIO Sc, !AsyncIOLaws Sc,
  !AsyncIO T, !AsyncIOLaws T, !Lru (list Z) A F, !LruLaws (list Z) A F, !RustlsConnection C}
  (new_with : forall random session_id : list Z, C)
  `{!RustlsLaws C known_type known_version parse_message new_with}.
#[local] Set Default Proof Using "Type*".
Abbreviation accept := (accept blake2s p known_type known_version stale parse_message (St:=Ss) (T:=T)).
Abbreviation connect := (connect blake2s p known_type known_version stale parse_message new_with (St:=Sc)).

(** The TLS handshake after the two hellos as the client runs it: nothing with TLS 1.3; otherwise
    it takes the server's hello [sh] and the server's records [ss], in answer to which it sends the
    records [cs]. *)
Definition client_flights (exts : list server_extension) (sh : list Z) (conn : C) (cs ss : list record) : Prop :=
  if decide (get_server_tls_version exts = Some TLSv1_3) then cs = [] /\ ss = []
  else (exists n conn', read_tls sh conn = (Ok n, conn')
      /\ tls_run false conn' ss (concat (record_bytes <$> cs)))
    /\ Forall wf_record cs /\ scan false cs = (length cs, Finished).

Lemma client_flights_server exts sh conn cs ss : client_flights exts sh conn cs ss -> flights exts cs ss.
Proof.
  unfold client_flights, flights. case_decide; [done|]. intros ((n & conn' & _ & Hrun) & Hwf & Hs).
  split; [done|]. split; [by eapply tls_run_wf|]. split; [done|]. by eapply tls_run_scan.
Qed.

Lemma pong_record_acceptable message padding :
  known_type 23 = true -> length message = 48%nat -> (length padding <= 24)%nat ->
  tls_record_ok known_type known_version (pong_bytes message padding).
Proof.
  intros Ht Hm Hp. exists 23, 3, 3, 0, (48 + Z.of_nat (length padding)), (message ++ padding).
  assert (from_be_bytes [0; 48 + Z.of_nat (length padding)] = 48 + Z.of_nat (length padding)) as Hlen
    by (rewrite from_be_bytes_pair; lia).
  split; [done|]. split; [bytes|]. rewrite Hlen. split; [|len].
  split; [done|]. split; [by right|]. split; [by left|]. unfold MAXIMUM_CIPHERTEXT_LENGTH. lia.
Qed.

(** The client's part of the TLS handshake, as [connect] runs it. *)
Lemma client_flights_run exts sh conn cs ss :
  client_flights exts sh conn cs ss ->
  exists turns, forall fuel (c : Sc) rest, (turns <= fuel)%nat -> writable c ->
    incoming c = concat (record_bytes <$> ss) ++ rest ->
    exists c', finish_tls p exts sh conn fuel c = (Ok tt, c')
      /\ incoming c' = rest /\ outgoing c' = outgoing c ++ concat (record_bytes <$> cs) /\ writable c'.
Proof.
  unfold client_flights, finish_tls. case_decide.
  - intros [-> ->]. exists 0%nat. intros fuel c rest _ Hw Hi. exists c. cbn. by rewrite app_nil_r.
  - intros ((n & conn0 & -> & Hrun) & _ & _).
    destruct (tls12_run p (St:=Sc) _ _ _ _ Hrun) as [turns Hturns]. exists turns.
    intros fuel c rest Hf Hw Hi. destruct (Hturns fuel c rest Hf Hw Hi) as (conn' & c' & -> & ?).
    by exists c'.
Qed.

(** The TLS connection of the client once it has written its hello: the hello's random and session
    id come from the Noise message and the clock. *)
Definition starts (key : list Z) (now : Z) (rng : list Z) (conn : C) : Prop :=
  let self := client_new blake2s key in
  exists m1 i1 timesig, write_message (build_initiator (client_key self) rng) = Some (m1, i1)
    /\ sign blake2s 16 (client_totp self) now (take 32 m1) = Ok timesig :> res unit _
    /\ conn = (write_tls (new_with (take 32 m1) (take 16 (drop 32 m1) ++ timesig))).2.

(** The client from the server's hello on. *)
Lemma connect_ok key now rng :
  let self := client_new blake2s key in
  (forall m, length (blake2s m) = 32%nat) -> known_type 23 = true ->
  exists m1 i1 timesig b conn,
    write_message (build_initiator (client_key self) rng) = Some (m1, i1)
    /\ sign blake2s 16 (client_totp self) now (take 32 m1) = Ok timesig :> res unit _
    /\ (parse_message b ≫= as_client_hello)
       = Some (ClientHelloPayload (take 32 m1) (32%nat, take 16 (drop 32 m1) ++ timesig))
    /\ tls_record_ok known_type known_version b
    /\ length m1 = 48%nat /\ length timesig = 16%nat
    /\ conn = (write_tls (new_with (take 32 m1) (take 16 (drop 32 m1) ++ timesig))).2
    /\ forall sh exts cs ss message padding i2 ni,
      tls_record_ok known_type known_version sh -> (parse_message sh ≫= as_server_hello) = Some exts ->
      client_flights exts sh conn cs ss ->
      length message = 48%nat -> (length padding <= 24)%nat ->
      read_message i1 message = Some i2 -> into_transport_mode i2 = Some ni ->
      exists turns, forall fuel c rest, (turns <= fuel)%nat ->
        writable c -> incoming c = sh ++ concat (record_bytes <$> ss) ++ pong_bytes message padding ++ rest ->
        exists c', connect self now rng fuel c = (Ok ni, c')
          /\ outgoing c' = outgoing c ++ b ++ concat (record_bytes <$> cs) /\ incoming c' = rest.
Proof.
  intros self Hdig Hk.
  destruct (noise_handshake (client_key self) rng []) as (m1 & i1 & h1 & m2 & h2 & i2 & ni & nr & Hm1 & Hl1 & _).
  assert (wf_totp (client_totp self)) as Hwf by (cbn; unfold wf_totp, in_u; cbn; lia).
  set (timesig := signature_at blake2s 16 (client_totp self) (take 32 m1) (now / step (client_totp self))).
  assert (forall E, sign blake2s 16 (client_totp self) now (take 32 m1) = Ok timesig :> res E _) as Hsign
    by (intros E; apply sign_eq; [done..|lia]).
  assert (length timesig = 16%nat) as Hlt.
  { unfold timesig, signature_at, possibly_insecure_hash_with_key. rewrite length_take, Hdig. done. }
  destruct (new_hello (take 32 m1) (take 16 (drop 32 m1) ++ timesig)) as (b & conn & Hb & Hww & Hwr & Hok & Hparse);
    [len..|].
  exists m1, i1, timesig, b, conn. do 6 (split; [done|]). split; [by rewrite Hb|].
  intros sh exts cs ss message padding i2' ni' Hsh Hexts Hfl Hmsg Hpad Hread Hni.
  destruct (client_flights_run _ _ _ _ _ Hfl) as [turns Hturns]. exists turns.
  intros fuel c rest Hfuel Hw Hi.
  destruct (write_all_writable b c Hw) as (c1 & H1 & Ho1 & Hi1 & _ & Hw1). rewrite <- Hi1 in Hi.
  destruct (read_hello_record known_type known_version stale parse_message as_server_hello c1 b sh _ Hsh Hi)
    as (c2 & H2 & Hi2 & (_ & Ho2 & Hw2)).
  destruct (Hturns fuel c2 (pong_bytes message padding ++ rest) Hfuel (Hw2 Hw1) Hi2)
    as (c3 & H3 & Hi3 & Ho3 & Hw3).
  destruct (read_tls_record known_type known_version stale c3 [] _ rest
    (pong_record_acceptable message padding Hk Hmsg Hpad) Hi3) as (c4 & H4 & Hi4 & (_ & Ho4 & _)).
  exists c4. split; [|by rewrite Ho4, Ho3, Ho2, Ho1, <- app_assoc].
  unfold Handshake.connect, writen. fold self. rewrite Hm1, decide_True by done.
  unfold mbind, prog_bind, lift_res. cbn [mret prog_ret].
  rewrite Hsign, Hb, Hww, Hwr. cbn [negb andb]. rewrite H1, H2, Hexts, H3, H4.
  cbn [mret prog_ret].
  destruct (Nat.ltb_spec (length (pong_bytes message padding)) (5 + 48)).
  { unfold pong_bytes in *. len. }
  replace (take 48 (drop 5 (pong_bytes message padding))) with message.
  - by rewrite Hread, Hni.
  - change (drop 5 (pong_bytes message padding)) with (message ++ padding). by rewrite take_app_length'.
Qed.

Lemma psk_e_of_hello (m1 timesig : list Z) :
  length m1 = 48%nat -> length timesig = 16%nat ->
  let chp := ClientHelloPayload (take 32 m1) (32%nat, take 16 (drop 32 m1) ++ timesig) in
  psk_e_of chp = m1 /\ timesig_of chp = timesig.
Proof using.
  intros Hm Ht chp. unfold psk_e_of, timesig_of, chp. cbn [ch_random ch_session_id snd].
  assert (length (take 16 (drop 32 m1)) = 16%nat) as Hl by len. split.
  - rewrite take_take, take_app_length' by done. cbn [Nat.min].
    rewrite <- (take_drop 32 m1) at 3. f_equal. apply take_ge. len.
  - rewrite drop_app_length' by done. apply take_ge. lia.
Qed.

Lemma close_steps a b : Z.abs (a - b) <= 120 -> Z.abs (a / 60 - b / 60) <= 2.
Proof using.
  intros Hab.
  assert (a / 60 <= (b + 2 * 60) / 60) by (apply Z.div_le_mono; lia).
  assert (b / 60 <= (a + 2 * 60) / 60) by (apply Z.div_le_mono; lia).
  rewrite !Z.div_add in * by lia. lia.
Qed.

(** C1: the tunnel is established.  A client and a server made from the same key, with clocks at
    most two minutes apart, run against each other and a camouflage server.  With TLS 1.3 there is
    no condition on the camouflage server beyond its hello; below, its records [ss] must be such
    that the TLS connection started by this very hello completes the handshake with them, sending
    the records [cs].  Then what each end waits for is what the other writes, both succeed, with
    cipher states that belong together, and both streams stand right after the handshake.  What the
    server writes is the camouflage server's handshake followed by its Noise message; what it
    forwards is what the client wrote. *)
Theorem tunnel_established key now_c now_s rng_c rng_s padding peer (m : mutex F) (outbound : T)
    sh exts cs ss rest2 :
  (forall m, length (blake2s m) = 32%nat) -> known_type 23 = true ->
  timely now_s -> Z.abs (now_c - now_s) <= 120 ->
  poisoned m = false -> (0 < capacity (guarded m))%nat ->
  (forall m1 i1, write_message (build_initiator (derive_psk blake2s key) rng_c) = Some (m1, i1) ->
     assoc (take 32 m1) (entries (guarded m)) = None) ->
  (length padding <= 24)%nat ->
  tls_record_ok known_type known_version sh -> (parse_message sh ≫= as_server_hello) = Some exts ->
  (forall conn, starts key now_c rng_c conn -> client_flights exts sh conn cs ss) ->
  writable outbound -> incoming outbound = sh ++ concat (record_bytes <$> ss) ++ rest2 ->
  exists hello message ni nr, length message = 48%nat /\ sync ni nr /\ sync nr ni
    /\ (exists turns, forall fuel (c : Sc) rest, (turns <= fuel)%nat -> writable c ->
          incoming c = (sh ++ concat (record_bytes <$> ss) ++ pong_bytes message padding) ++ rest ->
          exists c', connect (client_new blake2s key) now_c rng_c fuel c = (Ok ni, c')
            /\ outgoing c' = outgoing c ++ hello ++ concat (record_bytes <$> cs) /\ incoming c' = rest)
    /\ (forall (s : Ss) rest, writable s -> incoming s = hello ++ concat (record_bytes <$> cs) ++ rest ->
          exists s' outbound' m',
            accept (server_new blake2s key) now_s rng_s padding (Some peer) (Ok outbound) s m
              = (Ok (s', nr, outbound'), m')
            /\ outgoing s' = outgoing s ++ sh ++ concat (record_bytes <$> ss) ++ pong_bytes message padding
            /\ incoming s' = rest
            /\ outgoing outbound' = outgoing outbound ++ hello ++ concat (record_bytes <$> cs)).
Proof.
  intros Hdig Hk Htime Hclock Hpois Hcap Hfresh Hpad Hsh Hexts Hfl Hwo Hio.
  destruct (connect_ok key now_c rng_c Hdig Hk)
    as (m1 & i1 & timesig & b & conn & Hm1 & Hsign & Hparse & Hb & Hl1 & Hlt & Hconn & Hconnect).
  destruct (noise_handshake (derive_psk blake2s key) rng_c rng_s)
    as (m1' & i1' & h1 & m2 & h2 & i2 & ni & nr & Hm1' & _ & Hh1 & Hm2 & Hl2 & _ & Hi2 & Hnr & Hni & Hs1 & Hs2).
  assert (client_flights exts sh conn cs ss) as Hflc by (apply Hfl; by exists m1, i1, timesig).
  cbn [client_key client_new] in Hm1. rewrite Hm1 in Hm1'. injection Hm1' as <- <-.
  exists b, m2, ni, nr. do 3 (split; [done|]).
  set (chp := ClientHelloPayload (take 32 m1) (32%nat, take 16 (drop 32 m1) ++ timesig)) in *.
  destruct (psk_e_of_hello m1 timesig Hl1 Hlt) as [Hpsk Htime2]. fold chp in Hpsk, Htime2.
  split.
  - destruct (Hconnect sh exts cs ss m2 padding i2 ni Hsh Hexts) as [turns Hturns]; try done.
    exists turns. intros fuel c rest Hf Hw Hi. apply Hturns; [done..|]. by rewrite Hi, <- !app_assoc.
  - intros s rest Hw Hi.
    destruct (authenticate_spec blake2s p (St:=Ss) (T:=T) (A:=A) Hdig key now_s rng_s chp Htime)
      as (ok & Hauth & Hiff).
    assert (ok = true) as ->.
    { apply Hiff. exists (now_c / 60). split; [by apply close_steps|]. rewrite Hpsk, Htime2.
      rewrite (sign_eq blake2s Hdig 16) in Hsign; [by injection Hsign|by cbn; unfold wf_totp, in_u; cbn; lia|lia]. }
    rewrite Hpsk in Hauth. cbn [server_key server_new] in Hauth. rewrite Hh1 in Hauth.
    destruct (accept_genuine blake2s p known_type known_version stale parse_message
      (server_new blake2s key) now_s rng_s padding peer s b chp h1 h2 m2 nr m outbound sh exts cs ss rest rest2)
      as (s' & out' & m' & Hacc & Ho & Hin & Hout & _); try done.
    + rewrite Hpsk. by apply (Hfresh m1 i1).
    + by apply client_flights_server with (sh := sh) (conn := conn).
    + by exists s', out', m'.
Qed.
End both_ends.

(** ** Concrete instances, for the witnesses *)

Abbreviation lru_list := (lru_map (list Z) Z).

(** A stand-in for Noise: a message is 32 bytes of randomness and a tag of the key. *)
Inductive toy_state := ToyInit (psk rng : list Z) | ToySent (psk : list Z) | ToyWait (psk rng : list Z)
| ToyGot (psk rng : list Z) | ToyDone (psk : list Z).

Definition pad_to (n : nat) (l : list Z) : list Z := take n ((fun b => b mod 256) <$> l ++ replicate n 0).
Definition toy_message (psk rng : list Z) : list Z := pad_to 32 rng ++ pad_to 16 psk.
Definition toy_reads (psk : list Z) (m : list Z) : bool := bool_decide (drop 32 m = pad_to 16 psk).

#[export] Instance toy_noise : Noise toy_state (list Z) := {|
  build_initiator := ToyInit;
  build_responder := ToyWait;
  write_message h :=
    match h with
    | ToyInit psk rng => Some (toy_message psk rng, ToySent psk)
    | ToyGot psk rng => Some (toy_message psk rng, ToyDone psk)
    | _ => None
    end;
  read_message h m :=
    match h with
    | ToyWait psk rng => if toy_reads psk m then Some (ToyGot psk rng) else None
    | ToySent psk => if toy_reads psk m then Some (ToyDone psk) else None
    | _ => None
    end;
  into_transport_mode h := match h with ToyDone psk => Some psk | _ => None end;
|}.

Lemma length_pad_to n l : length (pad_to n l) = n.
Proof. unfold pad_to. rewrite length_take, length_fmap, length_app, length_replicate. lia. Qed.

Lemma pad_to_bytes n l : is_bytes (pad_to n l).
Proof.
  apply is_bytes_take, Forall_fmap, Forall_true. intros b.
  cbn. unfold in_u. pose proof (Z.mod_pos_bound b 256). lia.
Qed.

#[export] Instance toy_noise_laws : NoiseLaws toy_state (list Z) eq.
Proof.
  constructor. intros psk rng_i rng_r.
  assert (forall rng, toy_reads psk (toy_message psk rng) = true) as Hread.
  { intros rng. unfold toy_reads, toy_message. rewrite drop_app_length' by (by rewrite length_pad_to).
    by apply bool_decide_eq_true. }
  assert (forall rng, length (toy_message psk rng) = 48%nat) as Hlen.
  { intros rng. unfold toy_message. by rewrite length_app, !length_pad_to. }
  do 8 eexists. cbn. split; [done|]. split; [apply Hlen|]. split; [by rewrite Hread|].
  split; [done|]. split; [apply Hlen|].
  split; [apply is_bytes_app; split; apply pad_to_bytes|].
  split; [by rewrite Hread|]. done.
Qed.

(** A TLS connection that writes its hello and accepts whatever it is fed; a server hello is the
    handshake type 2 and says TLS 1.3 unless a byte follows. *)
#[export] Instance toy_tls : RustlsConnection (list Z) := {|
  wants_read c := true;
  wants_write c := match c with [] => false | _ => true end;
  write_tls c := (c, []);
  read_tls b c := (Ok (length b), c);
  process_new_packets c := (None, c);
|}.

Definition toy_hello (random session_id : list Z) : list Z := [22; 3; 1; 0; 65; 1] ++ random ++ session_id.
Definition toy_parse_message (b : list Z) : option tls_message :=
  match b with
  | [22; _; _; _; _; 2] => Some (ServerHelloMsg [OtherExtension; SupportedVersions 772])
  | 22 :: _ :: _ :: _ :: _ :: 2 :: _ => Some (ServerHelloMsg [])
  | 22 :: _ :: _ :: _ :: _ :: 1 :: rest => Some (ClientHelloMsg (ClientHelloPayload (take 32 rest) (32%nat, drop 32 rest)))
  | 22 :: _ => Some OtherMsg
  | _ => None
  end.
Definition toy_type (t : Z) : bool := (20 <=? t) && (t <=? 24).
Definition toy_version (_ : Z) : bool := false.

#[export] Instance toy_tls_laws : RustlsLaws (list Z) toy_type toy_version toy_parse_message toy_hello.
Proof.
  constructor. intros random session_id Hr Hs. do 2 eexists. split; [done|]. do 2 (split; [done|]). split.
  - exists 22, 3, 1, 0, 65, ([1] ++ random ++ session_id). split; [done|]. split; [by_compute|].
    split; [|rewrite from_be_bytes_pair; len]. split; [done|]. split; [by right|]. split; [by right|done].
  - cbn. by rewrite take_app_length', drop_app_length' by done.
Qed.

(** A short record is accepted. *)
Lemma toy_record n body :
  n = Z.of_nat (length body) -> 0 < n < 256 -> tls_record_ok toy_type toy_version ([22; 3; 3; 0; n] ++ body).
Proof.
  intros -> Hn. exists 22, 3, 3, 0, (Z.of_nat (length body)), body. unfold acceptable.
  rewrite !from_be_bytes_pair.
  split; [done|]. split; [bytes|]. split; [|len]. split; [done|]. split; [by right|].
  unfold MAXIMUM_CIPHERTEXT_LENGTH. split; [right|]; lia.
Qed.

Lemma demo_digest_length m : length (demo_digest m) = 32%nat.
Proof. unfold demo_digest. rewrite length_take, length_app, length_replicate. lia. Qed.

(** A TLS 1.2 connection: its random is what the last record of either side must carry. *)
Record toy_conn := ToyConn { to_send : list Z; own_random : list Z; failed : bool }.
Definition toy_flight (first : Z) (random : list Z) : list record :=
  [Rec HANDSHAKE (3, 3) [first]; Rec CHANGE_CIPHER_SPEC (3, 3) [1]; Rec HANDSHAKE (3, 3) (20 :: random)].

#[export] Instance toy_tls12 : RustlsConnection toy_conn := {|
  wants_read c := true;
  wants_write c := match to_send c with [] => false | _ => true end;
  write_tls c := (to_send c, ToyConn [] (own_random c) (failed c));
  read_tls b c := (Ok (length b),
    match b with
    | 22 :: _ :: _ :: _ :: _ :: 14 :: _ =>
        ToyConn (concat (record_bytes <$> toy_flight 16 (own_random c))) (own_random c) (failed c)
    | 22 :: _ :: _ :: _ :: _ :: 20 :: tag =>
        ToyConn (to_send c) (own_random c) (failed c || bool_decide (tag <> own_random c))
    | _ => c
    end);
  process_new_packets c := (if failed c then Some "bad finished" else None, c);
|}.

Definition toy_new12 (random session_id : list Z) : toy_conn := ToyConn (toy_hello random session_id) random false.

#[export] Instance toy_tls12_laws : RustlsLaws toy_conn toy_type toy_version toy_parse_message toy_new12.
Proof.
  constructor. intros random session_id Hr Hs. do 2 eexists. split; [done|]. do 2 (split; [done|]).
  destruct (new_hello (C:=list Z) random session_id Hr Hs) as (b & conn & [= <- <-] & _ & _ & Hb & Hp).
  by split.
Qed.

Definition sh12 : list Z := [22; 3; 3; 0; 2; 2; 0].
Definition demo_random : list Z := pad_to 32 [4].

Lemma demo_takes c first c' body :
  to_send c = [] -> (length body <= 64)%nat ->
  read_tls (record_bytes (Rec first (3, 3) body)) c = (Ok (5 + length body)%nat, c') -> failed c' = false ->
  takes c (Rec first (3, 3) body) c'.
Proof.
  intros Hs Hl Hr Hf. unfold takes. cbn [wants_write wants_read toy_tls12 rbody]. rewrite Hs.
  split; [done|]. split; [done|]. split; [unfold MAXIMUM_CIPHERTEXT_LENGTH; lia|].
  exists c'. split; [|by cbn; rewrite Hf]. unfold record_bytes in *. cbn [rtype rver rbody fst snd app Nat.add feed] in *.
  rewrite Hr. cbn [Nat.eqb]. rewrite drop_ge; [by destruct (5 + length body)%nat eqn:?|]. cbn [length].
  rewrite length_app, length_to_be_bytes. lia.
Qed.

(** It completes the handshake with the flight that carries its random. *)
Lemma demo_flights conn :
  starts demo_digest toy_new12 [5; 6] 900 [4] conn ->
  client_flights [] sh12 conn (toy_flight 16 demo_random) (toy_flight 14 demo_random).
Proof.
  intros (m1 & i1 & timesig & [= <- _] & _ & ->).
  assert (take 32 (toy_message (derive_psk demo_digest [5; 6]) [4]) = demo_random) as -> by reflexivity.
  unfold client_flights. rewrite decide_False by done. split; [|split; [by_compute|reflexivity]].
  exists 7%nat, (ToyConn [] demo_random false). split; [reflexivity|].
  set (out := concat (record_bytes <$> toy_flight 16 demo_random)).
  eapply run_handshake; [by apply (demo_takes _ _ (ToyConn out demo_random false)); [|cbn; lia|..]|reflexivity|].
  rewrite <- (app_nil_r out). apply (run_write _ _ _ (ToyConn [] demo_random false)); [reflexivity..|].
  eapply run_change_cipher; [by apply (demo_takes _ _ (ToyConn [] demo_random false)); [|cbn; lia|..]|reflexivity|].
  apply (run_finished _ _ (ToyConn [] demo_random false)); [|reflexivity].
  by apply demo_takes; [|vm_compute; lia|..].
Qed.

Lemma tunnel_established_witness :
  (** TLS 1.3 *)
  (exists hello message s' (nr : list Z) outbound' m',
    accept demo_digest Debug toy_type toy_version (fun n => replicate n 0) toy_parse_message
      (server_new demo_digest [5; 6]) 1000 [3] [7; 7] (Some 99) (Ok (open_with [22; 3; 3; 0; 1; 2]))
      (open_with (hello ++ [8])) (Mutex false (LruList [] 4)) = (Ok (s', nr, outbound'), m')
    /\ outgoing s' = [22; 3; 3; 0; 1; 2] ++ pong_bytes message [7; 7] /\ incoming s' = [8])
  (** TLS 1.2 *)
  /\ exists hello message ni fuel c',
    connect demo_digest Debug toy_type toy_version (fun n => replicate n 0) toy_parse_message toy_new12
      (client_new demo_digest [5; 6]) 900 [4] fuel
      (open_with ((sh12 ++ concat (record_bytes <$> toy_flight 14 demo_random) ++ pong_bytes message [7; 7]) ++ [9]))
      = (Ok ni, c')
    /\ outgoing c' = hello ++ concat (record_bytes <$> toy_flight 16 demo_random) /\ incoming c' = [9].
Proof.
  split.
  - destruct (tunnel_established demo_digest Debug toy_type toy_version (fun n => replicate n 0)
      toy_parse_message (Sc:=duplex) (Ss:=duplex) toy_hello [5; 6] 900 1000 [4] [3] [7; 7] 99
      (Mutex false (LruList [] 4)) (open_with [22; 3; 3; 0; 1; 2]) [22; 3; 3; 0; 1; 2]
      [OtherExtension; SupportedVersions 772] [] [] [])
      as (hello & message & ni & nr & _ & _ & _ & _ & Hserver);
      [exact demo_digest_length|reflexivity|split; [lia|vm_compute; discriminate]|vm_compute; discriminate
      |reflexivity|cbn; lia|reflexivity|cbn; lia|exact (toy_record 1 [2] eq_refl ltac:(lia))|reflexivity
      |intros conn _; split; reflexivity|reflexivity..|].
    destruct (Hserver (open_with (hello ++ [8])) [8] eq_refl eq_refl) as (s' & out' & m' & Hacc & Ho & Hi & _).
    exists hello, message, s', nr, out', m'. split; [exact Hacc|]. split; [exact Ho|exact Hi].
  - destruct (tunnel_established demo_digest Debug toy_type toy_version (fun n => replicate n 0)
      toy_parse_message (Sc:=duplex) (Ss:=duplex) toy_new12 [5; 6] 900 1000 [4] [3] [7; 7] 99
      (Mutex false (LruList [] 4)) (open_with (sh12 ++ concat (record_bytes <$> toy_flight 14 demo_random) ++ []))
      sh12 [] (toy_flight 16 demo_random) (toy_flight 14 demo_random) [])
      as (hello & message & ni & nr & _ & _ & _ & [fuel Hclient] & _);
      [exact demo_digest_length|reflexivity|split; [lia|vm_compute; discriminate]|vm_compute; discriminate
      |reflexivity|cbn; lia|reflexivity|cbn; lia|exact (toy_record 2 [2; 0] eq_refl ltac:(lia))|reflexivity
      |exact demo_flights|reflexivity..|].
    destruct (Hclient fuel (open_with ((sh12 ++ concat (record_bytes <$> toy_flight 14 demo_random)
      ++ pong_bytes message [7; 7]) ++ [9])) [9] (le_n fuel) (open_writable _)) as (c' & Hc & Ho & Hi);
      [cbn [incoming open_with duplex_io]; reflexivity|].
    exists hello, message, ni, fuel, c'. split; [exact Hc|]. split; [exact Ho|exact Hi].
Defined.

(** A hello of the client with key [5; 6], made at time 900. *)
Definition demo_chp : client_hello :=
  let m1 := toy_message (derive_psk demo_digest [5; 6]) [4] in
  let sig := match sign demo_digest 16 (client_totp (client_new demo_digest [5; 6])) 900 (take 32 m1) : res unit _ with
             | Ok s => s | _ => [] end in
  ClientHelloPayload (take 32 m1) (32%nat, take 16 (drop 32 m1) ++ sig).
Definition demo_hello : list Z := toy_hello (ch_random demo_chp) (ch_session_id demo_chp).2.
Definition demo_server : Server := server_new demo_digest [5; 6].
(** One that a stranger made, with another key. *)
Definition stranger_chp : client_hello := ClientHelloPayload (replicate 32 1) (32%nat, replicate 32 2).
Definition stranger_hello : list Z := toy_hello (replicate 32 1) (replicate 32 2).

Lemma toy_hello_arrives chp :
  length (ch_random chp) = 32%nat -> (ch_session_id chp).1 = 32%nat -> length (ch_session_id chp).2 = 32%nat ->
  hello_arrives toy_type toy_version toy_parse_message
    (open_with (toy_hello (ch_random chp) (ch_session_id chp).2 ++ [8]))
    (toy_hello (ch_random chp) (ch_session_id chp).2) [8] chp.
Proof.
  destruct chp as [random [k sid]]. cbn [ch_random ch_session_id fst snd]. intros Hr -> Hs.
  destruct (new_hello (C:=list Z) random sid Hr Hs) as (b & conn & [= <- <-] & _ & _ & Hb & Hp).
  split; [done|]. split; [exact Hb|exact Hp].
Qed.

Lemma demo_arrives : hello_arrives toy_type toy_version toy_parse_message
  (open_with (demo_hello ++ [8])) demo_hello [8] demo_chp.
Proof. by apply toy_hello_arrives; vm_compute. Qed.

Lemma demo_authentic now rng :
  now = 900 \/ now = 1000 ->
  authenticate demo_digest Debug (St:=duplex) (T:=duplex) (A:=Z) demo_server now rng demo_chp
    = Ok (Some (ToyGot (derive_psk demo_digest [5; 6]) rng)).
Proof. by intros [-> | ->]; vm_compute. Qed.

Lemma probes_unanswered_witness : exists s',
  accept demo_digest Debug toy_type toy_version (fun n => replicate n 0) toy_parse_message demo_server 1000 [3] [7]
      (Some 99) (Err (IoErr Other "no route") : res io_error duplex) (open_with (stranger_hello ++ [8]))
      (Mutex false (LruList [] 4))
    = (Err (Unauthenticated stranger_hello s'), Mutex false (LruList [] 4))
  /\ stranger_hello ++ incoming s' = stranger_hello ++ [8] /\ outgoing s' = [].
Proof.
  destruct (probes_unanswered demo_digest Debug toy_type toy_version (fun n => replicate n 0) toy_parse_message
    (T:=duplex) demo_digest_length [5; 6] 1000 [3] [7] (Some 99) (Err (IoErr Other "no route"))
    (open_with (stranger_hello ++ [8])) (Mutex false (LruList [] 4))) as [Hun _].
  - split; [lia|vm_compute; discriminate].
  - destruct (Hun stranger_hello [8] stranger_chp) as (s' & Hacc & Hi & Ho).
    + apply (toy_hello_arrives stranger_chp); reflexivity.
    + right. vm_compute. reflexivity.
    + exists s'. split; [exact Hacc|]. split; [exact Hi|exact Ho].
Defined.

Lemma replay_refused_witness : exists s2',
  (accept demo_digest Debug toy_type toy_version (fun n => replicate n 0) toy_parse_message demo_server 1000 [3] [7]
     (Some 50) (Err (IoErr Other "no route") : res io_error duplex) (open_with (demo_hello ++ [8]))
     (accept demo_digest Debug toy_type toy_version (fun n => replicate n 0) toy_parse_message demo_server 900 [3]
        [7] (Some 99) (Err (IoErr Other "no route") : res io_error duplex) (open_with (demo_hello ++ [8]))
        (Mutex false (LruList [] 4))).2).1
    = Err (ReplayDetected demo_hello s2' (take 32 (psk_e_of demo_chp)) 99).
Proof.
  destruct (replay_refused demo_digest Debug toy_type toy_version (fun n => replicate n 0) toy_parse_message
    (St:=duplex) (T:=duplex) (A:=Z) (F:=lru_list) (Lru0:=lru_list_ops) demo_server 900 [3] [7] 99 (Err (IoErr Other "no route")) (open_with (demo_hello ++ [8]))
    demo_hello [8] demo_chp _ (Mutex false (LruList [] 4)) [] 1000 [3] [7] (Some 50)
    (Err (IoErr Other "no route")) (open_with (demo_hello ++ [8])) demo_hello [8] demo_chp _
    demo_arrives (demo_authentic 900 [3] (or_introl eq_refl)) eq_refl ltac:(reflexivity) ltac:(cbn; lia)
    demo_arrives (demo_authentic 1000 [3] (or_intror eq_refl)) eq_refl) as (s2' & Hr & _).
  exists s2'. exact Hr.
Defined.

Lemma reset_poisons_server_witness :
  (accept demo_digest Debug toy_type toy_version (fun n => replicate n 0) toy_parse_message demo_server 1000 [3] [7]
     (Some 50) (Ok (open_with []) : res io_error duplex) (open_with (demo_hello ++ [8]))
     (accept demo_digest Debug toy_type toy_version (fun n => replicate n 0) toy_parse_message demo_server 900 [3]
        [7] None (Ok (open_with []) : res io_error duplex) (open_with (demo_hello ++ [8]))
        (Mutex false (LruList [] 4))).2).1 = Panic.
Proof.
  exact (proj2 (reset_poisons_server demo_digest Debug toy_type toy_version (fun n => replicate n 0)
    toy_parse_message (St:=duplex) (T:=duplex) (A:=Z) (F:=lru_list) (Lru0:=lru_list_ops) demo_server 900 [3] [7] (Ok (open_with [])) (open_with (demo_hello ++ [8]))
    demo_hello [8] demo_chp _ (Mutex false (LruList [] 4)) [] 1000 [3] [7] (Some 50) (Ok (open_with []))
    (open_with (demo_hello ++ [8])) demo_hello [8] demo_chp _
    demo_arrives (demo_authentic 900 [3] (or_introl eq_refl)) eq_refl ltac:(reflexivity)
    demo_arrives (demo_authentic 1000 [3] (or_intror eq_refl)))).
Defined.
