(* ===== verification/Camouflage.v ===== *)
(** * One connection to the server (shuttle/src/server.rs)

    [handle_connection] as a whole: [Server::accept], then the request or session inside the
    tunnel, or the fallback that hides the server behind the camouflage site.  Connections,
    lookups and [tokio::io::copy_bidirectional] are arguments; the theorem is what a prober and the
    camouflage site receive, and when that is what a plain forwarder between them delivers. *)
From S2P Require Import Prelude.
From stdpp Require Import strings.
From S2P Require Import Time Stream Lru Frame Trojan Udp Relay SessionLoop Server.
From S2P Require Import Totp Tls Handshake.
Open Scope Z_scope.

(** The errors [handle_connection] returns; everything later is only logged. *)
Inductive connection_error :=
| AcceptFailed (e : io_error)          (** "failed to accept connection" *)
| DispatchFailed (e : dispatch_error)
| SessionFailed (e : relay_error)
| RemoteUnreachable (e : io_error)     (** "failed to connect to remote" *)
| SocketUnbound (e : io_error).

(** What a connection was used for, with the streams and the relay's outcome at the end. *)
Inductive used (Sn T U : Type) :=
| TcpRelay (r : res io_error (Z * Z)) (snowys : Sn) (outbound : T)
| UdpRelay (r : res io_error (Z * Z)) (snowys : Sn) (sent : list (list Z * SocketAddr))
| ReusedSession (ctx : SessionContext Sn)
| Fallback (r : res io_error (Z * Z)) (ends : U).
Arguments TcpRelay {_ _ _} _ _ _.
Arguments UdpRelay {_ _ _} _ _ _.
Arguments ReusedSession {_ _ _} _.
Arguments Fallback {_ _ _} _ _.

Section camouflage.
Context (blake2s : list Z -> list Z) (p : profile) (known_type known_version : Z -> bool)
  (stale : nat -> list Z) (parse_message : list Z -> option tls_message).
Context {H N : Type} `{!Noise H N}.
Context {St T Sn A F R : Type} `{!AsyncIO St, !AsyncIO T, !AsyncIO Sn, !Socks5 Sn,
  !Lru (list Z) A F, !Lru host_port SocketAddr R}.
(** The tunnel's stream; the two uses of [copy_bidirectional]. *)
Context (snowy_stream : St -> N -> Sn) (copy_tunnel : copier Sn T) (copy_plain : copier St T).

Abbreviation fallback_ends := (option (St * option T)).

(** The arms for [Unauthenticated], [ReplayDetected] and [ClientHelloInvalid]: what was read goes
    to a new connection to the camouflage site, then everything is copied. *)
Definition to_camouflage (connect : res io_error T) (buf : list Z) (io : St)
    : res io_error (Z * Z) * fallback_ends :=
  match connect with
  | Ok b =>
      match write_all buf b with
      | (Ok _, b) => let '(r, (io, b)) := copy_plain (io, b) in (r, Some (io, Some b))
      | (Err e, b) => (Err e, Some (io, Some b))
      | (Panic, b) => (Panic, Some (io, Some b))
      | (Pending, b) => (Pending, Some (io, Some b))
      end
  | Err e => (Err e, Some (io, None))
  | Panic => (Panic, Some (io, None))
  | Pending => (Pending, Some (io, None))
  end.

(** The arm for [ServerHelloInvalid]: what the camouflage site answered goes to the client.
    [peer] is the outcome of [outbound.peer_addr()?], evaluated for a warning. *)
Definition relay_server_hello (peer : res io_error unit) (buf : list Z) (inbound : St) (outbound : T)
    : res io_error (Z * Z) * fallback_ends :=
  match peer with
  | Ok _ =>
      match write_all buf inbound with
      | (Ok _, inbound) =>
          let '(r, (inbound, outbound)) := copy_plain (inbound, outbound) in
          (r, Some (inbound, Some outbound))
      | (Err e, inbound) => (Err e, Some (inbound, Some outbound))
      | (Panic, inbound) => (Panic, Some (inbound, Some outbound))
      | (Pending, inbound) => (Pending, Some (inbound, Some outbound))
      end
  | Err e => (Err e, Some (inbound, Some outbound))
  | Panic => (Panic, Some (inbound, Some outbound))
  | Pending => (Pending, Some (inbound, Some outbound))
  end.

(** The fallback; [IoError] has its own arm before it ([unreachable!]). *)
Definition fallback (peer : res io_error unit) (connect : res io_error T) (e : AcceptError St T A)
    : res io_error (Z * Z) * fallback_ends :=
  match e with
  | ServerHelloInvalid buf inbound outbound => relay_server_hello peer buf inbound outbound
  | ReplayDetected buf io _ _ => to_camouflage connect buf io
  | Unauthenticated buf io => to_camouflage connect buf io
  | ClientHelloInvalid buf io => to_camouflage connect buf io
  | IoError _ => (Panic, None)
  end.

(** A relay's result is logged: only a panic or a relay without end shows. *)
Definition logged {B} (r : res io_error (Z * Z)) (a : B) : res connection_error B :=
  match r with Panic => Panic | Pending => Pending | Ok _ | Err _ => Ok a end.

(** What the outside world does while an accepted tunnel is served: the target's address leads to
    a connection or not, the UDP socket can be bound or not, sessions and UDP relays have their
    schedules. *)
Record tunnel_env := TunnelEnv {
  env_target : Addr -> res io_error T;
  env_bind : res io_error unit;
  env_cache : nat -> R;
  env_udp : list server_udp_event;
  env_now : Instant;
  env_now2 : Instant;
  env_hello : hello_event;
  env_turns : list (turn T);
}.

(** The arm for an accepted tunnel. *)
Definition serve_tunnel (env : tunnel_env) (snowys : Sn)
    : res connection_error (used Sn T fallback_ends) :=
  match handle_accepted (env_now env) (env_now2 env) (env_hello env) (env_turns env) snowys with
  | (Ok (ServeRequest req), snowys) =>
      match cmd req with
      | Connect =>
          outbound ← map_err RemoteUnreachable (env_target env (dest_addr req));
          let '(r, (snowys, outbound)) := copy_tunnel (snowys, outbound) in
          logged r (TcpRelay r snowys outbound)
      | UdpAssociate =>
          _ ← map_err SocketUnbound (env_bind env);
          let '(r, (snowys, sent)) := relay_udp (env_cache env) (env_udp env) (snowys, []) in
          logged r (UdpRelay r snowys sent)
      end
  | (Ok (ServeSession r ctx), _) => _ ← map_err SessionFailed r; Ok (ReusedSession ctx)
  | (Err e, _) => Err (DispatchFailed e)
  | (Panic, _) => Panic
  | (Pending, _) => Pending
  end.

(** [handle_connection].  The first [connect] is that of [accept], the second the fallback's. *)
Definition handle_connection (self : Server) (now : Z) (rng padding : list Z) (peer_addr : option A)
    (connect connect2 : res io_error T) (peer : res io_error unit) (env : tunnel_env) (inbound : St)
    : prog (mutex F) connection_error (used Sn T fallback_ends) := fun m =>
  match accept blake2s p known_type known_version stale parse_message self now rng padding peer_addr
          connect inbound m with
  | (Ok (inbound, noise, _), m) => (serve_tunnel env (snowy_stream inbound noise), m)
  | (Err (IoError e), m) => (Err (AcceptFailed e), m)
  | (Err e, m) =>
      let (r, ends) := fallback peer connect2 e in
      (logged r (Fallback r ends), m)
  | (Panic, m) => (Panic, m)
  | (Pending, m) => (Pending, m)
  end.
End camouflage.

(** ** Proofs *)

Section proofs.
Context (blake2s : list Z -> list Z) (p : profile) (known_type known_version : Z -> bool)
  (stale : nat -> list Z) (parse_message : list Z -> option tls_message).
Context {H N : Type} `{!Noise H N}.
Context {St T Sn A F R : Type} `{!AsyncIO St, !AsyncIOLaws St, !AsyncIO T, !AsyncIOLaws T,
  !AsyncIO Sn, !Socks5 Sn, !Lru (list Z) A F, !LruLaws (list Z) A F, !Lru host_port SocketAddr R}.
Context (snowy_stream : St -> N -> Sn) (copy_tunnel : copier Sn T) (copy_plain : copier St T).
Hypothesis copy_plain_copies : copies copy_plain.
#[local] Set Default Proof Using "Type*".

Abbreviation hello_arrives := (hello_arrives known_type known_version parse_message).
Abbreviation record_ok := (tls_record_ok known_type known_version).
Abbreviation authenticate := (authenticate blake2s p (St:=St) (T:=T) (A:=A)).
Abbreviation nonce chp := (take 32 (psk_e_of chp)).

(** What both ends have received when everything was copied: [outgoing] of the two streams. *)
Definition forwarded (s : St) (t : T) (to_site to_client : list Z) (ends : option (St * option T)) : Prop :=
  exists s' t', ends = Some (s', Some t')
    /\ outgoing t' = outgoing t ++ to_site /\ outgoing s' = outgoing s ++ to_client.

Lemma to_camouflage_forwards (s io : St) (t : T) buf rest :
  incoming io = rest -> only_read s io -> ends s = true -> writable s ->
  ends t = true -> writable t ->
  exists r ends, to_camouflage copy_plain (Ok t) buf io = (Ok r, ends)
    /\ forwarded s t (buf ++ rest) (incoming t) ends.
Proof.
  intros <- (He & Ho & Hw) Hes Hws Het Hwt.
  destruct (write_all_writable buf t Hwt) as (t1 & Hwr & Ho1 & Hi1 & He1 & Hw1).
  destruct (copy_plain_copies io t1) as (s' & t' & Hcopy & Hos & Hot); [auto|done|congruence|congruence|].
  do 2 eexists. unfold to_camouflage. rewrite Hwr, Hcopy. split; [done|].
  exists s', t'. split; [done|]. by rewrite Hot, Ho1, <- app_assoc, Hos, Hi1, Ho.
Qed.

(** A stream whose start is not the wanted message: a whole record of another kind, or a header that
    is no record's.  [buf] becomes [buf'], and [rest] is still to be read: a whole record is in the
    buffer, of a rejected header nothing is kept. *)
Inductive misread {B} (pick : tls_message -> option B) (buf i : list Z) : list Z -> list Z -> Prop :=
| other_record b rest :
    i = b ++ rest -> record_ok b -> (parse_message b ≫= pick) = None -> misread pick buf i b rest
| no_record ct v1 v0 l1 l0 rest :
    i = [ct; v1; v0; l1; l0] ++ rest -> is_bytes [ct; v1; v0; l1; l0] ->
    ~ acceptable known_type known_version ct v1 v0 l1 l0 -> misread pick buf i buf rest.

Lemma read_hello_misread {B S} `{!AsyncIO S, !AsyncIOLaws S} (pick : tls_message -> option B) (s : S) buf buf' rest :
  misread pick buf (incoming s) buf' rest ->
  exists s', read_hello known_type known_version stale parse_message pick (s, buf) = (Ok None, (s', buf'))
    /\ incoming s' = rest /\ only_read s s'.
Proof.
  remember (incoming s) as i eqn:Hi. intros [b rest' -> Hb Hparse|ct v1 v0 l1 l0 rest' -> Hb Hrej].
  - destruct (read_hello_record known_type known_version stale parse_message pick s buf b rest' Hb (eq_sym Hi))
      as (s' & Hr & ?). exists s'. by rewrite Hr, Hparse.
  - destruct (read_tls_rejected known_type known_version stale s buf ct v1 v0 l1 l0 rest' Hb (eq_sym Hi) Hrej)
      as (e & s' & Hr & ?). exists s'. split; [|done]. unfold read_hello. by run Hr.
Qed.

(** The connections that never become a tunnel although the header of their first record arrives
    (with its payload, if it is a record's): it is no ClientHello, it is not authentic, its nonce
    was seen before, or the camouflage site answers it with something else than a ServerHello.  The
    last two arguments are what the site and the prober are to receive. *)
Inductive probe (self : Server) (now : Z) (rng : list Z) (peer_addr : option A) (s : St) (t : T)
    (connect : res io_error T) (m : mutex F) : list Z -> list Z -> Prop :=
| probe_no_hello buf rest :
    misread as_client_hello [] (incoming s) buf rest ->
    probe self now rng peer_addr s t connect m (buf ++ rest) (incoming t)
| probe_stranger b rest chp :
    hello_arrives s b rest chp -> authenticate self now rng chp = Ok None ->
    probe self now rng peer_addr s t connect m (incoming s) (incoming t)
| probe_replay b rest chp h v :
    hello_arrives s b rest chp -> authenticate self now rng chp = Ok (Some h) ->
    poisoned m = false -> assoc (nonce chp) (entries (guarded m)) = Some v ->
    probe self now rng peer_addr s t connect m (incoming s) (incoming t)
| probe_odd_site b rest chp h buf rest2 :
    hello_arrives s b rest chp -> authenticate self now rng chp = Ok (Some h) ->
    poisoned m = false -> assoc (nonce chp) (entries (guarded m)) = None -> is_Some peer_addr ->
    connect = Ok t -> misread as_server_hello b (incoming t) buf rest2 ->
    probe self now rng peer_addr s t connect m (incoming s) (buf ++ rest2).

Lemma accept_odd_site self now rng padding peer_addr (s : St) (t : T) b rest chp h buf rest2 (m : mutex F) :
  hello_arrives s b rest chp -> authenticate self now rng chp = Ok (Some h) ->
  poisoned m = false -> assoc (nonce chp) (entries (guarded m)) = None -> is_Some peer_addr ->
  misread as_server_hello b (incoming t) buf rest2 -> writable t ->
  exists s' t' m', accept blake2s p known_type known_version stale parse_message self now rng padding
      peer_addr (Ok t) s m = (Err (ServerHelloInvalid buf s' t'), m')
    /\ incoming s' = rest /\ only_read s s' /\ incoming t' = rest2 /\ ends t' = ends t
    /\ outgoing t' = outgoing t ++ b /\ writable t'.
Proof.
  intros Harr Hauth Hp Hfresh [peer ->] Hmis Hwt.
  destruct (accept_hello blake2s p known_type known_version stale parse_message self now rng padding
    (Some peer) (Ok t) s b rest chp m Harr) as (s' & Hi & Ho & ->).
  destruct (lru_get_miss _ _ Hfresh) as (f & Hget & _).
  destruct (write_all_writable b t Hwt) as (t1 & Hw & Ho1 & Hi1 & He1 & Hw1).
  rewrite <- Hi1 in Hmis.
  destruct (read_hello_misread as_server_hello t1 b buf rest2 Hmis) as (t2 & Hr & Hi2 & He2 & Ho2 & Hw2).
  exists s', t2, (Mutex false (lru_put (nonce chp) peer f)).
  rewrite Hauth, bind_lift. unfold with_filter, filter_nonce, mbind at 1, prog_bind at 1.
  rewrite Hp, Hget. unfold answer, lift_res. cbn [map_err mbind res_bind].
  rewrite Hw. cbn [map_err mbind res_bind]. rewrite Hr. cbn [map_err mbind res_bind].
  split_and!; try done; [congruence|congruence|auto].
Qed.

(** A prober's connection ends up forwarded, whichever arm serves it. *)
Lemma probe_forwarded self now rng padding peer_addr connect peer env (s : St) (t : T) (m : mutex F)
    to_site to_client :
  probe self now rng peer_addr s t connect m to_site to_client ->
  ends s = true -> writable s -> ends t = true -> writable t -> peer = Ok tt ->
  exists r e m', handle_connection blake2s p known_type known_version stale parse_message
      snowy_stream copy_tunnel copy_plain self now rng padding peer_addr connect (Ok t) peer env s m
    = (Ok (Fallback (Ok r) e), m') /\ forwarded s t to_site to_client e.
Proof.
  intros Hprobe Hes Hws Het Hwt ->.
  destruct Hprobe as [buf rest Hmis|b rest chp Harr Hauth|b rest chp h v Harr Hauth Hp Hseen
    |b rest chp h buf rest2 Harr Hauth Hp Hfresh Hpeer -> Hmis].
  - destruct (read_hello_misread as_client_hello s [] buf rest Hmis) as (s' & Hr & Hi' & Ho).
    destruct (to_camouflage_forwards s s' t buf rest) as (r & e & Hfb & Hfw); [done..|].
    exists r, e, m. unfold handle_connection.
    assert (accept blake2s p known_type known_version stale parse_message self now rng padding
      peer_addr connect s m = (Err (ClientHelloInvalid buf s'), m)) as ->
      by (unfold accept; by rewrite Hr).
    unfold fallback. by rewrite Hfb.
  - destruct (accept_hello blake2s p known_type known_version stale parse_message self now rng padding
      peer_addr connect s b rest chp m Harr) as (s' & Hi' & Ho & Hacc). destruct Harr as (Hi & _ & _).
    destruct (to_camouflage_forwards s s' t b rest) as (r & e & Hfb & Hfw); [done..|]. rewrite <- Hi in Hfw.
    exists r, e, m. unfold handle_connection. rewrite Hacc, Hauth, bind_lift.
    unfold fail, fallback. by rewrite Hfb.
  - destruct (accept_hello blake2s p known_type known_version stale parse_message self now rng padding
      peer_addr connect s b rest chp m Harr) as (s' & Hi' & Ho & Hacc). destruct Harr as (Hi & _ & _).
    destruct (to_camouflage_forwards s s' t b rest) as (r & e & Hfb & Hfw); [done..|]. rewrite <- Hi in Hfw.
    destruct (lru_get_hit _ _ _ Hseen) as (f & Hget & _).
    exists r, e, (Mutex false f). unfold handle_connection. rewrite Hacc, Hauth, bind_lift.
    unfold with_filter, filter_nonce, mbind, prog_bind. rewrite Hp, Hget.
    unfold fail, fallback. by rewrite Hfb.
  - destruct (accept_odd_site self now rng padding peer_addr s t b rest chp h buf rest2 m
      Harr Hauth Hp Hfresh Hpeer Hmis Hwt)
      as (s' & t' & m' & Hacc & Hi' & (He & Ho & Hw) & Hit' & Het' & Hot' & Hwt').
    destruct Harr as (Hi & _ & _).
    destruct (write_all_writable buf s' (Hw Hws)) as (s1 & Hwr & Ho1 & Hi1 & He1 & Hw1).
    destruct (copy_plain_copies s1 t' Hw1 Hwt') as (s2 & t2 & Hcopy & Hos & Hot); [congruence..|].
    do 2 eexists. exists m'. unfold handle_connection. rewrite Hacc. unfold fallback, relay_server_hello.
    rewrite Hwr, Hcopy. split; [reflexivity|]. exists s2, t2. split; [done|].
    by rewrite Hos, Hot, Hot', Ho1, Hi1, Hi', Hit', Ho, Hi, <- !app_assoc.
Qed.
End proofs.

(** ** Correctness *)


(** ** Witnesses *)

Definition no_tunnel : tunnel_env (T:=duplex) (R:=addr_cache) :=
  TunnelEnv (fun _ => Err (IoErr Other "")) (Ok tt) no_cache [] 0 0 HelloFrame [].

(** One connection of a prober that sends [sent] to a site that answers with three bytes: what both
    have received. *)
Definition probed (sent to_site to_client : list Z) : Prop :=
  exists r s' t' m',
    handle_connection demo_digest Debug toy_type toy_version (fun n => replicate n 0) toy_parse_message
      (Sn:=duplex) (fun s _ => s) duplex_copy duplex_copy demo_server 1000 [3] [7] (Some 99)
      (Err (IoErr Other "no route")) (Ok (closed_with [1; 2; 3])) (Ok tt) no_tunnel
      (closed_with sent) (Mutex false (LruList [] 4))
      = (Ok (Fallback (Ok r) (Some (s', Some t'))), m')
    /\ outgoing t' = to_site /\ outgoing s' = to_client.

