(* ===== verification/Proxy.v ===== *)
(** * A proxied connection, from the application to the target
      (shuttle/src/client/plain.rs, shuttle/src/server.rs)

    [Front], [Plain], [Server] and [Camouflage] put together: what a SOCKS5 client writes to the
    proxy, through the client's end of a tunnel and the server's, to the connection to the target. *)
From S2P Require Import Prelude.
From stdpp Require Import strings.
From S2P Require Import Time Stream Lru Opt Trojan Relay UdpClient Plain Http Front.
From S2P Require SessionLoop Server Udp Camouflage.
Open Scope Z_scope.

Section server_end.
Context {V T R : Type} `{!AsyncIO V, !AsyncIOLaws V, !Socks5 V, !Socks5Laws V, !AsyncIO T, !AsyncIOLaws T,
  !Lru Udp.host_port SocketAddr R}.
Context (copy_tunnel : copier V T).
#[local] Set Default Proof Using "Type*".

(** The server on a tunnel that carries a connect request and ends. *)
Lemma serve_connect (env : Camouflage.tunnel_env (T:=T) (R:=R)) (a : Addr) (v v' : V) (t : T) :
  copies copy_tunnel ->
  read_trojan_like_request v = (Ok (Request Connect a), v') ->
  Camouflage.env_target env a = Ok t -> writable v' -> ends v' = true -> writable t -> ends t = true ->
  exists v2 t2, Camouflage.serve_tunnel (St:=V) copy_tunnel env v
      = Ok (Camouflage.TcpRelay (Ok (Z.of_nat (length (incoming v')), Z.of_nat (length (incoming t)))) v2 t2)
    /\ outgoing v2 = outgoing v' ++ incoming t /\ outgoing t2 = outgoing t ++ incoming v'.
Proof.
  intros Hcopy Hr Ht Hwv Hev Hwt Het. destruct (Hcopy v' t Hwv Hwt Hev Het) as (v2 & t2 & Hc & Hov & Hot).
  exists v2, t2. split; [|done]. apply (attempt_eq (E':=Server.dispatch_error)) in Hr.
  unfold Camouflage.serve_tunnel, Server.handle_accepted, Server.dispatch. run Hr.
  cbn [mret prog_ret cmd dest_addr]. rewrite Ht. cbn [map_err mbind res_bind]. by rewrite Hc.
Qed.
End server_end.

(** C5: CONNECT from end to end, without a pool.  A SOCKS5 client asks the proxy for an address, sends
    [rest] behind its SOCKS5 messages and ends; the target sends its answer and ends; each end of
    the tunnel reads what the other writes.  Then the server connects to the very address asked for,
    the target receives exactly [rest], whether or not part of it is read in time to travel with
    the request header, without a byte of the protocols in between, and the client receives the two
    SOCKS5 answers and then exactly the target's answer.  Both ends count these bytes. *)
Theorem connect_reaches_target {St I V T R : Type} `{!AsyncIO St, !AsyncIOLaws St, !Socks5 St, !Socks5Laws St,
    !AsyncIO I, !AsyncIOLaws I, !Socks5 I, !Socks5Laws I, !Socks5Messages I, !Socks5MessagesLaws I,
    !AsyncIO V, !AsyncIOLaws V, !Socks5 V, !Socks5Laws V, !AsyncIO T, !AsyncIOLaws T,
    !Lru Udp.host_port SocketAddr R}
    (config : ReuseConfig) (uninit : nat -> list Z) (default_addr : Addr)
    (http_parse : list Z -> parsed) (addr_from_str : list Z -> option Addr)
    (read_from : list Z -> res io_error Addr) (copy_tunnel : copier V T)
    (cenv : front_env St I) (senv : Camouflage.tunnel_env (T:=T) (R:=R))
    (methods : list Z) (a : Addr) (b rest : list Z) (first : option nat) (o : St) (w : client_world St I) (t : T) :
  (forall n, length (uninit n) = n) ->
  fe_peek cenv = Ok (Some 5) -> fe_use_pool cenv = false ->
  fe_oneshot cenv = Ok o -> writable o -> ends o = true -> outgoing o = [] -> incoming o = incoming t ->
  fe_first2 cenv = Ok <$> first -> (default 0 first <= length rest)%nat ->
  copies (fe_copy cenv) -> copies copy_tunnel ->
  (length methods < 256)%nat -> wf_addr a -> addr_bytes (St:=I) a = Some b -> addr_bytes (St:=V) a = Some b ->
  incoming (client w) = socks_hello methods CmdConnect b ++ rest -> writable (client w) -> ends (client w) = true ->
  Camouflage.env_target senv a = Ok t -> writable t -> ends t = true ->
  let counts := (Z.of_nat (length rest), Z.of_nat (length (incoming t))) in
  exists o' w',
    handle_connection config uninit default_addr http_parse addr_from_str read_from cenv w
      = (Ok (RelayedTcp (inl counts) (Some o')), w')
    /\ outgoing (client w')
       = outgoing (client w) ++ [5; chosen methods] ++ SOCKS5_CONNECT_SUCCEEDED ++ incoming t
    /\ forall v : V, incoming v = outgoing o' -> ends v = true -> writable v -> outgoing v = [] ->
       exists v' t', Camouflage.serve_tunnel (St:=V) copy_tunnel senv v
           = Ok (Camouflage.TcpRelay (Ok counts) v' t')
         /\ outgoing t' = outgoing t ++ rest /\ outgoing v' = incoming o.
Proof.
  intros Huninit Hpeek Hpool Hone Hw He Ho Hio Hfirst Hn Hcopy Hcopies Hm Ha Hb Hbv Hi Hwc Hec Ht Hwt Het counts.
  destruct (socks_connect_sent (V:=V) config uninit default_addr http_parse addr_from_str read_from cenv methods
    a b rest first o w) as (o' & w' & Hrun & Hcl & Hsent); [done..|].
  rewrite Hio in Hrun, Hcl. exists o', w'. split; [done|]. split; [done|]. intros v Hv Hev Hwv Hov0.
  destruct (Hsent v Hv) as (v1 & Hr & Hi1 & He1 & Ho1 & Hw1).
  destruct (serve_connect copy_tunnel senv a v v1 t) as (v2 & t2 & Hs & Hov & Hot); [done..| | |done|done|].
  - by apply Hw1.
  - by rewrite He1.
  - exists v2, t2. subst counts. rewrite Hi1 in Hs. split; [done|]. split; [by rewrite Hot, Hi1|].
    by rewrite Hov, Ho1, Hov0, Hio.
Qed.

Definition demo_target_env : Camouflage.tunnel_env (T:=duplex) (R:=Udp.addr_cache) :=
  Camouflage.TunnelEnv (fun a => if decide (a = demo_dest) then Ok (closed_with [8; 9]) else Err (IoErr Other "refused"))
    (Ok tt) Udp.no_cache [] 0 0 SessionLoop.HelloFrame [].

Lemma connect_reaches_target_witness :
  exists o' w', handle_connection (St:=duplex) (I:=duplex) default_server_reuse_config fresh_zeros
      unassociated toy_http_parse demo_addr_from_str demo_read_from demo_front_env demo_front_world
      = (Ok (RelayedTcp (inl (4, 2)) (Some o')), w')
  /\ outgoing (client w') = [5; 0; 5; 0; 0; 1; 0; 0; 0; 0; 0; 0; 8; 9]
  /\ exists v' t', Camouflage.serve_tunnel (St:=duplex) duplex_copy demo_target_env
         (closed_with (outgoing o')) = Ok (Camouflage.TcpRelay (Ok (4, 2)) v' t')
       /\ outgoing t' = [1; 2; 3; 4] /\ outgoing v' = [8; 9].
Proof.
  destruct (connect_reaches_target (St:=duplex) (I:=duplex) (V:=duplex) default_server_reuse_config fresh_zeros
    unassociated toy_http_parse demo_addr_from_str demo_read_from duplex_copy demo_front_env
    demo_target_env [2; 0] demo_dest [1; 9; 9; 9; 9; 0; 53] [1; 2; 3; 4] (Some 2%nat) (closed_with [8; 9])
    demo_front_world (closed_with [8; 9]) fresh_zeros_length) as (o' & w' & H & Hcl & Hv);
    [ reflexivity|reflexivity|reflexivity|reflexivity|reflexivity|reflexivity|reflexivity|reflexivity|by_compute|exact duplex_copies|exact duplex_copies|by_compute|by_compute
    |reflexivity|reflexivity|reflexivity|reflexivity|reflexivity|reflexivity|reflexivity|reflexivity|].
  exists o', w'. split; [exact H|]. split; [exact Hcl|].
  exact (Hv (closed_with (outgoing o')) eq_refl eq_refl eq_refl eq_refl).
Defined.
