(* ===== verification/Fp.v ===== *)
(** * Fingerprinted ClientHellos (tunnel/src/fp.rs)

    How a ClientHello is rewritten to look like another client's: cipher suites, the order and the
    set of extensions, the values of some of them with GREASE kept consistent, and the padding of
    RFC 7685.  The message types and their encoding are [rustls]'s, GREASE values come from
    [ja3_rustls]: both are arguments; typed enums are the 16-bit codes they stand for. *)
From S2P Require Import Prelude.
From stdpp Require Import strings gmap.
From S2P Require Import Stream.
Open Scope Z_scope.

Definition RFC7685_PADDING_TARGET : nat := 512.

(** ** Data *)

Record Ja3 := {
  ja3_version : Z;
  ja3_ciphers : list Z;
  ja3_extensions : list Z;
  ja3_curves : list Z;
  ja3_point_formats : list Z;
}.

Record FingerprintSpec := {
  ja3 : option Ja3;
  alpn : option (list (list Z));
  signature_algos : option (list Z);
  supported_versions : option (list Z);
  keyshare_curves : option (list Z);
}.

Definition fingerprint_new : FingerprintSpec := {|
  ja3 := None; alpn := None; signature_algos := None; supported_versions := None;
  keyshare_curves := None;
|}.

Definition is_none {A} (o : option A) : bool := match o with None => true | Some _ => false end.

Definition is_empty (self : FingerprintSpec) : bool :=
  is_none (ja3 self) && is_none (alpn self) && is_none (signature_algos self)
  && is_none (supported_versions self) && is_none (keyshare_curves self).

(** [rustls::ClientExtension]: the variants the code looks into; the others by type and body. *)
Inductive client_extension :=
| NamedGroups (groups : list Z)
| ECPointFormats (formats : list Z)
| Protocols (names : list (list Z))
| SupportedVersions (vers : list Z)
| SignatureAlgorithms (algos : list Z)
| KeyShare (entries : list (Z * list Z))
| Unknown (typ : Z) (payload : list Z)
| OtherExtension (typ : Z) (body : list Z).

Definition ALProtocolNegotiation : Z := 16.
Definition Padding : Z := 21.
Definition RenegotiationInfo : Z := 65281.

(** [ClientExtension::get_type]. *)
Definition get_type (e : client_extension) : Z :=
  match e with
  | NamedGroups _ => 10
  | ECPointFormats _ => 11
  | SignatureAlgorithms _ => 13
  | Protocols _ => ALProtocolNegotiation
  | SupportedVersions _ => 43
  | KeyShare _ => 51
  | Unknown typ _ | OtherExtension typ _ => typ
  end.

(** A ClientHello; [hello_rest] are the fields that are not touched. *)
Record client_hello (R : Type) := ClientHello {
  cipher_suites : list Z;
  extensions : list client_extension;
  hello_rest : R;
}.
Arguments ClientHello {_} _ _ _.
Arguments cipher_suites {_} _.
Arguments extensions {_} _.
Arguments hello_rest {_} _.

(** [rustls::Message]: a handshake message is stored parsed and encoded. *)
Inductive parsed_handshake (R : Type) := ClientHelloMessage (chp : client_hello R) | OtherHandshake (r : R).
Inductive message_payload (R : Type) :=
| Handshake (parsed : parsed_handshake R) (encoded : list Z)
| OtherPayload (r : R).
Record message (R : Type) := Message { msg_version : Z; msg_payload : message_payload R }.
Arguments ClientHelloMessage {_} _.
Arguments OtherHandshake {_} _.
Arguments Handshake {_} _ _.
Arguments OtherPayload {_} _.
Arguments Message {_} _ _.
Arguments msg_version {_} _.
Arguments msg_payload {_} _.

(** [ja3_rustls]'s GREASE; the state counts the random values drawn. *)
Class Grease := {
  is_grease_u16_be : Z -> bool;
  grease_u16_be : forall {E}, prog nat E Z;
  try_regrease_u16_be : forall {E}, Z -> prog nat E Z;
  extensions_regreasing : forall {E}, list Z -> prog nat E (list Z);
}.

(** ** Operations *)

Definition dummy_payload (exttyp : Z) : option (list Z * bool) :=
  if exttyp =? ALProtocolNegotiation then None
  else if exttyp =? RenegotiationInfo then Some ([0], false)
  else if exttyp =? 17513 then Some ([0; 3; 2; 104; 50], false)
  else if exttyp =? Padding then Some ([], true)
  else if exttyp =? 27 then Some ([2; 0; 2], false)
  else Some ([], false).

(** [try_assign!]. *)
Definition try_assign {A} (old : A) (new : option A) : A := default old new.

Section fp.
Context `{!Grease} {R E : Type}.
Abbreviation M := (prog nat E).

(** The dummy for an extension that JA3 lists and the message lacks, and whether it asks for
    padding; ALPN cannot be made up ([panic!]). *)
Definition new_extension (exttyp : Z) : res E (client_extension * bool) :=
  match dummy_payload exttyp with
  | Some (extpld, pad) => Ok (Unknown exttyp extpld, pad)
  | None => Panic
  end.

(** The loop over JA3's extension types; [oldextmap] holds the message's extensions by type. *)
Fixpoint match_extensions (add_empty : bool) (types : list Z) (oldextmap : gmap Z client_extension)
    : res E (list client_extension * gmap Z client_extension * bool) :=
  match types with
  | [] => Ok ([], oldextmap, false)
  | exttyp :: types =>
      match oldextmap !! exttyp with
      | Some extension =>
          r ← match_extensions add_empty types (delete exttyp oldextmap);
          Ok (extension :: r.1.1, r.1.2, r.2)
      | None =>
          if add_empty then
            e ← new_extension exttyp;
            r ← match_extensions add_empty types oldextmap;
            Ok (e.1 :: r.1.1, r.1.2, e.2 || r.2)
          else match_extensions add_empty types oldextmap
      end
  end.

(** [.collect()] into a [HashMap]: of two extensions of one type the later stays. *)
Definition extension_map (exts : list client_extension) : gmap Z client_extension :=
  foldl (fun m e => <[get_type e := e]> m) ∅ exts.

(** The extensions in JA3's order.  [into_values] is the map's, in an order of its own. *)
Definition reorder_extensions (into_values : gmap Z client_extension -> list client_extension)
    (add_empty drop_missing : bool) (fp : FingerprintSpec) (exts : list client_extension)
    : M (list client_extension * bool) :=
  match ja3 fp with
  | None => mret (exts, false)
  | Some ja3 =>
      types ← extensions_regreasing (ja3_extensions ja3);
      r ← lift_res (match_extensions add_empty types (extension_map exts));
      let oldextmap := r.1.2 in
      mret (if negb (bool_decide (oldextmap = ∅)) && negb drop_missing
            then r.1.1 ++ into_values oldextmap else r.1.1, r.2)
  end.

(** One curve: GREASE is replaced.  [grease_curves] is the vector of GREASE values, its last element
    first; it is filled, or, [reuse], used up from the end when it was filled before. *)
Definition grease_curve (reuse : bool) (curve : Z) (grease_curves : list Z) : M (Z * list Z) :=
  if is_grease_u16_be curve then
    if reuse then
      match grease_curves with
      | g :: grease_curves => mret (g, grease_curves)
      | [] => g ← grease_u16_be; mret (g, [])
      end
    else g ← grease_u16_be; mret (g, g :: grease_curves)
  else mret (curve, grease_curves).

(** The curves of [NamedGroups]. *)
Fixpoint named_groups (reuse : bool) (curves grease_curves : list Z) : M (list Z * list Z) :=
  match curves with
  | [] => mret ([], grease_curves)
  | curve :: curves =>
      g ← grease_curve reuse curve grease_curves;
      r ← named_groups reuse curves g.2;
      mret (g.1 :: r.1, r.2)
  end.

(** The entries of [KeyShare]: those of the message for the curves wanted, empty ones otherwise. *)
Fixpoint key_shares (reuse : bool) (fpcurves : list Z) (oldentmap : gmap Z (list Z)) (grease_curves : list Z)
    : M (list (Z * list Z) * list Z) :=
  match fpcurves with
  | [] => mret ([], grease_curves)
  | curve :: fpcurves =>
      match oldentmap !! curve with
      | Some payload =>
          r ← key_shares reuse fpcurves (delete curve oldentmap) grease_curves;
          mret ((curve, payload) :: r.1, r.2)
      | None =>
          g ← grease_curve reuse curve grease_curves;
          r ← key_shares reuse fpcurves oldentmap g.2;
          mret ((g.1, [0]) :: r.1, r.2)
      end
  end.

Fixpoint regrease_all (l : list Z) : M (list Z) :=
  match l with
  | [] => mret []
  | x :: l => y ← try_regrease_u16_be x; l ← regrease_all l; mret (y :: l)
  end.

Definition is_padding (e : client_extension) : bool :=
  match e with Unknown typ _ => typ =? Padding | _ => false end.

Definition is_empty_list {A} (l : list A) : bool := match l with [] => true | _ => false end.

Definition entry_map (entries : list (Z * list Z)) : gmap Z (list Z) :=
  foldl (fun m ent => <[ent.1 := ent.2]> m) ∅ entries.

(** The new value of one extension, with the GREASE values and whether padding is asked for. *)
Definition rewrite_extension (fp : FingerprintSpec) (e : client_extension) (grease_curves : list Z)
    : M (client_extension * list Z * bool) :=
  match e with
  | NamedGroups groups =>
      match ja3 fp with
      | Some ja3 =>
          r ← named_groups (negb (is_empty_list grease_curves)) (ja3_curves ja3) grease_curves;
          mret (NamedGroups r.1, r.2, false)
      | None => mret (e, grease_curves, false)
      end
  | ECPointFormats formats =>
      mret (ECPointFormats (try_assign formats (ja3_point_formats <$> ja3 fp)), grease_curves, false)
  | Protocols names => mret (Protocols (try_assign names (alpn fp)), grease_curves, false)
  | SupportedVersions vers =>
      match supported_versions fp with
      | Some vers => vers ← regrease_all vers; mret (SupportedVersions vers, grease_curves, false)
      | None => mret (e, grease_curves, false)
      end
  | SignatureAlgorithms algos =>
      match signature_algos fp with
      | Some algos => algos ← regrease_all algos; mret (SignatureAlgorithms algos, grease_curves, false)
      | None => mret (e, grease_curves, false)
      end
  | KeyShare entries =>
      match keyshare_curves fp with
      | Some fpcurves =>
          r ← key_shares (negb (is_empty_list grease_curves)) fpcurves (entry_map entries) grease_curves;
          mret (KeyShare r.1, r.2, false)
      | None => mret (e, grease_curves, false)
      end
  | Unknown typ payload =>
      if typ =? Padding then mret (Unknown typ [], grease_curves, true)
      else mret (e, grease_curves, false)
  | OtherExtension _ _ => mret (e, grease_curves, false)
  end.

Fixpoint rewrite_extensions (fp : FingerprintSpec) (exts : list client_extension) (grease_curves : list Z)
    : M (list client_extension * bool) :=
  match exts with
  | [] => mret ([], false)
  | e :: exts =>
      r ← rewrite_extension fp e grease_curves;
      rs ← rewrite_extensions fp exts r.1.2;
      mret (r.1.1 :: rs.1, r.2 || rs.2)
  end.

(** [payload.0.resize(padlen, 0)] of the first padding extension. *)
Fixpoint pad_first (padlen : nat) (exts : list client_extension) : list client_extension :=
  match exts with
  | [] => []
  | e :: exts =>
      if is_padding e
      then match e with
           | Unknown typ payload =>
               Unknown typ (take padlen payload ++ replicate (padlen - length payload) 0)
           | _ => e
           end :: exts
      else e :: pad_first padlen exts
  end.

(** [encode] is [HandshakeMessagePayload::get_encoding]. *)
Context (into_values : gmap Z client_extension -> list client_extension)
  (encode : parsed_handshake R -> list Z).

(** The rewriting of a ClientHello up to padding. *)
Definition rewrite_hello (add_empty drop_missing : bool) (fp : FingerprintSpec) (chp : client_hello R)
    : M (client_hello R * bool) :=
  let ciphers := try_assign (cipher_suites chp) (ja3_ciphers <$> ja3 fp) in
  r ← reorder_extensions into_values add_empty drop_missing fp (extensions chp);
  rs ← rewrite_extensions fp r.1 [];
  mret (ClientHello ciphers rs.1 (hello_rest chp), r.2 || rs.2).

(** The padding step. *)
Definition pad_hello (chp : client_hello R) : client_hello R :=
  let padlen := (RFC7685_PADDING_TARGET - length (encode (ClientHelloMessage chp)))%nat in
  if (padlen =? 0)%nat then chp
  else ClientHello (cipher_suites chp) (pad_first padlen (extensions chp)) (hello_rest chp).

(** [overwrite_client_hello_with_fingerprint_spec]; the result are the allowed unsolicited server
    extensions. *)
Definition overwrite_client_hello (add_empty drop_missing : bool) (fp : FingerprintSpec) (msg : message R)
    : M (message R * list Z) :=
  let version := try_assign (msg_version msg) (ja3_version <$> ja3 fp) in
  payload ←
    match msg_payload msg with
    | Handshake (ClientHelloMessage chp) _ =>
        r ← rewrite_hello add_empty drop_missing fp chp;
        let parsed := ClientHelloMessage (if r.2 : bool then pad_hello r.1 else r.1) in
        mret (Handshake parsed (encode parsed))
    | Handshake parsed _ => mret (Handshake parsed (encode parsed))
    | OtherPayload r => mret (OtherPayload r)
    end;
  mret (Message version payload, [RenegotiationInfo]).

(** [get_client_hello_overwriter]. *)
Definition get_client_hello_overwriter (self : FingerprintSpec) (add_empty drop_missing : bool)
    : option (message R -> M (message R * list Z)) :=
  if is_empty self then None else Some (overwrite_client_hello add_empty drop_missing self).
End fp.

(** [DEFAULT_ALPN_PROTOCOLS] (common.rs); the registered name of HTTP/2 would be h2. *)
Definition DEFAULT_ALPN_PROTOCOLS : list (list Z) := [byte_string "http/2"; byte_string "http/1.1"].

(** The protocols that [Client::connect] configures [rustls] with: those of the fingerprint are
    effective only if its JA3 lists ALPN. *)
Definition alpn_protocols (fp : FingerprintSpec) : list (list Z) :=
  match ja3 fp with
  | Some ja3 =>
      if existsb (fun ext => ext =? ALProtocolNegotiation) (ja3_extensions ja3)
      then default DEFAULT_ALPN_PROTOCOLS (alpn fp) else []
  | None => []
  end.

(** ** Specification *)

(** RFC 8701, section 2. *)
Definition rfc8701 (x : Z) : Prop := exists k, 0 <= k < 16 /\ x = 2570 + 4112 * k.

(** A list with its GREASE values replaced by GREASE values. *)
Definition regreased `{!Grease} (l l' : list Z) : Prop :=
  Forall2 (fun x y => if is_grease_u16_be x then is_grease_u16_be y = true else y = x) l l'.

(** What [ja3_rustls] documents. *)
Class GreaseLaws `{!Grease} : Prop := {
  is_grease_spec x : is_grease_u16_be x = true <-> rfc8701 x;
  grease_ok {E : Type} n : exists g n', grease_u16_be (E:=E) n = (Ok g, n') /\ is_grease_u16_be g = true;
  try_regrease_ok {E : Type} x n : exists y n', try_regrease_u16_be (E:=E) x n = (Ok y, n')
    /\ (if is_grease_u16_be x then is_grease_u16_be y = true else y = x);
  extensions_regreasing_ok {E : Type} l n : exists l' n', extensions_regreasing (E:=E) l n = (Ok l', n')
    /\ regreased l l';
}.

(** What may become of one extension. *)
Definition rewritten `{!Grease} (fp : FingerprintSpec) (e e' : client_extension) : Prop :=
  match e with
  | NamedGroups groups => exists groups', e' = NamedGroups groups'
      /\ match ja3 fp with Some j => regreased (ja3_curves j) groups' | None => groups' = groups end
  | ECPointFormats formats =>
      e' = ECPointFormats (match ja3 fp with Some j => ja3_point_formats j | None => formats end)
  | Protocols names => e' = Protocols (match alpn fp with Some l => l | None => names end)
  | SupportedVersions vers => exists vers', e' = SupportedVersions vers'
      /\ match supported_versions fp with Some l => regreased l vers' | None => vers' = vers end
  | SignatureAlgorithms algos => exists algos', e' = SignatureAlgorithms algos'
      /\ match signature_algos fp with Some l => regreased l algos' | None => algos' = algos end
  | KeyShare entries => exists entries', e' = KeyShare entries'
      /\ match keyshare_curves fp with
         | Some l => regreased l entries'.*1 /\ Forall (fun c => c ∈ entries \/ c.2 = [0]) entries'
         | None => entries' = entries
         end
  | Unknown typ payload => exists payload', e' = Unknown typ payload'
      /\ if typ =? Padding then Forall (eq 0) payload' else payload' = payload
  | OtherExtension _ _ => e' = e
  end.

(** An extension of the new message: one of the old message or a dummy, rewritten. *)
Definition customised `{!Grease} (fp : FingerprintSpec) (exts : list client_extension)
    (e' : client_extension) : Prop :=
  exists e, (e ∈ exts \/ exists typ payload pad, dummy_payload typ = Some (payload, pad) /\ e = Unknown typ payload)
    /\ rewritten fp e e'.

(** The message with its padding emptied. *)
Definition strip_padding (e : client_extension) : client_extension :=
  match e with Unknown typ payload => Unknown typ (if typ =? Padding then [] else payload) | _ => e end.
Definition stripped {R} (chp : client_hello R) : client_hello R :=
  ClientHello (cipher_suites chp) (strip_padding <$> extensions chp) (hello_rest chp).

(** ** Proofs *)

(** *** The order of the extensions *)

Definition typed (m : gmap Z client_extension) : Prop := forall t e, m !! t = Some e -> get_type e = t.

Lemma extension_map_nil t : extension_map [] !! t = None.
Proof. apply lookup_empty. Qed.

Lemma extension_map_app exts e : extension_map (exts ++ [e]) = <[get_type e := e]> (extension_map exts).
Proof. unfold extension_map. by rewrite foldl_app. Qed.

Lemma extension_map_lookup exts t e : extension_map exts !! t = Some e -> get_type e = t /\ e ∈ exts.
Proof.
  induction exts as [|x l IH] using rev_ind; [by rewrite extension_map_nil|].
  rewrite extension_map_app, elem_of_app, list_elem_of_singleton.
  intros [[? ?]|[? ?]]%lookup_insert_Some; subst; [by auto|]. destruct IH; auto.
Qed.

Lemma extension_map_present exts t : t ∈ get_type <$> exts <-> is_Some (extension_map exts !! t).
Proof.
  induction exts as [|x l IH] using rev_ind; [split; [set_solver|by rewrite extension_map_nil; intros []]|].
  rewrite extension_map_app, fmap_app, elem_of_app, lookup_insert_is_Some, IH. cbn.
  rewrite list_elem_of_singleton. destruct (decide (get_type x = t)); intuition congruence.
Qed.

Lemma extension_map_values exts : NoDup (get_type <$> exts) -> (map_to_list (extension_map exts)).*2 ≡ₚ exts.
Proof.
  induction exts as [|x l IH] using rev_ind; intros Hnd; [done|].
  rewrite extension_map_app. rewrite fmap_app in Hnd. apply NoDup_app in Hnd as (Hl & Hx & _).
  rewrite map_to_list_insert; [cbn; rewrite IH by done; apply Permutation_cons_append|].
  apply eq_None_not_Some. rewrite <- extension_map_present. intros Hin. apply (Hx _ Hin). by left.
Qed.

(** How many times a list of types asks for ALPN. *)
Definition alpn_listed (types : list Z) : nat := count_occ Z.eq_dec types ALProtocolNegotiation.

Section order_proofs.
Context {E : Type}.

Lemma new_extension_ok typ : typ <> ALProtocolNegotiation -> exists payload pad,
  dummy_payload typ = Some (payload, pad) /\ new_extension (E:=E) typ = Ok (Unknown typ payload, pad).
Proof.
  intros Hne%Z.eqb_neq. unfold new_extension, dummy_payload. rewrite Hne.
  repeat case_match; eauto.
Qed.

Lemma match_extensions_all types m :
  typed m ->
  (alpn_listed types <= if decide (is_Some (m !! ALProtocolNegotiation)) then 1 else 0)%nat ->
  exists es m' pad, match_extensions (E:=E) true types m = Ok (es, m', pad) /\ get_type <$> es = types
    /\ Forall (fun e => (exists t, m !! t = Some e)
         \/ exists typ payload pad, dummy_payload typ = Some (payload, pad) /\ e = Unknown typ payload) es.
Proof.
  unfold alpn_listed. revert m. induction types as [|t types IH]; intros m Hm Hal; [by eexists _, _, _|].
  cbn [match_extensions count_occ] in *. destruct (m !! t) as [e|] eqn:Ht.
  - destruct (IH (delete t m)) as (es & m' & pad & -> & Hty & Hfrom).
    + intros t' e' [_ ?]%lookup_delete_Some. by apply Hm.
    + destruct (Z.eq_dec t ALProtocolNegotiation) as [->|].
      * destruct (decide (is_Some (m !! _))) as [|[]]; [lia|by rewrite Ht].
      * by rewrite lookup_delete_ne by done.
    + eexists _, _, _. split; [done|]. cbn. rewrite (Hm _ _ Ht), Hty. split; [done|].
      constructor; [eauto|]. eapply Forall_impl; [done|]. cbn.
      intros ? [[? [_ ?]%lookup_delete_Some]|?]; eauto.
  - destruct (Z.eq_dec t ALProtocolNegotiation) as [->|Hne].
    { destruct (decide _) as [[? ?]|]; [congruence|lia]. }
    destruct (new_extension_ok t Hne) as (pld & p & Hd & ->).
    destruct (IH m Hm Hal) as (es & m' & pad & Hes & Hty & Hfrom). cbn. rewrite Hes.
    eexists _, _, _. split; [done|]. cbn. rewrite Hty. split; [done|]. constructor; [|done]. right. eauto.
Qed.

Lemma match_extensions_none types m :
  exists es m', match_extensions (E:=E) false types m = Ok (es, m', false)
    /\ es ++ (map_to_list m').*2 ≡ₚ (map_to_list m).*2.
Proof.
  revert m. induction types as [|t types IH]; intros m; [by eexists _, _|].
  cbn [match_extensions]. destruct (m !! t) as [e|] eqn:Ht; [|by apply IH].
  destruct (IH (delete t m)) as (es & m' & -> & Hp). eexists _, _. split; [done|].
  cbn. rewrite Hp. rewrite <- (map_to_list_delete m t e Ht). done.
Qed.

Lemma match_extensions_alpn types m :
  In ALProtocolNegotiation types -> m !! ALProtocolNegotiation = None ->
  match_extensions (E:=E) true types m = Panic.
Proof.
  intros Hin. revert m. induction types as [|t types IH]; intros m Hm; [by inversion Hin|]. cbn.
  destruct (decide (t = ALProtocolNegotiation)) as [->|Hne]; [by rewrite Hm|].
  destruct Hin as [?|Hin]; [done|]. destruct (m !! t).
  - rewrite IH; [done..|]. by rewrite lookup_delete_ne.
  - destruct (new_extension_ok t Hne) as (pld & p & _ & ->). cbn. by rewrite IH.
Qed.

(** A key share is never made up. *)
Lemma match_extensions_key_share add_empty types m es m' pad entries :
  match_extensions (E:=E) add_empty types m = Ok (es, m', pad) -> KeyShare entries ∈ es ->
  exists t, m !! t = Some (KeyShare entries).
Proof.
  revert m es m' pad. induction types as [|t types IH]; intros m es m' pad Hm Hin; cbn in Hm.
  { injection Hm as <- _ _. by apply not_elem_of_nil in Hin. }
  destruct (m !! t) as [e|] eqn:Ht.
  - destruct (match_extensions _ _ _) as [[[es1 m1] p1]| | |] eqn:Hr; cbn in Hm; [|done..].
    injection Hm as <- _ _. apply elem_of_cons in Hin as [->|Hin]; [eauto|].
    destruct (IH _ _ _ _ Hr Hin) as [t' [_ ?]%lookup_delete_Some]. eauto.
  - destruct add_empty; [|eauto]. destruct (new_extension t) as [[e p]| | |] eqn:He; cbn in Hm; [|done..].
    destruct (match_extensions _ _ _) as [[[es1 m1] p1]| | |] eqn:Hr; cbn in Hm; [|done..].
    injection Hm as <- _ _. apply elem_of_cons in Hin as [<-|Hin]; [|eauto].
    unfold new_extension in He. destruct (dummy_payload t) as [[? ?]|]; simplify_eq.
Qed.
End order_proofs.

Section fp_proofs.
Context `{!Grease, !GreaseLaws} {E : Type}.
#[local] Set Default Proof Using "All".

Lemma alpn_not_grease : is_grease_u16_be ALProtocolNegotiation = false.
Proof.
  apply not_true_is_false. intros (k & Hk & Heq)%is_grease_spec. unfold ALProtocolNegotiation in Heq. lia.
Qed.


(** *** The values of the extensions *)

Definition greases (l : list Z) : list Z := filter (fun x => is_grease_u16_be x = true) l.

(** How the vector of GREASE values relates to the [k] of them that [l] contains. *)
Definition drawn (reuse : bool) (k : nat) (gc gc' l : list Z) : Prop :=
  if reuse
  then gc' = drop k gc /\ exists extra, greases l = take k gc ++ extra /\ (length extra = k - length gc)%nat
  else gc' = reverse (greases l) ++ gc /\ length (greases l) = k.

(** What one curve does to the vector. *)
Definition one_drawn (reuse : bool) (curve g : Z) (gc gc' : list Z) : Prop :=
  if is_grease_u16_be curve
  then is_grease_u16_be g = true
    /\ if reuse then gc' = drop 1 gc /\ (gc = [] \/ gc = g :: gc') else gc' = g :: gc
  else g = curve /\ gc' = gc.

Lemma greases_cons x l :
  greases (x :: l) = if is_grease_u16_be x then x :: greases l else greases l.
Proof. unfold greases. rewrite filter_cons. by destruct (is_grease_u16_be x). Qed.

Lemma grease_curve_ok reuse curve gc n : Forall (fun x => is_grease_u16_be x = true) gc ->
  exists g gc' n', grease_curve (E:=E) reuse curve gc n = (Ok (g, gc'), n')
    /\ Forall (fun x => is_grease_u16_be x = true) gc'
    /\ one_drawn reuse curve g gc gc'.
Proof.
  intros Hgc. unfold grease_curve, one_drawn. destruct (is_grease_u16_be curve) eqn:Hc; [|by eexists _, _, _].
  destruct (grease_ok (E:=E) n) as (g & n' & Hg & Hgr).
  destruct reuse; [destruct gc as [|x gc]|].
  - run Hg. eexists _, _, _. split; [done|]. eauto.
  - inversion Hgc; subst. eexists _, _, _. split; [done|]. eauto.
  - run Hg. eexists _, _, _. split; [done|]. eauto.
Qed.

(** One curve more. *)
Lemma drawn_cons reuse k curve g gc gc1 gc' l :
  one_drawn reuse curve g gc gc1 ->
  drawn reuse k gc1 gc' l ->
  drawn reuse ((if is_grease_u16_be curve then 1 else 0) + k) gc gc' (g :: l).
Proof.
  intros Hg Hd. unfold drawn, one_drawn in *. rewrite greases_cons.
  destruct (is_grease_u16_be curve) eqn:Hc; [|by destruct Hg as [-> ->]; rewrite Hc].
  destruct Hg as [-> Hg]. destruct reuse.
  - destruct Hd as [-> (extra & -> & Hlen)], Hg as [-> Hgc].
    destruct gc as [|x gc]; [|destruct Hgc; simplify_eq]; cbn in *.
    + rewrite !drop_nil, take_nil in *. split; [done|]. exists (g :: extra). cbn. split; [done|]. lia.
    + split; [done|]. by exists extra.
  - destruct Hd as [-> <-]. subst. by rewrite reverse_cons, <- app_assoc.
Qed.

Lemma drawn_nil reuse gc : drawn reuse 0 gc gc [].
Proof. unfold drawn. destruct reuse; [split; [by rewrite drop_0|by exists []]|done]. Qed.

Lemma length_greases_cons x l :
  length (greases (x :: l)) = ((if is_grease_u16_be x then 1 else 0) + length (greases l))%nat.
Proof. rewrite greases_cons. by destruct (is_grease_u16_be x). Qed.

Lemma one_drawn_regreased reuse curve g gc gc' :
  one_drawn reuse curve g gc gc' -> if is_grease_u16_be curve then is_grease_u16_be g = true else g = curve.
Proof. unfold one_drawn. destruct (is_grease_u16_be curve); by intros []. Qed.

Lemma named_groups_ok reuse curves gc n : Forall (fun x => is_grease_u16_be x = true) gc ->
  exists gs gc' n', named_groups (E:=E) reuse curves gc n = (Ok (gs, gc'), n')
    /\ Forall (fun x => is_grease_u16_be x = true) gc' /\ regreased curves gs
    /\ drawn reuse (length (greases curves)) gc gc' gs.
Proof.
  revert gc n. induction curves as [|curve curves IH]; intros gc n Hgc; cbn [named_groups].
  { eexists _, _, _. split_and!; [done|done|constructor|apply drawn_nil]. }
  destruct (grease_curve_ok reuse curve gc n Hgc) as (g & gc1 & n1 & Hg & Hgc1 & Hone). run Hg.
  destruct (IH gc1 n1 Hgc1) as (gs & gc' & n' & Hgs & Hgc' & Hreg & Hd). run Hgs.
  eexists _, _, _. split_and!; [done|done| |].
  - constructor; [|done]. by eapply one_drawn_regreased.
  - rewrite length_greases_cons. by eapply drawn_cons.
Qed.

Lemma key_shares_ok reuse curves m gc n : Forall (fun x => is_grease_u16_be x = true) gc ->
  exists es gc' n', key_shares (E:=E) reuse curves m gc n = (Ok (es, gc'), n')
    /\ Forall (fun x => is_grease_u16_be x = true) gc' /\ regreased curves es.*1
    /\ Forall (fun c => m !! c.1 = Some c.2 \/ c.2 = [0]) es
    /\ ((forall c, is_Some (m !! c) -> is_grease_u16_be c = false) ->
        drawn reuse (length (greases curves)) gc gc' es.*1).
Proof.
  revert m gc n. induction curves as [|curve curves IH]; intros m gc n Hgc; cbn [key_shares].
  { eexists _, _, _. split_and!; [done|done|constructor|constructor|intros; apply drawn_nil]. }
  destruct (m !! curve) as [payload|] eqn:Hm.
  - destruct (IH (delete curve m) gc n Hgc) as (es & gc' & n' & Hes & Hgc' & Hreg & Hfrom & Hd). run Hes.
    eexists _, _, _. split_and!; [done|done| | |].
    + constructor; [|done]. by destruct (is_grease_u16_be curve) eqn:?.
    + constructor; [by left|]. eapply Forall_impl; [done|]. cbn.
      intros c [[_ ?]%lookup_delete_Some|?]; auto.
    + intros Hno. rewrite length_greases_cons. cbn.
      assert (is_grease_u16_be curve = false) as Hc by (apply Hno; eauto).
      eapply drawn_cons; [unfold one_drawn; by rewrite Hc|].
      apply Hd. intros c [? [_ ?]%lookup_delete_Some]. eauto.
  - destruct (grease_curve_ok reuse curve gc n Hgc) as (g & gc1 & n1 & Hg & Hgc1 & Hone). run Hg.
    destruct (IH m gc1 n1 Hgc1) as (es & gc' & n' & Hes & Hgc' & Hreg & Hfrom & Hd). run Hes.
    eexists _, _, _. split_and!; [done|done| | |].
    + constructor; [|done]. by eapply one_drawn_regreased.
    + constructor; auto.
    + intros Hno. rewrite length_greases_cons. eapply drawn_cons; eauto.
Qed.

Lemma entry_map_nil c : entry_map [] !! c = None.
Proof. apply lookup_empty. Qed.

Lemma entry_map_lookup entries c p : entry_map entries !! c = Some p -> (c, p) ∈ entries.
Proof.
  induction entries as [|x l IH] using rev_ind; [by rewrite entry_map_nil|].
  unfold entry_map in *. rewrite foldl_app, elem_of_app, list_elem_of_singleton. cbn.
  intros [[<- <-]|[? ?]]%lookup_insert_Some; [right; by destruct x|auto].
Qed.

Lemma regrease_all_ok l n : exists l' n', regrease_all (E:=E) l n = (Ok l', n') /\ regreased l l'.
Proof.
  revert n. induction l as [|x l IH]; intros n; cbn [regrease_all]; [eexists _, _; by split; [|constructor]|].
  destruct (try_regrease_ok (E:=E) x n) as (y & n1 & Hy & Hxy). run Hy.
  destruct (IH n1) as (l' & n' & Hl & Hreg). run Hl. eexists _, _. split; [done|]. by constructor.
Qed.

Lemma rewrite_extension_ok fp e gc n : Forall (fun x => is_grease_u16_be x = true) gc ->
  exists e' gc' pad n', rewrite_extension (E:=E) fp e gc n = (Ok (e', gc', pad), n')
    /\ Forall (fun x => is_grease_u16_be x = true) gc'
    /\ rewritten fp e e' /\ get_type e' = get_type e
    /\ strip_padding e' = e' /\ pad = is_padding e'.
Proof.
  intros Hgc. destruct e as [groups|formats|names|vers|algos|entries|typ payload|typ body]; cbn [rewrite_extension rewritten].
  - destruct (ja3 fp) as [j|]; [|by eexists _, _, _, _; split_and!; eauto].
    destruct (named_groups_ok (negb (is_empty_list gc)) (ja3_curves j) gc n Hgc)
      as (gs & gc' & n' & Hgs & ? & ? & _). run Hgs. eexists _, _, _, _. split_and!; eauto.
  - eexists _, _, _, _. split_and!; [done|done| |done..]. by destruct (ja3 fp).
  - eexists _, _, _, _. split_and!; [done|done| |done..]. by destruct (alpn fp).
  - destruct (supported_versions fp) as [l|]; [|by eexists _, _, _, _; split_and!; eauto].
    destruct (regrease_all_ok l n) as (l' & n' & Hl & ?). run Hl. eexists _, _, _, _. split_and!; eauto.
  - destruct (signature_algos fp) as [l|]; [|by eexists _, _, _, _; split_and!; eauto].
    destruct (regrease_all_ok l n) as (l' & n' & Hl & ?). run Hl. eexists _, _, _, _. split_and!; eauto.
  - destruct (keyshare_curves fp) as [l|]; [|by eexists _, _, _, _; split_and!; eauto].
    destruct (key_shares_ok (negb (is_empty_list gc)) l (entry_map entries) gc n Hgc)
      as (es & gc' & n' & Hes & ? & ? & Hfrom & _). run Hes. eexists _, _, _, _. split_and!; [done|done| |done..].
    eexists. split; [done|]. split; [done|]. eapply Forall_impl; [done|]. cbn.
    intros [c p] [?%entry_map_lookup|?]; auto.
  - destruct (typ =? Padding) eqn:Ht; eexists _, _, _, _; (split_and!; [done|done|eauto|done|cbn; by rewrite Ht..]).
  - by eexists _, _, _, _; split_and!.
Qed.

Lemma rewrite_extensions_ok fp es gc n : Forall (fun x => is_grease_u16_be x = true) gc ->
  exists es' n', rewrite_extensions (E:=E) fp es gc n = (Ok (es', existsb is_padding es'), n')
    /\ Forall2 (rewritten fp) es es' /\ get_type <$> es' = get_type <$> es
    /\ strip_padding <$> es' = es'.
Proof.
  revert gc n. induction es as [|e es IH]; intros gc n Hgc; cbn [rewrite_extensions].
  { eexists [], n. split_and!; [done|constructor|done|done]. }
  destruct (rewrite_extension_ok fp e gc n Hgc) as (e' & gc1 & pad & n1 & He & Hgc1 & Hrw & Ht & Hs & ->). run He.
  destruct (IH gc1 n1 Hgc1) as (es' & n' & Hes & Hrws & Hts & Hss). cbn. run Hes.
  exists (e' :: es'), n'. split_and!; [done|by constructor|cbn; by rewrite Ht, Hts|cbn; by rewrite Hs, Hss].
Qed.

(** *** GREASE curves of the two extensions agree *)

Lemma rewrite_extension_curves fp e gc n e' gc' pad n' :
  Forall (fun x => is_grease_u16_be x = true) gc ->
  rewrite_extension (E:=E) fp e gc n = (Ok (e', gc', pad), n') ->
  match e with
  | NamedGroups _ => forall j, ja3 fp = Some j -> exists gs, e' = NamedGroups gs
      /\ drawn (negb (is_empty_list gc)) (length (greases (ja3_curves j))) gc gc' gs
  | KeyShare entries => forall l, keyshare_curves fp = Some l -> exists ents, e' = KeyShare ents
      /\ (greases entries.*1 = [] -> drawn (negb (is_empty_list gc)) (length (greases l)) gc gc' ents.*1)
  | _ => gc' = gc
  end.
Proof.
  intros Hgc Hrun. destruct e as [groups|formats|names|vers|algos|entries|typ payload|typ body]; cbn [rewrite_extension] in Hrun.
  - intros j Hj. rewrite Hj in Hrun.
    destruct (named_groups_ok (negb (is_empty_list gc)) (ja3_curves j) gc n Hgc) as (gs & gc1 & n1 & Hgs & _ & _ & Hd).
    rewrite (bind_ok _ _ _ _ _ Hgs) in Hrun. injection Hrun as <- <- _ _. eauto.
  - by injection Hrun.
  - by injection Hrun.
  - destruct (supported_versions fp) as [l|]; [apply bind_inv_ok in Hrun as (? & ? & _ & [=])|injection Hrun]; done.
  - destruct (signature_algos fp) as [l|]; [apply bind_inv_ok in Hrun as (? & ? & _ & [=])|injection Hrun]; done.
  - intros l Hl. rewrite Hl in Hrun.
    destruct (key_shares_ok (negb (is_empty_list gc)) l (entry_map entries) gc n Hgc)
      as (es & gc1 & n1 & Hes & _ & _ & _ & Hd).
    rewrite (bind_ok _ _ _ _ _ Hes) in Hrun. injection Hrun as <- <- _ _. eexists. split; [done|].
    intros Hno. apply Hd. intros c [p Hp%entry_map_lookup]. apply not_true_is_false. intros Hc.
    assert (c ∈ greases entries.*1) as Hin; [|by rewrite Hno in Hin; apply not_elem_of_nil in Hin].
    apply list_elem_of_filter. split; [done|]. apply list_elem_of_fmap. by exists (c, p).
  - destruct (typ =? Padding); by injection Hrun.
  - by injection Hrun.
Qed.

(** One extension and the rest. *)
Lemma rewrite_extensions_cons fp e es gc n rs pad n' :
  Forall (fun x => is_grease_u16_be x = true) gc ->
  rewrite_extensions (E:=E) fp (e :: es) gc n = (Ok (rs, pad), n') ->
  exists e' es' gc1 p1 n1 p2, rs = e' :: es' /\ rewrite_extension (E:=E) fp e gc n = (Ok (e', gc1, p1), n1)
    /\ Forall (fun x => is_grease_u16_be x = true) gc1
    /\ rewrite_extensions (E:=E) fp es gc1 n1 = (Ok (es', p2), n')
    /\ rewritten fp e e' /\ get_type <$> es' = get_type <$> es.
Proof.
  intros Hgc Hrun. cbn [rewrite_extensions] in Hrun.
  destruct (rewrite_extension_ok fp e gc n Hgc) as (e' & gc1 & p1 & n1 & He & Hgc1 & Hrw & _).
  rewrite (bind_ok _ _ _ _ _ He) in Hrun.
  destruct (rewrite_extensions_ok fp es gc1 n1 Hgc1) as (es' & n2 & Hes & _ & Hts & _).
  cbn in Hrun. rewrite (bind_ok _ _ _ _ _ Hes) in Hrun. injection Hrun as <- <- <-.
  exists e', es', gc1, p1, n1. eexists. by split_and!.
Qed.

Lemma elem_of_type e (es : list client_extension) : e ∈ es -> get_type e ∈ get_type <$> es.
Proof. apply list_elem_of_fmap_2. Qed.

Lemma rewritten_key_share fp e ents : rewritten fp e (KeyShare ents) -> exists entries, e = KeyShare entries.
Proof. destruct e; cbn; try done; try (intros (? & ? & _); done). eauto. Qed.

Lemma rewritten_named_groups fp e gs : rewritten fp e (NamedGroups gs) -> exists groups, e = NamedGroups groups.
Proof. destruct e; cbn; try done; try (intros (? & ? & _); done). eauto. Qed.

Lemma curves_kept fp e gc n e' gc' pad n' :
  Forall (fun x => is_grease_u16_be x = true) gc ->
  rewrite_extension (E:=E) fp e gc n = (Ok (e', gc', pad), n') ->
  get_type e <> 10 -> get_type e <> 51 -> gc' = gc.
Proof.
  intros Hgc Hrun H10 H51. pose proof (rewrite_extension_curves _ _ _ _ _ _ _ _ Hgc Hrun) as Hc.
  by destruct e.
Qed.

(** [KeyShare] after [NamedGroups] takes the values it left. *)
Lemma key_share_reuses fp l es gc n rs pad n' ents :
  keyshare_curves fp = Some l -> NoDup (get_type <$> es) -> 10 ∉ get_type <$> es ->
  (forall entries, KeyShare entries ∈ es -> greases entries.*1 = []) ->
  Forall (fun x => is_grease_u16_be x = true) gc -> (length (greases l) <= length gc)%nat ->
  rewrite_extensions (E:=E) fp es gc n = (Ok (rs, pad), n') -> KeyShare ents ∈ rs ->
  greases ents.*1 ⊆ gc.
Proof.
  intros Hl Hnd Hng Hno Hgc Hlen. revert n rs pad Hnd Hng Hno.
  induction es as [|e es IH]; intros n rs pad Hnd Hng Hno Hrun Hin; [injection Hrun as <- _ _; set_solver|].
  destruct (rewrite_extensions_cons _ _ _ _ _ _ _ _ Hgc Hrun) as (e' & es' & gc1 & p1 & n1 & p2 & -> & He & Hgc1 & Hes & Hrw & Hts).
  cbn in Hnd, Hng. apply NoDup_cons in Hnd as [Hh Hnd]. apply not_elem_of_cons in Hng as [Hne Hng].
  apply elem_of_cons in Hin as [<-|Hin].
  - destruct (rewritten_key_share _ _ _ Hrw) as [entries ->].
    destruct (rewrite_extension_curves _ _ _ _ _ _ _ _ Hgc He l Hl) as (? & [= <-] & Hd).
    specialize (Hd (Hno _ (list_elem_of_here _ _))). unfold drawn in Hd. destruct gc as [|g gc]; cbn in Hd.
    + destruct Hd as [_ Hk]. destruct (greases ents.*1); [set_solver|cbn in *; lia].
    + destruct Hd as (_ & extra & -> & Hx). destruct extra; [|cbn in *; lia]. rewrite app_nil_r.
      intros x Hx'. eapply subseteq_take; eauto.
  - assert (51 ∈ get_type <$> es) as H51 by (rewrite <- Hts; apply (elem_of_type _ _ Hin)).
    rewrite (curves_kept _ _ _ _ _ _ _ _ Hgc He) in Hes by congruence.
    eapply IH; eauto. intros entries Hent. apply Hno. by right.
Qed.

(** [NamedGroups] after [KeyShare] uses every value it left. *)
Lemma named_groups_reuse fp j es gc n rs pad n' gs :
  ja3 fp = Some j -> NoDup (get_type <$> es) -> 51 ∉ get_type <$> es ->
  Forall (fun x => is_grease_u16_be x = true) gc -> (length gc <= length (greases (ja3_curves j)))%nat ->
  rewrite_extensions (E:=E) fp es gc n = (Ok (rs, pad), n') -> NamedGroups gs ∈ rs ->
  gc ⊆ gs.
Proof.
  intros Hj Hnd Hng Hgc Hlen. revert n rs pad Hnd Hng.
  induction es as [|e es IH]; intros n rs pad Hnd Hng Hrun Hin; [injection Hrun as <- _ _; set_solver|].
  destruct (rewrite_extensions_cons _ _ _ _ _ _ _ _ Hgc Hrun) as (e' & es' & gc1 & p1 & n1 & p2 & -> & He & Hgc1 & Hes & Hrw & Hts).
  cbn in Hnd, Hng. apply NoDup_cons in Hnd as [Hh Hnd]. apply not_elem_of_cons in Hng as [Hne Hng].
  apply elem_of_cons in Hin as [<-|Hin].
  - destruct (rewritten_named_groups _ _ _ Hrw) as [groups ->].
    destruct (rewrite_extension_curves _ _ _ _ _ _ _ _ Hgc He j Hj) as (? & [= <-] & Hd).
    unfold drawn in Hd. destruct gc as [|g gc]; [set_solver|]. cbn [is_empty_list negb] in Hd.
    destruct Hd as (_ & extra & Hx & _). rewrite take_ge in Hx by lia.
    intros x Hx'. assert (x ∈ greases gs) as [_ ?]%list_elem_of_filter; [|done].
    rewrite Hx. apply elem_of_app. by left.
  - assert (10 ∈ get_type <$> es) as H10 by (rewrite <- Hts; apply (elem_of_type _ _ Hin)).
    rewrite (curves_kept _ _ _ _ _ _ _ _ Hgc He) in Hes by congruence. eapply IH; eauto.
Qed.

Lemma grease_curves_agree fp j l es n rs pad n' ents gs :
  ja3 fp = Some j -> keyshare_curves fp = Some l -> (length (greases l) <= length (greases (ja3_curves j)))%nat ->
  NoDup (get_type <$> es) -> (forall entries, KeyShare entries ∈ es -> greases entries.*1 = []) ->
  rewrite_extensions (E:=E) fp es [] n = (Ok (rs, pad), n') -> KeyShare ents ∈ rs -> NamedGroups gs ∈ rs ->
  greases ents.*1 ⊆ gs.
Proof.
  intros Hj Hl Hlen Hnd Hno. revert n rs pad Hnd Hno.
  induction es as [|e es IH]; intros n rs pad Hnd Hno Hrun Hks Hng; [injection Hrun as <- _ _; set_solver|].
  destruct (rewrite_extensions_cons _ _ _ _ _ _ _ _ (Forall_nil_2 _) Hrun)
    as (e' & es' & gc1 & p1 & n1 & p2 & -> & He & Hgc1 & Hes & Hrw & Hts).
  pose proof (rewrite_extension_curves _ _ _ _ _ _ _ _ (Forall_nil_2 _) He) as Hc.
  cbn in Hnd. apply NoDup_cons in Hnd as [Hh Hnd].
  assert (forall x, x ∈ es' -> get_type x ∈ get_type <$> es) as Htail
    by (intros x Hx; rewrite <- Hts; by apply elem_of_type).
  apply elem_of_cons in Hks as [<-|Hks]; apply elem_of_cons in Hng as [?|Hng]; [done| | |].
  - destruct (rewritten_key_share _ _ _ Hrw) as [entries ->]. destruct (Hc l Hl) as (? & [= <-] & Hd).
    destruct (Hd (Hno _ (list_elem_of_here _ _))) as [-> Hk]. rewrite app_nil_r in *.
    trans (reverse (greases ents.*1)); [intros x; by rewrite elem_of_reverse|].
    eapply named_groups_reuse; eauto. rewrite length_reverse. lia.
  - subst e'. destruct (rewritten_named_groups _ _ _ Hrw) as [groups ->]. destruct (Hc j Hj) as (? & [= <-] & -> & Hk).
    rewrite app_nil_r in *. trans (reverse (greases gs)); [|intros x; rewrite elem_of_reverse; by intros [_ ?]%list_elem_of_filter].
    eapply key_share_reuses; eauto; [|rewrite length_reverse; lia]. intros entries Hent. apply Hno. by right.
  - pose proof (Htail _ Hks). pose proof (Htail _ Hng). cbn in *.
    rewrite (curves_kept _ _ _ _ _ _ _ _ (Forall_nil_2 _) He) in Hes by congruence.
    eapply IH; eauto. intros entries Hent. apply Hno. by right.
Qed.

(** *** Padding *)

Lemma pad_first_ok k es :
  get_type <$> pad_first k es = get_type <$> es
  /\ strip_padding <$> pad_first k es = strip_padding <$> es
  /\ existsb is_padding (pad_first k es) = existsb is_padding es.
Proof.
  induction es as [|e es (IHt & IHs & IHe)]; [done|]. cbn. destruct (is_padding e) eqn:He.
  - destruct e; try discriminate. cbn in *. by rewrite He.
  - cbn. by rewrite He, IHt, IHs, IHe.
Qed.

Lemma pad_first_rewritten fp k es es' :
  Forall2 (rewritten fp) es es' -> Forall2 (rewritten fp) es (pad_first k es').
Proof.
  induction 1 as [|e e' es es' He Hes IH]; [constructor|]. cbn. destruct (is_padding e') eqn:Hp; [|by constructor].
  constructor; [|done]. destruct e' as [| | | | | |typ payload|]; try discriminate.
  destruct e as [groups|formats|names|vers|algos|entries|typ' payload'|typ' body]; cbn in *; try done; try by destruct He as (? & ? & _).
  destruct He as (? & [= -> ->] & Hz). rewrite Hp in *. eexists. split; [done|].
  apply Forall_app. split; [by apply Forall_take|]. by apply Forall_replicate.
Qed.

Context {R : Type} (into_values : gmap Z client_extension -> list client_extension)
  (encode : parsed_handshake R -> list Z).

(** The payload of an opaque extension takes as many bytes as it has. *)
Definition payload_encoded : Prop := forall c pre post r p,
  length (encode (ClientHelloMessage (ClientHello c (pre ++ Unknown Padding p :: post) r)))
  = (length (encode (ClientHelloMessage (ClientHello c (pre ++ Unknown Padding [] :: post) r))) + length p)%nat.

Lemma pad_first_split k es : existsb is_padding es = true -> strip_padding <$> es = es ->
  exists pre post, es = pre ++ Unknown Padding [] :: post
    /\ pad_first k es = pre ++ Unknown Padding (replicate k 0) :: post.
Proof.
  induction es as [|e es IH]; [done|]. cbn. intros Hex [= Hs Hss]. destruct (is_padding e) eqn:He.
  - destruct e as [| | | | | |typ payload|]; try discriminate. cbn in *. rewrite He in Hs.
    apply Z.eqb_eq in He as ->. injection Hs as <-. exists [], es.
    by rewrite take_nil, Nat.sub_0_r.
  - destruct (IH Hex Hss) as (pre & post & -> & ->). by exists (e :: pre), post.
Qed.

Lemma pad_hello_length (chp : client_hello R) :
  payload_encoded -> existsb is_padding (extensions chp) = true -> strip_padding <$> extensions chp = extensions chp ->
  length (encode (ClientHelloMessage (pad_hello encode chp)))
  = Nat.max RFC7685_PADDING_TARGET (length (encode (ClientHelloMessage chp))).
Proof.
  intros Henc Hex Hs. unfold pad_hello. destruct (Nat.eqb_spec (RFC7685_PADDING_TARGET - length (encode (ClientHelloMessage chp))) 0); [lia|].
  destruct chp as [c es r]. cbn [extensions cipher_suites hello_rest] in *.
  edestruct (pad_first_split (RFC7685_PADDING_TARGET - length (encode (ClientHelloMessage (ClientHello c es r)))) es Hex Hs)
    as (pre & post & Hes & ->).
  rewrite Henc, length_replicate, <- Hes. lia.
Qed.

Lemma pad_hello_fields chp :
  exists es, pad_hello encode chp = ClientHello (cipher_suites chp) es (hello_rest chp)
    /\ get_type <$> es = get_type <$> extensions chp
    /\ strip_padding <$> es = strip_padding <$> extensions chp
    /\ existsb is_padding es = existsb is_padding (extensions chp)
    /\ (forall fp es0, Forall2 (rewritten fp) es0 (extensions chp) -> Forall2 (rewritten fp) es0 es).
Proof.
  unfold pad_hello. case_match; [by destruct chp; eexists|].
  eexists. split; [done|]. pose proof (pad_first_ok) as Hp. edestruct Hp as (? & ? & ?).
  split_and!; eauto using pad_first_rewritten.
Qed.

Lemma pad_first_elem k es e : e ∈ pad_first k es -> is_padding e = false -> e ∈ es.
Proof.
  induction es as [|x es IH]; [done|]. cbn. intros Hin He. destruct (is_padding x) eqn:Hx.
  - apply elem_of_cons in Hin as [->|?]; [|by right]. destruct x; cbn in *; congruence.
  - apply elem_of_cons in Hin as [->|?]; [by left|right; auto].
Qed.

Lemma pad_hello_elem chp e :
  e ∈ extensions (pad_hello encode chp) -> is_padding e = false -> e ∈ extensions chp.
Proof. unfold pad_hello. case_match; [done|]. apply pad_first_elem. Qed.

(** *** The whole message *)

Lemma overwrite_ok add_empty drop_missing fp v chp enc es1 pad1 n n1 :
  reorder_extensions (E:=E) into_values add_empty drop_missing fp (extensions chp) n = (Ok (es1, pad1), n1) ->
  exists es0 n', strip_padding <$> es0 = es0 /\ Forall2 (rewritten fp) es1 es0 /\ get_type <$> es0 = get_type <$> es1
    /\ let chp0 := ClientHello (try_assign (cipher_suites chp) (ja3_ciphers <$> ja3 fp)) es0 (hello_rest chp) in
       let chp' := if pad1 || existsb is_padding es0 then pad_hello encode chp0 else chp0 in
       overwrite_client_hello (E:=E) into_values encode add_empty drop_missing fp
         (Message v (Handshake (ClientHelloMessage chp) enc)) n
       = (Ok (Message (try_assign v (ja3_version <$> ja3 fp))
                (Handshake (ClientHelloMessage chp') (encode (ClientHelloMessage chp'))), [RenegotiationInfo]), n').
Proof.
  intros Hr. unfold overwrite_client_hello, rewrite_hello. cbn [msg_payload msg_version].
  destruct (rewrite_extensions_ok fp es1 [] n1 (Forall_nil_2 _)) as (es0 & n' & Hes & Hrw & Ht & Hs).
  exists es0, n'. split_and!; [done..|]. cbn zeta.
  erewrite bind_ok; [|erewrite bind_ok; [reflexivity|run Hr; by run Hes]]. done.
Qed.

(** The result, up to what padding does not change. *)
Lemma overwrite_result add_empty drop_missing fp v chp enc es1 pad1 n n1 :
  reorder_extensions (E:=E) into_values add_empty drop_missing fp (extensions chp) n = (Ok (es1, pad1), n1) ->
  exists es' n', Forall2 (rewritten fp) es1 es' /\ get_type <$> es' = get_type <$> es1
    /\ let chp' := ClientHello (try_assign (cipher_suites chp) (ja3_ciphers <$> ja3 fp)) es' (hello_rest chp) in
       overwrite_client_hello (E:=E) into_values encode add_empty drop_missing fp
         (Message v (Handshake (ClientHelloMessage chp) enc)) n
       = (Ok (Message (try_assign v (ja3_version <$> ja3 fp))
                (Handshake (ClientHelloMessage chp') (encode (ClientHelloMessage chp'))), [RenegotiationInfo]), n').
Proof.
  intros (es0 & n' & Hs & Hrw & Ht & Heq)%(overwrite_ok add_empty drop_missing fp v chp enc). cbn zeta in Heq.
  destruct (pad1 || existsb is_padding es0); [|by exists es0, n'].
  edestruct pad_hello_fields as (es & Hp & Ht' & _ & _ & Hrw'). rewrite Hp in Heq.
  exists es, n'. split_and!; [by apply Hrw'|by rewrite Ht'|done].
Qed.

Lemma extension_map_typed exts : typed (extension_map exts).
Proof. intros t e [? _]%extension_map_lookup. done. Qed.

Lemma regreased_alpn l l' : regreased l l' -> alpn_listed l' = alpn_listed l.
Proof.
  pose proof alpn_not_grease as Hng. unfold alpn_listed.
  induction 1 as [|x y l l' Hxy _ IH]; [done|]. cbn. rewrite IH.
  destruct (is_grease_u16_be x) eqn:Hx; [|by subst].
  destruct (Z.eq_dec x ALProtocolNegotiation), (Z.eq_dec y ALProtocolNegotiation); congruence.
Qed.

Lemma alpn_available fp j (chp : client_hello R) :
  ja3 fp = Some j -> (alpn_listed (ja3_extensions j) <= 1)%nat -> alpn fp <> Some [] ->
  (alpn_protocols fp <> [] -> ALProtocolNegotiation ∈ get_type <$> extensions chp) ->
  (alpn_listed (ja3_extensions j) <= if decide (ALProtocolNegotiation ∈ get_type <$> extensions chp) then 1 else 0)%nat.
Proof.
  intros Hj Hone Hsome Hsent. destruct (decide _) as [|Hout]; [done|].
  destruct (alpn_listed _) as [|k] eqn:Hk; [done|]. destruct Hout. apply Hsent. unfold alpn_protocols. rewrite Hj.
  assert (In ALProtocolNegotiation (ja3_extensions j)) as Hin
    by (apply (count_occ_In Z.eq_dec); fold (alpn_listed (ja3_extensions j)); lia).
  rewrite (proj2 (existsb_exists _ _)); [|by exists ALProtocolNegotiation].
  destruct (alpn fp) as [[|p l]|]; done.
Qed.

(** C9: a JA3 fingerprint applied the way the client does, all extensions wanted and the others
    dropped, decides the shape of the ClientHello: version and cipher suites are the fingerprint's,
    the extension types are exactly those it lists, in its order (GREASE replaced by GREASE), each
    extension is one of the old message's or a dummy, with the values the fingerprint gives, the
    other fields stay, and the encoded form is that of the message.  ALPN, which cannot be made up,
    is listed at most once, and [rustls] sends it when it is configured with protocols. *)
Theorem hello_follows_fingerprint fp j v chp enc n :
  ja3 fp = Some j -> (alpn_listed (ja3_extensions j) <= 1)%nat -> alpn fp <> Some [] ->
  (alpn_protocols fp <> [] -> ALProtocolNegotiation ∈ get_type <$> extensions chp) ->
  exists es n',
    let chp' := ClientHello (ja3_ciphers j) es (hello_rest chp) in
    overwrite_client_hello (E:=E) into_values encode true true fp (Message v (Handshake (ClientHelloMessage chp) enc)) n
    = (Ok (Message (ja3_version j) (Handshake (ClientHelloMessage chp') (encode (ClientHelloMessage chp'))),
           [RenegotiationInfo]), n')
    /\ regreased (ja3_extensions j) (get_type <$> es)
    /\ Forall (customised fp (extensions chp)) es.
Proof.
  intros Hj Hone Hsome Hsent.
  pose proof (alpn_available fp j chp Hj Hone Hsome Hsent) as Hal.
  destruct (extensions_regreasing_ok (E:=E) (ja3_extensions j) n) as (types & n1 & Hty & Hreg).
  destruct (match_extensions_all (E:=E) types (extension_map (extensions chp))) as (es1 & m' & pad1 & Hm & Ht1 & Hfrom).
  { apply extension_map_typed. }
  { rewrite (regreased_alpn _ _ Hreg). destruct (decide _) as [Hin|]; [|lia].
    apply extension_map_present in Hin. by rewrite decide_True. }
  edestruct (overwrite_result true true fp v chp enc es1 pad1 n n1) as (es & n' & Hrw & Ht & Heq).
  { unfold reorder_extensions. rewrite Hj. run Hty. rewrite Hm, bind_lift, andb_false_r. done. }
  exists es, n'. cbn zeta in *. rewrite Heq, Hj, Ht, Ht1. split_and!; [done..|].
  apply (Forall2_Forall_r _ _ _ _ Hrw) . eapply Forall_impl; [exact Hfrom|]. cbn.
  intros e Hfe e' He. exists e. split; [|done].
  destruct Hfe as [[t [_ ?]%extension_map_lookup]|?]; auto.
Qed.

(** C32: with no extension added or dropped the fingerprint only reorders: the new message has the
    extensions of the old one, each once, with rewritten values. *)
Theorem hello_keeps_extensions fp v chp enc n :
  NoDup (get_type <$> extensions chp) ->
  (forall m, into_values m ≡ₚ (map_to_list m).*2) ->
  exists es1 es v' ciphers n',
    let chp' := ClientHello ciphers es (hello_rest chp) in
    overwrite_client_hello (E:=E) into_values encode false false fp (Message v (Handshake (ClientHelloMessage chp) enc)) n
    = (Ok (Message v' (Handshake (ClientHelloMessage chp') (encode (ClientHelloMessage chp'))),
           [RenegotiationInfo]), n')
    /\ es1 ≡ₚ extensions chp /\ Forall2 (rewritten fp) es1 es.
Proof.
  intros Hnd Hiv.
  assert (exists es1 pad1 n1, reorder_extensions (E:=E) into_values false false fp (extensions chp) n = (Ok (es1, pad1), n1)
    /\ es1 ≡ₚ extensions chp) as (es1 & pad1 & n1 & Hr & Hp).
  { unfold reorder_extensions. destruct (ja3 fp) as [j|]; [|by eexists _, _, _].
    destruct (extensions_regreasing_ok (E:=E) (ja3_extensions j) n) as (types & n1 & Hty & _). run Hty.
    destruct (match_extensions_none (E:=E) types (extension_map (extensions chp))) as (es & m' & -> & Hp).
    rewrite extension_map_values in Hp by done. rewrite bind_lift.
    eexists _, _, _. split; [done|]. rewrite andb_true_r. case_bool_decide as Hm'; cbn.
    - change (m' = ∅) in Hm'. by rewrite Hm', map_to_list_empty, app_nil_r in Hp.
    - by rewrite Hiv. }
  edestruct (overwrite_result false false fp v chp enc es1 pad1 n n1 Hr) as (es & n' & Hrw & _ & Heq).
  cbn zeta in Heq. exists es1, es. do 2 eexists. exists n'. cbn zeta. rewrite Heq. auto.
Qed.

(** C33: a padding extension brings the encoded ClientHello to 512 bytes, or leaves it unpadded when
    it is longer without. *)
Theorem hello_padded add_empty drop_missing fp v chp enc n v' chp' enc' al n' :
  payload_encoded ->
  overwrite_client_hello (E:=E) into_values encode add_empty drop_missing fp
    (Message v (Handshake (ClientHelloMessage chp) enc)) n
  = (Ok (Message v' (Handshake (ClientHelloMessage chp') enc'), al), n') ->
  existsb is_padding (extensions chp') = true ->
  length enc' = Nat.max RFC7685_PADDING_TARGET (length (encode (ClientHelloMessage (stripped chp')))).
Proof.
  intros Henc Hrun Hex.
  assert (exists es1 pad1 n1,
    reorder_extensions (E:=E) into_values add_empty drop_missing fp (extensions chp) n = (Ok (es1, pad1), n1))
    as (es1 & pad1 & n1 & Hr).
  { unfold overwrite_client_hello, rewrite_hello in Hrun. cbn [msg_payload] in Hrun.
    apply bind_inv_ok in Hrun as (? & ? & (? & ? & ([? ?] & ? & ? & _)%bind_inv_ok & _)%bind_inv_ok & _). eauto. }
  destruct (overwrite_ok add_empty drop_missing fp v chp enc es1 pad1 n n1 Hr) as (es0 & n2 & Hs & _ & _ & Heq).
  cbn zeta in Heq. rewrite Hrun in Heq. injection Heq as -> -> -> _ ->.
  edestruct (pad_hello_fields (ClientHello (try_assign (cipher_suites chp) (ja3_ciphers <$> ja3 fp)) es0 (hello_rest chp)))
    as (es & Hp & _ & Hs' & Hex' & _). cbn in Hs', Hex'.
  destruct (existsb is_padding es0) eqn:Hpad.
  - rewrite orb_true_r. rewrite pad_hello_length by done. f_equal. f_equal. f_equal. f_equal.
    rewrite Hp. unfold stripped. cbn. by rewrite Hs', Hs.
  - exfalso. destruct (pad1 || false); [rewrite Hp in Hex|]; cbn in Hex; congruence.
Qed.

(** ALPN cannot be made up: a fingerprint that lists it for a message without it ends in a
    panic. *)
Theorem alpn_never_made_up drop_missing fp j v chp enc n :
  ja3 fp = Some j -> ALProtocolNegotiation ∈ ja3_extensions j ->
  ALProtocolNegotiation ∉ get_type <$> extensions chp ->
  (overwrite_client_hello (E:=E) into_values encode true drop_missing fp
    (Message v (Handshake (ClientHelloMessage chp) enc)) n).1 = Panic.
Proof.
  intros Hj Hin Hout. destruct (extensions_regreasing_ok (E:=E) (ja3_extensions j) n) as (types & n1 & Hty & Hreg).
  assert (match_extensions (E:=E) true types (extension_map (extensions chp)) = Panic) as Hm.
  { apply match_extensions_alpn.
    - apply (count_occ_In Z.eq_dec). fold (alpn_listed types). rewrite (regreased_alpn _ _ Hreg).
      by apply count_occ_In, list_elem_of_In.
    - by apply eq_None_not_Some; rewrite <- extension_map_present. }
  unfold overwrite_client_hello, rewrite_hello, reorder_extensions. cbn [msg_payload]. rewrite Hj.
  erewrite bind_panic; [done|]. erewrite bind_panic; [done|]. erewrite bind_panic; [done|].
  run Hty. by rewrite Hm.
Qed.

(** GREASE is consistent: when the fingerprint asks for no more GREASE key shares than it has
    GREASE curves, every GREASE group among the key shares that are sent is also among the named
    groups, whichever of the two extensions comes first. *)
Theorem grease_curves_consistent fp j l v chp enc n v' chp' enc' al n' ents gs :
  ja3 fp = Some j -> keyshare_curves fp = Some l -> (length (greases l) <= length (greases (ja3_curves j)))%nat ->
  (forall entries, KeyShare entries ∈ extensions chp -> greases entries.*1 = []) ->
  overwrite_client_hello (E:=E) into_values encode true true fp (Message v (Handshake (ClientHelloMessage chp) enc)) n
  = (Ok (Message v' (Handshake (ClientHelloMessage chp') enc'), al), n') ->
  NoDup (get_type <$> extensions chp') -> KeyShare ents ∈ extensions chp' -> NamedGroups gs ∈ extensions chp' ->
  greases ents.*1 ⊆ gs.
Proof.
  intros Hj Hl Hlen Hno Hrun Hnd Hks Hng.
  unfold overwrite_client_hello, rewrite_hello, reorder_extensions in Hrun. cbn [msg_payload] in Hrun. rewrite Hj in Hrun.
  apply bind_inv_ok in Hrun as (pl & n0 & Hrun & [= <- Hpl <- <-]). rewrite Hpl in Hrun.
  apply bind_inv_ok in Hrun as ([chp0 pad] & n1 & Hrun & [= Hchp _ <-]).
  apply bind_inv_ok in Hrun as ([es1 pad1] & n2 & Hre & Hrun).
  apply bind_inv_ok in Hrun as ([rs pad2] & n3 & Hrw & [= <- <- <-]).
  apply bind_inv_ok in Hre as (types & n4 & _ & Hre).
  apply bind_inv_ok in Hre as ([[es m'] pad3] & n5 & [= Hm <-] & [= Hes _ <-]).
  rewrite andb_false_r in Hes. cbn in Hes, Hm, Hchp, Hrw. subst es1.
  destruct (rewrite_extensions_ok fp es [] n4 (Forall_nil_2 _)) as (rs' & n6 & Hrs & Hrel & Hts & Hss).
  rewrite Hrw in Hrs. injection Hrs as <- _ _.
  assert (KeyShare ents ∈ rs /\ NamedGroups gs ∈ rs /\ get_type <$> extensions chp' = get_type <$> rs) as (Hks' & Hng' & Hty).
  { subst chp'. destruct (pad1 || pad2); [|by split_and!].
    split_and!; [by apply (pad_hello_elem _ _ Hks)|by apply (pad_hello_elem _ _ Hng)|].
    edestruct pad_hello_fields as (es' & -> & Ht & _). done. }
  rewrite Hty, Hts in Hnd. eapply grease_curves_agree; eauto.
  intros entries Hent. destruct (match_extensions_key_share _ _ _ _ _ _ _ Hm Hent) as [t [_ ?]%extension_map_lookup]. eauto.
Qed.
End fp_proofs.

(** ** Witnesses *)

(** GREASE values drawn in turn. *)
Definition counter_grease : Grease := {|
  is_grease_u16_be x := existsb (fun k => x =? 2570 + 4112 * Z.of_nat k) (seq 0 16);
  grease_u16_be E n := (Ok (2570 + 4112 * Z.of_nat (n mod 16)), S n);
  try_regrease_u16_be E x n :=
    if existsb (fun k => x =? 2570 + 4112 * Z.of_nat k) (seq 0 16)
    then (Ok (2570 + 4112 * Z.of_nat (n mod 16)), S n) else (Ok x, n);
  extensions_regreasing E l n :=
    (Ok ((fun x => if existsb (fun k => x =? 2570 + 4112 * Z.of_nat k) (seq 0 16)
                   then 2570 + 4112 * Z.of_nat (n mod 16) else x) <$> l), S n);
|}.

Lemma counter_greases (n : nat) : existsb (fun k => 2570 + 4112 * Z.of_nat (n mod 16) =? 2570 + 4112 * Z.of_nat k) (seq 0 16) = true.
Proof.
  apply existsb_exists. exists (n mod 16)%nat. split; [|apply Z.eqb_refl].
  apply in_seq. pose proof (Nat.mod_upper_bound n 16). lia.
Qed.

Lemma counter_grease_laws : @GreaseLaws counter_grease.
Proof.
  unshelve econstructor.
  - intros x. cbn [is_grease_u16_be counter_grease]. rewrite existsb_exists. unfold rfc8701. split.
    + intros (k & [_ Hk]%in_seq & ->%Z.eqb_eq). exists (Z.of_nat k). lia.
    + intros (k & Hk & ->). exists (Z.to_nat k). split; [apply in_seq; lia|]. apply Z.eqb_eq. lia.
  - intros E n. eexists _, _. split; [reflexivity|]. apply counter_greases.
  - intros E x n. cbn [is_grease_u16_be try_regrease_u16_be counter_grease].
    destruct (existsb _ _) eqn:Hx; eexists _, _; (split; [done|]); [apply counter_greases|done].
  - intros E l n. eexists _, _. split; [reflexivity|]. unfold regreased.
    cbn [is_grease_u16_be counter_grease]. induction l as [|x l IH]; [constructor|].
    constructor; [|done]. destruct (existsb _ _) eqn:Hx; [apply counter_greases|done].
Qed.

(** A short encoding: each extension by its type, opaque ones with their payload. *)
Definition short_encoding (p : parsed_handshake unit) : list Z :=
  match p with
  | ClientHelloMessage chp =>
      concat ((fun e => to_be_bytes 2 (get_type e)
        ++ match e with Unknown _ payload => to_be_bytes 2 (Z.of_nat (length payload)) ++ payload | _ => [] end)
        <$> extensions chp)
  | OtherHandshake _ => []
  end.

Lemma short_payload_encoded : payload_encoded short_encoding.
Proof.
  intros c pre post r p. cbn [short_encoding extensions]. rewrite !fmap_app, !concat_app, !length_app.
  cbn. rewrite !length_app, !length_to_be_bytes. cbn. lia.
Qed.

Definition hello : client_hello unit := ClientHello [4865; 4866]
  [OtherExtension 0 [1]; NamedGroups [29; 23]; KeyShare [(29, [7; 7])]; Protocols [[104; 50]]] tt.

Definition chrome : FingerprintSpec := {|
  ja3 := Some {| ja3_version := 771; ja3_ciphers := [4867; 4865]; ja3_extensions := [2570; 51; 0; 10; 16; 21];
                 ja3_curves := [2570; 29]; ja3_point_formats := [0] |};
  alpn := None; signature_algos := None; supported_versions := None; keyshare_curves := Some [2570; 29];
|}.

Definition values (m : gmap Z client_extension) : list client_extension := (map_to_list m).*2.

Definition hello_message : message unit := Message 769 (Handshake (ClientHelloMessage hello) []).

(** The rewritten extensions of [hello]. *)
Definition chrome_extensions : list client_extension :=
  [Unknown 2570 []; KeyShare [(6682, [0]); (29, [7; 7])]; OtherExtension 0 [1]; NamedGroups [6682; 29];
   Protocols [[104; 50]]; Unknown 21 (replicate 496 0)].

Definition chrome_hello : client_hello unit := ClientHello [4867; 4865] chrome_extensions tt.

#[local] Existing Instance counter_grease.
#[local] Existing Instance counter_grease_laws.

Example chrome_run : exists n',
  overwrite_client_hello (E:=unit) values short_encoding true true chrome hello_message 0%nat
  = (Ok (Message 771 (Handshake (ClientHelloMessage chrome_hello) (short_encoding (ClientHelloMessage chrome_hello))),
         [RenegotiationInfo]), n').
Proof. eexists. vm_compute. reflexivity. Qed.

Lemma hello_follows_fingerprint_witness : exists es n',
  let chp' := ClientHello [4867; 4865] es tt in
  overwrite_client_hello (E:=unit) values short_encoding true true chrome hello_message 0%nat
  = (Ok (Message 771 (Handshake (ClientHelloMessage chp') (short_encoding (ClientHelloMessage chp'))),
         [RenegotiationInfo]), n')
  /\ regreased [2570; 51; 0; 10; 16; 21] (get_type <$> es)
  /\ Forall (customised chrome (extensions hello)) es.
Proof.
  refine (hello_follows_fingerprint values short_encoding chrome _ 769 hello [] 0%nat eq_refl _ _ _);
    [vm_compute; repeat constructor|done|intros _; by_compute].
Defined.

Lemma hello_keeps_extensions_witness : exists es1 es v' ciphers n',
  let chp' := ClientHello ciphers es tt in
  overwrite_client_hello (E:=unit) values short_encoding false false chrome hello_message 0%nat
  = (Ok (Message v' (Handshake (ClientHelloMessage chp') (short_encoding (ClientHelloMessage chp'))),
         [RenegotiationInfo]), n')
  /\ es1 ≡ₚ extensions hello /\ Forall2 (rewritten chrome) es1 es.
Proof.
  refine (hello_keeps_extensions values short_encoding chrome 769 hello [] 0%nat _ _).
  - by_compute.
  - done.
Defined.

Lemma hello_padded_witness :
  length (short_encoding (ClientHelloMessage chrome_hello)) = 512%nat.
Proof.
  destruct chrome_run as [n' Hrun].
  exact (hello_padded values short_encoding true true chrome 769 hello [] 0%nat _ _ _ _ _
    short_payload_encoded Hrun eq_refl).
Defined.

Lemma alpn_never_made_up_witness :
  (overwrite_client_hello (E:=unit) values short_encoding true true chrome
    (Message 769 (Handshake (ClientHelloMessage (ClientHello [] [OtherExtension 0 [1]] tt)) [])) 0%nat).1 = Panic.
Proof.
  refine (alpn_never_made_up values short_encoding true chrome _ 769 (ClientHello [] [OtherExtension 0 [1]] tt) [] 0%nat
    eq_refl _ _); by_compute.
Defined.

Lemma grease_curves_consistent_witness : greases [6682; 29] ⊆ [6682; 29].
Proof.
  destruct chrome_run as [n' Hrun].
  refine (grease_curves_consistent values short_encoding chrome _ _ 769 hello [] 0%nat _ _ _ _ _ [(6682, [0]); (29, [7; 7])] _
    eq_refl eq_refl _ _ Hrun _ _ _).
  - vm_compute. repeat constructor.
  - intros entries Hin. assert (entries = [(29, [7; 7])]) as ->; [|reflexivity].
    change (extensions hello) with [OtherExtension 0 [1]; NamedGroups [29; 23]; KeyShare [(29, [7; 7])];
      Protocols [[104; 50]]] in Hin. apply list_elem_of_In in Hin.
    destruct Hin as [Hin|[Hin|[Hin|[Hin|Hin]]]]; by inversion Hin.
  - by_compute.
  - cbn. right. left.
  - cbn. do 3 right. left.
Defined.
