(* ===== verification/Program.v ===== *)
(** * The program (shuttle/src/main.rs, opt.rs, client/mod.rs, client/plain.rs, server.rs)

    From the command line to the connections that are served: [main]'s choice of a role, the client
    and the server built from their options, and the loops that accept connections and spawn a task
    for each.  Listeners and the parser of server names are arguments; a run is determined by what
    the listener's [accept] returns, call by call. *)
From S2P Require Import Prelude.
From stdpp Require Import strings.
From S2P Require Import Time Stream Lru Opt Connector Trojan.
From S2P Require Negotiate Fp Pool Handshake.
Open Scope Z_scope.

(** ** Options *)

(** [CltOpt]; the options of reusable sessions are those of [Opt]. *)
Record ClientOpt := {
  listen_addr : SocketAddr;
  remote_addr : string;
  server_name : string;
  key : list Z;
  preflight : Z * option Z;
  tls_ja3 : option Fp.Ja3;
  tls_alpn : option (list (list Z));
  tls_sigalgos : option (list Z);
  tls_versions : option (list Z);
  tls_keyshare : option (list Z);
  session_opt : CltOpt;
}.

Record SvrOpt := {
  svr_listen_addr : SocketAddr;
  camouflage_addr : string;
  svr_key : list Z;
  replay_filter_size : nat;
}.

Inductive Role := ClientRole (o : ClientOpt) | ServerRole (o : SvrOpt).

(** The errors of [run_client] and [run_server]. *)
Inductive program_error :=
| BindFailed (addr : SocketAddr) (e : io_error)
| ConfigInvalid (message : string).

Definition get_fingerprint_spec (self : ClientOpt) : Fp.FingerprintSpec := {|
  Fp.ja3 := tls_ja3 self;
  Fp.alpn := tls_alpn self;
  Fp.signature_algos := tls_sigalgos self;
  Fp.supported_versions := tls_versions self;
  Fp.keyshare_curves := tls_keyshare self;
|}.

(** ** Listening *)

(** [while let Ok(conn) = listener.accept().await { tokio::spawn(..) }]: the connections a task was
    spawned for.  The first [accept] that fails ends the loop; when [accept] does not return any
    more, neither does the loop. *)
Fixpoint accept_loop {E C} (accepts : list (res io_error C)) : res E unit * list C :=
  match accepts with
  | [] => (Pending, [])
  | Ok conn :: accepts => let (r, spawned) := accept_loop accepts in (r, conn :: spawned)
  | Err _ :: _ => (Ok tt, [])
  | Panic :: _ => (Panic, [])
  | Pending :: _ => (Pending, [])
  end.

(** What follows a [TcpListener::bind(addr)]. *)
Definition listen {C} (addr : SocketAddr) (bind : SocketAddr -> res io_error unit) (accepts : list (res io_error C))
    : res program_error unit * list C :=
  match bind addr with
  | Ok _ => accept_loop accepts
  | Err e => (Err (BindFailed addr e), [])
  | Panic => (Panic, [])
  | Pending => (Pending, [])
  end.

Section program.
(** [name_of] is [ServerName::try_from]; [cache] is [LruCache::new]. *)
Context {SN St C F : Type} (blake2s : list Z -> list Z) (name_of : string -> option SN) (cache : nat -> F).

(** ** The client *)

(** [snowy_tunnel::Client]. *)
Record TunnelClient := {
  tunnel_client : Handshake.Client;
  client_server_name : SN;
  fingerprint_spec : Fp.FingerprintSpec;
}.

Definition new_with_fingerprint (key : list Z) (name : SN) (spec : Fp.FingerprintSpec) : TunnelClient :=
  {| tunnel_client := Handshake.client_new blake2s key; client_server_name := name; fingerprint_spec := spec |}.

Definition build_client {E} (self : ClientOpt) : res E TunnelClient :=
  match name_of (server_name self) with
  | Some name => Ok (new_with_fingerprint (key self) name (get_fingerprint_spec self))
  | None => Panic
  end.

(** What all connections of a client share. *)
Record ClientService := {
  service_client : TunnelClient;
  service_connector : connector_kind;
  service_pool : option (ReuseConfig * Pool.SessionPool St);
  service_endpoint : string;
  service_tracker : Negotiate.FallbackTracker;
}.

(** [run_client] up to [serve]: the connector is started before the options of the pool are
    validated. *)
Definition setup_client (opt : ClientOpt) : res program_error ClientService :=
  client ← build_client opt;
  connector ← choose_connector (preflight opt);
  config ← map_err ConfigInvalid (reuse_config (session_opt opt));
  Ok {| service_client := client; service_connector := connector;
        service_pool := (fun config => (config, Pool.pool_new false)) <$> config;
        service_endpoint := remote_addr opt;
        service_tracker := Negotiate.tracker_new |}.

(** The tasks spawned: a connection and what it shares with the others. *)
Definition run_client (opt : ClientOpt) (bind : SocketAddr -> res io_error unit) (accepts : list (res io_error C))
    : res program_error unit * list (ClientService * C) :=
  match setup_client opt with
  | Ok service =>
      let (r, spawned) := listen (listen_addr opt) bind accepts in (r, pair service <$> spawned)
  | Err e => (Err e, [])
  | Panic => (Panic, [])
  | Pending => (Pending, [])
  end.

(** ** The server *)

(** [snowy_tunnel::Server], with its replay filter, shared by all connections. *)
Record ServerService := {
  tunnel_server : Handshake.Server;
  server_camouflage : string;
  replay_filter : Handshake.mutex F;
}.

Definition build_server (self : SvrOpt) : ServerService := {|
  tunnel_server := Handshake.server_new blake2s (svr_key self);
  server_camouflage := camouflage_addr self;
  replay_filter := Handshake.Mutex false (cache (replay_filter_size self));
|}.

Definition run_server (opt : SvrOpt) (bind : SocketAddr -> res io_error unit) (accepts : list (res io_error C))
    : res program_error unit * list (ServerService * C) :=
  let (r, spawned) := listen (svr_listen_addr opt) bind accepts in (r, pair (build_server opt) <$> spawned).

(** What the connections of a role share. *)
Definition setup_role (role : Role) : res program_error (ClientService + ServerService) :=
  match role with
  | ClientRole opt => inl <$> setup_client opt
  | ServerRole opt => Ok (inr (build_server opt))
  end.
Definition role_addr (role : Role) : SocketAddr :=
  match role with ClientRole opt => listen_addr opt | ServerRole opt => svr_listen_addr opt end.

(** ** [main] *)

Definition main (role : Role) (bind : SocketAddr -> res io_error unit) (accepts : list (res io_error C))
    : res program_error unit * list ((ClientService + ServerService) * C) :=
  match role with
  | ClientRole opt => let (r, tasks) := run_client opt bind accepts in (r, (fun t => (inl t.1, t.2)) <$> tasks)
  | ServerRole opt => let (r, tasks) := run_server opt bind accepts in (r, (fun t => (inr t.1, t.2)) <$> tasks)
  end.
End program.
Arguments service_client {_ _} _.
Arguments service_connector {_ _} _.
Arguments service_pool {_ _} _.
Arguments service_endpoint {_ _} _.
Arguments service_tracker {_ _} _.
Arguments client_server_name {_} _.
Arguments fingerprint_spec {_} _.
Arguments tunnel_client {_} _.
Arguments replay_filter {_} _.

(** ** Proofs *)

Lemma accept_loop_error {E C} (conns : list C) e rest :
  accept_loop (E:=E) ((Ok <$> conns) ++ Err e :: rest) = (Ok tt, conns).
Proof. induction conns as [|c conns IH]; [done|]. cbn. by rewrite IH. Qed.

Lemma accept_loop_quiet {E C} (conns : list C) : accept_loop (E:=E) (Ok <$> conns) = (Pending, conns).
Proof. induction conns as [|c conns IH]; [done|]. cbn. by rewrite IH. Qed.

Section proofs.
Context {SN St C F : Type} (blake2s : list Z -> list Z) (name_of : string -> option SN) (cache : nat -> F).

Lemma main_listens role bind (accepts : list (res io_error C)) service :
  setup_role (St:=St) blake2s name_of cache role = Ok service -> bind (role_addr role) = Ok tt ->
  main (St:=St) blake2s name_of cache role bind accepts
  = ((accept_loop (E:=program_error) accepts).1, pair service <$> (accept_loop (E:=program_error) accepts).2).
Proof.
  destruct role as [o|o]; cbn [setup_role role_addr].
  - destruct (setup_client blake2s name_of o) as [s| | |] eqn:Hs; cbn [fmap res_fmap]; [|done..]. intros [= <-] Hb.
    cbn [main]. unfold run_client, listen. rewrite Hs, Hb.
    destruct (accept_loop accepts) as [r l]. cbn. by rewrite <- list_fmap_compose.
  - intros [= <-] Hb. cbn [main]. unfold run_server, listen. rewrite Hb.
    destruct (accept_loop accepts) as [r l]. cbn. by rewrite <- list_fmap_compose.
Qed.
End proofs.

Section correctness.
Context {SN St C F : Type} (blake2s : list Z -> list Z) (name_of : string -> option SN) (cache : nat -> F).

(** C36: what starts a client.  For bounds that come from the command line the client starts exactly
    when the server name is valid, the bounds are in order and the options of reusable sessions, if
    asked for, are valid: then the connector is the ad-hoc one for [0:0] and otherwise a preflighter
    that starts at its minimum, and there is a fresh pool with a valid configuration exactly if
    reuse is on.  Invalid session options are an error; an invalid server name, or a maximum below
    the minimum, is a panic. *)
Theorem client_starts (opt : ClientOpt) (text : text) :
  parse_preflight_bounds text = Ok (preflight opt) -> wf_opt (session_opt opt) ->
  let o := session_opt opt in
  let c := candidate_config (reuse_max_idle o) (reuse_max_requests o) (reuse_max_age o)
    (reuse_idle_timeout o) (opt_keepalive_interval o) (opt_keepalive_timeout o) (reuse_jitter_percent o) in
  match setup_client (St:=St) blake2s name_of opt with
  | Ok service =>
      name_of (server_name opt) = Some (client_server_name (service_client service))
      /\ fingerprint_spec (service_client service) = get_fingerprint_spec opt
      /\ service_endpoint service = remote_addr opt
      /\ match service_connector service with
         | AdHoc => preflight opt = (0, Some 0)
         | Preflight s => capacity s = (preflight opt).1 /\ 0 < capacity s <= default USIZE_MAX (preflight opt).2
         end
      /\ service_pool service = (if reuse o then Some (c, Pool.pool_new false) else None)
      /\ (reuse o = true -> valid_config c)
  | Err (ConfigInvalid _) => reuse o = true /\ ~ valid_config c
  | Panic => name_of (server_name opt) = None \/ exists m, (preflight opt).2 = Some m /\ m < (preflight opt).1
  | Err (BindFailed _ _) | Pending => False
  end.
Proof.
  intros Hp Hwf o c. unfold setup_client, build_client.
  destruct (name_of (server_name opt)) as [name|] eqn:Hn; cbn [mbind res_bind]; [|by left].
  destruct (preflight opt) as [min max] eqn:Hpre. pose proof (preflight_kind (E:=program_error) text min max Hp) as Hk.
  destruct (choose_connector (E:=program_error) (min, max)) as [k| | |]; cbn [mbind res_bind]; [|done|by right|done].
  pose proof (reuse_config_cases o Hwf) as Hr. fold c in Hr.
  fold o. destruct (reuse_config o) as [[c'|]|m| |]; cbn [map_err mbind res_bind]; [..|done|done].
  - destruct Hr as (Hre & -> & Hv). cbn. rewrite Hre. by split_and!.
  - cbn. rewrite Hr. by split_and!.
  - done.
Qed.

(** C37: a listener serves until its first failed [accept].  Every connection accepted before is
    given to a task of its own, in order, and all tasks share one client or server (its connector
    and pool, its replay filter); the program then ends successfully, whatever connections would
    follow and whatever its tasks are doing; as long as no [accept] fails it goes on. *)
Theorem accept_error_ends_program (role : Role) (bind : SocketAddr -> res io_error unit)
    (service : ClientService (St:=St) + ServerService) (conns : list C) (e : io_error) (rest : list (res io_error C)) :
  setup_role blake2s name_of cache role = Ok service -> bind (role_addr role) = Ok tt ->
  main blake2s name_of cache role bind ((Ok <$> conns) ++ Err e :: rest) = (Ok tt, pair service <$> conns)
  /\ main blake2s name_of cache role bind (Ok <$> conns) = (Pending, pair service <$> conns).
Proof.
  intros Hs Hb. split; rewrite (main_listens _ _ _ role bind _ service Hs Hb);
    [by rewrite accept_loop_error|by rewrite accept_loop_quiet].
Qed.
End correctness.

(** ** Witnesses *)

Definition any_key (data : list Z) : list Z := data.
Definition example_options : ClientOpt := {|
  listen_addr := V4 [127; 0; 0; 1] 1080;
  remote_addr := "server.example:443";
  server_name := "camouflage.example";
  key := [1; 2; 3];
  preflight := (2, Some 5);
  tls_ja3 := None; tls_alpn := None; tls_sigalgos := None; tls_versions := None; tls_keyshare := None;
  session_opt := {|
    reuse := true; reuse_max_idle := 4; reuse_max_requests := 100; reuse_max_age := 600;
    reuse_idle_timeout := 60; opt_keepalive_interval := 20; opt_keepalive_timeout := 10;
    reuse_jitter_percent := 10 |};
|}.
Definition name_is_valid (name : string) : option string := if decide (name = "") then None else Some name.

Lemma client_starts_witness : exists service : ClientService (SN:=string) (St:=unit),
  setup_client any_key name_is_valid example_options = Ok service
  /\ fingerprint_spec (service_client service) = get_fingerprint_spec example_options.
Proof.
  eexists. split; [reflexivity|].
  exact (proj1 (proj2 (client_starts (St:=unit) any_key name_is_valid example_options [50; 58; 53]
    ltac:(reflexivity) ltac:(by_compute)))).
Defined.

Lemma accept_error_ends_program_witness :
  let role := ServerRole {|
    svr_listen_addr := V4 [0; 0; 0; 0] 443; camouflage_addr := "camouflage.example:443";
    svr_key := [1; 2; 3]; replay_filter_size := 1024 |} in
  let cache := fun n : nat => n in
  exists service,
    setup_role (St:=unit) any_key name_is_valid cache role = Ok service
    /\ main (St:=unit) any_key name_is_valid cache role (fun _ => Ok tt) [Ok 1; Ok 2; Err (IoErr Other "too many open files"); Ok 3]
       = (Ok tt, [(service, 1); (service, 2)]).
Proof.
  intros role cache. eexists. split; [reflexivity|].
  exact (proj1 (accept_error_ends_program (St:=unit) any_key name_is_valid cache role (fun _ => Ok tt) _
    [1; 2] (IoErr Other "too many open files") [Ok 3] ltac:(reflexivity) ltac:(reflexivity))).
Defined.
