(* ===== verification/ProtocolTests.v ===== *)
(** * The repository's unit tests of the session protocol, run on the model
      (the [tests] modules of shuttle/src/session/, shuttle/src/server/session_loop.rs)

    Each test is a definition with the test's name: [true] exactly when all its assertions hold of
    the definitions of this development.  A pair of duplex streams is the two [outgoing] and
    [incoming] sides; what a test leaves to the scheduler is the schedule it names. *)
From S2P Require Import Prelude.
From stdpp Require Import strings gmap.
From S2P Require Import Time Stream Frame Opt Lifecycle Trojan Relay SessionLoop.
From S2P Require Negotiate Keepalive.
Open Scope Z_scope.

(** [assert!(matches!(..))] and [assert_eq!] on results. *)
Definition is_err {E A} (m : res E A) (check : E -> bool) : bool :=
  match m with Err e => check e | _ => false end.
Definition is_value {E A} `{!EqDecision A} (m : res E A) (a : A) : bool :=
  match m with Ok b => bool_decide (b = a) | _ => false end.

(** ** frame.rs *)

Definition round_trips_each_frame_variant : bool :=
  let frames := [
    ClientHello PROTOCOL_VERSION 258;
    OpenRequest 1 3 (byte_string "example.com") 443;
    Data (byte_string "hello world");
    EndRequest 1;
    Reset 2;
    Ping 16909060;
    Pong 84281096;
    Close 3] in
  forallb (fun frame =>
    match encode (E:=FrameError) frame [] with
    | Ok buf => is_value (decode buf) frame
    | _ => false
    end) frames.

Definition decode_rejects_unknown_frame_type : bool :=
  is_err (decode [255; 0; 0]) (fun e => bool_decide (e = FrameError.UnknownFrameType 255)).

Definition encode_rejects_oversized_payload : bool :=
  let frame := Data (replicate (Z.to_nat (MAX_FRAME_PAYLOAD + 1)) 0) in
  match encode (E:=FrameError) frame [] with Panic => true | _ => false end.

Definition decode_rejects_truncated_header : bool :=
  is_err (decode [FRAME_DATA; 0]) (fun e => bool_decide (e = FrameError.UnexpectedEof)).

Definition decode_rejects_truncated_payload : bool :=
  is_err (decode [FRAME_DATA; 0; 2; 1]) (fun e => bool_decide (e = FrameError.UnexpectedEof)).

Definition async_helpers_round_trip_frame : bool :=
  let frame := Ping 42 in
  let (written, stream) := write_frame frame (open_with []) in
  is_ok written && is_value (read_frame (closed_with (outgoing stream))).1 frame.

Lemma frame_tests_pass :
  round_trips_each_frame_variant && decode_rejects_unknown_frame_type && encode_rejects_oversized_payload
  && decode_rejects_truncated_header && decode_rejects_truncated_payload && async_helpers_round_trip_frame = true.
Proof. vm_compute. reflexivity. Qed.

(** ** lifecycle.rs *)

Definition test_valid_transitions : bool :=
  can_transition_to SessionState.Connecting SessionState.Handshaking
  && can_transition_to SessionState.Handshaking SessionState.Idle
  && can_transition_to SessionState.Handshaking SessionState.Closed
  && can_transition_to SessionState.Idle SessionState.Opening
  && can_transition_to SessionState.Idle SessionState.Closing
  && can_transition_to SessionState.Idle SessionState.Poisoned
  && can_transition_to SessionState.Opening SessionState.Active
  && can_transition_to SessionState.Opening SessionState.Poisoned
  && can_transition_to SessionState.Active SessionState.Draining
  && can_transition_to SessionState.Active SessionState.Poisoned
  && can_transition_to SessionState.Draining SessionState.Idle
  && can_transition_to SessionState.Draining SessionState.Closing
  && can_transition_to SessionState.Draining SessionState.Poisoned
  && can_transition_to SessionState.Closing SessionState.Closed
  && can_transition_to SessionState.Poisoned SessionState.Closed.

Definition test_invalid_transitions : bool :=
  negb (can_transition_to SessionState.Handshaking SessionState.Connecting)
  && negb (can_transition_to SessionState.Idle SessionState.Handshaking)
  && negb (can_transition_to SessionState.Opening SessionState.Idle)
  && negb (can_transition_to SessionState.Active SessionState.Opening)
  && negb (can_transition_to SessionState.Draining SessionState.Active)
  && negb (can_transition_to SessionState.Connecting SessionState.Idle)
  && negb (can_transition_to SessionState.Connecting SessionState.Active)
  && negb (can_transition_to SessionState.Handshaking SessionState.Active)
  && negb (can_transition_to SessionState.Closed SessionState.Idle)
  && negb (can_transition_to SessionState.Closed SessionState.Connecting)
  && negb (can_transition_to SessionState.Poisoned SessionState.Idle).

Definition test_emergency_transitions : bool :=
  forallb (fun state => can_transition_to state SessionState.Poisoned)
    [SessionState.Connecting; SessionState.Handshaking; SessionState.Idle; SessionState.Opening;
     SessionState.Active; SessionState.Draining; SessionState.Closing; SessionState.Closed]
  && forallb (fun state => can_transition_to state SessionState.Closed)
    [SessionState.Connecting; SessionState.Handshaking; SessionState.Idle; SessionState.Opening;
     SessionState.Active; SessionState.Draining; SessionState.Closing; SessionState.Poisoned].

Definition test_display_impls : bool :=
  forallb (fun p => bool_decide (display_state p.1 = p.2))
    [(SessionState.Connecting, "Connecting"); (SessionState.Handshaking, "Handshaking");
     (SessionState.Idle, "Idle"); (SessionState.Opening, "Opening"); (SessionState.Active, "Active");
     (SessionState.Draining, "Draining"); (SessionState.Closing, "Closing");
     (SessionState.Closed, "Closed"); (SessionState.Poisoned, "Poisoned")]%string
  && forallb (fun p => bool_decide (display_reason p.1 = p.2))
    [(CloseReason.ClientClose, "ClientClose"); (CloseReason.ClientInitiated, "ClientInitiated");
     (CloseReason.ServerClose, "ServerClose"); (CloseReason.ServerError, "ServerError");
     (CloseReason.IdleTimeout, "IdleTimeout"); (CloseReason.MaxAgeExceeded, "MaxAgeExceeded");
     (CloseReason.MaxRequestsExceeded, "MaxRequestsExceeded");
     (CloseReason.MaxRequestsReached, "MaxRequestsReached");
     (CloseReason.KeepaliveTimeout, "KeepaliveTimeout"); (CloseReason.ProtocolError, "ProtocolError");
     (CloseReason.VersionMismatch, "VersionMismatch"); (CloseReason.ShutdownDrain, "ShutdownDrain");
     (CloseReason.CheckoutFailed, "CheckoutFailed"); (CloseReason.Poisoned, "Poisoned")]%string.

Lemma lifecycle_tests_pass :
  test_valid_transitions && test_invalid_transitions && test_emergency_transitions && test_display_impls = true.
Proof. vm_compute. reflexivity. Qed.

(** ** negotiate.rs *)

Module negotiate_tests.
Import Negotiate.

#[local] Instance NegotiatedCapabilities_eq_dec : EqDecision NegotiatedCapabilities.
Proof. solve_decision. Defined.
#[local] Instance NegotiationError_eq_dec : EqDecision NegotiationError.
Proof. solve_decision. Defined.

(** [tokio::join!] of the two ends of one duplex stream: the server reads what the client sends
    first, the client what the server answered, and the client has sent what the server read. *)
Definition joined {E A E' A'} (client : prog duplex E A) (server : prog duplex E' A') (hello : Frame)
    : option (res E A * res E' A') :=
  let (rs, s) := server (open_with (wire hello)) in
  let (rc, c) := client (open_with (outgoing s)) in
  if decide (outgoing c = wire hello) then Some (rc, rs) else None.

Definition joined_agree (client_caps server_caps : Capabilities) (expected : NegotiatedCapabilities) : bool :=
  match joined (negotiate_client client_caps) (negotiate_server server_caps)
          (ClientHello PROTOCOL_VERSION (bits client_caps)) with
  | Some (client_result, server_result) => is_value client_result expected && is_value server_result expected
  | None => false
  end.

Definition test_successful_negotiation : bool :=
  joined_agree (new (Z.lor CAP_REUSE CAP_KEEPALIVE)) (new (Z.lor CAP_REUSE CAP_KEEPALIVE))
    (Negotiated true true PROTOCOL_VERSION).

Definition test_capability_downgrade : bool :=
  joined_agree (new (Z.lor CAP_REUSE CAP_KEEPALIVE)) (new CAP_REUSE)
    (Negotiated true false PROTOCOL_VERSION).

Definition test_version_mismatch : bool :=
  let server_task : prog duplex FrameError unit := write_frame (ClientHello (PROTOCOL_VERSION - 1) CAP_REUSE) in
  match joined (negotiate_client (new CAP_REUSE)) server_task (ClientHello PROTOCOL_VERSION CAP_REUSE) with
  | Some (client_result, _) =>
      is_err client_result (fun e => bool_decide (e = NegotiationError.VersionMismatch PROTOCOL_VERSION 0))
  | None => false
  end.

(** The server tasks that first read the client's hello. *)
Definition after_hello (answer : prog duplex FrameError unit) : prog duplex FrameError unit :=
  request ← read_frame;
  match request with ClientHello _ _ => answer | _ => panic end.

Definition test_server_rejection : bool :=
  match joined (negotiate_client (new CAP_REUSE)) (after_hello (write_frame (Close 127)))
          (ClientHello PROTOCOL_VERSION CAP_REUSE) with
  | Some (client_result, server_task) =>
      is_ok server_task && is_err client_result (fun e => bool_decide (e = NegotiationError.ServerRejected 127))
  | None => false
  end.

Definition test_server_rejects_incompatible_client_version : bool :=
  let hello := ClientHello (PROTOCOL_VERSION + 1) CAP_REUSE in
  let client_task : prog duplex FrameError Frame := (_ ← write_frame hello; read_frame) in
  match joined client_task (negotiate_server (new CAP_REUSE)) hello with
  | Some (close_frame, server_result) =>
      is_err server_result (fun e => bool_decide (e = NegotiationError.VersionMismatch 2 PROTOCOL_VERSION))
      && is_value close_frame (Close (reason_as_u8 CloseReason.VersionMismatch))
  | None => false
  end.

Definition test_fallback_to_one_shot_on_non_client_hello_response : bool :=
  let legacy : prog duplex FrameError unit :=
    prog_map_err FrameError.Io (write_all (byte_string "legacy trojan response")) in
  match joined (negotiate_client (new CAP_REUSE)) (after_hello legacy)
          (ClientHello PROTOCOL_VERSION CAP_REUSE) with
  | Some (client_result, server_task) =>
      is_ok server_task && is_err client_result (fun e => bool_decide (e = NegotiationError.NoResponse))
  | None => false
  end.

Definition test_fallback_tracker_warn_once : bool :=
  let tracker := warn_fallback "other.example.com:443"
    (warn_fallback "example.com:443" (warn_fallback "example.com:443" tracker_new)) in
  bool_decide (size (warned tracker) = 2%nat)
  && bool_decide ("example.com:443"%string ∈ warned tracker)
  && bool_decide ("other.example.com:443"%string ∈ warned tracker).
End negotiate_tests.

Lemma negotiate_tests_pass :
  negotiate_tests.test_successful_negotiation && negotiate_tests.test_capability_downgrade
  && negotiate_tests.test_version_mismatch && negotiate_tests.test_server_rejection
  && negotiate_tests.test_server_rejects_incompatible_client_version
  && negotiate_tests.test_fallback_to_one_shot_on_non_client_hello_response
  && negotiate_tests.test_fallback_tracker_warn_once = true.
Proof. vm_compute. reflexivity. Qed.

(** ** keepalive.rs *)

Module keepalive_tests.
Import Keepalive.

(** The random tokens the tests are run with. *)
Definition tokens : list Z := [0; 1; 305419896; 4294967295].

(** One ping against a server that answers its token with [answer], or not at all. *)
Definition pinged (token : Z) (answer : option Frame) : res KeepaliveError unit * option Frame :=
  let input := match answer with Some frame => wire frame | None => [] end in
  let (r, w) := ping token (Monitored (open_with input) []) in
  (r, match (read_frame (open_with (outgoing (stream w)))).1 with Ok f => Some f | _ => None end).

Definition test_keepalive_ping_pong_success : bool :=
  forallb (fun token =>
    let (r, sent) := pinged token (Some (Pong token)) in
    bool_decide (sent = Some (Ping token)) && is_ok r) tokens.

Definition test_keepalive_timeout : bool :=
  forallb (fun token => is_err (pinged token None).1 (fun e => bool_decide (e = KeepaliveError.Timeout))) tokens.

Definition test_keepalive_token_mismatch : bool :=
  forallb (fun token =>
    let (r, sent) := pinged token (Some (Pong (wrap 32 (token + 1)))) in
    bool_decide (sent = Some (Ping token))
    && is_err r (fun e => match e with KeepaliveError.TokenMismatch _ _ => true | _ => false end)) tokens.
End keepalive_tests.

Lemma keepalive_tests_pass :
  keepalive_tests.test_keepalive_ping_pong_success && keepalive_tests.test_keepalive_timeout
  && keepalive_tests.test_keepalive_token_mismatch = true.
Proof. vm_compute. reflexivity. Qed.

(** ** session_loop.rs *)

Definition test_config (max_requests : Z) : ReuseConfig := {|
  max_idle := 1;
  max_requests := max_requests;
  max_age := from_secs 60;
  idle_timeout := from_secs 60;
  keepalive_interval := from_secs 30;
  keepalive_timeout := from_secs 10;
  jitter_percent := 0;
|}.

(** [start_loop] and the frames the client writes; the client then reads what the loop wrote. *)
Definition start_loop (max_requests : Z) (written : list Frame) (hello : hello_event)
    (turns : list (turn duplex)) : duplex :=
  open_with (outgoing (stream (run_with_stream_and_first_frame (test_config max_requests)
    (open_with (concat (wire <$> written))) None 0 0 hello turns).2)).

Definition hello : Frame := ClientHello PROTOCOL_VERSION 0.

(** [start_target]: a local listener that reads until the end of its stream, then closes. *)
Definition target_addr : Addr := SocketAddress (V4 [127; 0; 0; 1] 8080).
Definition target_env (schedule : list relay_event) (shutdown_after : bool) : request_env duplex :=
  RequestEnv (fun a => if decide (a = target_addr) then Ok (open_with []) else Pending)
    schedule false shutdown_after 1.
Definition start_target : request_env duplex := target_env [SessionFrame; TargetRead 0 (Ok [])] false.

Definition open_request : Frame := OpenRequest 1 1 [127; 0; 0; 1] 8080.

Definition frame_turn (env : request_env duplex) : turn duplex := Turn false 1 (FrameReady 1 env).

(** The next frames the client reads. *)
Definition reads (client : duplex) (expected : list Frame) : bool :=
  is_value (read_frames (length expected) client).1 expected.

Definition handles_single_request : bool :=
  reads (start_loop 10 [hello; open_request; EndRequest END_REQUEST_OK] HelloFrame [frame_turn start_target])
    [EndRequest END_REQUEST_OK].

Definition handles_multiple_sequential_requests : bool :=
  reads (start_loop 10
      [hello; open_request; EndRequest END_REQUEST_OK; open_request; EndRequest END_REQUEST_OK]
      HelloFrame [frame_turn start_target; frame_turn start_target])
    [EndRequest END_REQUEST_OK; EndRequest END_REQUEST_OK].

Definition closes_when_max_requests_reached : bool :=
  reads (start_loop 1 [hello; open_request; EndRequest END_REQUEST_OK] HelloFrame [frame_turn start_target])
    [EndRequest END_REQUEST_OK; Close (close_reason_code CloseReason.MaxRequestsReached)].

Definition closes_on_version_mismatch : bool :=
  reads (start_loop 10 [ClientHello (PROTOCOL_VERSION + 1) 0] HelloFrame [])
    [Close (close_reason_code CloseReason.VersionMismatch)].

Definition resets_on_protocol_error : bool :=
  reads (start_loop 10 [hello; Data (byte_string "unexpected")] HelloFrame [frame_turn start_target])
    [Reset (close_reason_code CloseReason.ProtocolError)].

Definition gracefully_closes_when_client_requests_shutdown : bool :=
  reads (start_loop 10 [hello; Close (close_reason_code CloseReason.ClientInitiated)] HelloFrame
      [frame_turn start_target])
    [Close (close_reason_code CloseReason.ClientInitiated)].

(** The shutdown can come during the handshake, before the loop's turn or in it. *)
Definition test_shutdown_during_session_loop : bool :=
  forallb (fun run : hello_event * list (turn duplex) =>
      reads (start_loop 10 [hello] run.1 run.2) [Close (close_reason_code CloseReason.ShutdownDrain)])
    [(HelloShutdown 0 true, []); (HelloFrame, [Turn true 1 (ShutdownSignal 0 true)]);
     (HelloFrame, [Turn false 1 (ShutdownSignal 0 true)])].

(** The shutdown comes while the request is relayed, before or after its end. *)
Definition shutdown_after_request_drains_before_close : bool :=
  forallb (fun schedule =>
      reads (start_loop 10 [hello; open_request; EndRequest END_REQUEST_OK] HelloFrame
          [frame_turn (target_env schedule true)])
        [EndRequest END_REQUEST_OK; Close (close_reason_code CloseReason.ShutdownDrain)])
    [[SessionFrame; ShutdownChanged 0 true; TargetRead 0 (Ok [])];
     [ShutdownChanged 0 true; SessionFrame; TargetRead 0 (Ok [])];
     [SessionFrame; TargetRead 0 (Ok [])]].

Lemma session_loop_tests_pass :
  handles_single_request && handles_multiple_sequential_requests && closes_when_max_requests_reached
  && closes_on_version_mismatch && resets_on_protocol_error && gracefully_closes_when_client_requests_shutdown
  && test_shutdown_during_session_loop && shutdown_after_request_drains_before_close = true.
Proof. vm_compute. reflexivity. Qed.
