(* ===== verification/ClientTests.v ===== *)
(** * The repository's unit tests of the client, run on the model
      (the [tests] modules of shuttle/src/opt.rs and shuttle/src/client/pool.rs)

    As in [ProtocolTests], a test is [true] exactly when its assertions hold of the model. *)
From S2P Require Import Prelude.
From stdpp Require Import strings.
From S2P Require Import Time Stream Lifecycle Opt.
From S2P Require Trojan Program Pool.
Open Scope Z_scope.

(** ** opt.rs *)

Definition valid_reuse_config : res string ReuseConfig := reuse_config_new 4 100 1800 300 30 10 10 true.

Definition test_valid_reuse_config : bool :=
  match valid_reuse_config with
  | Ok cfg =>
      (max_idle cfg =? 4) && (max_requests cfg =? 100) && (max_age cfg =? from_secs 1800)
      && (idle_timeout cfg =? from_secs 300) && (keepalive_interval cfg =? from_secs 30)
      && (keepalive_timeout cfg =? from_secs 10) && (jitter_percent cfg =? 10)
  | _ => false
  end.

(** [result.unwrap_err() == message]. *)
Definition fails_with {A} (result : res string A) (message : string) : bool :=
  match result with Err e => bool_decide (e = message) | _ => false end.

Definition test_reuse_config_zero_max_idle : bool :=
  fails_with (reuse_config_new 0 100 1800 300 30 10 10 true) "reuse-max-idle must be greater than 0".

Definition test_reuse_config_zero_max_requests : bool :=
  fails_with (reuse_config_new 4 0 1800 300 30 10 10 true) "reuse-max-requests must be greater than 0".

Definition test_reuse_config_zero_max_age : bool :=
  fails_with (reuse_config_new 4 100 0 300 30 10 10 true) "reuse-max-age must be greater than 0".

Definition test_reuse_config_zero_idle_timeout : bool :=
  fails_with (reuse_config_new 4 100 1800 0 30 10 10 true) "reuse-idle-timeout must be greater than 0".

Definition test_reuse_config_zero_keepalive_interval : bool :=
  fails_with (reuse_config_new 4 100 1800 300 0 10 10 true) "keepalive-interval must be greater than 0".

Definition test_reuse_config_zero_keepalive_timeout : bool :=
  fails_with (reuse_config_new 4 100 1800 300 30 0 10 true) "keepalive-timeout must be greater than 0".

Definition test_reuse_config_keepalive_timeout_gte_interval : bool :=
  fails_with (reuse_config_new 4 100 1800 300 30 30 10 true)
    "keepalive-timeout must be less than keepalive-interval".

Definition test_reuse_config_idle_timeout_gte_max_age : bool :=
  fails_with (reuse_config_new 4 100 300 300 30 10 10 true) "reuse-idle-timeout must be less than reuse-max-age".

Definition test_reuse_config_jitter_over_100 : bool :=
  fails_with (reuse_config_new 4 100 1800 300 30 10 101 true) "reuse-jitter-percent must be between 0 and 100".

(** The options of the three tests below, which differ in [reuse] and [keepalive_timeout]. *)
Definition test_opt (reuse : bool) (keepalive_timeout : Z) : Program.ClientOpt := {|
  Program.listen_addr := Trojan.V4 [127; 0; 0; 1] 8080;
  Program.remote_addr := "example.com:443";
  Program.server_name := "example.com";
  Program.key := byte_string "test_key_32_bytes_long_xxxx";
  Program.preflight := (0, Some 0);
  Program.tls_ja3 := None;
  Program.tls_alpn := None;
  Program.tls_sigalgos := None;
  Program.tls_versions := None;
  Program.tls_keyshare := None;
  Program.session_opt := {|
    reuse := reuse;
    reuse_max_idle := 4;
    reuse_max_requests := 100;
    reuse_max_age := 1800;
    reuse_idle_timeout := 300;
    opt_keepalive_interval := 30;
    opt_keepalive_timeout := keepalive_timeout;
    reuse_jitter_percent := 10 |};
|}.

Definition test_cltopt_reuse_config_disabled : bool :=
  match reuse_config (Program.session_opt (test_opt false 10)) with Ok None => true | _ => false end.

Definition test_cltopt_reuse_config_enabled_valid : bool :=
  match reuse_config (Program.session_opt (test_opt true 10)) with
  | Ok (Some cfg) => (max_idle cfg =? 4) && (max_requests cfg =? 100)
  | _ => false
  end.

Definition test_cltopt_reuse_config_enabled_invalid : bool :=
  fails_with (reuse_config (Program.session_opt (test_opt true 30)))
    "keepalive-timeout must be less than keepalive-interval".

Lemma opt_tests_pass :
  test_valid_reuse_config && test_reuse_config_zero_max_idle && test_reuse_config_zero_max_requests
  && test_reuse_config_zero_max_age && test_reuse_config_zero_idle_timeout
  && test_reuse_config_zero_keepalive_interval && test_reuse_config_zero_keepalive_timeout
  && test_reuse_config_keepalive_timeout_gte_interval && test_reuse_config_idle_timeout_gte_max_age
  && test_reuse_config_jitter_over_100 && test_cltopt_reuse_config_disabled
  && test_cltopt_reuse_config_enabled_valid && test_cltopt_reuse_config_enabled_invalid = true.
Proof. vm_compute. reflexivity. Qed.

(** ** pool.rs *)

Module pool_tests.
Import Pool.
Abbreviation P := (SessionPool duplex).

(** [config]; the tests that say so change one field. *)
Definition config (max_idle max_requests : Z) (max_age : Duration) : ReuseConfig := {|
  Opt.max_idle := max_idle;
  Opt.max_requests := max_requests;
  Opt.max_age := max_age;
  Opt.idle_timeout := from_secs 30;
  Opt.keepalive_interval := from_secs 10;
  Opt.keepalive_timeout := from_secs 5;
  Opt.jitter_percent := 0;
|}.
Definition plain_config : ReuseConfig := config 1 3 (from_secs 60).

(** [MockConnector]: it always connects; a blocking one is released at [release], if ever. *)
Definition connected : res io_error duplex := Ok (open_with []).
(** [connector.connect_count()]: every checkout that misses connects once. *)
Definition connect_count (p : P) : nat := length (filter (fun e => e = SessionEvent.PoolMiss) (log p)).

Definition checkout_at (cfg : ReuseConfig) (now : Instant) : prog P string (PooledSession duplex) :=
  checkout cfg now now connected id id.

(** A test that runs to its end, and what it asserts of the result and the pool. *)
Definition passes {A} (test : prog P string A) (assertions : A -> P -> bool) : bool :=
  match test (pool_new false) with (Ok a, p) => assertions a p | _ => false end.

Definition test_pool_miss_empty_pool : bool :=
  passes (checkout_at plain_config 0) (fun session p =>
    (use_count session =? 1) && (session_reuse_count session =? 0) && bool_decide (connect_count p = 1%nat)).

Definition test_pool_hit_idle_available : bool :=
  passes (session ← checkout_at plain_config 0;
          _ ← return_session plain_config session true 0;
          checkout_at plain_config 0)
    (fun session p =>
      bool_decide (connect_count p = 1%nat) && (use_count session =? 2) && (session_reuse_count session =? 1)).

Definition test_eviction_when_full : bool :=
  let cfg := config 1 3 (from_secs 60) in
  passes (first ← checkout_at cfg 0;
          second ← checkout_at cfg 0;
          _ ← return_session cfg first true 0;
          _ ← return_session cfg second true 0;
          checkout_at cfg 0)
    (fun session p => bool_decide (connect_count p = 2%nat) && (use_count session =? 2)).

Definition test_max_requests_eviction : bool :=
  let cfg := config 1 1 (from_secs 60) in
  passes (session ← checkout_at cfg 0;
          _ ← return_session cfg session true 0;
          checkout_at cfg 0)
    (fun session p => bool_decide (connect_count p = 2%nat) && (use_count session =? 1)).

Definition test_max_age_eviction : bool :=
  let millisecond := 1000000 in
  let cfg := config 1 3 millisecond in
  passes (session ← checkout_at cfg 0;
          _ ← return_session cfg session true (5 * millisecond);
          checkout_at cfg (5 * millisecond))
    (fun session p => bool_decide (connect_count p = 2%nat) && (use_count session =? 1)).

Definition test_pre_payload_retry : bool :=
  passes (handle ← checkout_with_retry plain_config 0 0 connected id id;
          retry_after_protocol_error plain_config handle "protocol error before payload" 0 0 connected id id)
    (fun handle p => bool_decide (connect_count p = 2%nat) && bool_decide (is_Some (session_of handle))).

(** The connection is never released: the aborted checkout is a call that does not complete. *)
Definition test_cancellation_safe_checkout : bool :=
  match checkout plain_config 0 0 Pending id id (pool_new (St:=duplex) false) with
  | (Pending, p) => (checked_out (inner p) =? 0) && bool_decide (length (idle (inner p)) = 0%nat)
  | _ => false
  end.

(** [close_all] is where its test of the counter has left it. *)
Definition test_drain_waits_for_checked_out : bool :=
  match checkout_at plain_config 0 (pool_new false) with
  | (Ok session, p) =>
      let (p, n) := close_begin p in
      bool_decide (after_count n Testing <> Drained)
      && match return_session plain_config session true 0 p with
         | (Ok _, p) =>
             bool_decide (after_count (checked_out (inner p)) Registering = Drained)
             && (checked_out (inner p) =? 0)
         | _ => false
         end
  | _ => false
  end.

Definition test_checkout_after_close_returns_error : bool :=
  let (p, n) := close_begin (pool_new (St:=duplex) false) in
  bool_decide (after_count n Testing = Drained)
  && match checkout_at plain_config 0 p with (Err _, _) => true | _ => false end.

(** The shutdown is signalled while the checkout connects. *)
Definition test_shutdown_during_checkout : bool :=
  let signal (p : P) : P :=
    {| inner := inner p; shutdown := true; log := log p; notified := notified p |} in
  match checkout plain_config 0 0 connected id signal (pool_new false) with
  | (Err _, p) => checked_out (inner p) =? 0
  | _ => false
  end.

Definition test_eviction_no_race_with_checkout : bool :=
  let cfg := config 1 3 (from_secs 60) in
  passes (first ← checkout_at cfg 0;
          second ← checkout_at cfg 0;
          _ ← return_session cfg first true 0;
          p ← get;
          _ ← return_session cfg second true 0;
          mret (length (idle (inner p))))
    (fun idle_len p =>
      bool_decide (idle_len = 1%nat) && (checked_out (inner p) =? 0)
      && bool_decide (length (idle (inner p)) = 1%nat)).
End pool_tests.

Lemma pool_tests_pass :
  pool_tests.test_pool_miss_empty_pool && pool_tests.test_pool_hit_idle_available
  && pool_tests.test_eviction_when_full && pool_tests.test_max_requests_eviction
  && pool_tests.test_max_age_eviction && pool_tests.test_pre_payload_retry
  && pool_tests.test_cancellation_safe_checkout && pool_tests.test_drain_waits_for_checked_out
  && pool_tests.test_checkout_after_close_returns_error && pool_tests.test_shutdown_during_checkout
  && pool_tests.test_eviction_no_race_with_checkout = true.
Proof. vm_compute. reflexivity. Qed.
